(* ===== verification/_CoqProject ===== *)
-Q . S2P
Prelude.v
GoErrors.v
GoStrings.v
Csv.v
Dates.v
Payloads.v
Worlds.v
Limiter.v
Contract.v
Scheduling.v
Admission.v
ProxyStore.v
ProxyStoreFacts.v
ProxyClaims.v
ScanWorker.v
ScanWorkerFacts.v
Guard.v
Hub.v
HubFacts.v
Queue.v
QueueFacts.v
QueueSession.v
QueueSessionFacts.v
QueueConsumers.v
Discovery.v
Snapshot.v
CharacterStore.v
CharacterStoreFacts.v
EventWorker.v
StatsStore.v
StatsStoreFacts.v
StatsRefresh.v
StatsWindow.v
StatsService.v
StatsServiceFacts.v
Publish.v
PublishFacts.v
LodestonePage.v
LodestonePageFacts.v
Census.v
Lodestone.v
LodestoneFacts.v
Dial.v
DialFacts.v
Checks.v
Reports.v
ReportsFacts.v
Api.v
Export.v
HttpClient.v
HttpClientFacts.v
Providers.v
ProvidersFacts.v
Discover.v
ListFormats.v
UiFormat.v
UiPages.v
UiFacts.v
UiCharacters.v
Config.v
Metrics.v
MetricsFacts.v
Middleware.v
Router.v
RouterFacts.v
Container.v
Consume.v
Rows.v
Commands.v
CommandsFacts.v
CensusFacts.v
Deletions.v
CensusResults.v
FakeProxies.v
FakeProxiesFacts.v
Proxytest.v
Server.v
Logging.v
Wiring.v
CensusSweep.v
