(* ===== verification/Prelude.v ===== *)
(** * ffxiv-census: a verification library

    ffxiv-census takes a census of the characters of a game by reading their
    public pages (the Lodestone) through a pool of HTTP proxies.  A publisher
    puts ranges of character ids on a RabbitMQ queue; workers take the jobs,
    fetch pages, directly or through a proxy, store what they find in PostgreSQL
    and chain follow-up jobs; proxies are discovered from public lists and a
    scan worker keeps the evidence of their health current; a refresh computes
    the statistics that the web pages and the REST API show.

    ** The parts and where they are modelled

    Foundations.
    - [Prelude]: machine integers, the state monad [ST], tactics and shared
      list lemmas.  [GoErrors]: error values, [errors.Is]/[errors.As],
      [WrapProxyDial] and the driver faults below.  [GoStrings], [Csv], [Dates]:
      what the code uses of [strings], [encoding/csv] and [time].
    - [Contract]: the records and enumerations of [port/contract].
      [Payloads]: queue jobs, the census payloads and their JSON
      ([domain/census/handler/event.go], [idsweep.go]).

    Proxies.
    - [Scheduling] is [domain/proxy/scheduling.go]: recovery ladder,
      classification of a check, the update a check persists.  [Admission] is
      [worker/admission.go]: how executor slots are reserved per queue.
      [ScanWorker] is [worker/scan.go]: the dispatcher's state ([dispatcher]),
      one definition per method, and the step relation [scan_step] in which
      dispatcher and executors interleave; [ScanWorkerFacts] has its theorems.
      [Guard] is the endpoint guard ([infrastructure/proxy/guard.go]), [Limiter]
      the provider rate limiters ([infrastructure/provider]).
    - [ProxyStore] is [infrastructure/postgres/repository/proxy.go] and
      [proxy_scan.go]: the table is a finite map ([ProxyDB]), each method is a
      function on it.  [ProxyStoreFacts] collects the writes in [store_op] and
      proves invariants over any sequence of them; [ProxyClaims] proves what the
      claims and completions do.  [FakeProxies] is the in-memory repository of
      the tests ([mock/repository/proxy.go]), and [FakeProxiesFacts] compares it
      with the table.
    - [Hub] is [domain/proxy/hub.go], [proxy.go] and the proxy-mode worker of
      [domain/census/worker/worker.go], written against the class [ConsumerEnv];
      [HubFacts] proves its theorems from the laws of a pool ([PoolLaws]) and
      shows that the proxy table obeys them ([PoolWorld_laws]).
    - [Dial] and [DialFacts] are [infrastructure/httpclient/proxy_transport.go]:
      transports, the CONNECT and SOCKS4 handshakes and the target's TLS
      handshake, with the life of the connection.  [Proxytest] has the local
      proxies of [httpclient/proxytest] and puts the dial functions in front of
      them.  [Checks] is [infrastructure/proxy/checker.go] and [health.go].
    - [HttpClient], [HttpClientFacts]: the clients of [infrastructure/httpclient].
      [Providers], [ProvidersFacts], [ListFormats]: the four providers of proxy
      lists and the two formats they read.  [Discover] is the discovery
      run of [cmd/cli/proxy.go], [Discovery] the ingestion of what it publishes
      ([domain/proxy/service.go], [handler/new_proxy.go], [worker/worker.go]).

    Queue and workers.
    - [Queue] and [QueueFacts] are [infrastructure/rabbitmq/queue.go]: names,
      headers, the retry ladder, confirmed publishing, what is done with one
      delivery.  [QueueSession] and [QueueSessionFacts] are its sessions and the
      topology they declare, [QueueConsumers] the consumers with their
      forwarding goroutines, shutdown and lost channels as step relations.
    - [EventWorker] is the worker without proxies and the handler registry.

    Census.
    - [CharacterStore] is [infrastructure/postgres/repository/character.go] and
      [achievement.go]; [CharacterStoreFacts] collects the writes in [census_op];
      [Reports] and [ReportsFacts] are its reads.  [Rows] relates the records of
      both stores to table rows ([repository/scan.go]) and has the driver.
    - [LodestonePage], [LodestonePageFacts], [Lodestone], [LodestoneFacts]: the
      scraping and the requests of [infrastructure/lodestone/client.go].
    - [Census] is [domain/census/service.go], [milestone.go] and the three
      handlers of [domain/census/handler]; [CensusFacts] proves what every run
      preserves, [CensusResults] what a run achieves, [Deletions] when a
      character is marked deleted, [CensusSweep] puts publisher, worker, handler,
      store and queue together, with everything failing.  [Worlds] is [worlds.go] and [region.go].
    - [Publish] and [PublishFacts] are the sweeps of [cmd/cli/publish.go];
      [Commands] and [CommandsFacts] the commands around them, with the
      migration of the legacy queue and the refresh; [Consume] the consume
      commands and the construction of the Lodestone client.

    Statistics, pages and API.
    - [Snapshot], [StatsStore], [StatsStoreFacts], [StatsRefresh], [StatsWindow]
      are [domain/census/ui_stats.go] and [repository/ui_stats.go]; [StatsService]
      and [StatsServiceFacts] the cache of [ui_stats_service.go] as a step
      relation of concurrent requests.
    - [UiFormat], [UiPages], [UiFacts], [UiCharacters]: the handlers of
      [cmd/http/ui], from the query to the data of the template.  [Api] and
      [Export]: the REST endpoints and both bulk exports.
    - [Middleware], [Router], [RouterFacts]: [cmd/http/middleware], the routes
      and the probes, composed as [cmd/http/server.go] composes them.  [Server]:
      the life of the server from its start to its shutdown, as a step relation.
    - [Metrics], [MetricsFacts]: [infrastructure/metrics].  [Config]:
      [config/config.go] and the settings [container] derives from it.
      [Container]: the accessors of [container] with their mutex.  [Logging]:
      [infrastructure/logging].  [Wiring]: the census runs, the refresh command,
      the rendering of pages and other edges.

    ** What the theorems show

    - The proxy table keeps its invariant under every interleaving; a scan
      lease is completed at most once; a consumer lock excludes others for its
      TTL; an observation version identifies the evidence; claims take the rows
      the SQL order puts first; cooldowns only grow and are respected.  The
      in-memory repository of the tests gives the same answers and keeps the same
      rows, call by call, apart from inputs that are named.
    - The scan worker never exceeds its concurrency and neither drops nor
      doubles a lease in any reachable state; an admission pass makes progress;
      shutdown returns every lease; a failure is persisted only while the
      endpoint was up; validated settings keep the scheduler sound.
    - A consumer worker holds at most one proxy and leaves none locked, and
      blames a proxy only for conclusive failures; checks and dials attribute
      each failure to the proxy, the target or the process, and leak no
      connection; a dial reaches the address it asked its proxy for.
    - A discovered proxy is published, delivered and stored, through whichever
      provider and HTTP client; the rotating client hands a stream to its consumer
      at most once.
    - The queue acknowledges a delivery only when a durable copy exists; a
      session is opened completely or leaves nothing open; the consumers lose no
      delivery in any interleaving; follow-up jobs are published before their
      cause is acknowledged; the migration of the legacy queue loses no job.
    - Sweeps cover their ranges exactly once at 32-bit width, the daemon skips
      no id, the gap sweep resumes where it stopped; a sweep stores exactly the
      censusable characters; an achievement census records exactly the new
      milestones; no handler loses history; only an answer of the site itself
      marks a character deleted.
    - A refresh publishes what the tables hold and a window counts its
      characters; the cache has at most one load in flight and leaves no request
      waiting on it for ever; the world page lists every world once; exports are
      readable and equal to the pages of the API.
    - Outside development the API and the data of characters are reachable only
      with the token; the server stops only after a signal, with every accepted
      request answered, and can always stop; the accessors of the container
      neither deadlock nor build a part twice; histograms count their samples;
      rows are read back as they were written; a log call writes one line.
    - Some lemmas state behaviour that differs from the repository's comments or
      documents, or that the code cannot want; the manifest lists them as
      findings with the lemma that shows each.

    ** Modelling choices

    - Each statement of a repository takes a [fault]: [NoFault], [Refused] (an
      error and no effect) or [LostReply] (the effect and an error).  Invariants
      hold for all of them; results are stated for [NoFault].
    - Concurrency between processes is the order of statements: theorems
      quantify over any sequence of [store_op]s, or over what other processes do
      before each call of the modelled one.  Rows locked by others
      ([SKIP LOCKED]) are an arbitrary set.  Goroutines are step relations.
    - Times and durations are nanoseconds in [Z]; database time is an argument
      and is not assumed to agree with the clock of a worker.  The stores keep
      times exactly; [Rows] says what a column keeps of them.  Integers with a
      width are wrapped where the code can leave the width.
    - Floats that are computed with (percentages, metrics, rates) are IEEE doubles
      ([SpecFloat]); those that are only stored or compared are [Z].
    - Code outside the repository is a class, a parameter or an environment
      answer: the AMQP broker ([Broker], with the documented meaning of publisher
      confirms), the network, TLS and SOCKS5 libraries, [http.Client.Do],
      [url.Parse], [path.Clean], the JSON lexer and encoder, the HTML tree parser,
      float parsing and printing, [time.ParseDuration], the TOML reader, SQL
      collation, case folding and [TO_CHAR], the arrangement of tied rows by
      [sort.Slice] and by the database.
    - Error texts are the static part of their format string.  [Logging] has what
      a log call writes; the calls themselves are modelled only in the scan worker
      and the access log.

    ** Recursion and fuel

    Loops bounded by the code are structural or have a counter computed from
    the range or the length of the text; [buildIDSweepJobs] and the sweep handler
    use one and are proved to return a result for every 32-bit range.  The
    admission loops of the scan worker have fuel that [admit_progress] proves
    sufficient, the page loop of a provider a bound [geonode_terminates] proves,
    the stripping of [bearer] prefixes one [strip_bearer_carries] proves.  Only the
    wait for a proxy, which the code leaves unbounded, has fuel of its own: it
    stands for the number of attempts made so far, and its theorems hold for
    every value.

    ** Not modelled

    HTML and XML templates, static files, the generated API documentation
    ([cmd/http/resource/swagger]), sockets and the profiling server, and schema
    migrations (SQL files run by a library) are input and output or glue over
    libraries.  The other test doubles of [mock] have no behaviour of the program.
    The accessors of [container] are modelled one call after another: the first
    calls of those that take no lock may overlap, and may then build a part
    twice (the proxy consumer avoids it, [prewarmed_handlers]). *)

From Stdlib Require Export ZArith Lia.
From stdpp Require Export base tactics decidable numbers list gmap strings sorting option.
From coqutil Require Export Datatypes.RecordSetters.
Export DoubleBraceUpdate.

Declare Scope census_scope.
Delimit Scope census_scope with census.
Open Scope census_scope.
Open Scope Z_scope.

(** The setters of [RecordSetters] leave a [constant] wrapper; it always
    reduces. *)
Arguments constant {E} newValue _ /.

(** ** Machine integers

    Go's [uint32], [int32] and [int64]/[int]/[time.Duration] are kept as [Z] in the
    range of the type; every operation that can leave the range is wrapped
    explicitly. *)
Definition max_uint32 : Z := 4294967295.
Definition max_int64 : Z := 9223372036854775807.
Definition min_int64 : Z := -9223372036854775808.

Definition u8 (z : Z) : Z := z mod 256.
Definition u32 (z : Z) : Z := z mod 4294967296.
Definition i32 (z : Z) : Z := (z + 2147483648) mod 4294967296 - 2147483648.
Definition u64 (z : Z) : Z := z mod 18446744073709551616.
Definition i64 (z : Z) : Z := (z + 9223372036854775808) mod 18446744073709551616 - 9223372036854775808.

Definition is_u32 (z : Z) : Prop := 0 <= z <= max_uint32.
Definition is_i64 (z : Z) : Prop := min_int64 <= z <= max_int64.

Global Instance is_u32_dec z : Decision (is_u32 z).
Proof. unfold is_u32. apply _. Defined.
Global Instance is_i64_dec z : Decision (is_i64 z).
Proof. unfold is_i64. apply _. Defined.

Lemma u32_id z : is_u32 z -> u32 z = z.
Proof. unfold is_u32, max_uint32, u32. intros. apply Z.mod_small. lia. Qed.

Lemma u32_range z : is_u32 (u32 z).
Proof. unfold is_u32, max_uint32, u32. pose proof (Z.mod_pos_bound z 4294967296). lia. Qed.

Lemma u32_wrap z : max_uint32 < z <= 2 * max_uint32 + 1 -> u32 z = z - 4294967296.
Proof.
  unfold max_uint32, u32. intros.
  symmetry. apply Z.mod_unique with (q := 1); lia.
Qed.

Lemma i64_id z : is_i64 z -> i64 z = z.
Proof. unfold is_i64, min_int64, max_int64, i64. intros. rewrite Z.mod_small; lia. Qed.

Lemma i64_range z : is_i64 (i64 z).
Proof.
  unfold is_i64, min_int64, max_int64, i64.
  pose proof (Z.mod_pos_bound (z + 9223372036854775808) 18446744073709551616). lia.
Qed.

Lemma i32_id z : -2147483648 <= z <= 2147483647 -> i32 z = z.
Proof. unfold i32. intros. rewrite Z.mod_small; lia. Qed.

(** ** Time

    [time.Time] is an instant in nanoseconds since the Unix epoch; the zero
    [time.Time] is 1 January of year 1 UTC.  [time.Duration] is an [int64]
    number of nanoseconds, and [Time.Sub] saturates instead of wrapping. *)
Definition nanosecond : Z := 1.
Definition millisecond : Z := 1000000.
Definition second : Z := 1000000000.
Definition minute : Z := 60 * second.
Definition hour : Z := 60 * minute.
Definition day : Z := 24 * hour.
Definition zero_time : Z := -62135596800 * second.
Definition is_zero_time (t : Z) : bool := t =? zero_time.
Definition time_sub (a b : Z) : Z := Z.max min_int64 (Z.min max_int64 (a - b)).
Definition time_add (t d : Z) : Z := t + d.
(** A TIMESTAMPTZ column keeps microseconds. *)
Definition timestamptz (t : Z) : Z := t / 1000 * 1000.

(** A time after the first microsecond of year 1 is not read back as zero. *)
Lemma timestamptz_nonzero t : zero_time + 1000 <= t -> timestamptz t <> zero_time.
Proof.
  unfold timestamptz. replace zero_time with (-62135596800000000 * 1000) by reflexivity. intros H.
  pose proof (Z.div_mod t 1000 ltac:(lia)). pose proof (Z.mod_pos_bound t 1000 ltac:(lia)). lia.
Qed.
Lemma time_sub_exact a b : is_i64 (a - b) -> time_sub a b = a - b.
Proof. unfold is_i64, time_sub. lia. Qed.

(** ** Effects

    Code that threads a mutable world through its calls is a state
    computation; [x ← m; k] is stdpp's monadic bind. *)
Definition ST (W A : Type) : Type := W -> W * A.
Global Instance ST_ret W : MRet (ST W) := fun A a w => (w, a).
Global Instance ST_bind W : MBind (ST W) := fun A B f m w => let '(w', a) := m w in f a w'.

Lemma ST_bind_eq {W A B} (m : ST W A) (f : A -> ST W B) w : (m ≫= f) w = f (m w).2 (m w).1.
Proof. unfold mbind, ST_bind. by destruct (m w). Qed.

(** ** Tactics *)

(** Case analysis on every boolean comparison of the goal and of the
    hypotheses, keeping the arithmetic fact. *)
Ltac zbool_step :=
  match goal with
  | |- context [Z.ltb ?a ?b] => destruct (Z.ltb_spec a b)
  | |- context [Z.leb ?a ?b] => destruct (Z.leb_spec a b)
  | |- context [Z.eqb ?a ?b] => destruct (Z.eqb_spec a b)
  | |- context [Z.gtb ?a ?b] => rewrite (Z.gtb_ltb a b)
  | |- context [Z.geb ?a ?b] => rewrite (Z.geb_leb a b)
  | H : context [Z.ltb ?a ?b] |- _ => destruct (Z.ltb_spec a b)
  | H : context [Z.leb ?a ?b] |- _ => destruct (Z.leb_spec a b)
  | H : context [Z.eqb ?a ?b] |- _ => destruct (Z.eqb_spec a b)
  | H : context [Z.gtb ?a ?b] |- _ => rewrite (Z.gtb_ltb a b) in H
  | H : context [Z.geb ?a ?b] |- _ => rewrite (Z.geb_leb a b) in H
  end.
Ltac zbool := repeat (zbool_step; simpl in * ).

(** Same, then arithmetic or congruence. *)
Ltac zcrush := zbool; try lia; try congruence; try done.

(** Split the result of a boolean conjunction or disjunction in a
    hypothesis into facts. *)
Ltac bsplit :=
  repeat match goal with
  | H : _ && _ = true |- _ => apply andb_true_iff in H; destruct H
  | H : _ || _ = false |- _ => apply orb_false_iff in H; destruct H
  | H : negb _ = true |- _ => apply negb_true_iff in H
  | H : negb _ = false |- _ => apply negb_false_iff in H
  | H : bool_decide _ = true |- _ => apply bool_decide_eq_true_1 in H
  | H : bool_decide _ = false |- _ => apply bool_decide_eq_false_1 in H
  | H : Z.ltb _ _ = true |- _ => apply Z.ltb_lt in H
  | H : Z.ltb _ _ = false |- _ => apply Z.ltb_ge in H
  | H : Z.leb _ _ = true |- _ => apply Z.leb_le in H
  | H : Z.leb _ _ = false |- _ => apply Z.leb_gt in H
  | H : Z.eqb _ _ = true |- _ => apply Z.eqb_eq in H
  | H : Z.eqb _ _ = false |- _ => apply Z.eqb_neq in H
  end.

(** Destruct the scrutinee of the innermost [match] of the goal. *)
Ltac dmatch :=
  match goal with
  | |- context [match ?x with _ => _ end] =>
      lazymatch x with
      | context [match _ with _ => _ end] => fail
      | _ => destruct x eqn:?
      end
  end.
Ltac dmatch_in H :=
  match type of H with
  | context [match ?x with _ => _ end] =>
      lazymatch x with
      | context [match _ with _ => _ end] => fail
      | _ => destruct x eqn:?
      end
  end.

(** ** Hint databases *)

(** [census] holds the lemmas that close the common side conditions. *)
Create HintDb census.
#[export] Hint Resolve u32_range i64_range : census.
#[export] Hint Extern 5 (_ <= _) => lia : census.
#[export] Hint Extern 5 (_ < _) => lia : census.
Create Rewrite HintDb machine.
#[export] Hint Rewrite u32_id i64_id time_sub_exact using (unfold is_u32, is_i64, max_uint32, max_int64, min_int64 in *; lia) : machine.

(** ** Lists *)

Definition sumZ (l : list Z) : Z := foldr Z.add 0 l.

Lemma sumZ_cons x l : sumZ (x :: l) = x + sumZ l.
Proof. done. Qed.
Lemma sumZ_app l1 l2 : sumZ (l1 ++ l2) = sumZ l1 + sumZ l2.
Proof. unfold sumZ. induction l1; simpl; lia. Qed.

Section Filters.
  Context {A : Type} (P Q : A -> Prop) `{HP : forall x, Decision (P x)} `{HQ : forall x, Decision (Q x)}.
  Implicit Type l : list A.

Lemma filter_ext_in l : (forall x, x ∈ l -> P x <-> Q x) -> filter P l = filter Q l.
  Proof.
    induction l as [|x l IH]; intros Hl; [done|]. rewrite !filter_cons.
    assert (Hx := Hl x (list_elem_of_here _ _)).
    rewrite IH by (intros; apply Hl; by apply list_elem_of_further).
    repeat case_decide; tauto.
  Qed.
Lemma filter_all l : (forall x, x ∈ l -> P x) -> filter P l = l.
  Proof.
    induction l as [|x l IH]; intros Hl; [done|].
    rewrite filter_cons, decide_True by (apply Hl; apply list_elem_of_here).
    f_equal. apply IH. intros. apply Hl. by apply list_elem_of_further.
  Qed.
Lemma filter_none l : (forall x, x ∈ l -> ~ P x) -> filter P l = [].
  Proof.
    induction l as [|x l IH]; intros Hl; [done|].
    rewrite filter_cons, decide_False by (apply Hl; apply list_elem_of_here).
    apply IH. intros. apply Hl. by apply list_elem_of_further.
  Qed.
End Filters.

(** The integers [lo], [lo]+1, ..., [hi] (empty when [hi < lo]). *)
Definition zrange (lo hi : Z) : list Z := seqZ lo (hi - lo + 1).

Lemma elem_of_zrange lo hi z : z ∈ zrange lo hi <-> lo <= z <= hi.
Proof. unfold zrange. rewrite elem_of_seqZ. lia. Qed.

Lemma zrange_empty lo hi : hi < lo -> zrange lo hi = [].
Proof. intros. apply seqZ_nil. lia. Qed.

Lemma zrange_split lo mid hi :
  lo <= mid + 1 -> mid <= hi -> zrange lo hi = zrange lo mid ++ zrange (mid + 1) hi.
Proof.
  intros. unfold zrange.
  replace (hi - lo + 1) with ((mid - lo + 1) + (hi - (mid + 1) + 1)) by lia.
  rewrite seqZ_app by lia.
  do 2 f_equal. lia.
Qed.

Lemma zrange_cons lo hi : lo <= hi -> zrange lo hi = lo :: zrange (lo + 1) hi.
Proof.
  intros. unfold zrange. rewrite seqZ_cons by lia.
  f_equal. f_equal; unfold Z.succ, Z.pred; lia.
Qed.

Lemma NoDup_zrange lo hi : NoDup (zrange lo hi).
Proof. apply NoDup_seqZ. Qed.

Lemma length_zrange lo hi : lo <= hi + 1 -> Z.of_nat (length (zrange lo hi)) = hi - lo + 1.
Proof. intros. unfold zrange. rewrite length_seqZ. lia. Qed.

#[export] Hint Resolve NoDup_zrange : census.

Lemma fmap_bind_list {A B C} (f : B -> C) (g : A -> list B) l : f <$> (l ≫= g) = l ≫= (fun x => f <$> g x).
Proof. induction l as [|x l IH]; [done|]. cbn. rewrite fmap_app. by f_equal. Qed.

(** Keys of the elements a partial function keeps. *)
Section OmapKeys.
Context {A B K L : Type} (f : A -> option B) (ka : A -> K) (kb : B -> L).

Lemma NoDup_omap_keys l :
  (forall x y a b, x ∈ l -> y ∈ l -> f x = Some a -> f y = Some b -> kb a = kb b -> ka x = ka y) ->
  NoDup (ka <$> l) -> NoDup (kb <$> omap f l).
Proof.
  induction l as [|x l IH]; intros Hinj Hnd; [constructor|]. cbn in Hnd |- *. apply list.NoDup_cons in Hnd as [Hx Hnd].
  assert (Hl : NoDup (kb <$> omap f l)).
  { apply IH; [|done]. intros; eapply Hinj; eauto using list_elem_of_further. }
  destruct (f x) as [a|] eqn:Ha; [|done]. cbn. apply list.NoDup_cons. split; [|done].
  intros Hin. apply list_elem_of_fmap in Hin as (b & Hk & Hb). apply list_elem_of_omap in Hb as (y & Hy & Hfy).
  apply Hx. apply list_elem_of_fmap. exists y. split; [|done].
  apply (Hinj x y a b); auto using list_elem_of_here, list_elem_of_further.
Qed.
Lemma NoDup_omap_clash l x y a b : x ∈ l -> y ∈ l -> x <> y -> f x = Some a -> f y = Some b -> kb a = kb b ->
  ~ NoDup (kb <$> omap f l).
Proof.
  intros Hx Hy Hne Ha Hb Hk. induction l as [|z l IH]; [by apply elem_of_nil in Hx|]. cbn. intros Hnd.
  assert (Hrest : NoDup (kb <$> omap f l)) by (destruct (f z); [by apply list.NoDup_cons in Hnd as [_ ?]|done]).
  apply elem_of_cons in Hx as [->|Hx]; apply elem_of_cons in Hy as [->|Hy]; [done| | |by apply IH].
  - rewrite Ha in Hnd. cbn in Hnd. apply list.NoDup_cons in Hnd as [Hnd _]. apply Hnd, list_elem_of_fmap. exists b. split; [done|].
    apply list_elem_of_omap. eauto.
  - rewrite Hb in Hnd. cbn in Hnd. apply list.NoDup_cons in Hnd as [Hnd _]. apply Hnd, list_elem_of_fmap. exists a. split; [done|].
    apply list_elem_of_omap. eauto.
Qed.
End OmapKeys.

Lemma sumZ_perm l l' : l ≡ₚ l' -> sumZ l = sumZ l'.
Proof. induction 1; rewrite ?sumZ_cons in *; lia. Qed.

(** Grouping the elements of a list by a key. *)
Section Partition.
  Context {A K : Type} `{!EqDecision K} (key : A -> K) (P : A -> Prop) `{HP : forall r, Decision (P r)}.

Lemma sum_indicator (k0 : K) (ks : list K) :
    NoDup ks -> k0 ∈ ks -> sumZ ((fun k => if decide (k0 = k) then 1 else 0) <$> ks) = 1.
  Proof.
    induction 1 as [|k ks Hk Hnd IH]; [by intros []%elem_of_nil|].
    rewrite fmap_cons, sumZ_cons.
    case_decide as Heq; intros [Hin|Hin]%elem_of_cons; try done.
    - subst. assert (sumZ ((fun k1 => if decide (k = k1) then 1 else 0) <$> ks) = 0); [|lia].
      clear -Hk. induction ks as [|k' ks IH]; [done|]. rewrite fmap_cons, sumZ_cons.
      rewrite decide_False by (intros ->; apply Hk; left). rewrite IH; [done|]. intros ?. apply Hk. by right.
    - subst. done.
    - by rewrite IH.
  Qed.

Lemma sumZ_fmap_add (f g : K -> Z) ks : sumZ ((fun k => f k + g k) <$> ks) = sumZ (f <$> ks) + sumZ (g <$> ks).
  Proof. induction ks as [|k ks IH]; [done|]. rewrite !fmap_cons, !sumZ_cons, IH. lia. Qed.

  (** Grouping loses and duplicates nothing. *)
Lemma partition_count ks rows :
    NoDup ks -> (forall r, r ∈ rows -> key r ∈ ks) ->
    sumZ ((fun k => Z.of_nat (length (filter (fun r => key r = k /\ P r) rows))) <$> ks)
    = Z.of_nat (length (filter P rows)).
  Proof.
    intros Hnd. induction rows as [|r rows IH]; intros Hin.
    - clear Hnd Hin. induction ks as [|k ks IHks]; [done|]. by rewrite fmap_cons, sumZ_cons, IHks.
    - rewrite filter_cons. case_decide as HPr.
      + rewrite <- (list_fmap_ext (fun k => (if decide (key r = k) then 1 else 0) + Z.of_nat (length (filter (fun r => key r = k /\ P r) rows)))).
        * rewrite sumZ_fmap_add, IH, sum_indicator; [cbn; lia|done|apply Hin; left|intros; apply Hin; by right].
        * intros i k _. rewrite filter_cons. repeat case_decide; try tauto; cbn; lia.
      + rewrite <- IH by (intros; apply Hin; by right). f_equal. apply list_fmap_ext. intros i k _.
        rewrite filter_cons, decide_False by tauto. done.
  Qed.
End Partition.

(** The groups whose key satisfies [Q] hold the elements whose key does. *)
Lemma partition_sum {A K} `{!EqDecision K} (key : A -> K) (Q : K -> bool) rows :
  sumZ ((fun k => if Q k then Z.of_nat (length (filter (fun r => key r = k) rows)) else 0) <$> remove_dups (key <$> rows))
  = Z.of_nat (length (filter (fun r => Q (key r) = true) rows)).
Proof.
  rewrite <-(partition_count key (fun r => Q (key r) = true) (remove_dups (key <$> rows)));
    [|apply NoDup_remove_dups|intros r Hr; apply elem_of_remove_dups, list_elem_of_fmap; by exists r].
  f_equal. apply list_fmap_ext. intros i k _. destruct (Q k) eqn:HQ.
  - do 2 f_equal. apply filter_ext_in. intros r _. split; [intros <-; done|by intros [? _]].
  - rewrite filter_none; [done|]. intros r _ [<- HQ']. congruence.
Qed.
