(* ===== verification/GoErrors.v ===== *)
(** * Go error values

    The error type the whole program passes around: the named sentinels of
    [port/contract] and [domain/census], the context errors, the typed
    [*contract.ProxyCheckError] and [*httpclient.ProxyDialError], [fmt.Errorf]
    with a [%w] verb and [errors.Join].  [errors_Is] and [errors_As] are the
    pre-order traversals of Go's [errors] package, which every decision of the
    program goes through (error texts are kept as the static part of the
    format string; no decision of the modelled code depends on them). *)
From S2P Require Import Prelude.

(** ** The kinds of a failed proxy check
    ([port/contract/proxy_scan.go], [ProxyCheckKind]). *)
Inductive ProxyCheckKind := CheckLocal | CheckProxy | CheckTarget | CheckDeadline | CheckCancelled.

Global Instance ProxyCheckKind_eq_dec : EqDecision ProxyCheckKind.
Proof. solve_decision. Defined.

Definition ProxyCheckKind_String (k : ProxyCheckKind) : string :=
  match k with
  | CheckLocal => "local"
  | CheckProxy => "proxy"
  | CheckTarget => "target"
  | CheckDeadline => "deadline"
  | CheckCancelled => "cancelled"
  end.

(** ** Sentinels *)
Inductive sentinel :=
  | ErrPoisonPayload      (* port/contract/queue.go *)
  | ErrNoHandler          (* port/contract/queue.go *)
  | ErrCharacterNotFound  (* port/contract/lodestone.go *)
  | ErrAchievementsPrivate (* port/contract/lodestone.go *)
  | ErrProfileHidden      (* domain/census/service.go *)
  | ErrInvalidDimension   (* domain/census/service.go *)
  | ErrUIStatsUnavailable (* domain/census/ui_stats.go *)
  | ErrEmitFailed         (* infrastructure/textproxy/client.go *)
  | ErrPublishFailed      (* cmd/cli/proxy.go *)
  | ErrLookupFailed       (* cmd/cli/proxy.go *)
  | ErrDiscoveryLimitReached (* cmd/cli/proxy.go *)
  | ContextCanceled       (* context.Canceled *)
  | ContextDeadlineExceeded. (* context.DeadlineExceeded *)

Global Instance sentinel_eq_dec : EqDecision sentinel.
Proof. solve_decision. Defined.

(** ** Errors *)
#[warnings="-register-all"]
Inductive gerror :=
  | ErrorString (msg : string)                 (* errors.New, fmt.Errorf without %w *)
  | ErrSentinel (s : sentinel)
  | ErrWrap (msg : string) (cause : gerror)    (* fmt.Errorf("...: %w", cause) *)
  | ErrJoin (causes : list gerror)             (* errors.Join, fmt.Errorf with several %w *)
  | ErrCheck (kind : ProxyCheckKind) (reason : string) (challenge : bool)
             (retryAfter : Z) (cause : option gerror) (* *contract.ProxyCheckError *)
  | ErrDial (reason : string) (cause : gerror) (* *httpclient.ProxyDialError *)
  | ErrTransport (cause : gerror)              (* *httpclient.transportError *)
  | ErrRetryableStatus (status : Z).           (* httpclient.retryableStatusError *)

(** The typed fields [errors.As] exposes. *)
Record ProxyCheckError := mkProxyCheckError {
  ce_Kind : ProxyCheckKind;
  ce_Reason : string;
  ce_Challenge : bool;
  ce_RetryAfter : Z;
}.

(** The induction principle that reaches the causes of [errors.Join]. *)
Section gerror_ind.
  Variable P : gerror -> Prop.
  Hypothesis Pstring : forall m, P (ErrorString m).
  Hypothesis Psentinel : forall s, P (ErrSentinel s).
  Hypothesis Pwrap : forall m e, P e -> P (ErrWrap m e).
  Hypothesis Pjoin : forall es, Forall P es -> P (ErrJoin es).
  Hypothesis Pcheck0 : forall k r c t, P (ErrCheck k r c t None).
  Hypothesis Pcheck1 : forall k r c t e, P e -> P (ErrCheck k r c t (Some e)).
  Hypothesis Pdial : forall r e, P e -> P (ErrDial r e).
  Hypothesis Ptransport : forall e, P e -> P (ErrTransport e).
  Hypothesis Pstatus : forall n, P (ErrRetryableStatus n).

Fixpoint gerror_deep_ind (e : gerror) : P e :=
    match e with
    | ErrorString m => Pstring m
    | ErrSentinel s => Psentinel s
    | ErrWrap m e => Pwrap m e (gerror_deep_ind e)
    | ErrJoin es =>
        Pjoin es ((fix go l : Forall P l :=
          match l with
          | [] => List.Forall_nil P
          | x :: l => List.Forall_cons P x l (gerror_deep_ind x) (go l)
          end) es)
    | ErrCheck k r c t None => Pcheck0 k r c t
    | ErrCheck k r c t (Some e) => Pcheck1 k r c t e (gerror_deep_ind e)
    | ErrDial r e => Pdial r e (gerror_deep_ind e)
    | ErrTransport e => Ptransport e (gerror_deep_ind e)
    | ErrRetryableStatus n => Pstatus n
    end.
End gerror_ind.

(** [errors.Is(err, target)] for a sentinel target. *)
Fixpoint errors_Is (e : gerror) (s : sentinel) : bool :=
  match e with
  | ErrorString _ => false
  | ErrSentinel s' => bool_decide (s' = s)
  | ErrWrap _ e => errors_Is e s
  | ErrJoin es => existsb (fun e => errors_Is e s) es
  | ErrCheck _ _ _ _ None => false
  | ErrCheck _ _ _ _ (Some e) => errors_Is e s
  | ErrDial _ e => errors_Is e s
  | ErrTransport e => errors_Is e s
  | ErrRetryableStatus _ => false
  end.

(** [errors.As(err, &checkErr)] with [checkErr *contract.ProxyCheckError]: the
    first match of the pre-order traversal. *)
Fixpoint errors_As_check (e : gerror) : option ProxyCheckError :=
  match e with
  | ErrorString _ | ErrSentinel _ | ErrRetryableStatus _ => None
  | ErrWrap _ e | ErrTransport e => errors_As_check e
  | ErrJoin es =>
      (fix go l := match l with
                   | [] => None
                   | x :: l => match errors_As_check x with Some c => Some c | None => go l end
                   end) es
  | ErrCheck k r c t _ => Some (mkProxyCheckError k r c t)
  | ErrDial _ e => errors_As_check e
  end.

(** [errors.As(err, &dialErr)] with [dialErr *httpclient.ProxyDialError]: its
    reason. *)
Fixpoint errors_As_dial (e : gerror) : option string :=
  match e with
  | ErrorString _ | ErrSentinel _ | ErrRetryableStatus _ => None
  | ErrWrap _ e | ErrTransport e => errors_As_dial e
  | ErrJoin es =>
      (fix go l := match l with
                   | [] => None
                   | x :: l => match errors_As_dial x with Some c => Some c | None => go l end
                   end) es
  | ErrCheck _ _ _ _ None => None
  | ErrCheck _ _ _ _ (Some e) => errors_As_dial e
  | ErrDial r _ => Some r
  end.

(** [errors.As] with [retryableStatusError] or [*transportError]: whether the
    chain asks for another proxy. *)
Fixpoint rotates (e : gerror) : bool :=
  match e with
  | ErrorString _ | ErrSentinel _ => false
  | ErrWrap _ e | ErrDial _ e => rotates e
  | ErrJoin es => existsb rotates es
  | ErrCheck _ _ _ _ None => false
  | ErrCheck _ _ _ _ (Some e) => rotates e
  | ErrTransport _ | ErrRetryableStatus _ => true
  end.

(** [httpclient.WrapProxyDial]: a chain with a dial failure becomes a typed
    conclusive proxy failure; any other error is unchanged. *)
Definition WrapProxyDial (e : gerror) : gerror :=
  match errors_As_dial e with
  | Some reason => ErrCheck CheckProxy ("proxy " +:+ reason) false 0 (Some e)
  | None => e
  end.

(** ** Results: a value or an error, with stdpp's [x ← e; k] notation. *)
Inductive result (A : Type) := Ok (a : A) | Err (e : gerror).
Arguments Ok {A} a.
Arguments Err {A} e.

Global Instance result_ret : MRet result := fun A a => Ok a.
Global Instance result_bind : MBind result :=
  fun A B f r => match r with Ok a => f a | Err e => Err e end.
Global Instance result_fmap : FMap result :=
  fun A B f r => match r with Ok a => Ok (f a) | Err e => Err e end.

(** Wrap the error of a failed call, [fmt.Errorf(msg + ": %w", err)]. *)
Definition wrap_err {A} (msg : string) (r : result A) : result A :=
  match r with Ok a => Ok a | Err e => Err (ErrWrap msg e) end.

Definition is_ok {A} (r : result A) : bool := match r with Ok _ => true | Err _ => false end.

(** ** Calls on a store

    A call on the database either answers, or fails in one of two ways: it was
    [Refused] before it took effect (no connection, a failed statement, a
    rolled back transaction), or its effect was committed and the reply was
    lost ([LostReply]: a failed row scan after an autocommitted statement, an
    unconfirmed commit).  The carried error is the one the call returns. *)
Inductive fault := NoFault | Refused (e : gerror) | LostReply (e : gerror).

Definition with_fault {S A} (f : fault) (s : S) (r : S * result A) : S * result A :=
  match f with
  | NoFault => r
  | Refused e => (s, Err e)
  | LostReply e => (r.1, Err e)
  end.

(** A read changes nothing, so the two failures coincide. *)
Definition read_fault {A} (f : fault) (r : result A) : result A :=
  match f with NoFault => r | Refused e | LostReply e => Err e end.

Lemma with_fault_state {S A} f (s : S) (r : S * result A) :
  (with_fault f s r).1 = s \/ (with_fault f s r).1 = r.1.
Proof. destruct f; cbn; auto. Qed.

(** A property that holds before and after a statement holds whatever the
    driver answers. *)
Lemma with_fault_pres {S A} (P : S -> Prop) f s (r : S * result A) :
  P s -> P r.1 -> P (with_fault f s r).1.
Proof. by destruct f. Qed.

Lemma with_fault_Ok {S A} f (s s' : S) (r : S * result A) a :
  with_fault f s r = (s', Ok a) -> f = NoFault /\ r = (s', Ok a).
Proof. destruct f; cbn; intros H; simplify_eq; auto. Qed.

(** ** Facts about the traversals *)

Lemma errors_Is_wrap m e s : errors_Is (ErrWrap m e) s = errors_Is e s.
Proof. reflexivity. Qed.

Lemma errors_Is_join es s : errors_Is (ErrJoin es) s = true <-> Exists (fun e => errors_Is e s = true) es.
Proof.
  simpl. rewrite existsb_exists, Exists_exists.
  split; intros (x & Hin & Hx); exists x; split; try done; by apply list_elem_of_In.
Qed.

Lemma errors_As_wrap m e : errors_As_check (ErrWrap m e) = errors_As_check e.
Proof. reflexivity. Qed.

(** A chain re-attributed by [WrapProxyDial] is a conclusive proxy failure
    exactly when it holds a dial failure or already was one. *)
Lemma WrapProxyDial_kind e :
  errors_As_check (WrapProxyDial e) =
    match errors_As_dial e with
    | Some reason => Some (mkProxyCheckError CheckProxy ("proxy " +:+ reason) false 0)
    | None => errors_As_check e
    end.
Proof. unfold WrapProxyDial. by destruct (errors_As_dial e). Qed.

(** The sentinels of the cause stay visible through [WrapProxyDial]. *)
Lemma WrapProxyDial_Is e s : errors_Is (WrapProxyDial e) s = errors_Is e s.
Proof. unfold WrapProxyDial. by destruct (errors_As_dial e). Qed.

Create Rewrite HintDb gerrors.
#[export] Hint Rewrite errors_Is_wrap errors_As_wrap WrapProxyDial_Is : gerrors.
