(* ===== verification/GoStrings.v ===== *)
(** * Go's [strings] package

    The functions of [strings] the modelled code calls, on byte strings, and
    the facts about them the components share. *)
From S2P Require Import Prelude.

(** The rest of [s] after [p], when [s] starts with [p]. *)
Fixpoint strip_prefix (p s : string) : option string :=
  match p, s with
  | EmptyString, _ => Some s
  | String a p, String b s => if decide (a = b) then strip_prefix p s else None
  | String _ _, EmptyString => None
  end.
(** The part of [s] before [suf], when [s] ends with [suf]. *)
Fixpoint strip_suffix (suf s : string) : option string :=
  if decide (s = suf) then Some EmptyString
  else match s with
       | EmptyString => None
       | String a s => String a <$> strip_suffix suf s
       end.

Definition HasPrefix (s p : string) : bool := match strip_prefix p s with Some _ => true | None => false end.
Definition HasSuffix (s p : string) : bool := match strip_suffix p s with Some _ => true | None => false end.
Definition TrimPrefix (s p : string) : string := default s (strip_prefix p s).
Definition TrimSuffix (s suf : string) : string := default s (strip_suffix suf s).

Lemma string_cons_app a (p s : string) : String a p +:+ s = String a (p +:+ s).
Proof. reflexivity. Qed.

Lemma string_app_inj_l (a b c : string) : a +:+ b = a +:+ c -> b = c.
Proof. induction a as [|x a IH]; [done|]. rewrite !string_cons_app. intros [= H]. by apply IH. Qed.
Lemma strip_prefix_app p s : strip_prefix p (p +:+ s) = Some s.
Proof. induction p as [|a p IH]; [done|]. rewrite string_cons_app. cbn [strip_prefix]. by rewrite decide_True. Qed.

Lemma strip_prefix_Some p s r : strip_prefix p s = Some r <-> s = p +:+ r.
Proof.
  split; [|intros ->; apply strip_prefix_app].
  revert s. induction p as [|a p IH]; intros [|b s]; cbn [strip_prefix]; rewrite ?string_cons_app;
    try (intros [= <-]; done); try done.
  case_decide; [|done]. intros Hs. subst. f_equal. by apply IH.
Qed.

Lemma string_length_app s t : String.length (s +:+ t) = (String.length s + String.length t)%nat.
Proof. induction s as [|a s IH]; [done|]. rewrite string_cons_app. cbn. by rewrite IH. Qed.

Lemma strip_suffix_app s suf : strip_suffix suf (s +:+ suf) = Some s.
Proof.
  induction s as [|a s IH].
  - change ("" +:+ suf) with suf. destruct suf; cbn [strip_suffix]; by rewrite decide_True.
  - rewrite string_cons_app. cbn [strip_suffix]. rewrite decide_False; [by rewrite IH|]. intros H. apply (f_equal String.length) in H. cbn in H.
    rewrite string_length_app in H. lia.
Qed.

Lemma strip_suffix_Some suf s r : strip_suffix suf s = Some r <-> s = r +:+ suf.
Proof.
  split; [|intros ->; apply strip_suffix_app].
  revert r. induction s as [|a s IH]; intros r; cbn [strip_suffix].
  - case_decide; [|done]. intros [= <-]. subst. done.
  - case_decide; [intros [= <-]; done|]. destruct (strip_suffix suf s) as [r'|]; [|done].
    intros [= <-]. rewrite string_cons_app. f_equal. by apply IH.
Qed.

Lemma TrimPrefix_app p s : TrimPrefix (p +:+ s) p = s.
Proof. unfold TrimPrefix. by rewrite strip_prefix_app. Qed.
Lemma TrimSuffix_app s suf : TrimSuffix (s +:+ suf) suf = s.
Proof. unfold TrimSuffix. by rewrite strip_suffix_app. Qed.

Lemma string_app_assoc (a b c : string) : (a +:+ b) +:+ c = a +:+ (b +:+ c).
Proof. induction a as [|x a IH]; [done|]. rewrite !string_cons_app. by f_equal. Qed.

Create Rewrite HintDb gostrings.
#[export] Hint Rewrite TrimPrefix_app TrimSuffix_app string_app_assoc : gostrings.

(** ** [strings.TrimSpace] *)

Definition bytes (l : list nat) : string := foldr (fun n s => String (Ascii.ascii_of_nat n) s) "" l.

(** The UTF-8 encodings of the characters [unicode.IsSpace] accepts. *)
Definition space_encodings : list string :=
  bytes <$> ([[9]; [10]; [11]; [12]; [13]; [32]; [194; 133]; [194; 160]; [225; 154; 128];
    [226; 128; 128]; [226; 128; 129]; [226; 128; 130]; [226; 128; 131]; [226; 128; 132]; [226; 128; 133];
    [226; 128; 134]; [226; 128; 135]; [226; 128; 136]; [226; 128; 137]; [226; 128; 138];
    [226; 128; 168]; [226; 128; 169]; [226; 128; 175]; [226; 129; 159]; [227; 128; 128]])%nat.

Fixpoint first_match {A} (f : string -> option A) (l : list string) : option A :=
  match l with [] => None | x :: l => match f x with Some a => Some a | None => first_match f l end end.

(** Each round removes at least one byte, so the length bounds the rounds. *)
Fixpoint trim_left (fuel : nat) (s : string) : string :=
  match fuel with
  | O => s
  | S fuel => match first_match (fun p => strip_prefix p s) space_encodings with
              | Some r => trim_left fuel r
              | None => s
              end
  end.
Fixpoint trim_right (fuel : nat) (s : string) : string :=
  match fuel with
  | O => s
  | S fuel => match first_match (fun p => strip_suffix p s) space_encodings with
              | Some r => trim_right fuel r
              | None => s
              end
  end.
Definition TrimSpace (s : string) : string :=
  let l := trim_left (String.length s) s in trim_right (String.length l) l.

(** [strings.TrimRight] of slashes. *)
Fixpoint trim_right_slash (fuel : nat) (s : string) : string :=
  match fuel with O => s | S fuel => if HasSuffix s "/" then trim_right_slash fuel (TrimSuffix s "/") else s end.
Definition TrimRight_slash (s : string) : string := trim_right_slash (String.length s) s.

(** ** Searching and slicing *)

(** [strings.Index]: the position of the first occurrence. *)
Fixpoint Index (s sep : string) : option nat :=
  if HasPrefix s sep then Some O
  else match s with EmptyString => None | String _ s => S <$> Index s sep end.
Definition Contains (s sep : string) : bool := match Index s sep with Some _ => true | None => false end.

(** [s[:n]] and [s[n:]]. *)
Fixpoint stake (n : nat) (s : string) : string :=
  match n, s with S n, String a s => String a (stake n s) | _, _ => "" end.
Fixpoint sdrop (n : nat) (s : string) : string :=
  match n, s with O, _ => s | S n, String _ s => sdrop n s | S _, EmptyString => "" end.

(** [strings.LastIndex]. *)
Fixpoint LastIndex (s sep : string) : option nat :=
  match s with
  | EmptyString => if HasPrefix s sep then Some O else None
  | String _ s' => match LastIndex s' sep with
                   | Some n => Some (S n)
                   | None => if HasPrefix s sep then Some O else None
                   end
  end.

(** [strings.ReplaceAll] for a non-empty [old]; every round consumes a byte. *)
Fixpoint replace_all (fuel : nat) (s old new : string) : string :=
  match fuel, s with
  | S fuel, String a s' =>
      match strip_prefix old s with
      | Some rest => new +:+ replace_all fuel rest old new
      | None => String a (replace_all fuel s' old new)
      end
  | _, _ => s
  end.
Definition ReplaceAll (s old new : string) : string := replace_all (String.length s) s old new.

(** The text before the first [sep] and the text after it, if [sep] occurs:
    [strings.SplitN(s, sep, 2)] with two parts. *)
Definition cut (s sep : string) : option (string * string) :=
  n ← Index s sep; Some (stake n s, sdrop (n + String.length sep) s).

(** [strings.Fields]: the pieces between runs of white space. *)
Fixpoint fields_from (fuel : nat) (word s : string) : list string :=
  let close := if decide (word = "") then [] else [word] in
  match fuel, s with
  | S fuel, String a s' =>
      match first_match (fun p => strip_prefix p s) space_encodings with
      | Some rest => close ++ fields_from fuel "" rest
      | None => fields_from fuel (word +:+ String a "") s'
      end
  | _, _ => close
  end.
Definition Fields (s : string) : list string := fields_from (String.length s) "" s.

Lemma stake_length n : forall s, (n <= String.length s)%nat -> String.length (stake n s) = n.
Proof. induction n as [|n IH]; intros [|a s]; cbn; [done|done|lia|]. intros Hn. rewrite IH by lia. done. Qed.
Lemma stake_app a b : stake (String.length a) (a +:+ b) = a.
Proof. induction a as [|c a IH]; [by destruct b|]. rewrite string_cons_app. cbn. by rewrite IH. Qed.
Lemma sdrop_app a b : sdrop (String.length a) (a +:+ b) = b.
Proof. induction a as [|c a IH]; [done|]. rewrite string_cons_app. cbn. exact IH. Qed.
Lemma length_sdrop n s : String.length (sdrop n s) = (String.length s - n)%nat.
Proof. revert s. induction n as [|n IH]; intros [|a s]; cbn; [done..|apply IH]. Qed.
Lemma Index_hit s sep : Index (sep +:+ s) sep = Some O.
Proof. assert (H : HasPrefix (sep +:+ s) sep = true) by (unfold HasPrefix; by rewrite strip_prefix_app). destruct (sep +:+ s); cbn [Index]; by rewrite H. Qed.
Lemma Index_miss a s sep : HasPrefix (String a s) sep = false -> Index (String a s) sep = S <$> Index s sep.
Proof. intros H. cbn [Index]. by rewrite H. Qed.

(** No occurrence starts in a text without the first byte of the separator. *)
Fixpoint free_of (c : Ascii.ascii) (s : string) : bool :=
  match s with EmptyString => true | String a s => negb (bool_decide (a = c)) && free_of c s end.
Lemma HasPrefix_head c sep a s : a <> c -> HasPrefix (String a s) (String c sep) = false.
Proof. intros H. unfold HasPrefix. cbn [strip_prefix]. by rewrite decide_False by congruence. Qed.
Lemma Index_free c sep a s : free_of c a = true -> Index (a +:+ s) (String c sep) = (Nat.add (String.length a)) <$> Index s (String c sep).
Proof.
  induction a as [|x a IH]; intros H; [change ("" +:+ s) with s; by destruct (Index s _)|]. cbn in H. bsplit. rewrite string_cons_app, Index_miss by by apply HasPrefix_head.
  rewrite IH by done. by destruct (Index s (String c sep)).
Qed.

(** No occurrence of [sep] starts in the text [a], whatever follows it: every
    suffix of [a] differs from [sep] within [a]. *)
Fixpoint mismatch (a sep : string) : bool :=
  match a, sep with
  | String x a, String y sep => if bool_decide (x = y) then mismatch a sep else true
  | _, _ => false
  end.
Fixpoint no_start (a sep : string) : bool :=
  match a with EmptyString => true | String _ a' => mismatch a sep && no_start a' sep end.
Lemma mismatch_prefix a s sep : mismatch a sep = true -> HasPrefix (a +:+ s) sep = false.
Proof.
  revert sep. induction a as [|x a IH]; intros [|y sep]; cbn [mismatch]; try done. rewrite string_cons_app.
  unfold HasPrefix in *. cbn [strip_prefix]. case_bool_decide; case_decide; try congruence. intros Hm. by apply IH.
Qed.
Lemma Index_no_start a s sep : no_start a sep = true -> Index (a +:+ s) sep = Nat.add (String.length a) <$> Index s sep.
Proof.
  induction a as [|x a IH]; [change ("" +:+ s) with s; by destruct (Index s sep)|]. cbn [no_start]. intros [H1 H2]%andb_true_iff.
  rewrite string_cons_app, Index_miss by (rewrite <-string_cons_app; by apply mismatch_prefix).
  rewrite IH by done. by destruct (Index s sep).
Qed.
