(* ===== verification/Csv.v ===== *)
(** * CSV text

    The writer of [encoding/csv] with its default settings, and a reader of the
    format (RFC 4180 with line feeds) as the specification of what the writer
    says. *)
From Stdlib Require Import Ascii.
From S2P Require Import Prelude GoStrings.

Definition comma : ascii := ascii_of_nat 44.
Definition dquote : ascii := ascii_of_nat 34.
Definition newline : ascii := ascii_of_nat 10.
Definition creturn : ascii := ascii_of_nat 13.

Fixpoint has_char (c : ascii) (s : string) : bool :=
  match s with EmptyString => false | String a s => bool_decide (a = c) || has_char c s end.

(** ** The writer *)

Definition starts_with_space (s : string) : bool :=
  match first_match (fun p => strip_prefix p s) space_encodings with Some _ => true | None => false end.
Definition fieldNeedsQuotes (field : string) : bool :=
  if bool_decide (field = "") then false
  else if bool_decide (field = bytes [92; 46]%nat) then true
  else has_char comma field || has_char dquote field || has_char creturn field || has_char newline field || starts_with_space field.
(** Quotes are doubled. *)
Fixpoint double_quotes (s : string) : string :=
  match s with
  | EmptyString => ""
  | String a s => if bool_decide (a = dquote) then String dquote (String dquote (double_quotes s)) else String a (double_quotes s)
  end.
Definition csv_field (field : string) : string :=
  if fieldNeedsQuotes field then String dquote (double_quotes field +:+ String dquote "") else field.
Fixpoint csv_row (fields : list string) : string :=
  match fields with
  | [] => String newline ""
  | [f] => csv_field f +:+ String newline ""
  | f :: fields => csv_field f +:+ String comma (csv_row fields)
  end.

(** ** A reader *)

Inductive csvMode := FieldStart | Plain | Quoted | QuoteSeen.
(** The rows so far, the fields of the current row, the current field. *)
Record csvState := mkCsv { csv_rows : list (list string); csv_fields : list string; csv_text : string; csv_mode : csvMode }.
Definition csv_start : csvState := mkCsv [] [] "" FieldStart.
Definition end_field (s : csvState) : csvState := mkCsv (csv_rows s) (csv_fields s ++ [csv_text s]) "" FieldStart.
Definition end_row (s : csvState) : csvState := mkCsv (csv_rows s ++ [csv_fields s ++ [csv_text s]]) [] "" FieldStart.
Definition add_char (m : csvMode) (a : ascii) (s : csvState) : csvState :=
  mkCsv (csv_rows s) (csv_fields s) (csv_text s +:+ String a "") m.
Definition with_mode (m : csvMode) (s : csvState) : csvState := mkCsv (csv_rows s) (csv_fields s) (csv_text s) m.

Definition csv_step (a : ascii) (s : csvState) : option csvState :=
  match csv_mode s with
  | Quoted => Some (if bool_decide (a = dquote) then with_mode QuoteSeen s else add_char Quoted a s)
  | m =>
      if bool_decide (a = comma) then Some (end_field s)
      else if bool_decide (a = newline) then Some (end_row s)
      else if bool_decide (a = dquote) then
        match m with
        | FieldStart => Some (with_mode Quoted s)
        | QuoteSeen => Some (add_char Quoted a s)
        | _ => None
        end
      else match m with QuoteSeen => None | _ => Some (add_char Plain a s) end
  end.
Fixpoint csv_run (text : string) (s : csvState) : option csvState :=
  match text with
  | EmptyString => Some s
  | String a text => s ← csv_step a s; csv_run text s
  end.
(** A text is read when its last row is complete. *)
Definition csv_read (text : string) : option (list (list string)) :=
  s ← csv_run text csv_start;
  match csv_fields s, csv_mode s with [], FieldStart => Some (csv_rows s) | _, _ => None end.

(** ** The round trip *)

Lemma csv_run_app a : forall b s, csv_run (a +:+ b) s = (s ← csv_run a s; csv_run b s).
Proof.
  induction a as [|c a IH]; intros b s; [done|]. rewrite string_cons_app. cbn [csv_run]. destruct (csv_step c s); cbn; [apply IH|done].
Qed.
Lemma app_char_assoc s a t : (s +:+ String a "") +:+ t = s +:+ String a t.
Proof. by rewrite string_app_assoc. Qed.
Lemma app_empty_r s : s +:+ "" = s.
Proof. induction s as [|a s IH]; [done|]. rewrite string_cons_app. by f_equal. Qed.

Lemma step_quote_quoted r f t : csv_step dquote (mkCsv r f t Quoted) = Some (mkCsv r f t QuoteSeen).
Proof. reflexivity. Qed.
Lemma step_quote_seen r f t : csv_step dquote (mkCsv r f t QuoteSeen) = Some (mkCsv r f (t +:+ String dquote "") Quoted).
Proof. reflexivity. Qed.
Lemma step_quote_start r f t : csv_step dquote (mkCsv r f t FieldStart) = Some (mkCsv r f t Quoted).
Proof. reflexivity. Qed.
Lemma csv_run_quoted f : forall rows fields text,
  csv_run (double_quotes f) (mkCsv rows fields text Quoted) = Some (mkCsv rows fields (text +:+ f) Quoted).
Proof.
  induction f as [|a f IH]; intros rows fields text; [by rewrite app_empty_r|]. cbn [double_quotes]. case_bool_decide as Ha.
  - subst a. cbn [csv_run]. rewrite step_quote_quoted. cbn [mbind option_bind]. rewrite step_quote_seen. cbn [mbind option_bind].
    by rewrite IH, app_char_assoc.
  - cbn [csv_run csv_step csv_mode]. rewrite bool_decide_eq_false_2 by done. cbn [mbind option_bind]; unfold add_char; cbn [csv_rows csv_fields csv_text].
    by rewrite IH, app_char_assoc.
Qed.
Lemma csv_run_plain f : forall rows fields text,
  has_char comma f = false -> has_char dquote f = false -> has_char newline f = false ->
  csv_run f (mkCsv rows fields text Plain) = Some (mkCsv rows fields (text +:+ f) Plain).
Proof.
  induction f as [|a f IH]; intros rows fields text; [by rewrite app_empty_r|]. cbn [has_char].
  intros [H1 H1']%orb_false_iff [H2 H2']%orb_false_iff [H3 H3']%orb_false_iff.
  cbn [csv_run csv_step csv_mode]. rewrite H1, H3, H2. cbn [mbind option_bind]; unfold add_char; cbn [csv_rows csv_fields csv_text]. by rewrite IH, app_char_assoc.
Qed.

(** After a field, the reader holds its text and is ready for a separator. *)
Lemma csv_run_field f rows fields : exists m, m <> Quoted /\
  csv_run (csv_field f) (mkCsv rows fields "" FieldStart) = Some (mkCsv rows fields f m).
Proof.
  unfold csv_field. destruct (fieldNeedsQuotes f) eqn:Hq.
  - exists QuoteSeen. split; [done|]. cbn [csv_run]. rewrite step_quote_start. cbn [mbind option_bind].
    by rewrite csv_run_app, csv_run_quoted.
  - unfold fieldNeedsQuotes in Hq. case_bool_decide as He; [subst; by exists FieldStart|].
    case_bool_decide; [done|]. rewrite !orb_false_iff in Hq. destruct Hq as [[[[H1 H2] _] H3] _].
    destruct f as [|a f]; [done|]. exists Plain. split; [done|]. cbn [has_char] in *.
    apply orb_false_iff in H1 as [H1 H1'], H2 as [H2 H2'], H3 as [H3 H3'].
    cbn [csv_run csv_step csv_mode]. rewrite H1, H3, H2. cbn [mbind option_bind]; unfold add_char; cbn [csv_rows csv_fields csv_text]. by rewrite csv_run_plain.
Qed.

Lemma csv_run_row row : forall rows fields, row <> [] ->
  csv_run (csv_row row) (mkCsv rows fields "" FieldStart) = Some (mkCsv (rows ++ [fields ++ row]) [] "" FieldStart).
Proof.
  induction row as [|f row IH]; intros rows fields Hne; [done|].
  destruct (csv_run_field f rows fields) as (m & Hm & Hf). destruct row as [|g row]; cbn [csv_row]; rewrite csv_run_app, Hf; cbn [mbind option_bind].
  - by destruct m.
  - destruct m; cbn [csv_run csv_step csv_mode]; try done; rewrite bool_decide_eq_true_2 by done; cbn [mbind option_bind];
      unfold end_field; cbn [csv_rows csv_fields csv_text]; rewrite IH by done; by rewrite <-app_assoc.
Qed.

Definition csv_text_of (rows : list (list string)) : string := foldr (fun row text => csv_row row +:+ text) "" rows.

(** What was written is what is read. *)
Lemma csv_roundtrip rows : Forall (fun row => row <> []) rows -> csv_read (csv_text_of rows) = Some rows.
Proof.
  intros Hrows. enough (H : forall done_, csv_run (csv_text_of rows) (mkCsv done_ [] "" FieldStart) = Some (mkCsv (done_ ++ rows) [] "" FieldStart)).
  { unfold csv_read, csv_start. by rewrite H. }
  induction Hrows as [|row rows Hrow _ IH]; intros done_; cbn [csv_text_of foldr]; [by rewrite app_nil_r|].
  rewrite csv_run_app, csv_run_row by done. cbn [mbind option_bind]. rewrite IH, <-app_assoc. done.
Qed.
