(* ===== verification/Dates.v ===== *)
(** * Calendar days

    What the code uses of Go's [time] package and of SQL's [TO_CHAR] on whole
    UTC days: the layout ["2006-01-02"], truncation to the day and [AddDate] by
    days.  A day is a number of days since the Unix epoch in the proleptic
    Gregorian calendar. *)
From Stdlib Require Import Ascii.
From S2P Require Import Prelude.

(** ** Civil dates *)

Definition is_leap (y : Z) : bool := (y mod 4 =? 0) && (negb (y mod 100 =? 0) || (y mod 400 =? 0)).
Definition days_in_month (y m : Z) : Z :=
  if m =? 2 then if is_leap y then 29 else 28
  else if (m =? 4) || (m =? 6) || (m =? 9) || (m =? 11) then 30 else 31.

(** Years are counted from March, so that the leap day is the last of a
    400-year era of 146097 days. *)
Definition days_of_civil (y m d : Z) : Z :=
  let y := if m <=? 2 then y - 1 else y in
  let era := y / 400 in
  let yoe := y mod 400 in
  let doy := (153 * (if 2 <? m then m - 3 else m + 9) + 2) / 5 + d - 1 in
  era * 146097 + (yoe * 365 + yoe / 4 - yoe / 100 + doy) - 719468.

(** The date of the day [doe] of an era: year of the era, month, day. *)
Definition civil_of_doe (doe : Z) : Z * Z * Z :=
  let yoe := (doe - doe / 1460 + doe / 36524 - doe / 146096) / 365 in
  let doy := doe - (365 * yoe + yoe / 4 - yoe / 100) in
  let mp := (5 * doy + 2) / 153 in
  let d := doy - (153 * mp + 2) / 5 + 1 in
  let m := if mp <? 10 then mp + 3 else mp - 9 in
  (if m <=? 2 then yoe + 1 else yoe, m, d).
Definition civil_of_days (z : Z) : Z * Z * Z :=
  let '(y, m, d) := civil_of_doe ((z + 719468) mod 146097) in
  (y + (z + 719468) / 146097 * 400, m, d).

(** ** The layout *)

Definition digit (n : Z) : Ascii.ascii := Ascii.ascii_of_N (Z.to_N (48 + n)).
Definition digit_value (c : Ascii.ascii) : option Z :=
  let n := Z.of_N (Ascii.N_of_ascii c) - 48 in if (0 <=? n) && (n <=? 9) then Some n else None.
Definition pad2 (n : Z) : string := String (digit (n / 10)) (String (digit (n mod 10)) "").
Definition parse2 (a b : Ascii.ascii) : option Z :=
  x ← digit_value a; y ← digit_value b; Some (10 * x + y).

(** [t.Format("2006-01-02")] and [TO_CHAR(t, 'YYYY-MM-DD')] for a year of four
    digits. *)
Definition format_day (z : Z) : string :=
  let '(y, m, d) := civil_of_days z in
  pad2 (y / 100) +:+ pad2 (y mod 100) +:+ "-" +:+ pad2 m +:+ "-" +:+ pad2 d.

(** [time.Parse("2006-01-02", s)]. *)
Definition parse_day (s : string) : option Z :=
  match s with
  | String y1 (String y2 (String y3 (String y4 (String "-"%char (String m1 (String m2 (String "-"%char (String d1 (String d2 EmptyString))))))))) =>
      yh ← parse2 y1 y2; yl ← parse2 y3 y4; m ← parse2 m1 m2; d ← parse2 d1 d2;
      let y := 100 * yh + yl in
      if (1 <=? m) && (m <=? 12) && (1 <=? d) && (d <=? days_in_month y m) then Some (days_of_civil y m d) else None
  | _ => None
  end.

(** [t.UTC().Truncate(24 * time.Hour)] as a day: Go truncates from the zero
    time, which is a midnight. *)
Definition day_of (t : Z) : Z := t / day.
Definition time_of_day (z : Z) : Z := z * day.

(** ** RFC 3339 instants, as [encoding/json] writes and reads [time.Time] *)

(** The fraction [n / 10^k] without trailing zeros. *)
Fixpoint frac_digits (k : nat) (n : Z) : string :=
  if n =? 0 then ""
  else match k with
       | O => ""
       | S k => String (digit (n / 10 ^ Z.of_nat k)) (frac_digits k (n mod 10 ^ Z.of_nat k))
       end.
Definition format_rfc3339 (t : Z) : string :=
  let n := t mod day in
  let ns := n mod second in
  format_day (day_of t) +:+ "T" +:+ pad2 (n / hour) +:+ ":" +:+ pad2 ((n / minute) mod 60) +:+ ":"
  +:+ pad2 ((n / second) mod 60) +:+ (if ns =? 0 then "" else "." +:+ frac_digits 9 ns) +:+ "Z".

(** All leading digits are consumed; those past the [k]-th are dropped. *)
Fixpoint parse_frac (k : nat) (s : string) : Z * string :=
  match s with
  | String c s' =>
      match digit_value c with
      | Some d => let '(v, rest) := parse_frac (pred k) s' in
                  ((match k with O => 0 | S k => d * 10 ^ Z.of_nat k end) + v, rest)
      | None => (0, s)
      end
  | EmptyString => (0, s)
  end.
Definition parse_fraction (s : string) : Z * string :=
  match s with
  | String "."%char (String c _ as s') => match digit_value c with Some _ => parse_frac 9 s' | None => (0, s) end
  | _ => (0, s)
  end.
Definition parse_zone (s : string) : option Z :=
  match s with
  | String "Z"%char EmptyString => Some 0
  | String sign (String h1 (String h2 (String ":"%char (String m1 (String m2 EmptyString))))) =>
      h ← parse2 h1 h2; m ← parse2 m1 m2;
      if (h <=? 24) && (m <=? 60) then
        if bool_decide (sign = "+"%char) then Some (h * hour + m * minute)
        else if bool_decide (sign = "-"%char) then Some (- (h * hour + m * minute)) else None
      else None
  | _ => None
  end.
Definition parse_rfc3339 (s : string) : option Z :=
  match s with
  | String a0 (String a1 (String a2 (String a3 (String a4 (String a5 (String a6 (String a7 (String a8 (String a9
      (String "T"%char (String h1 (String h2 (String ":"%char (String m1 (String m2 (String ":"%char (String s1 (String s2 rest)))))))))))))))))) =>
      d ← parse_day (String a0 (String a1 (String a2 (String a3 (String a4 (String a5 (String a6 (String a7 (String a8 (String a9 ""))))))))));
      h ← parse2 h1 h2; m ← parse2 m1 m2; sec ← parse2 s1 s2;
      if (h <=? 23) && (m <=? 59) && (sec <=? 59) then
        let '(ns, rest) := parse_fraction rest in
        offset ← parse_zone rest;
        Some (time_of_day d + h * hour + m * minute + sec * second + ns - offset)
      else None
  | _ => None
  end.

(** ** Facts *)

(** One era: years and days of the year are checked separately. *)
Definition year_start (y : Z) : Z := 365 * y + y / 4 - y / 100.
Definition year_last (y : Z) : Z := if y =? 399 then 146096 else year_start (y + 1) - 1.
Definition yoe_of (doe : Z) : Z := (doe - doe / 1460 + doe / 36524 - doe / 146096) / 365.
Definition year_ok (y : Z) : bool :=
  (yoe_of (year_start y) =? y) && (yoe_of (year_last y) =? y)
  && ((year_last y - year_start y =? 364) || ((year_last y - year_start y =? 365) && is_leap (y + 1))).
Definition month_day (doy : Z) : Z * Z :=
  let mp := (5 * doy + 2) / 153 in
  (if mp <? 10 then mp + 3 else mp - 9, doy - (153 * mp + 2) / 5 + 1).
Definition day_ok (doy : Z) : bool :=
  let '(m, d) := month_day doy in
  (1 <=? m) && (m <=? 12) && (1 <=? d) && ((d <=? days_in_month 1 m) || ((doy =? 365) && (m =? 2) && (d =? 29)))
  && ((153 * (if 2 <? m then m - 3 else m + 9) + 2) / 5 + d - 1 =? doy).

Lemma forallb_range (P : Z -> bool) n z : forallb P (seqZ 0 n) = true -> 0 <= z < n -> P z = true.
Proof. rewrite forallb_forall. intros H Hz. apply H, list_elem_of_In, elem_of_seqZ. lia. Qed.
Lemma year_ok_all y : 0 <= y < 400 -> year_ok y = true.
Proof. apply forallb_range. vm_compute. reflexivity. Qed.
Lemma day_ok_all doy : 0 <= doy < 366 -> day_ok doy = true.
Proof. apply forallb_range. vm_compute. reflexivity. Qed.

Lemma yoe_of_mono a b : 0 <= a <= b -> b < 146097 -> yoe_of a <= yoe_of b.
Proof. intros Ha Hb. apply Z.div_le_mono; [lia|]. Z.div_mod_to_equations. lia. Qed.

Lemma year_of_doe n doe : 0 <= n <= 400 -> 0 <= doe < (if n =? 400 then 146097 else year_start n) ->
  exists y, 0 <= y < n /\ year_start y <= doe <= year_last y.
Proof.
  intros Hn. rewrite <-(Z2Nat.id n) in * by lia. destruct Hn as [_ Hn]. induction (Z.to_nat n) as [|k IH]; intros Hd.
  - change (0 <= doe < 0) in Hd. lia.
  - destruct (Z.ltb_spec doe (year_start (Z.of_nat k))) as [Hlt|Hge].
    + destruct IH as (y & Hy & Hs); [lia|destruct (Z.eqb_spec (Z.of_nat k) 400); lia|]. exists y. lia.
    + exists (Z.of_nat k). unfold year_last. rewrite Nat2Z.inj_succ, <-Z.add_1_r in Hd. rewrite Nat2Z.inj_succ.
      destruct (Z.eqb_spec (Z.of_nat k) 399), (Z.eqb_spec (Z.of_nat k + 1) 400); lia.
Qed.

Lemma days_in_month_common y m : days_in_month 1 m <= days_in_month y m <= 31.
Proof. unfold days_in_month. change (is_leap 1) with false. repeat case_match; lia. Qed.

Lemma civil_of_doe_spec doe : 0 <= doe < 146097 ->
  let '(y, m, d) := civil_of_doe doe in
  1 <= m <= 12 /\ 1 <= d <= days_in_month y m /\ 0 <= y <= 400 /\ (doe < 145731 -> y <= 399) /\ days_of_civil y m d = doe - 719468.
Proof.
  intros Hd. destruct (year_of_doe 400 doe ltac:(lia) Hd) as (y & Hy & Hs).
  pose proof (year_ok_all y Hy) as Hok. unfold year_ok in Hok.
  apply andb_true_iff in Hok as [Hok Hyl]. apply andb_true_iff in Hok as [Hf Hl]. apply Z.eqb_eq in Hf, Hl. apply orb_true_iff in Hyl.
  assert (Hyoe : yoe_of doe = y).
  { assert (year_last y < 146097) by (unfold year_last, year_start; case_match; Z.div_mod_to_equations; lia).
    assert (0 <= year_start y) by (unfold year_start; Z.div_mod_to_equations; lia).
    pose proof (yoe_of_mono (year_start y) doe ltac:(lia) ltac:(lia)). pose proof (yoe_of_mono doe (year_last y) ltac:(lia) ltac:(lia)). lia. }
  assert (Hlen : 0 <= doe - year_start y < 366) by (destruct Hyl; bsplit; lia).
  pose proof (day_ok_all _ Hlen) as Hday. unfold day_ok in Hday.
  unfold civil_of_doe. fold (yoe_of doe). rewrite Hyoe. cbv zeta. change (365 * y + y / 4 - y / 100) with (year_start y).
  set (doy := doe - year_start y) in *. unfold month_day in Hday. set (m := if (5 * doy + 2) / 153 <? 10 then _ else _) in *.
  set (d := doy - _ + 1) in *.
  apply andb_true_iff in Hday as [Hday Hinv]. apply andb_true_iff in Hday as [Hday Hmax]. apply orb_true_iff in Hmax. bsplit. set (y' := if m <=? 2 then y + 1 else y).
  clearbody m d. assert (Hm2 : (if m <=? 2 then y' - 1 else y') = y) by (unfold y'; destruct (Z.leb_spec m 2); lia).
  assert (Hd' : d <= days_in_month y' m).
  { pose proof (days_in_month_common y' m). destruct Hmax; bsplit; [lia|].
    assert (is_leap y' = true) as Hleap.
    { subst y'. replace (m <=? 2) with true by lia. destruct Hyl; bsplit; [lia|done]. }
    unfold days_in_month. rewrite Hleap. replace (m =? 2) with true by lia. lia. }
  split; [lia|]. split; [lia|]. split; [subst y'; destruct (m <=? 2); lia|]. split.
  - intros Hlt. assert (y <> 399) by (intros ->; change (year_start 399) with 145731 in Hs; lia). subst y'. destruct (m <=? 2); lia.
  - unfold days_of_civil. cbv zeta. rewrite Hm2, Z.div_small, Z.mod_small by lia.
    change (y * 365) with (y * 365). unfold doy, year_start in *. lia.
Qed.

Lemma is_leap_era y k : is_leap (y + k * 400) = is_leap y.
Proof.
  unfold is_leap. replace (y + k * 400) with (y + (k * 100) * 4) at 1 by lia. rewrite Z_mod_plus_full.
  replace (y + k * 400) with (y + (k * 4) * 100) at 1 by lia. rewrite Z_mod_plus_full.
  by rewrite Z_mod_plus_full.
Qed.
Lemma days_of_civil_era y m d k : days_of_civil (y + k * 400) m d = days_of_civil y m d + k * 146097.
Proof.
  unfold days_of_civil. cbv zeta.
  replace (if m <=? 2 then y + k * 400 - 1 else y + k * 400) with ((if m <=? 2 then y - 1 else y) + k * 400) by (case_match; lia).
  rewrite Z_div_plus_full, Z_mod_plus_full by lia. lia.
Qed.

(** The days whose date has a year of four digits, short of the ends. *)
Definition four_digit_day (z : Z) : Prop := -719468 <= z < 24 * 146097 + 145731 - 719468.

Lemma civil_of_days_spec z : four_digit_day z ->
  let '(y, m, d) := civil_of_days z in
  0 <= y <= 9999 /\ 1 <= m <= 12 /\ 1 <= d <= days_in_month y m /\ d <= 31 /\ days_of_civil y m d = z.
Proof.
  unfold four_digit_day. intros Hz. unfold civil_of_days. set (e := (z + 719468) / 146097). set (r := (z + 719468) mod 146097).
  assert (Hr : 0 <= r < 146097) by (apply Z.mod_pos_bound; lia).
  assert (Her : z + 719468 = 146097 * e + r) by (apply Z.div_mod; lia).
  pose proof (civil_of_doe_spec r Hr) as Hok. destruct (civil_of_doe r) as [[y m] d]. destruct Hok as (Hm & Hd & Hy0 & Hy1 & Hci).
  rewrite days_of_civil_era.
  assert (Hleap : days_in_month (y + e * 400) m = days_in_month y m) by (unfold days_in_month; by rewrite is_leap_era).
  rewrite Hleap. pose proof (days_in_month_common y m). assert (He : 0 <= e <= 24) by lia.
  assert (Hy : e = 24 -> y <= 399) by lia. destruct (decide (e = 24)); lia.
Qed.

Lemma digit_value_digit n : 0 <= n <= 9 -> digit_value (digit n) = Some n.
Proof.
  intros Hn. unfold digit_value, digit. rewrite Ascii.N_ascii_embedding by lia.
  replace (Z.of_N (Z.to_N (48 + n)) - 48) with n by lia.
  by rewrite (proj2 (Z.leb_le 0 n)), (proj2 (Z.leb_le n 9)) by lia.
Qed.
Lemma parse2_pad2 n : 0 <= n <= 99 -> parse2 (digit (n / 10)) (digit (n mod 10)) = Some n.
Proof.
  intros Hn. unfold parse2. pose proof (Z.div_mod n 10 ltac:(lia)). pose proof (Z.mod_pos_bound n 10 ltac:(lia)).
  rewrite !digit_value_digit by lia. cbn. f_equal. lia.
Qed.

(** ** Dates are unique *)

(** Linear arithmetic with divisions by constants. *)
Ltac dlia := Z.to_euclidean_division_equations; lia.

Definition month_start (mp : Z) : Z := (153 * mp + 2) / 5.
Definition year_day (y : Z) : Z := 365 * y + y / 4 - y / 100 + y / 400.
Definition march_month (m : Z) : Z := if 2 <? m then m - 3 else m + 9.
Definition march_year (y m : Z) : Z := if m <=? 2 then y - 1 else y.
Lemma days_of_civil_eq y m d : days_of_civil y m d = year_day (march_year y m) + month_start (march_month m) + d - 1 - 719468.
Proof.
  unfold days_of_civil. fold (march_year y m). cbv zeta. set (y' := march_year y m). unfold year_day, month_start, march_month.
  assert (y' / 4 = 100 * (y' / 400) + y' mod 400 / 4) by dlia. assert (y' / 100 = 4 * (y' / 400) + y' mod 400 / 100) by dlia.
  pose proof (Z.div_mod y' 400 ltac:(lia)). lia.
Qed.

Lemma year_day_step y : year_day (y + 1) = year_day y + (if is_leap (y + 1) then 366 else 365).
Proof. unfold year_day, is_leap. destruct ((y + 1) mod 4 =? 0) eqn:H4, ((y + 1) mod 100 =? 0) eqn:H100, ((y + 1) mod 400 =? 0) eqn:H400; cbn; dlia. Qed.
Lemma year_day_mono y y' : y <= y' -> year_day y <= year_day y'.
Proof. unfold year_day. dlia. Qed.

(** The days of a month are those before the next one starts; February ends the
    year. *)
Lemma month_fits y m d : 1 <= m <= 12 -> 1 <= d <= days_in_month y m ->
  month_start (march_month m) + d <= (if m =? 2 then if is_leap y then 366 else 365 else month_start (march_month m + 1)).
Proof.
  intros Hm Hd. assert (m = 1 \/ m = 2 \/ m = 3 \/ m = 4 \/ m = 5 \/ m = 6 \/ m = 7 \/ m = 8 \/ m = 9 \/ m = 10 \/ m = 11 \/ m = 12) as Hc by lia.
  destruct Hc as [->|[->|[->|[->|[->|[->|[->|[->|[->|[->|[->| ->]]]]]]]]]]]; unfold month_start; cbn in Hd |- *; try destruct (is_leap y); cbn in *; dlia.
Qed.
Lemma month_start_mono a b : a <= b -> month_start a <= month_start b.
Proof. unfold month_start. dlia. Qed.
Lemma in_year y m d : 1 <= m <= 12 -> 1 <= d <= days_in_month y m ->
  0 <= month_start (march_month m) + d - 1 < year_day (march_year y m + 1) - year_day (march_year y m).
Proof.
  intros Hm Hd. rewrite year_day_step. pose proof (month_fits y m d Hm Hd) as Hf.
  assert (0 <= march_month m <= 11) by (unfold march_month; destruct (Z.ltb_spec 2 m); lia).
  pose proof (month_start_mono 0 (march_month m) ltac:(lia)). change (month_start 0) with 0 in *. split; [lia|].
  unfold march_year. destruct (Z.eqb_spec m 2) as [->|Hne].
  - cbn [Z.leb]. change (2 <=? 2) with true. cbv iota. replace (y - 1 + 1) with y by lia. lia.
  - assert (march_month m <= 10) by (unfold march_month in *; destruct (Z.ltb_spec 2 m); lia).
    pose proof (month_start_mono (march_month m + 1) 11 ltac:(lia)). change (month_start 11) with 337 in *. destruct (is_leap _); lia.
Qed.

Lemma days_of_civil_inj y m d y' m' d' : 1 <= m <= 12 -> 1 <= d <= days_in_month y m -> 1 <= m' <= 12 -> 1 <= d' <= days_in_month y' m' ->
  days_of_civil y m d = days_of_civil y' m' d' -> y = y' /\ m = m' /\ d = d'.
Proof.
  intros Hm Hd Hm' Hd'. rewrite !days_of_civil_eq. intros Heq.
  pose proof (in_year y m d Hm Hd) as H1. pose proof (in_year y' m' d' Hm' Hd') as H2.
  assert (Hy : march_year y m = march_year y' m').
  { destruct (Z.lt_trichotomy (march_year y m) (march_year y' m')) as [Hlt|[He|Hlt]]; [|done|].
    - pose proof (year_day_mono (march_year y m + 1) (march_year y' m') ltac:(lia)). lia.
    - pose proof (year_day_mono (march_year y' m' + 1) (march_year y m) ltac:(lia)). lia. }
  rewrite Hy in *. assert (Hs : month_start (march_month m) + d = month_start (march_month m') + d') by lia.
  pose proof (month_fits y m d Hm Hd) as F1. pose proof (month_fits y' m' d' Hm' Hd') as F2.
  assert (Hmm : forall a, 1 <= a <= 12 -> 0 <= march_month a <= 11 /\ (march_month a = 11 <-> a = 2)).
  { intros a Ha. unfold march_month. destruct (Z.ltb_spec 2 a); lia. }
  destruct (Hmm m Hm) as [B1 E1], (Hmm m' Hm') as [B2 E2].
  assert (Hmeq : march_month m = march_month m').
  { destruct (Z.lt_trichotomy (march_month m) (march_month m')) as [Hlt|[He|Hlt]]; [|done|].
    - pose proof (month_start_mono (march_month m + 1) (march_month m') ltac:(lia)). destruct (Z.eqb_spec m 2); lia.
    - pose proof (month_start_mono (march_month m' + 1) (march_month m) ltac:(lia)). destruct (Z.eqb_spec m' 2); lia. }
  assert (m = m') as -> by (unfold march_month in Hmeq; destruct (Z.ltb_spec 2 m), (Z.ltb_spec 2 m'); lia).
  unfold march_year in Hy. destruct (m' <=? 2); lia.
Qed.

Lemma digit_value_inj a b n : digit_value a = Some n -> digit_value b = Some n -> a = b.
Proof.
  unfold digit_value. intros Ha Hb. case_match; [|done]. case_match; [|done]. injection Ha as Ha. injection Hb as Hb.
  rewrite <-(Ascii.ascii_N_embedding a), <-(Ascii.ascii_N_embedding b). f_equal. lia.
Qed.
Lemma digit_value_range a n : digit_value a = Some n -> 0 <= n <= 9.
Proof. unfold digit_value. case_match eqn:Hb; [|done]. intros [= <-]. apply andb_true_iff in Hb as [?%Z.leb_le ?%Z.leb_le]. lia. Qed.
Lemma parse2_inj a b c d n : parse2 a b = Some n -> parse2 c d = Some n -> a = c /\ b = d.
Proof.
  unfold parse2. intros H1 H2.
  destruct (digit_value a) as [x|] eqn:Ha; [|done]. destruct (digit_value b) as [y|] eqn:Hb; [|done].
  destruct (digit_value c) as [u|] eqn:Hc; [|done]. destruct (digit_value d) as [v|] eqn:Hd; [|done]. cbn in *. injection H1 as H1. injection H2 as H2.
  pose proof (digit_value_range _ _ Ha). pose proof (digit_value_range _ _ Hb). pose proof (digit_value_range _ _ Hc). pose proof (digit_value_range _ _ Hd).
  assert (x = u) as -> by lia. assert (y = v) as -> by lia. split; by eapply digit_value_inj.
Qed.

(** The text of a date is determined by its day. *)
Lemma parse_day_Some s z : parse_day s = Some z ->
  exists y1 y2 y3 y4 m1 m2 d1 d2 yh yl m d,
    s = String y1 (String y2 (String y3 (String y4 (String "-"%char (String m1 (String m2 (String "-"%char (String d1 (String d2 ""))))))))) /\
    parse2 y1 y2 = Some yh /\ parse2 y3 y4 = Some yl /\ parse2 m1 m2 = Some m /\ parse2 d1 d2 = Some d /\
    1 <= m <= 12 /\ 1 <= d <= days_in_month (100 * yh + yl) m /\ z = days_of_civil (100 * yh + yl) m d.
Proof.
  destruct s as [|y1 [|y2 [|y3 [|y4 [|c1 [|m1 [|m2 [|c2 [|d1 [|d2 [|x s]]]]]]]]]]]; try done; cbn [parse_day];
    try (intros H; exfalso; by repeat (case_match; try done)).
  intros H. repeat (case_match; try done). destruct (parse2 y1 y2) as [yh|] eqn:E1; [|done]. destruct (parse2 y3 y4) as [yl|] eqn:E2; [|done].
  destruct (parse2 m1 m2) as [m|] eqn:E3; [|done]. destruct (parse2 d1 d2) as [d|] eqn:E4; [|done]. cbn in H.
  case_match eqn:Hb; [|done]. injection H as <-. rewrite !andb_true_iff, !Z.leb_le in Hb. destruct Hb as [[[? ?] ?] ?].
  do 12 eexists. split; [reflexivity|]. split_and!; try done.
Qed.
Lemma parse2_range a b n : parse2 a b = Some n -> 0 <= n <= 99.
Proof.
  unfold parse2. destruct (digit_value a) as [x|] eqn:Ha; [|done]. destruct (digit_value b) as [y|] eqn:Hb; [|done]. cbn. intros [= <-].
  pose proof (digit_value_range _ _ Ha). pose proof (digit_value_range _ _ Hb). lia.
Qed.
Lemma parse_day_inj s s' z : parse_day s = Some z -> parse_day s' = Some z -> s = s'.
Proof.
  intros (y1 & y2 & y3 & y4 & m1 & m2 & d1 & d2 & yh & yl & m & d & -> & E1 & E2 & E3 & E4 & Hm & Hd & ->)%parse_day_Some.
  intros (u1 & u2 & u3 & u4 & n1 & n2 & e1 & e2 & uh & ul & n & e & -> & F1 & F2 & F3 & F4 & Hn & He & Heq)%parse_day_Some.
  apply days_of_civil_inj in Heq as (Hy & <- & <-); [|done..].
  pose proof (parse2_range _ _ _ E1). pose proof (parse2_range _ _ _ E2). pose proof (parse2_range _ _ _ F1). pose proof (parse2_range _ _ _ F2).
  assert (yh = uh) as <- by lia. assert (yl = ul) as <- by lia.
  destruct (parse2_inj _ _ _ _ _ E1 F1), (parse2_inj _ _ _ _ _ E2 F2), (parse2_inj _ _ _ _ _ E3 F3), (parse2_inj _ _ _ _ _ E4 F4). by subst.
Qed.

(** A day reads back from its printed form. *)
Lemma parse_format_day z : four_digit_day z -> parse_day (format_day z) = Some z.
Proof.
  intros Hz. pose proof (civil_of_days_spec z Hz) as Hc. unfold format_day. destruct (civil_of_days z) as [[y m] d].
  destruct Hc as (Hy & Hm & Hd & Hd31 & Heq).
  pose proof (Z.div_mod y 100 ltac:(lia)). pose proof (Z.mod_pos_bound y 100 ltac:(lia)).
  cbv [pad2 String.append]. cbn [parse_day]. rewrite !parse2_pad2 by lia. cbn [mbind option_bind].
  replace (100 * (y / 100) + y mod 100) with y by lia. rewrite Heq.
  destruct Hm, Hd. by repeat (rewrite (proj2 (Z.leb_le _ _)) by eassumption; cbn [andb]).
Qed.
Lemma format_parse_day s z : parse_day s = Some z -> four_digit_day z -> format_day z = s.
Proof. intros Hs Hz. eapply parse_day_inj; [by apply parse_format_day|done]. Qed.

Lemma parse_frac_digits k n r : 0 <= n < 10 ^ Z.of_nat k -> (forall c s, r = String c s -> digit_value c = None) ->
  parse_frac k (frac_digits k n +:+ r) = (n, r).
Proof.
  intros Hn Hr. assert (Hstop : forall k, parse_frac k r = (0, r)).
  { intros k'. destruct r as [|c r']; destruct k'; cbn [parse_frac]; try done; by rewrite (Hr c r' eq_refl). }
  revert n Hn. induction k as [|k IH]; intros n Hn.
  - cbn in Hn. assert (n = 0) as -> by lia. apply (Hstop 0%nat).
  - cbn [frac_digits]. destruct (Z.eqb_spec n 0) as [->|Hn0]; [apply Hstop|].
    set (p := 10 ^ Z.of_nat k) in *. assert (Hp : 10 ^ Z.of_nat (S k) = 10 * p) by (unfold p; rewrite Nat2Z.inj_succ, Z.pow_succ_r; lia).
    assert (Hp0 : 0 < p) by (apply Z.pow_pos_nonneg; lia).
    pose proof (Z.div_mod n p ltac:(lia)). pose proof (Z.mod_pos_bound n p Hp0).
    change (String ?c ?t +:+ r) with (String c (t +:+ r)). cbn [parse_frac pred].
    rewrite digit_value_digit by (split; [apply Z.div_pos; lia|]; enough (n / p < 10) by lia; apply Z.div_lt_upper_bound; lia).
    rewrite IH by lia. f_equal. lia.
Qed.
Lemma parse_fraction_format ns : 0 <= ns < second ->
  parse_fraction ((if ns =? 0 then "" else "." +:+ frac_digits 9 ns) +:+ "Z") = (ns, "Z").
Proof.
  intros Hns. destruct (Z.eqb_spec ns 0) as [->|H0]; [reflexivity|].
  pose proof (parse_frac_digits 9 ns "Z" Hns ltac:(by intros ? ? [= <- <-])) as H. revert H.
  change (("." +:+ frac_digits 9 ns) +:+ "Z") with (String "." (frac_digits 9 ns +:+ "Z")).
  assert (exists c s, frac_digits 9 ns = String c s /\ is_Some (digit_value c)) as (c & s & -> & [d Hd]).
  { cbn [frac_digits]. rewrite (proj2 (Z.eqb_neq ns 0) H0). do 2 eexists. split; [reflexivity|]. eexists. apply digit_value_digit.
    change (10 ^ Z.of_nat 8) with 100000000. change second with 1000000000 in Hns.
    split; [apply Z.div_pos; lia|]. enough (ns / 100000000 < 10) by lia. apply Z.div_lt_upper_bound; lia. }
  change (String c s +:+ "Z") with (String c (s +:+ "Z")). unfold parse_fraction. by rewrite Hd.
Qed.

Lemma pad2_eq n r : pad2 n +:+ r = String (digit (n / 10)) (String (digit (n mod 10)) r).
Proof. reflexivity. Qed.

(** An instant reads back exactly. *)
Lemma parse_format_rfc3339 t : four_digit_day (day_of t) -> parse_rfc3339 (format_rfc3339 t) = Some t.
Proof.
  intros Ht. pose proof (parse_format_day _ Ht) as Hday. revert Hday. unfold format_rfc3339, format_day.
  destruct (civil_of_days (day_of t)) as [[y m] d]. set (n := t mod day). set (ns := n mod second). intros Hday.
  assert (Hn : 0 <= n < day) by (apply Z.mod_pos_bound; reflexivity).
  assert (Hns : 0 <= ns < second) by (apply Z.mod_pos_bound; reflexivity).
  pose proof (Z.div_mod t day ltac:(done)) as Htd. fold n in Htd. unfold day_of in *.
  set (tail := (if ns =? 0 then "" else "." +:+ frac_digits 9 ns) +:+ "Z").
  assert (Htail : parse_fraction tail = (ns, "Z")) by (by apply parse_fraction_format). clearbody tail.
  assert (Hh : 0 <= n / hour <= 23 /\ 0 <= (n / minute) mod 60 <= 59 /\ 0 <= (n / second) mod 60 <= 59 /\
    n / hour * hour + (n / minute) mod 60 * minute + (n / second) mod 60 * second + ns = n).
  { subst ns. clear Hday Htail. unfold day, hour, minute, second in *. Z.div_mod_to_equations; lia. }
  destruct Hh as (Hh & Hm & Hs & Hsum).
  revert Hday. cbv [pad2 String.append]. intros Hday. cbn [parse_rfc3339]. rewrite Hday. cbn [mbind option_bind].
  rewrite !parse2_pad2 by lia. cbn [mbind option_bind].
  rewrite (proj2 (Z.leb_le (n / hour) 23)), (proj2 (Z.leb_le ((n / minute) mod 60) 59)), (proj2 (Z.leb_le ((n / second) mod 60) 59)) by lia.
  cbn [andb]. rewrite Htail. cbn [parse_zone mbind option_bind]. f_equal. unfold time_of_day. lia.
Qed.
