(* ===== verification/Payloads.v ===== *)
(** * Queue jobs and their payloads

    [contract.QueueJob], the event types and payload structs of
    [domain/census/handler], and Go's [encoding/json] on them.  A payload is
    the JSON value its bytes denote; bytes that are not JSON are
    [JMalformed]. *)
From S2P Require Import Prelude GoErrors GoStrings.

(** ** JSON values *)
#[warnings="-register-all"]
Inductive json :=
  | JNull
  | JBool (b : bool)
  | JInt (z : Z)          (* an integer literal without fraction or exponent *)
  | JFloat (raw : string) (* any other number literal *)
  | JStr (s : string)
  | JArr (l : list json)
  | JObj (l : list (string * json))
  | JMalformed (raw : string).

(** port/contract/queue.go *)
Record QueueJob := mkQueueJob { qj_Type : string; qj_Payload : json }.

(** ** Event types *)
Definition EventIDSweep : string := "id-sweep".
Definition EventCharacterCensus : string := "character-census".
Definition EventAchievementCensus : string := "achievement-census".
Definition EventNewProxy : string := "new-proxy".

(** ** Decoding into struct fields *)

Definition ascii_lower (a : Ascii.ascii) : Ascii.ascii :=
  let n := Ascii.nat_of_ascii a in
  if ((65 <=? n) && (n <=? 90))%nat then Ascii.ascii_of_nat (n + 32) else a.
Fixpoint ToLower (s : string) : string :=
  match s with EmptyString => EmptyString | String a s => String (ascii_lower a) (ToLower s) end.

(** A [uint32] field: an integer literal in range; [null] leaves the field
    alone; anything else is an [UnmarshalTypeError]. *)
Definition set_u32 (old : Z) (v : json) : result Z :=
  match v with
  | JInt z => if (0 <=? z) && (z <=? max_uint32) then Ok z else Err (ErrorString "json: cannot unmarshal number")
  | JNull => Ok old
  | _ => Err (ErrorString "json: cannot unmarshal")
  end.
Definition set_string (old : string) (v : json) : result string :=
  match v with
  | JStr s => Ok s
  | JNull => Ok old
  | _ => Err (ErrorString "json: cannot unmarshal")
  end.

(** The members of the object, in order, each through the setter of the field
    its key names (case-insensitively); unknown keys are ignored; the first
    type error is reported. *)
Definition unmarshal_struct {A} (field : string -> option (A -> json -> result A)) (zero : A) (v : json) : result A :=
  match v with
  | JObj members =>
      fold_left (fun r kv =>
          match r, field (ToLower kv.1) with
          | Ok a, Some set => set a kv.2
          | _, _ => r
          end) members (Ok zero)
  | JNull => Ok zero
  | _ => Err (ErrorString "json: cannot unmarshal")
  end.

(** ** handler/idsweep.go, handler/event.go *)

Record IDSweepPayload := mkIDSweepPayload { is_From : Z; is_To : Z; is_Source : string }.
Record CharacterIDPayload := mkCharacterIDPayload { ci_CharacterID : Z }.

Definition IDSweepPayload_field (key : string) : option (IDSweepPayload -> json -> result IDSweepPayload) :=
  if bool_decide (key = "from") then Some (fun p v => x ← set_u32 (is_From p) v; mret (p{{ is_From := x }}))
  else if bool_decide (key = "to") then Some (fun p v => x ← set_u32 (is_To p) v; mret (p{{ is_To := x }}))
  else if bool_decide (key = "source") then Some (fun p v => x ← set_string (is_Source p) v; mret (p{{ is_Source := x }}))
  else None.
Definition unmarshal_IDSweep (v : json) : result IDSweepPayload :=
  unmarshal_struct IDSweepPayload_field (mkIDSweepPayload 0 0 "") v.
(** [json:"source,omitempty"]. *)
Definition marshal_IDSweep (p : IDSweepPayload) : json :=
  JObj ([("from", JInt (is_From p)); ("to", JInt (is_To p))]
        ++ (if bool_decide (is_Source p = "") then [] else [("source", JStr (is_Source p))])).

Definition CharacterID_field (key : string) : option (CharacterIDPayload -> json -> result CharacterIDPayload) :=
  if bool_decide (key = "character_id")
  then Some (fun p v => x ← set_u32 (ci_CharacterID p) v; mret (mkCharacterIDPayload x))
  else None.
(** [CharacterCensusPayload] and [AchievementCensusPayload] have the same
    single field. *)
Definition unmarshal_CharacterID (v : json) : result CharacterIDPayload :=
  unmarshal_struct CharacterID_field (mkCharacterIDPayload 0) v.
Definition marshal_CharacterID (p : CharacterIDPayload) : json :=
  JObj [("character_id", JInt (ci_CharacterID p))].

Definition AchievementCensusJob (characterID : Z) : QueueJob :=
  mkQueueJob EventAchievementCensus (marshal_CharacterID (mkCharacterIDPayload characterID)).
Definition CharacterCensusJob (characterID : Z) : QueueJob :=
  mkQueueJob EventCharacterCensus (marshal_CharacterID (mkCharacterIDPayload characterID)).
Definition BuildDependentCharacterJobs (characterID : Z) : list QueueJob := [AchievementCensusJob characterID].

(** ** Round trips *)

Lemma unmarshal_marshal_IDSweep p :
  is_u32 (is_From p) -> is_u32 (is_To p) -> unmarshal_IDSweep (marshal_IDSweep p) = Ok p.
Proof.
  intros Hf Ht. destruct p as [from to source]. unfold is_u32 in *. cbn in Hf, Ht.
  assert (Hset : forall old z, 0 <= z <= max_uint32 -> set_u32 old (JInt z) = Ok z).
  { intros old z Hz. unfold set_u32. by rewrite (proj2 (Z.leb_le 0 z)), (proj2 (Z.leb_le z max_uint32)) by lia. }
  unfold unmarshal_IDSweep, marshal_IDSweep, unmarshal_struct. cbn [is_From is_To is_Source].
  rewrite fold_left_app. cbn [fold_left fst snd].
  change (IDSweepPayload_field (ToLower "from"))
    with (Some (fun p v => x ← set_u32 (is_From p) v; mret (p{{ is_From := x }}))).
  change (IDSweepPayload_field (ToLower "to"))
    with (Some (fun p v => x ← set_u32 (is_To p) v; mret (p{{ is_To := x }}))).
  cbv beta iota. rewrite Hset by done. unfold mbind, result_bind, mret, result_ret. cbv beta iota. rewrite Hset by done.
  case_bool_decide; subst; reflexivity.
Qed.

Lemma unmarshal_marshal_CharacterID id :
  is_u32 id -> unmarshal_CharacterID (marshal_CharacterID (mkCharacterIDPayload id)) = Ok (mkCharacterIDPayload id).
Proof.
  unfold is_u32. intros Hid. unfold unmarshal_CharacterID, unmarshal_struct, marshal_CharacterID. cbn [fold_left fst snd].
  change (CharacterID_field (ToLower "character_id"))
    with (Some (fun p v => x ← set_u32 (ci_CharacterID p) v; mret (mkCharacterIDPayload x))).
  cbn -[Z.leb max_uint32]. by rewrite (proj2 (Z.leb_le 0 id)), (proj2 (Z.leb_le id max_uint32)) by lia.
Qed.
