(* ===== verification/Worlds.v ===== *)
(** * The world hierarchy ([domain/census/worlds.go], [region.go])

    Worlds roll up to datacenters and datacenters to regions.  Lookups match
    names as [strings.EqualFold] does. *)
From Stdlib Require Import Ascii.
From S2P Require Import Prelude GoStrings Payloads.

(** ** Case folding *)

(** Simple Unicode case folding as far as an ASCII name is concerned: besides
    its upper and lower case, ["k"] folds with the Kelvin sign and ["s"] with the
    long s; no other character folds to an ASCII one. *)
Definition kelvin : string := bytes [226; 132; 170]%nat.
Definition long_s : string := bytes [197; 191]%nat.
Fixpoint fold_name (s : string) : string :=
  match s with
  | EmptyString => ""
  | String a s1 =>
      let plain := String (ascii_lower a) (fold_name s1) in
      match s1 with
      | EmptyString => plain
      | String b s2 =>
          if bool_decide (String a (String b "") = long_s) then String "s"%char (fold_name s2)
          else match s2 with
               | EmptyString => plain
               | String c s3 =>
                   if bool_decide (String a (String b (String c "")) = kelvin) then String "k"%char (fold_name s3)
                   else plain
               end
      end
  end.
(** [strings.EqualFold(known, s)] for an ASCII [known]. *)
Definition EqualFold (known s : string) : bool := bool_decide (fold_name known = fold_name s).

(** ** The tables *)

(** [map[string]string] variables.  Ranging over a Go map has no fixed order;
    the lemmas below show that no result depends on it. *)
Definition datacenterRegion : gmap string string :=
  list_to_map [("Aether", "NA"); ("Primal", "NA"); ("Crystal", "NA"); ("Dynamis", "NA");
   ("Chaos", "EU"); ("Light", "EU");
   ("Elemental", "JP"); ("Gaia", "JP"); ("Mana", "JP"); ("Meteor", "JP"); ("Materia", "OCE")].
Definition RegionForDatacenter (dc : string) : string := default "" (datacenterRegion !! dc).

Definition worldDatacenters : gmap string string :=
  list_to_map [("Adamantoise", "Aether"); ("Cactuar", "Aether"); ("Faerie", "Aether"); ("Gilgamesh", "Aether"); ("Jenova", "Aether"); ("Midgardsormr", "Aether"); ("Sargatanas", "Aether"); ("Siren", "Aether");
   ("Behemoth", "Primal"); ("Excalibur", "Primal"); ("Exodus", "Primal"); ("Famfrit", "Primal"); ("Hyperion", "Primal"); ("Lamia", "Primal"); ("Leviathan", "Primal"); ("Ultros", "Primal");
   ("Balmung", "Crystal"); ("Brynhildr", "Crystal"); ("Coeurl", "Crystal"); ("Diabolos", "Crystal"); ("Goblin", "Crystal"); ("Malboro", "Crystal"); ("Mateus", "Crystal"); ("Zalera", "Crystal");
   ("Cuchulainn", "Dynamis"); ("Golem", "Dynamis"); ("Halicarnassus", "Dynamis"); ("Kraken", "Dynamis"); ("Maduin", "Dynamis"); ("Marilith", "Dynamis"); ("Rafflesia", "Dynamis"); ("Seraph", "Dynamis");
   ("Cerberus", "Chaos"); ("Louisoix", "Chaos"); ("Moogle", "Chaos"); ("Omega", "Chaos"); ("Phantom", "Chaos"); ("Ragnarok", "Chaos"); ("Sagittarius", "Chaos"); ("Spriggan", "Chaos");
   ("Alpha", "Light"); ("Lich", "Light"); ("Odin", "Light"); ("Phoenix", "Light"); ("Raiden", "Light"); ("Shiva", "Light"); ("Twintania", "Light"); ("Zodiark", "Light");
   ("Aegis", "Elemental"); ("Atomos", "Elemental"); ("Carbuncle", "Elemental"); ("Garuda", "Elemental"); ("Gungnir", "Elemental"); ("Kujata", "Elemental"); ("Tonberry", "Elemental"); ("Typhon", "Elemental");
   ("Alexander", "Gaia"); ("Bahamut", "Gaia"); ("Durandal", "Gaia"); ("Fenrir", "Gaia"); ("Ifrit", "Gaia"); ("Ridill", "Gaia"); ("Tiamat", "Gaia"); ("Ultima", "Gaia");
   ("Anima", "Mana"); ("Asura", "Mana"); ("Chocobo", "Mana"); ("Hades", "Mana"); ("Ixion", "Mana"); ("Masamune", "Mana"); ("Pandaemonium", "Mana"); ("Titan", "Mana");
   ("Belias", "Meteor"); ("Mandragora", "Meteor"); ("Ramuh", "Meteor"); ("Shinryu", "Meteor"); ("Unicorn", "Meteor"); ("Valefor", "Meteor"); ("Yojimbo", "Meteor"); ("Zeromus", "Meteor");
   ("Bismarck", "Materia"); ("Ravana", "Materia"); ("Sephirot", "Materia"); ("Sophia", "Materia"); ("Zurvan", "Materia")].

(** ** Lookups *)

(** The first key that folds to [name], ranging over the map. *)
Definition find_fold (m : gmap string string) (name : string) : option (string * string) :=
  head (filter (fun kv => EqualFold kv.1 name = true) (map_to_list m)).

Definition WorldDatacenter (world : string) : string :=
  match worldDatacenters !! world with
  | Some dc => dc
  | None => match find_fold worldDatacenters world with Some (_, dc) => dc | None => "" end
  end.

Definition sort_Strings (l : list string) : list string := merge_sort String.le l.

Definition Worlds : list string := sort_Strings (map_to_list worldDatacenters).*1.
Definition Datacenters : list string := sort_Strings (map_to_list datacenterRegion).*1.

Definition DatacentersForRegion (region : string) : list string :=
  if bool_decide (region = "") then []
  else sort_Strings (filter (fun kv => EqualFold kv.2 region = true) (map_to_list datacenterRegion)).*1.
Definition WorldsForDatacenter (dc : string) : list string :=
  if bool_decide (dc = "") then []
  else sort_Strings (filter (fun kv => EqualFold kv.2 dc = true) (map_to_list worldDatacenters)).*1.
Definition WorldsForRegion (region : string) : list string :=
  if bool_decide (region = "") then []
  else sort_Strings (filter (fun kv => EqualFold (RegionForDatacenter kv.2) region = true) (map_to_list worldDatacenters)).*1.

Definition canonicalWorld (world : string) : string :=
  match worldDatacenters !! world with
  | Some _ => world
  | None => match find_fold worldDatacenters world with Some (known, _) => known | None => world end
  end.

(** ** Facts *)


Definition map_check (P : string -> string -> bool) (m : gmap string string) : bool :=
  forallb (fun kv => P kv.1 kv.2) (map_to_list m).
Lemma map_check_spec P m : map_check P m = true -> forall k v, m !! k = Some v -> P k v = true.
Proof.
  unfold map_check. rewrite forallb_forall. intros H k v Hk. apply (H (k, v)), list_elem_of_In, elem_of_map_to_list, Hk.
Qed.

Lemma EqualFold_refl w : EqualFold w w = true.
Proof. unfold EqualFold. by rewrite bool_decide_true. Qed.

(** A table whose keys fold apart: at most one entry matches a name, so the
    order of the range does not matter. *)
Section FoldTable.
Context (m : gmap string string) (Hfold : NoDup (fold_name <$> (map_to_list m).*1)).

Lemma fold_unique w w' dc dc' : m !! w = Some dc -> m !! w' = Some dc' -> fold_name w = fold_name w' -> w = w'.
Proof using Hfold.
  intros Hw Hw' Hf. rewrite <-list_fmap_compose in Hfold.
  apply elem_of_map_to_list, list_elem_of_lookup in Hw as [i Hi]. apply elem_of_map_to_list, list_elem_of_lookup in Hw' as [j Hj].
  assert (i = j) as ->; [|congruence].
  eapply (NoDup_lookup _ _ _ (fold_name w) Hfold); rewrite list_lookup_fmap; [by rewrite Hi|]. rewrite Hj. cbn. by rewrite Hf.
Qed.

Lemma find_fold_Some name w dc : find_fold m name = Some (w, dc) <-> m !! w = Some dc /\ EqualFold w name = true.
Proof using Hfold.
  unfold find_fold. split.
  - intros H. apply head_Some_elem_of, list_elem_of_filter in H as [He Hin]. by apply elem_of_map_to_list in Hin.
  - intros [Hw He]. destruct (filter _ _) as [|[w' dc'] l] eqn:Hl.
    + assert (Hin : (w, dc) ∈ filter (fun kv => EqualFold kv.1 name = true) (map_to_list m))
        by (apply list_elem_of_filter; split; [done|by apply elem_of_map_to_list]).
      rewrite Hl in Hin. by apply elem_of_nil in Hin.
    + assert (Hin : (w', dc') ∈ filter (fun kv => EqualFold kv.1 name = true) (map_to_list m))
        by (rewrite Hl; apply list_elem_of_here).
      apply list_elem_of_filter in Hin as [He' Hw']. apply elem_of_map_to_list in Hw'. unfold EqualFold in *. cbn in *. bsplit.
      assert (w' = w) as -> by (apply (fold_unique _ _ dc' dc Hw' Hw); congruence). cbn. congruence.
Qed.
End FoldTable.

Lemma world_folds_distinct : NoDup (fold_name <$> (map_to_list worldDatacenters).*1).
Proof. apply (bool_decide_eq_true_1 _). vm_compute. reflexivity. Qed.
Lemma datacenter_folds_distinct : NoDup (fold_name <$> (map_to_list datacenterRegion).*1).
Proof. apply (bool_decide_eq_true_1 _). vm_compute. reflexivity. Qed.

Lemma elem_of_range P (m : gmap string string) w :
  w ∈ sort_Strings (filter (fun kv : string * string => P kv = true) (map_to_list m)).*1 <->
  exists v, m !! w = Some v /\ P (w, v) = true.
Proof.
  unfold sort_Strings. rewrite merge_sort_Permutation, list_elem_of_fmap. split.
  - intros ((w' & v) & -> & Hin). apply list_elem_of_filter in Hin as [HP Hin]. apply elem_of_map_to_list in Hin. eauto.
  - intros (v & Hv & HP). exists (w, v). split; [done|]. apply list_elem_of_filter. split; [done|]. by apply elem_of_map_to_list.
Qed.
Lemma NoDup_range P (m : gmap string string) :
  NoDup (sort_Strings (filter (fun kv : string * string => P kv = true) (map_to_list m)).*1).
Proof.
  unfold sort_Strings. rewrite merge_sort_Permutation.
  eapply sublist_NoDup; [apply (NoDup_fst_map_to_list m)|]. apply fmap_sublist, sublist_filter.
Qed.

Lemma elem_of_WorldsForDatacenter w dc : dc <> "" ->
  w ∈ WorldsForDatacenter dc <-> exists v, worldDatacenters !! w = Some v /\ EqualFold v dc = true.
Proof. intros Hdc. unfold WorldsForDatacenter. rewrite bool_decide_false by done. apply (elem_of_range (fun kv => EqualFold kv.2 dc)). Qed.
Lemma elem_of_WorldsForRegion w region : region <> "" ->
  w ∈ WorldsForRegion region <-> exists v, worldDatacenters !! w = Some v /\ EqualFold (RegionForDatacenter v) region = true.
Proof.
  intros Hr. unfold WorldsForRegion. rewrite bool_decide_false by done.
  apply (elem_of_range (fun kv => EqualFold (RegionForDatacenter kv.2) region)).
Qed.
Lemma NoDup_WorldsForDatacenter dc : NoDup (WorldsForDatacenter dc).
Proof. unfold WorldsForDatacenter. case_bool_decide; [constructor|]. apply (NoDup_range (fun kv => EqualFold kv.2 dc)). Qed.

(** Every world belongs to a datacenter with a region. *)
Lemma world_datacenter_known w dc : worldDatacenters !! w = Some dc -> w <> "" /\ is_Some (datacenterRegion !! dc).
Proof.
  intros Hw. assert (H : map_check (fun w dc => negb (bool_decide (w = "")) && bool_decide (is_Some (datacenterRegion !! dc))) worldDatacenters = true)
    by (vm_compute; reflexivity).
  pose proof (map_check_spec _ _ H _ _ Hw) as Hc. cbn beta in Hc. apply andb_true_iff in Hc as [H1 H2].
  split; [exact (bool_decide_eq_false_1 _ (proj1 (negb_true_iff _) H1))|exact (bool_decide_eq_true_1 _ H2)].
Qed.
#[global] Opaque worldDatacenters datacenterRegion.

(** A lookup under any spelling finds the entry of the canonical name. *)
Lemma canonicalWorld_spelling w dc name : worldDatacenters !! w = Some dc -> EqualFold w name = true ->
  canonicalWorld name = w /\ WorldDatacenter name = dc.
Proof.
  intros Hw He. unfold canonicalWorld, WorldDatacenter.
  rewrite (proj2 (find_fold_Some _ world_folds_distinct name w dc) (conj Hw He)).
  destruct (worldDatacenters !! name) as [dc'|] eqn:Hn; [|split; reflexivity].
  assert (w = name) as <-; [|split; congruence].
  apply (fold_unique _ world_folds_distinct _ _ _ _ Hw Hn). exact (bool_decide_eq_true_1 _ He).
Qed.
Lemma canonicalWorld_unknown name : (forall w dc, worldDatacenters !! w = Some dc -> EqualFold w name = false) ->
  canonicalWorld name = name /\ WorldDatacenter name = "".
Proof.
  intros Hn. unfold canonicalWorld, WorldDatacenter. destruct (worldDatacenters !! name) as [dc'|] eqn:Hl.
  - specialize (Hn _ _ Hl). rewrite EqualFold_refl in Hn. discriminate Hn.
  - destruct (find_fold worldDatacenters name) as [[w dc]|] eqn:Hf; [|split; reflexivity].
    apply (find_fold_Some _ world_folds_distinct) in Hf as [Hw He]. specialize (Hn _ _ Hw). congruence.
Qed.
