(* ===== verification/Limiter.v ===== *)
(** * Provider rate limiters ([infrastructure/provider/limiter.go],
      [proxy_limiter.go])

    Both implementations of [contract.ProviderRateLimiter]: the process-wide
    [RateLimiter] and the worker-local [ProxyRateLimiter].  Every method runs
    under the limiter's lock; [time.Now()] is an argument.  A wait is given the
    observations it makes: the state it reads, the clock, and what ends its
    timer. *)
From S2P Require Import Prelude GoErrors.

Definition ProviderLodestone : string := "lodestone".

Record RateLimiter := mkRateLimiter {
  rl_pausedUntil : gmap string Z;
  rl_reasons : gmap string string;
}.
Definition NewRateLimiter : RateLimiter := mkRateLimiter ∅ ∅.

(** One turn of a wait loop: the state read under the lock, the two clock
    readings, and the error of a context that ended the select. *)
Record wait_turn := mkWaitTurn {
  wt_state : RateLimiter;
  wt_now : Z;
  wt_until : Z; (* the clock when the remaining time is computed *)
  wt_cancel : option gerror;
}.

(** ** RateLimiter (limiter.go) *)
Definition RateLimiter_IsAvailable (r : RateLimiter) (now : Z) (p : string) : bool :=
  match rl_pausedUntil r !! p with
  | None => true
  | Some until => until <? now
  end.

Definition RateLimiter_Pause (r : RateLimiter) (now : Z) (p : string) (d : Z) (reason : string) : RateLimiter :=
  let newUntil := time_add now d in
  match rl_pausedUntil r !! p with
  | Some cur => if newUntil <? cur then r
                else mkRateLimiter (<[p := newUntil]> (rl_pausedUntil r)) (<[p := reason]> (rl_reasons r))
  | None => mkRateLimiter (<[p := newUntil]> (rl_pausedUntil r)) (<[p := reason]> (rl_reasons r))
  end.

Definition RateLimiter_PausedUntil (r : RateLimiter) (now : Z) (p : string) : Z * bool :=
  match rl_pausedUntil r !! p with
  | None => (zero_time, false)
  | Some until => if until <? now then (zero_time, false) else (until, true)
  end.

(** [None] while the wait goes on after the given turns. *)
Fixpoint RateLimiter_WaitUntilAvailable (p : string) (turns : list wait_turn) : option (result unit) :=
  match turns with
  | [] => None
  | t :: turns =>
      match rl_pausedUntil (wt_state t) !! p with
      | None => Some (Ok tt)
      | Some until =>
          if until <? wt_now t then Some (Ok tt)
          else
            let remaining := time_sub until (wt_until t) in
            if remaining <=? 0 then Some (Ok tt)
            else match wt_cancel t with
                 | Some e => Some (Err e)
                 | None => RateLimiter_WaitUntilAvailable p turns
                 end
      end
  end.

(** The fold over the map; [entries] is its iteration order. *)
Definition RateLimiter_EarliestAvailable (entries : list (string * Z)) (now : Z) : Z :=
  fold_left (fun earliest kv =>
    if now <? kv.2 then if is_zero_time earliest || (kv.2 <? earliest) then kv.2 else earliest
    else earliest) entries zero_time.

Definition RateLimiter_Reset (r : RateLimiter) (p : string) : RateLimiter :=
  mkRateLimiter (delete p (rl_pausedUntil r)) (delete p (rl_reasons r)).

(** ** ProxyRateLimiter (proxy_limiter.go): same fields, own code *)
Definition ProxyRateLimiter_IsAvailable (r : RateLimiter) (now : Z) (p : string) : bool :=
  match rl_pausedUntil r !! p with
  | None => true
  | Some until => until <? now
  end.

(** A missing entry reads as the zero time. *)
Definition ProxyRateLimiter_Pause (r : RateLimiter) (now : Z) (p : string) (d : Z) (reason : string) : RateLimiter :=
  let newUntil := time_add now d in
  let current := default zero_time (rl_pausedUntil r !! p) in
  if newUntil <? current then r
  else mkRateLimiter (<[p := newUntil]> (rl_pausedUntil r)) (<[p := reason]> (rl_reasons r)).

Definition ProxyRateLimiter_PausedUntil (r : RateLimiter) (now : Z) (p : string) : Z * bool :=
  match rl_pausedUntil r !! p with
  | None => (zero_time, false)
  | Some until => if until <? now then (zero_time, false) else (until, true)
  end.

Fixpoint ProxyRateLimiter_WaitUntilAvailable (p : string) (turns : list wait_turn) : option (result unit) :=
  match turns with
  | [] => None
  | t :: turns =>
      if ProxyRateLimiter_IsAvailable (wt_state t) (wt_now t) p then Some (Ok tt)
      else
        let until := default zero_time (rl_pausedUntil (wt_state t) !! p) in
        let waitDuration := time_sub until (wt_until t) in
        if waitDuration <=? 0 then Some (Ok tt)
        else match wt_cancel t with
             | Some e => Some (Err e)
             | None => ProxyRateLimiter_WaitUntilAvailable p turns
             end
  end.

Definition ProxyRateLimiter_EarliestAvailable (entries : list (string * Z)) (now : Z) : Z :=
  fold_left (fun earliest kv =>
    if (now <? kv.2) && (is_zero_time earliest || (kv.2 <? earliest)) then kv.2 else earliest) entries zero_time.

Definition ProxyRateLimiter_Reset (r : RateLimiter) (p : string) : RateLimiter :=
  mkRateLimiter (delete p (rl_pausedUntil r)) (delete p (rl_reasons r)).

(** ** The interface *)

(** [contract.ProviderRateLimiter] over a state type. *)
Record ProviderRateLimiter (S : Type) := mkProviderRateLimiter {
  prl_IsAvailable : S -> Z -> string -> bool;
  prl_Pause : S -> Z -> string -> Z -> string -> S;
  prl_PausedUntil : S -> Z -> string -> Z * bool;
  prl_EarliestAvailable : S -> Z -> Z;
  prl_Reset : S -> string -> S;
}.
Arguments prl_IsAvailable {S}.
Arguments prl_Pause {S}.
Arguments prl_PausedUntil {S}.
Arguments prl_EarliestAvailable {S}.
Arguments prl_Reset {S}.

(** [order] is the iteration order of the map. *)
Definition global_limiter (order : gmap string Z -> list (string * Z)) : ProviderRateLimiter RateLimiter :=
  mkProviderRateLimiter _ RateLimiter_IsAvailable RateLimiter_Pause RateLimiter_PausedUntil
    (fun r now => RateLimiter_EarliestAvailable (order (rl_pausedUntil r)) now) RateLimiter_Reset.
Definition local_limiter (order : gmap string Z -> list (string * Z)) : ProviderRateLimiter RateLimiter :=
  mkProviderRateLimiter _ ProxyRateLimiter_IsAvailable ProxyRateLimiter_Pause ProxyRateLimiter_PausedUntil
    (fun r now => ProxyRateLimiter_EarliestAvailable (order (rl_pausedUntil r)) now) ProxyRateLimiter_Reset.

(** A call on a limiter and its answer. *)
Inductive limiter_call :=
  | CallIsAvailable (now : Z) (p : string)
  | CallPause (now : Z) (p : string) (d : Z) (reason : string)
  | CallPausedUntil (now : Z) (p : string)
  | CallEarliest (now : Z)
  | CallReset (p : string).
Inductive limiter_answer := AnsBool (b : bool) | AnsUnit | AnsPaused (t : Z) (b : bool) | AnsTime (t : Z).

Definition limiter_step {S} (l : ProviderRateLimiter S) (s : S) (c : limiter_call) : S * limiter_answer :=
  match c with
  | CallIsAvailable now p => (s, AnsBool (prl_IsAvailable l s now p))
  | CallPause now p d reason => (prl_Pause l s now p d reason, AnsUnit)
  | CallPausedUntil now p => (s, let '(t, b) := prl_PausedUntil l s now p in AnsPaused t b)
  | CallEarliest now => (s, AnsTime (prl_EarliestAvailable l s now))
  | CallReset p => (prl_Reset l s p, AnsUnit)
  end.
Fixpoint limiter_run {S} (l : ProviderRateLimiter S) (s : S) (cs : list limiter_call) : S * list limiter_answer :=
  match cs with
  | [] => (s, [])
  | c :: cs =>
      let '(s, a) := limiter_step l s c in
      let '(s, rest) := limiter_run l s cs in (s, a :: rest)
  end.

(** ** Facts *)

(** What [EarliestAvailable] computes: the least pause end after [now]. *)
Definition earliest_of (entries : list (string * Z)) (now r : Z) : Prop :=
  (r = zero_time /\ Forall (fun kv => kv.2 <= now) entries)
  \/ (now < r /\ r ∈ entries.*2 /\ Forall (fun kv => now < kv.2 -> r <= kv.2) entries).

Lemma RateLimiter_EarliestAvailable_spec entries now : zero_time <= now ->
  earliest_of entries now (RateLimiter_EarliestAvailable entries now).
Proof.
  intros Hnow. unfold RateLimiter_EarliestAvailable. induction entries as [|[p v] entries IH] using rev_ind; [by left; split|].
  rewrite fold_left_app. cbn [fold_left snd]. set (r := fold_left _ entries zero_time) in *.
  assert (Hsnd : forall x, x ∈ entries.*2 \/ x = v -> x ∈ (entries ++ [(p, v)]).*2).
  { intros x Hx. rewrite fmap_app, elem_of_app. cbn. rewrite list_elem_of_singleton. tauto. }
  destruct (Z.ltb_spec now v) as [Hv|Hv].
  - right. destruct (is_zero_time r || (v <? r)) eqn:Hz.
    + split; [done|]. split; [apply Hsnd; by right|]. apply Forall_app. split; [|by constructor].
      destruct IH as [[Hr Hall]|(Hr & _ & Hall)]; eapply Forall_impl; try exact Hall; cbn; intros kv Hkv Hgt; [lia|].
      specialize (Hkv Hgt). unfold is_zero_time in Hz. apply orb_true_iff in Hz as [Hz|Hz]; bsplit; lia.
    + unfold is_zero_time in Hz. bsplit. destruct IH as [[Hr _]|(Hr & Hin & Hall)]; [done|].
      split; [done|]. split; [apply Hsnd; by left|]. apply Forall_app. split; [done|]. by constructor.
  - destruct IH as [[Hr Hall]|(Hr & Hin & Hall)].
    + left. split; [done|]. apply Forall_app. split; [done|]. by constructor.
    + right. split; [done|]. split; [apply Hsnd; by left|]. apply Forall_app. split; [done|]. constructor; [cbn; lia|done].
Qed.
Lemma earliest_of_perm e1 e2 now r : e1 ≡ₚ e2 -> earliest_of e1 now r -> earliest_of e2 now r.
Proof.
  intros Hp. assert (Hin : forall x, x ∈ e2 -> x ∈ e1) by (intros x; by rewrite Hp).
  unfold earliest_of. rewrite !list.Forall_forall. intros [[-> H]|(H & I & L)]; [left|right]; split; eauto.
  split; [|eauto]. by rewrite <- (fmap_Permutation snd _ _ Hp).
Qed.
Lemma earliest_of_unique e1 e2 now r1 r2 : e1 ≡ₚ e2 -> earliest_of e1 now r1 -> earliest_of e2 now r2 -> r1 = r2.
Proof.
  intros Hp Hr1 Hr2. apply (earliest_of_perm _ _ _ _ Hp) in Hr1. revert Hr1 Hr2. unfold earliest_of. rewrite !list.Forall_forall.
  assert (Hpick : forall r, now < r -> r ∈ e2.*2 -> exists kv, kv ∈ e2 /\ kv.2 = r).
  { intros r _ (kv & -> & Hkv)%list_elem_of_fmap. by exists kv. }
  intros [[-> H1]|(H1 & I1 & L1)] [[-> H2]|(H2 & I2 & L2)]; [done|..].
  - destruct (Hpick _ H2 I2) as (kv & Hkv & <-). specialize (H1 _ Hkv). lia.
  - destruct (Hpick _ H1 I1) as (kv & Hkv & <-). specialize (H2 _ Hkv). lia.
  - destruct (Hpick _ H1 I1) as (kv & Hkv & <-), (Hpick _ H2 I2) as (kv' & Hkv' & <-).
    pose proof (L1 _ Hkv' H2). pose proof (L2 _ Hkv H1). lia.
Qed.
Lemma ProxyRateLimiter_EarliestAvailable_eq entries now :
  ProxyRateLimiter_EarliestAvailable entries now = RateLimiter_EarliestAvailable entries now.
Proof.
  unfold ProxyRateLimiter_EarliestAvailable, RateLimiter_EarliestAvailable. generalize zero_time.
  induction entries as [|kv entries IH]; intros e; [done|]. cbn [fold_left]. rewrite <- IH. f_equal. by destruct (now <? kv.2).
Qed.

Lemma ProxyRateLimiter_Pause_eq r now p d reason : zero_time <= now + d ->
  ProxyRateLimiter_Pause r now p d reason = RateLimiter_Pause r now p d reason.
Proof.
  intros Hz. unfold ProxyRateLimiter_Pause, RateLimiter_Pause, time_add. destruct (rl_pausedUntil r !! p) as [cur|]; cbn; [done|].
  by rewrite (proj2 (Z.ltb_ge (now + d) zero_time)).
Qed.

(** Calls whose times are not before year 1. *)
Definition dated (c : limiter_call) : Prop :=
  match c with
  | CallPause now _ d _ => zero_time <= now + d
  | CallEarliest now => zero_time <= now
  | _ => True
  end.

(** the worker-local limiter and the process-wide limiter are the
    same limiter.  From the same state, any sequence of calls (with times not
    before year 1) gets the same answers and leaves the same state, whatever
    order each of them walks its map in; the earliest availability both report
    is the least pause end after now; and a wait with the same observations
    ends the same way. *)
Theorem limiters_agree (order1 order2 : gmap string Z -> list (string * Z)) (s : RateLimiter) (cs : list limiter_call)
    (Horder1 : forall m, order1 m ≡ₚ map_to_list m) (Horder2 : forall m, order2 m ≡ₚ map_to_list m) (Hdated : Forall dated cs) :
  limiter_run (global_limiter order1) s cs = limiter_run (local_limiter order2) s cs
  /\ (forall now, zero_time <= now ->
       earliest_of (map_to_list (rl_pausedUntil s)) now (prl_EarliestAvailable (local_limiter order2) s now))
  /\ (forall p turns, RateLimiter_WaitUntilAvailable p turns = ProxyRateLimiter_WaitUntilAvailable p turns).
Proof.
  assert (Hear : forall m now, zero_time <= now ->
    RateLimiter_EarliestAvailable (order1 m) now = ProxyRateLimiter_EarliestAvailable (order2 m) now).
  { intros m now Hn. rewrite ProxyRateLimiter_EarliestAvailable_eq.
    apply (earliest_of_unique (order1 m) (order2 m) now); [by rewrite Horder1, Horder2|by apply RateLimiter_EarliestAvailable_spec..]. }
  split; [|split].
  - revert s. induction Hdated as [|c cs Hc _ IH]; intros s; [done|]. cbn [limiter_run].
    assert (Hstep : limiter_step (global_limiter order1) s c = limiter_step (local_limiter order2) s c).
    { destruct c; cbn; try done; [by rewrite ProxyRateLimiter_Pause_eq|by rewrite Hear]. }
    rewrite Hstep. destruct (limiter_step (local_limiter order2) s c) as [s' a]. by rewrite IH.
  - intros now Hn. cbn. rewrite <- (Hear _ _ Hn). 
    apply (earliest_of_perm (order1 (rl_pausedUntil s))); [done|]. by apply RateLimiter_EarliestAvailable_spec.
  - intros p turns. induction turns as [|t turns IH]; [done|]. cbn [RateLimiter_WaitUntilAvailable ProxyRateLimiter_WaitUntilAvailable].
    unfold ProxyRateLimiter_IsAvailable. destruct (rl_pausedUntil (wt_state t) !! p) as [until|]; [|done]. cbn [default].
    rewrite IH. by destruct (until <? wt_now t).
Qed.

Lemma limiters_agree_witness :
  limiter_run (global_limiter map_to_list) NewRateLimiter
    [CallPause 5 ProviderLodestone 10 "429"; CallPause 6 ProviderLodestone 2 "202"; CallIsAvailable 15 ProviderLodestone; CallEarliest 7]
  = limiter_run (local_limiter (fun m => reverse (map_to_list m))) NewRateLimiter
    [CallPause 5 ProviderLodestone 10 "429"; CallPause 6 ProviderLodestone 2 "202"; CallIsAvailable 15 ProviderLodestone; CallEarliest 7].
Proof.
  apply limiters_agree; [done|intros m; apply reverse_Permutation|]. repeat constructor; unfold dated, zero_time, second; lia.
Defined.

(** ** Pauses hold *)

Definition paused_past (r : RateLimiter) (p : string) (t : Z) : Prop := exists until, rl_pausedUntil r !! p = Some until /\ t <= until.

Lemma Pause_pauses r now p d reason : paused_past (RateLimiter_Pause r now p d reason) p (now + d).
Proof.
  unfold RateLimiter_Pause, paused_past, time_add. destruct (rl_pausedUntil r !! p) as [cur|] eqn:Hc.
  - destruct (Z.ltb_spec (now + d) cur); [exists cur; split; [done|lia]|]. eexists. split; [apply lookup_insert_eq|lia].
  - eexists. split; [apply lookup_insert_eq|lia].
Qed.
Lemma Pause_keeps r now q d reason p t : paused_past r p t -> paused_past (RateLimiter_Pause r now q d reason) p t.
Proof.
  intros (until & Hu & Ht). destruct (decide (q = p)) as [->|Hne].
  - unfold RateLimiter_Pause, paused_past, time_add. rewrite Hu. destruct (Z.ltb_spec (now + d) until); [by exists until|].
    eexists. split; [apply lookup_insert_eq|lia].
  - exists until. split; [|done]. unfold RateLimiter_Pause. repeat case_match; cbn; rewrite ?lookup_insert_ne by done; done.
Qed.
Lemma limiter_step_keeps order s c p t : c <> CallReset p -> paused_past s p t ->
  paused_past (limiter_step (global_limiter order) s c).1 p t.
Proof.
  intros Hc Hp. destruct c; cbn; try done; [by apply Pause_keeps|].
  destruct Hp as (until & Hu & Ht). exists until. cbn. rewrite lookup_delete_ne by congruence. done.
Qed.
Lemma limiter_run_keeps order p t cs : forall s, CallReset p ∉ cs -> paused_past s p t ->
  paused_past (limiter_run (global_limiter order) s cs).1 p t.
Proof.
  induction cs as [|c cs IH]; intros s Hcs Hp; [done|]. cbn [limiter_run].
  pose proof (limiter_step_keeps order s c p t ltac:(set_solver) Hp) as Hs.
  destruct (limiter_step (global_limiter order) s c) as [s1 a]. specialize (IH s1 ltac:(set_solver) Hs).
  by destruct (limiter_run (global_limiter order) s1 cs).
Qed.

(** A pause holds.  After [Pause(p, d)] at [now], whatever calls
    other goroutines make short of [Reset(p)] (shorter pauses included), the
    provider is unavailable until [now+d]; a wait that sees only such states
    returns without error only once the clock has reached [now+d]; and a wait
    that sees the clock past the end of the pause it reads returns in that
    turn. *)
Theorem pause_holds (order : gmap string Z -> list (string * Z)) (s : RateLimiter) now p d reason
    (turns : list wait_turn) :
  (forall cs t, CallReset p ∉ cs -> t <= now + d ->
     RateLimiter_IsAvailable (limiter_run (global_limiter order) (RateLimiter_Pause s now p d reason) cs).1 t p = false)
  /\ ((forall t, t ∈ turns -> exists cs, CallReset p ∉ cs
         /\ wt_state t = (limiter_run (global_limiter order) (RateLimiter_Pause s now p d reason) cs).1) ->
      RateLimiter_WaitUntilAvailable p turns = Some (Ok tt) ->
      exists t, t ∈ turns /\ now + d <= Z.max (wt_now t) (wt_until t))
  /\ (forall t rest until, turns = t :: rest -> rl_pausedUntil (wt_state t) !! p = Some until -> until < wt_now t ->
      RateLimiter_WaitUntilAvailable p turns = Some (Ok tt)).
Proof.
  assert (Hpast : forall cs, CallReset p ∉ cs ->
    paused_past (limiter_run (global_limiter order) (RateLimiter_Pause s now p d reason) cs).1 p (now + d)).
  { intros cs Hcs. apply limiter_run_keeps; [done|apply Pause_pauses]. }
  split; [|split].
  - intros cs t Hcs Ht. destruct (Hpast cs Hcs) as (until & Hu & Hle). unfold RateLimiter_IsAvailable. rewrite Hu. apply Z.ltb_ge. lia.
  - induction turns as [|t turns IH]; intros Hturns Hw; [done|]. cbn [RateLimiter_WaitUntilAvailable] in Hw.
    destruct (Hturns t ltac:(left)) as (cs & Hcs & Ht). destruct (Hpast cs Hcs) as (until & Hu & Hle). rewrite Ht, Hu in Hw.
    destruct (Z.ltb_spec until (wt_now t)); [exists t; split; [left|lia]|].
    destruct (Z.leb_spec (time_sub until (wt_until t)) 0) as [Hr|Hr].
    + exists t. split; [left|]. unfold time_sub, min_int64, max_int64 in Hr. lia.
    + destruct (wt_cancel t); [done|]. destruct IH as (t' & Hin & Ht'); [intros; apply Hturns; by right|done|].
      exists t'. split; [by right|done].
  - intros t rest until -> Hu Hlt. cbn [RateLimiter_WaitUntilAvailable]. rewrite Hu. by rewrite (proj2 (Z.ltb_lt until (wt_now t))).
Qed.

Lemma pause_holds_witness :
  RateLimiter_IsAvailable (limiter_run (global_limiter map_to_list) (RateLimiter_Pause NewRateLimiter 5 ProviderLodestone 10 "429")
    [CallPause 6 ProviderLodestone 2 "202"]).1 15 ProviderLodestone = false.
Proof.
  refine (proj1 (pause_holds map_to_list NewRateLimiter 5 ProviderLodestone 10 "429" []) [_] 15 _ _).
  - intros H. apply list_elem_of_singleton in H. discriminate H.
  - lia.
Defined.
