(* ===== verification/Contract.v ===== *)
(** * Port contracts

    The data types of [port/contract]: the proxy record and the scan pipeline
    values, the character records, the queue job.  Field names keep the Go
    names behind a two-letter prefix; pointers are [option]s, [time.Time] and
    [time.Duration] are [Z] nanoseconds, floats that only order rows are [Z]. *)
From S2P Require Import Prelude GoErrors.

(** ** port/contract/proxy.go *)

Definition ProxyStatusActive : string := "active".
Definition ProxyStatusInactive : string := "inactive".
Definition ProxyStatusDead : string := "dead".

Record ProxyRecord := mkProxyRecord {
  pr_ID : Z;
  pr_Protocol : string;
  pr_IP : string;
  pr_Port : Z;
  pr_Country : option string;
  pr_Anonymity : option string;
  pr_LatencyMS : option Z;
  pr_UptimePercent : option Z;
  pr_Status : string;
  pr_LastScannedAt : option Z;
  pr_LastAliveAt : option Z;
  pr_FirstSeenAt : Z;
  pr_Source : string;
  pr_FailCount : Z;
  pr_LockedBy : option string;
  pr_LockedAt : option Z;
  pr_CreatedAt : Z;
  pr_UpdatedAt : Z;
  pr_GeneralHealthy : bool;
  pr_LastCompletedAt : option Z;
  pr_LastVerifiedAt : option Z;
  pr_NextAttemptAt : option Z;
  pr_ScanNotBefore : option Z;
  pr_RecoveryStep : Z;
  pr_ObservationVersion : Z;
  pr_ScanToken : option string;
  pr_ScanLeaseUntil : option Z;
  pr_ClaimedVersion : option Z;
  pr_DestinationCooldownUntil : option Z;
}.

Global Instance ProxyRecord_eq_dec : EqDecision ProxyRecord.
Proof. solve_decision. Defined.

(** The zero [ProxyRecord] of Go, the base of the records discovery builds. *)
Definition zeroProxyRecord : ProxyRecord := {|
  pr_ID := 0; pr_Protocol := ""; pr_IP := ""; pr_Port := 0; pr_Country := None; pr_Anonymity := None;
  pr_LatencyMS := None; pr_UptimePercent := None; pr_Status := ""; pr_LastScannedAt := None;
  pr_LastAliveAt := None; pr_FirstSeenAt := zero_time; pr_Source := ""; pr_FailCount := 0;
  pr_LockedBy := None; pr_LockedAt := None; pr_CreatedAt := zero_time; pr_UpdatedAt := zero_time;
  pr_GeneralHealthy := false; pr_LastCompletedAt := None; pr_LastVerifiedAt := None;
  pr_NextAttemptAt := None; pr_ScanNotBefore := None; pr_RecoveryStep := 0;
  pr_ObservationVersion := 0; pr_ScanToken := None; pr_ScanLeaseUntil := None;
  pr_ClaimedVersion := None; pr_DestinationCooldownUntil := None |}.

(** ** port/contract/proxy_scan.go *)

Inductive ScanQueue := ScanVerification | ScanRecovery | ScanBackground.
Inductive ScanOutcome := ScanInconclusive | ScanSuccess | ScanFailure.

Global Instance ScanQueue_eq_dec : EqDecision ScanQueue.
Proof. solve_decision. Defined.
Global Instance ScanOutcome_eq_dec : EqDecision ScanOutcome.
Proof. solve_decision. Defined.

Record ProxyScanPolicy := mkProxyScanPolicy {
  sp_VerifyInterval : Z;
  sp_FreshnessTTL : Z;
  sp_RecoveryBase : Z;
  sp_RecoveryCap : Z;
  sp_RecoveryHorizon : Z;
  sp_LeaseDuration : Z;
  sp_MinRepeatInterval : Z;
  sp_InconclusiveRetry : Z;
  sp_DeadAfter : Z;
  sp_FailThreshold : Z;
}.

Record ScanLease := mkScanLease {
  sl_Record : ProxyRecord;
  sl_Token : string;
  sl_Version : Z;
}.

Global Instance ScanLease_eq_dec : EqDecision ScanLease.
Proof. solve_decision. Defined.

Record ScanUpdate := mkScanUpdate {
  su_Outcome : ScanOutcome;
  su_LatencyMS : Z;
  su_NextDelay : Z;
  su_RepeatDelay : Z;
  su_RecoveryStep : Z;
  su_FreshnessTTL : Z;
  su_DeadAfter : Z;
  su_FailThreshold : Z;
}.

Record GuardSnapshot := mkGuardSnapshot {
  gs_Healthy : bool;
  gs_Generation : Z;
}.

(** The queue index the dispatcher's arrays use, [contract.ScanQueue(i)]. *)
Definition queue_index (q : ScanQueue) : nat :=
  match q with ScanVerification => 0 | ScanRecovery => 1 | ScanBackground => 2 end%nat.

Definition queue_of_index (i : nat) : option ScanQueue :=
  match i with
  | 0%nat => Some ScanVerification | 1%nat => Some ScanRecovery | 2%nat => Some ScanBackground
  | _ => None
  end.

Lemma queue_of_index_index q : queue_of_index (queue_index q) = Some q.
Proof. by destruct q. Qed.

(** ** port/contract/census.go and port/contract/lodestone.go *)

Record CharacterRecord := mkCharacterRecord {
  cr_ID : Z;
  cr_Name : string;
  cr_World : string;
  cr_Datacenter : string;
  cr_Region : string;
  cr_Race : string;
  cr_Tribe : string;
  cr_Gender : Z;
  cr_GrandCompany : string;
  cr_FreeCompanyID : option string;
  cr_FreeCompanyName : option string;
  cr_Bio : string;
  cr_ActiveJob : string;
  cr_ItemLevel : Z;
  cr_AchievementsPrivate : bool;
  cr_LatestAchievementID : option Z;
  cr_LatestAchievementAt : option Z;
  cr_FirstSeenAt : Z;
  cr_LastCensusAt : option Z;
  cr_DeletedAt : option Z;
}.

Record ClassJobRecord := mkClassJobRecord {
  cj_CharacterID : Z;
  cj_ClassJobID : Z;
  cj_Name : string;
  cj_Level : Z;
  cj_ExpLevel : Z;
}.

Definition MilestoneKindExpansion : string := "expansion_msq".
Definition MilestoneKindChocobo : string := "chocobo".

Record MilestoneAchievement := mkMilestoneAchievement {
  ma_AchievementID : Z;
  ma_Kind : string;
  ma_Expansion : option string;
  ma_Detail : string;
}.

Record CharacterMilestone := mkCharacterMilestone {
  cm_CharacterID : Z;
  cm_AchievementID : Z;
  cm_AchievedAt : Z;
}.

Record CharacterProfile := mkCharacterProfile {
  cp_ID : Z;
  cp_Name : string;
  cp_World : string;
  cp_Datacenter : string;
  cp_Gender : Z;
  cp_Bio : string;
  cp_Race : string;
  cp_Tribe : string;
  cp_GrandCompany : string;
  cp_FreeCompanyID : string;
  cp_FreeCompanyName : string;
  cp_ActiveJob : string;
  cp_ClassJobs : list ClassJobRecord;
}.

Record AchievementResult := mkAchievementResult {
  ar_AchievementID : Z;
  ar_Name : string;
  ar_Earned : bool;
  ar_EarnedAt : Z;
}.

Record AchievementSummary := mkAchievementSummary {
  as_Private : bool;
  as_TotalAchievements : Z;
  as_TotalPoints : Z;
  as_Milestones : list AchievementResult;
  as_LatestAchievement : option AchievementResult;
}.

Global Instance CharacterRecord_eq_dec : EqDecision CharacterRecord.
Proof. solve_decision. Defined.
Global Instance ClassJobRecord_eq_dec : EqDecision ClassJobRecord.
Proof. solve_decision. Defined.
Global Instance CharacterMilestone_eq_dec : EqDecision CharacterMilestone.
Proof. solve_decision. Defined.
Global Instance MilestoneAchievement_eq_dec : EqDecision MilestoneAchievement.
Proof. solve_decision. Defined.

(** Rows of the aggregates. *)
Record GroupCount := mkGroupCount { gc_Key : string; gc_Total : Z; gc_Active : Z }.
Record ExpansionCount := mkExpansionCount { ec_Expansion : string; ec_Count : Z }.
Record DailyCount := mkDailyCount { dc_Day : string; dc_Count : Z }.
