(* ===== verification/Scheduling.v ===== *)
(** * Proxy scan scheduling policy ([domain/proxy/scheduling.go])

    The recovery ladder, the attribution of a finished check and the relative
    update the store applies.  Durations are 64-bit; the ladder's doubling is
    wrapped at that width and proved never to wrap. *)
From S2P Require Import Prelude GoErrors Contract.

(** ** Definitions *)

(** The loop of [RecoveryDelay]: [n] iterations are left. *)
Fixpoint RecoveryDelay_loop (n : nat) (d cap : Z) : Z :=
  match n with
  | O => if cap <? d then cap else d
  | S n =>
      if d <? cap then
        if Z.quot cap 2 <? d then cap
        else RecoveryDelay_loop n (i64 (d * 2)) cap
      else if cap <? d then cap else d
  end.

Definition RecoveryDelay (step base cap : Z) : Z :=
  RecoveryDelay_loop (Z.to_nat step) base cap.

(** [for s < 64 && RecoveryDelay(s, base, cap) < cap { s++ }]. *)
Fixpoint recoveryStepBound_loop (fuel : nat) (s base cap : Z) : Z :=
  match fuel with
  | O => s
  | S fuel =>
      if (s <? 64) && (RecoveryDelay s base cap <? cap)
      then recoveryStepBound_loop fuel (s + 1) base cap
      else s
  end.

(** [s] starts at one and stops at 64, so 64 iterations are never exceeded. *)
Definition recoveryStepBound (base cap : Z) : Z :=
  recoveryStepBound_loop 64 1 base cap + 1.

Definition ClassifyCheck (err : option gerror) (start finish : GuardSnapshot) : ScanOutcome :=
  match err with
  | None => ScanSuccess
  | Some err =>
      if errors_Is err ContextCanceled then ScanInconclusive
      else match errors_As_check err with
           | None => ScanInconclusive
           | Some checkErr =>
               let stable := gs_Healthy start && gs_Healthy finish
                             && (gs_Generation start =? gs_Generation finish) in
               if stable && (bool_decide (ce_Kind checkErr = CheckProxy)
                             || bool_decide (ce_Kind checkErr = CheckDeadline))
               then ScanFailure
               else ScanInconclusive
           end
  end.

Definition MakeConsumerFailureUpdate (p : ProxyScanPolicy) (rec : ProxyRecord) : ScanUpdate :=
  let step := i64 (pr_RecoveryStep rec + 1) in
  let bound := recoveryStepBound (sp_RecoveryBase p) (sp_RecoveryCap p) in
  let step := if (step <? 1) || (bound <? step) then bound else step in
  {| su_Outcome := ScanFailure;
     su_LatencyMS := 0;
     su_NextDelay := RecoveryDelay (step - 1) (sp_RecoveryBase p) (sp_RecoveryCap p);
     su_RepeatDelay := sp_MinRepeatInterval p;
     su_RecoveryStep := step;
     su_FreshnessTTL := sp_FreshnessTTL p;
     su_DeadAfter := sp_DeadAfter p;
     su_FailThreshold := sp_FailThreshold p |}.

Definition MakeScanUpdate (p : ProxyScanPolicy) (rec : ProxyRecord) (latency : Z)
    (err : option gerror) (start finish : GuardSnapshot) : ScanUpdate :=
  let update := {| su_Outcome := ScanInconclusive; su_LatencyMS := latency; su_NextDelay := 0;
                   su_RepeatDelay := 0; su_RecoveryStep := 0;
                   su_FreshnessTTL := sp_FreshnessTTL p; su_DeadAfter := sp_DeadAfter p;
                   su_FailThreshold := sp_FailThreshold p |} in
  match ClassifyCheck err start finish with
  | ScanSuccess =>
      update{{ su_Outcome := ScanSuccess; su_NextDelay := sp_VerifyInterval p;
               su_RepeatDelay := sp_MinRepeatInterval p; su_RecoveryStep := 0 }}
  | ScanFailure =>
      let failure := MakeConsumerFailureUpdate p rec in
      update{{ su_Outcome := su_Outcome failure; su_NextDelay := su_NextDelay failure;
               su_RepeatDelay := su_RepeatDelay failure;
               su_RecoveryStep := su_RecoveryStep failure }}
  | ScanInconclusive =>
      let delay := sp_InconclusiveRetry p in
      let delay := match err with
                   | None => delay
                   | Some err =>
                       match errors_As_check err with
                       | Some checkErr => if delay <? ce_RetryAfter checkErr
                                          then ce_RetryAfter checkErr else delay
                       | None => delay
                       end
                   end in
      update{{ su_Outcome := ScanInconclusive; su_RecoveryStep := pr_RecoveryStep rec;
               su_NextDelay := delay; su_RepeatDelay := delay }}
  end.

(** ** The recovery ladder *)

(** Reference: the base doubled once per step, capped. *)
Definition ladder (step base cap : Z) : Z := Z.min cap (base * 2 ^ step).

Section Ladder.
  Context (base cap : Z) (Hbase : 0 < base) (Hcap : 0 < cap <= max_int64).

Lemma pow2_pos n : 0 <= n -> 1 <= 2 ^ n.
  Proof. intros. pose proof (Z.pow_pos_nonneg 2 n). lia. Qed.

  (** The loop computes the capped doubling from any positive start, and the
      64-bit product it forms never wraps. *)
Lemma RecoveryDelay_loop_spec n d :
    0 < d -> RecoveryDelay_loop n d cap = Z.min cap (d * 2 ^ Z.of_nat n).
  Proof.
    revert d. induction n as [|n IH]; intros d Hd; [simpl; zbool; lia|].
    pose proof (pow2_pos (Z.of_nat n)) as Hp.
    cbn [RecoveryDelay_loop].
    rewrite Nat2Z.inj_succ, Z.pow_succ_r by lia.
    destruct (Z.ltb_spec d cap); [|zbool; nia].
    pose proof (Z.quot_rem' cap 2). pose proof (Z.rem_bound_pos cap 2).
    destruct (Z.ltb_spec (Z.quot cap 2) d); [nia|].
    rewrite IH by (unfold i64, max_int64 in *; rewrite Z.mod_small; lia).
    rewrite i64_id by (unfold is_i64, min_int64, max_int64 in *; lia).
    f_equal. lia.
  Qed.

Lemma RecoveryDelay_ladder step : 0 <= step -> RecoveryDelay step base cap = ladder step base cap.
  Proof. intros. unfold RecoveryDelay, ladder. rewrite RecoveryDelay_loop_spec by lia. by rewrite Z2Nat.id. Qed.

Lemma ladder_mono s t : 0 <= s <= t -> ladder s base cap <= ladder t base cap.
  Proof. intros. unfold ladder. assert (2 ^ s <= 2 ^ t) by (apply Z.pow_le_mono_r; lia). nia. Qed.

Lemma ladder_64 s : 64 <= s -> ladder s base cap = cap.
  Proof.
    intros. unfold ladder. assert (2 ^ 64 <= 2 ^ s) by (apply Z.pow_le_mono_r; lia).
    unfold max_int64 in *. nia.
  Qed.

  (** The bound's loop stops at a step whose delay is the cap. *)
Lemma recoveryStepBound_loop_spec fuel s :
    1 <= s <= 64 -> 64 - s <= Z.of_nat fuel ->
    let r := recoveryStepBound_loop fuel s base cap in
    s <= r <= 64 /\ ladder r base cap = cap.
  Proof.
    revert s. induction fuel as [|fuel IH]; intros s Hs Hf; cbn.
    { assert (s = 64) as -> by lia. split; [lia|]. by apply ladder_64. }
    destruct (Z.ltb_spec s 64); cbn.
    - rewrite RecoveryDelay_ladder by lia.
      destruct (Z.ltb_spec (ladder s base cap) cap).
      + destruct (IH (s + 1)) as [? ?]; [lia|lia|]. split; [lia|done].
      + split; [lia|]. unfold ladder in *. lia.
    - assert (s = 64) as -> by lia. split; [lia|]. by apply ladder_64.
  Qed.

Lemma recoveryStepBound_spec :
    2 <= recoveryStepBound base cap <= 65
    /\ ladder (recoveryStepBound base cap - 1) base cap = cap.
  Proof.
    unfold recoveryStepBound. destruct (recoveryStepBound_loop_spec 64 1) as [? ?]; [lia|lia|].
    split; [lia|]. by replace (_ + 1 - 1) with (recoveryStepBound_loop 64 1 base cap) by lia.
  Qed.
End Ladder.

(** The wait before the [step]-th recovery retry is exactly
    [min cap (base * 2^step)], for every step: the 64-bit doubling of the code
    never wraps and the delay never exceeds the cap. *)
Theorem RecoveryDelay_correct (step base cap : Z)
    (Hstep : 0 <= step) (Hbase : 0 < base) (Hcap : 0 < cap <= max_int64) :
  RecoveryDelay step base cap = Z.min cap (base * 2 ^ step).
Proof. by apply RecoveryDelay_ladder. Qed.

Lemma RecoveryDelay_correct_witness : RecoveryDelay 3 minute (15 * minute) = 8 * minute.
Proof.
  rewrite (RecoveryDelay_correct 3 minute (15 * minute)); [reflexivity|lia|reflexivity|].
  split; [reflexivity|]. unfold minute, second, max_int64. lia.
Defined.

(** Clamping the stored recovery step is invisible: from any stored
    step in the non-negative [int64] range the next delay is the unclamped ladder value
    [min cap (base * 2^step)], while the step written back stays between 1 and
    the (at most 65) bound. *)
Theorem MakeConsumerFailureUpdate_delay (p : ProxyScanPolicy) (rec : ProxyRecord)
    (Hbase : 0 < sp_RecoveryBase p) (Hcap : 0 < sp_RecoveryCap p <= max_int64)
    (Hstep : 0 <= pr_RecoveryStep rec <= max_int64) :
  let u := MakeConsumerFailureUpdate p rec in
  su_NextDelay u = Z.min (sp_RecoveryCap p) (sp_RecoveryBase p * 2 ^ pr_RecoveryStep rec)
  /\ 1 <= su_RecoveryStep u <= 65
  /\ su_RepeatDelay u = sp_MinRepeatInterval p.
Proof.
  destruct (recoveryStepBound_spec _ _ Hbase Hcap) as [Hb Hl].
  unfold MakeConsumerFailureUpdate; cbn -[i64].
  fold (ladder (pr_RecoveryStep rec) (sp_RecoveryBase p) (sp_RecoveryCap p)).
  set (bound := recoveryStepBound _ _) in *.
  set (s := if _ || _ then _ else _).
  assert (Hs : 1 <= s <= bound /\
    (s = pr_RecoveryStep rec + 1 \/ (s = bound /\ bound - 1 <= pr_RecoveryStep rec))).
  { subst s. destruct (Z.eqb_spec (pr_RecoveryStep rec) max_int64) as [->|].
    - replace (i64 (max_int64 + 1)) with min_int64 by reflexivity.
      unfold min_int64, max_int64. simpl. lia.
    - rewrite i64_id by (unfold is_i64, min_int64; lia). zbool; lia. }
  destruct Hs as [Hrange Hs].
  rewrite RecoveryDelay_ladder by lia.
  split; [|lia].
  destruct Hs as [->|[-> Hge]]; [f_equal; lia|].
  rewrite Hl. apply Z.le_antisymm; [|unfold ladder; lia].
  rewrite <- Hl at 1. apply ladder_mono; lia.
Qed.

Definition sample_policy : ProxyScanPolicy :=
  mkProxyScanPolicy minute (2 * minute) minute (15 * minute) hour (30 * second) (10 * second)
    minute (2 * day) 5.

Definition sample_failed : ProxyRecord := zeroProxyRecord{{ pr_RecoveryStep := 900 }}.

Lemma MakeConsumerFailureUpdate_delay_witness :
  su_NextDelay (MakeConsumerFailureUpdate sample_policy sample_failed)
    = Z.min (15 * minute) (minute * 2 ^ 900)
  /\ su_RecoveryStep (MakeConsumerFailureUpdate sample_policy sample_failed) = 5.
Proof.
  split; [|vm_compute; reflexivity].
  apply (MakeConsumerFailureUpdate_delay sample_policy sample_failed).
  - reflexivity.
  - split; [reflexivity|vm_compute; discriminate].
  - vm_compute; split; discriminate.
Defined.

(** ** Attribution *)

(** A check is a conclusive failure exactly when it failed without
    a cancelled context in its chain, the first typed check error is a proxy or deadline failure,
    and the guard was healthy with the same generation at both ends; it is a
    success exactly when there was no error. *)
Lemma ClassifyCheck_failure_iff (err : option gerror) (start finish : GuardSnapshot) :
  (ClassifyCheck err start finish = ScanFailure <->
     exists e c, err = Some e /\ errors_Is e ContextCanceled = false
       /\ errors_As_check e = Some c
       /\ (ce_Kind c = CheckProxy \/ ce_Kind c = CheckDeadline)
       /\ gs_Healthy start = true /\ gs_Healthy finish = true
       /\ gs_Generation start = gs_Generation finish)
  /\ (ClassifyCheck err start finish = ScanSuccess <-> err = None).
Proof.
  unfold ClassifyCheck. split.
  - split.
    + destruct err as [e|]; [|done].
      destruct (errors_Is e ContextCanceled) eqn:?; [done|].
      destruct (errors_As_check e) as [c|] eqn:?; [|done].
      case_match eqn:H; [|done]. intros _. apply andb_true_iff in H as [Hst Hk].
      apply orb_true_iff in Hk. bsplit. exists e, c.
      split_and!; try done. destruct Hk; bsplit; [by left|by right].
    + intros (e & c & -> & -> & -> & Hk & -> & -> & ->). simpl. rewrite Z.eqb_refl. simpl.
      destruct Hk as [->| ->]; reflexivity.
  - destruct err as [e|]; [|done]. split; [|done].
    repeat case_match; done.
Qed.

Lemma MakeScanUpdate_outcome p rec latency err start finish :
  su_Outcome (MakeScanUpdate p rec latency err start finish) = ClassifyCheck err start finish.
Proof. unfold MakeScanUpdate. by destruct (ClassifyCheck err start finish). Qed.

(** A scan update schedules: after a success the verification
    interval with a reset recovery sequence; after a failure the ladder delay
    with the common repeat floor; after an inconclusive attempt no sooner than
    the inconclusive floor, honouring a longer Retry-After, with the step kept. *)
Theorem MakeScanUpdate_schedule (p : ProxyScanPolicy) (rec : ProxyRecord) (latency : Z)
    (err : option gerror) (start finish : GuardSnapshot) :
  let u := MakeScanUpdate p rec latency err start finish in
  su_Outcome u = ClassifyCheck err start finish
  /\ su_LatencyMS u = latency
  /\ match su_Outcome u with
     | ScanSuccess => su_NextDelay u = sp_VerifyInterval p /\ su_RepeatDelay u = sp_MinRepeatInterval p
                      /\ su_RecoveryStep u = 0
     | ScanFailure => su_NextDelay u = su_NextDelay (MakeConsumerFailureUpdate p rec)
                      /\ su_RepeatDelay u = sp_MinRepeatInterval p
                      /\ su_RecoveryStep u = su_RecoveryStep (MakeConsumerFailureUpdate p rec)
     | ScanInconclusive => sp_InconclusiveRetry p <= su_NextDelay u
                      /\ su_RepeatDelay u = su_NextDelay u
                      /\ su_RecoveryStep u = pr_RecoveryStep rec
                      /\ forall e c, err = Some e -> errors_As_check e = Some c ->
                           su_NextDelay u = Z.max (sp_InconclusiveRetry p) (ce_RetryAfter c)
     end.
Proof.
  unfold MakeScanUpdate.
  destruct (ClassifyCheck err start finish); cbn; [|done|done].
  split_and!; try done.
  - destruct err as [e|]; [|lia]. destruct (errors_As_check e); zbool; lia.
  - intros e c -> ->. zbool; lia.
Qed.
