(* ===== verification/Admission.v ===== *)
(** * Scan admission ([domain/proxy/worker/admission.go])

    Reservation of the executor slots across the three scan queues, and the
    persistent smooth weighted round robin used when fewer than three slots
    exist.  Go's [[3]int] arrays are [arr3]; the reservation is computed in
    64-bit integers that wrap around. *)
From S2P Require Import Prelude GoErrors Contract.

(** ** Fixed arrays of length three *)
Record arr3 (A : Type) := Arr3 { at0 : A; at1 : A; at2 : A }.
Arguments Arr3 {A} _ _ _.
Arguments at0 {A} _.
Arguments at1 {A} _.
Arguments at2 {A} _.

Definition aget {A} (a : arr3 A) (i : nat) : A :=
  match i with O => at0 a | 1%nat => at1 a | _ => at2 a end.
Definition aset {A} (a : arr3 A) (i : nat) (x : A) : arr3 A :=
  match i with
  | O => Arr3 x (at1 a) (at2 a)
  | 1%nat => Arr3 (at0 a) x (at2 a)
  | _ => Arr3 (at0 a) (at1 a) x
  end.
Definition asum (a : arr3 Z) : Z := at0 a + at1 a + at2 a.
Definition indices : list nat := [0%nat; 1%nat; 2%nat].

(** ** Definitions *)

Definition scanQueueCount : Z := 3.

(** One pass of the proportional split: [targets[i] += share; shared += share]. *)
Definition share_pass (remaining : Z) (rest : arr3 Z) (targets : arr3 Z) : arr3 Z * Z :=
  fold_left (fun '(targets, shared) i =>
      let share := Z.quot (i64 (remaining * aget rest i)) 100 in
      (aset targets i (i64 (aget targets i + share)), i64 (shared + share)))
    indices (targets, 0).

(** [best, bestRemainder := -1, -1; for i := range rest { ... }]. *)
Definition best_remainder (remaining : Z) (rest : arr3 Z) : option nat * Z :=
  fold_left (fun '(best, bestRemainder) i =>
      let r := Z.rem (i64 (remaining * aget rest i)) 100 in
      if bestRemainder <? r then (Some i, r) else (best, bestRemainder))
    indices (None, -1).

(** The leftover loop; [None] is Go's index panic on [targets[-1]]. *)
Fixpoint leftover_loop (leftover : nat) (remaining : Z) (rest targets : arr3 Z) : option (arr3 Z) :=
  match leftover with
  | O => Some targets
  | S leftover =>
      match best_remainder remaining rest with
      | (None, _) => None
      | (Some best, _) =>
          leftover_loop leftover remaining (aset rest best 0) (aset targets best (i64 (aget targets best + 1)))
      end
  end.

Definition reservationTargets (concurrency : Z) (weights : arr3 Z) : option (arr3 Z) :=
  if concurrency <? scanQueueCount then Some (Arr3 0 0 0)
  else
    let remaining := concurrency - scanQueueCount in
    let '(targets, shared) := share_pass remaining weights (Arr3 1 1 1) in
    leftover_loop (Z.to_nat (i64 (remaining - shared))) remaining weights targets.

(** The persistent admission state of one dispatcher. *)
Record admission := mkAdmission {
  ad_credits : arr3 Z;
  ad_borrower : nat;
}.

(** The body of [chooseSmall]'s loop over [(total, best, credits)]. *)
Definition chooseSmall_step (available : arr3 bool) (weights : arr3 Z)
    (st : Z * option nat * arr3 Z) (i : nat) : Z * option nat * arr3 Z :=
  let '(total, best, credits) := st in
  if negb (aget available i) then (total, best, aset credits i 0)
  else
    let credits := aset credits i (aget credits i + aget weights i) in
    let best := match best with
                | None => Some i
                | Some b => if aget credits b <? aget credits i then Some i else Some b
                end in
    (total + aget weights i, best, credits).

Definition chooseSmall (a : admission) (available : arr3 bool) (weights : arr3 Z)
    : admission * option nat :=
  let '(total, best, credits) :=
    fold_left (chooseSmall_step available weights) indices (0, None, ad_credits a) in
  match best with
  | None => (a{{ ad_credits := credits }}, None)
  | Some b => (a{{ ad_credits := aset credits b (aget credits b - total) }}, Some b)
  end.

(** ** Reservation *)

Definition pos3 (w : arr3 Z) : Prop := 0 < at0 w /\ 0 < at1 w /\ 0 < at2 w.

(** The best remainder is the first largest one. *)
Lemma best_remainder_spec remaining rest :
  let r i := Z.rem (i64 (remaining * aget rest i)) 100 in
  0 <= r 0%nat -> 0 <= r 1%nat -> 0 <= r 2%nat ->
  exists b, best_remainder remaining rest = (Some b, r b) /\ (b < 3)%nat
    /\ r 0%nat <= r b /\ r 1%nat <= r b /\ r 2%nat <= r b.
Proof.
  intros r H0 H1 H2. unfold best_remainder, indices. cbn [fold_left].
  repeat match goal with
  | |- context [Z.ltb ?a ?b] => destruct (Z.ltb_spec a b); cbv beta iota zeta
  end; try (subst r; cbv beta in *; lia);
  [exists 2%nat|exists 1%nat|exists 2%nat|exists 0%nat]; subst r; cbv beta in *; (split; [done|]); lia.
Qed.

(** Splitting [n] by percentages: the shares fall short of [n] by a whole
    number of slots, at most two. *)
Lemma shares_leftover n w0 w1 w2 :
  0 <= n -> 0 < w0 -> 0 < w1 -> 0 < w2 -> w0 + w1 + w2 = 100 ->
  let q w := Z.quot (n * w) 100 in let r w := Z.rem (n * w) 100 in
  100 * (n - (q w0 + q w1 + q w2)) = r w0 + r w1 + r w2
  /\ (0 <= r w0 < 100) /\ (0 <= r w1 < 100) /\ (0 <= r w2 < 100).
Proof.
  intros Hn H0 H1 H2 Hs q r.
  pose proof (Z.quot_rem' (n * w0) 100). pose proof (Z.quot_rem' (n * w1) 100).
  pose proof (Z.quot_rem' (n * w2) 100).
  pose proof (Z.rem_bound_pos (n * w0) 100). pose proof (Z.rem_bound_pos (n * w1) 100).
  pose proof (Z.rem_bound_pos (n * w2) 100). subst q r. cbv beta in *.
  assert (0 <= n * w0 /\ 0 <= n * w1 /\ 0 <= n * w2) by nia.
  assert (n * w0 + n * w1 + n * w2 = 100 * n) by nia.
  lia.
Qed.

(** One leftover slot raises one target by one. *)
Definition bump (targets : arr3 Z) (b : nat) : arr3 Z := aset targets b (aget targets b + 1).
Definition small_target (t : Z) : Prop := 0 <= t < max_int64.

Lemma leftover_one remaining rest targets :
  let r i := Z.rem (i64 (remaining * aget rest i)) 100 in
  0 <= r 0%nat -> 0 <= r 1%nat -> 0 <= r 2%nat -> (forall i, small_target (aget targets i)) ->
  exists b, (b < 3)%nat /\ (forall n, leftover_loop (S n) remaining rest targets
      = leftover_loop n remaining (aset rest b 0) (bump targets b))
    /\ r 0%nat <= r b /\ r 1%nat <= r b /\ r 2%nat <= r b.
Proof.
  intros r H0 H1 H2 Ht.
  destruct (best_remainder_spec remaining rest H0 H1 H2) as (b & Hb & Hlt & Hmax).
  exists b. split; [done|]. split; [|done].
  intros n. cbn [leftover_loop]. rewrite Hb, i64_id; [done|]. specialize (Ht b). unfold small_target, is_i64, min_int64 in *. lia.
Qed.

(** Products and sums of a split that fits. *)
Lemma share_fits n w : 0 <= n -> 0 < w < 100 -> n * 100 <= max_int64 -> 0 <= n * w <= max_int64 /\ 0 <= Z.quot (n * w) 100 <= n.
Proof.
  intros Hn Hw Hm. assert (0 <= n * w <= n * 100) by nia. split; [lia|].
  pose proof (Z.quot_rem' (n * w) 100). pose proof (Z.rem_bound_pos (n * w) 100 ltac:(lia) ltac:(lia)). lia.
Qed.
Lemma nonneg_i64 x : 0 <= x <= max_int64 -> i64 x = x.
Proof. intros H. apply i64_id. unfold is_i64, min_int64. lia. Qed.

(** With at least three slots, percentage weights summing to 100 and products
    that fit a machine integer, the reservation never panics, gives every queue
    at least one slot, stays within one slot of the queue's proportional share,
    and uses exactly the available concurrency. *)
Theorem reservationTargets_correct (concurrency : Z) (weights : arr3 Z)
    (Hc : 3 <= concurrency) (Hfits : (concurrency - 3) * 100 <= max_int64) (Hw : pos3 weights) (Hsum : asum weights = 100) :
  exists targets, reservationTargets concurrency weights = Some targets
    /\ asum targets = concurrency
    /\ forall i, (i < 3)%nat ->
         let share := Z.quot ((concurrency - 3) * aget weights i) 100 in
         1 + share <= aget targets i <= 2 + share.
Proof.
  destruct weights as [w0 w1 w2]. destruct Hw as (H0 & H1 & H2). cbn in *. unfold asum in Hsum. cbn in Hsum.
  set (n := concurrency - 3) in *. assert (Hmax : 1000 <= max_int64) by done.
  destruct (shares_leftover n w0 w1 w2) as (Hl & Hr0 & Hr1 & Hr2); try lia.
  destruct (share_fits n w0) as [F0 G0]; [lia..|]. destruct (share_fits n w1) as [F1 G1]; [lia..|]. destruct (share_fits n w2) as [F2 G2]; [lia..|].
  unfold reservationTargets, scanQueueCount.
  destruct (Z.ltb_spec concurrency 3); [lia|]. fold n.
  unfold share_pass, indices. cbn [fold_left aget aset at0 at1 at2]. rewrite !(nonneg_i64 (n * _)) by lia.
  set (q0 := Z.quot (n * w0) 100) in *. set (q1 := Z.quot (n * w1) 100) in *.
  set (q2 := Z.quot (n * w2) 100) in *.
  assert (Hcases : n - (0 + q0 + q1 + q2) = 0 \/ n - (0 + q0 + q1 + q2) = 1 \/ n - (0 + q0 + q1 + q2) = 2) by lia.
  rewrite !(nonneg_i64 (0 + q0)), !(nonneg_i64 (0 + q0 + q1)), (nonneg_i64 (0 + q0 + q1 + q2)), !(nonneg_i64 (1 + _)), (nonneg_i64 (n - _)) by lia.
  set (t := Arr3 (1 + q0) (1 + q1) (1 + q2)).
  assert (Ht : forall i, small_target (aget t i)) by (intros [|[|i]]; unfold small_target; cbn; lia).
  destruct Hcases as [Hk|[Hk|Hk]]; rewrite Hk.
  - exists t. split; [done|]. split; [unfold asum; cbn; lia|].
    intros [|[|[|i]]] ?; cbn; lia.
  - destruct (leftover_one n (Arr3 w0 w1 w2) t) as (b & Hb & Hstep & _); [cbn; rewrite ?nonneg_i64; lia..|done|].
    change (Z.to_nat 1) with 1%nat. rewrite Hstep. exists (bump t b). split; [done|].
    destruct b as [|[|[|b]]]; try lia; (split; [unfold asum; cbn; lia|]);
      intros [|[|[|i]]] ?; cbn; lia.
  - destruct (leftover_one n (Arr3 w0 w1 w2) t) as (b & Hb & Hstep & Hm); [cbn; rewrite ?nonneg_i64; lia..|done|].
    change (Z.to_nat 2) with 2%nat. rewrite Hstep. cbn in Hm. rewrite !nonneg_i64 in Hm by lia.
    assert (Hz : Z.rem (i64 (n * 0)) 100 = 0) by (by rewrite Z.mul_0_r).
    destruct (leftover_one n (aset (Arr3 w0 w1 w2) b 0) (bump t b)) as (b' & Hb' & Hstep' & Hm').
    1-3: destruct b as [|[|[|b]]]; try lia; cbn; rewrite ?Hz, ?nonneg_i64; lia.
    { intros i. specialize (Ht i). destruct b as [|[|[|b]]], i as [|[|i]]; try lia; unfold small_target in *; cbn in *; lia. }
    rewrite Hstep'. exists (bump (bump t b) b'). split; [done|].
    assert (b <> b') as Hne.
    { intros <-. revert Hm Hm'. destruct b as [|[|[|b]]]; try lia; cbn; rewrite ?Hz, !nonneg_i64 by lia; lia. }
    destruct b as [|[|[|b]]], b' as [|[|[|b']]]; try lia; (split; [unfold asum; cbn; lia|]);
      intros [|[|[|i]]] ?; cbn; lia.
Qed.

Lemma reservationTargets_correct_witness :
  exists targets, reservationTargets 150 (Arr3 10 45 45) = Some targets /\ asum targets = 150.
Proof.
  destruct (reservationTargets_correct 150 (Arr3 10 45 45)) as (t & H1 & H2 & _).
  - lia.
  - unfold max_int64; lia.
  - unfold pos3; simpl; lia.
  - reflexivity.
  - exists t. split; [exact H1|exact H2].
Defined.

(** ** Small-concurrency round robin *)

(** The loop's effect on a queue's credit: banked credit of an unavailable
    queue is discarded, an available queue earns its weight. *)
Definition accrue (credits weights : arr3 Z) (available : arr3 bool) (i : nat) : Z :=
  if aget available i then aget credits i + aget weights i else 0.

Definition available_weight (available : arr3 bool) (weights : arr3 Z) : Z :=
  (if at0 available then at0 weights else 0) + (if at1 available then at1 weights else 0)
  + (if at2 available then at2 weights else 0).

Lemma chooseSmall_loop available weights credits :
  exists best, fold_left (chooseSmall_step available weights) indices (0, None, credits)
    = (available_weight available weights, best,
       Arr3 (accrue credits weights available 0) (accrue credits weights available 1)
            (accrue credits weights available 2))
  /\ match best with
     | None => forall i, (i < 3)%nat -> aget available i = false
     | Some b => (b < 3)%nat /\ aget available b = true /\
         forall i, (i < 3)%nat -> aget available i = true ->
           accrue credits weights available i <= accrue credits weights available b
     end.
Proof.
  destruct available as [[] [] []], weights as [w0 w1 w2], credits as [c0 c1 c2];
    unfold indices, available_weight, accrue; cbn;
    repeat match goal with |- context [Z.ltb ?a ?b] => destruct (Z.ltb_spec a b); cbn in * end;
    rewrite ?Z.add_0_l, ?Z.add_0_r; eexists; (split; [reflexivity|]); cbn;
    repeat split; try lia; try done; intros [|[|[|i]]]; cbn; intros; try lia; try done.
Qed.

(** One round-robin admission: it finds a queue whenever one has
    work; the queue it picks has work and the largest accrued credit, and
    pays the total weight of the queues with work; credit of a queue without
    work is discarded. *)
Lemma chooseSmall_correct (a : admission) (available : arr3 bool) (weights : arr3 Z) :
  let '(a', r) := chooseSmall a available weights in
  ad_borrower a' = ad_borrower a
  /\ (r = None <-> forall i, (i < 3)%nat -> aget available i = false)
  /\ forall b, r = Some b ->
       (b < 3)%nat /\ aget available b = true
       /\ (forall i, (i < 3)%nat -> aget available i = true ->
             accrue (ad_credits a) weights available i <= accrue (ad_credits a) weights available b)
       /\ forall i, (i < 3)%nat -> aget (ad_credits a') i =
            accrue (ad_credits a) weights available i
            - (if decide (i = b) then available_weight available weights else 0).
Proof.
  unfold chooseSmall.
  destruct (chooseSmall_loop available weights (ad_credits a)) as (best & -> & Hbest).
  destruct best as [b|]; cbn.
  - destruct Hbest as (Hlt & Hav & Hmax). split; [done|]. split.
    + split; [done|]. intros Hno. specialize (Hno b Hlt). congruence.
    + intros b' [= <-]. split_and!; try done.
      intros i Hi. destruct b as [|[|[|b]]], i as [|[|[|i]]]; try lia; case_decide; cbn; lia.
  - split; [done|]. split; [done|]. intros b [=].
Qed.

(** [n] admissions in a row with every queue busy, counting the wins. *)
Definition all_busy : arr3 bool := Arr3 true true true.

Fixpoint run_small (n : nat) (a : admission) (weights wins : arr3 Z) : admission * arr3 Z :=
  match n with
  | O => (a, wins)
  | S n =>
      let '(a, r) := chooseSmall a all_busy weights in
      let wins := match r with Some b => bump wins b | None => wins end in
      run_small n a weights wins
  end.

(** The invariant of a busy run after [n] admissions: credits sum to zero,
    none is below minus the total weight, and each records exactly what the
    queue earned minus what it paid. *)
Definition busy_inv (n : Z) (weights credits wins : arr3 Z) : Prop :=
  asum credits = 0
  /\ forall i, (i < 3)%nat ->
       - asum weights < aget credits i
       /\ aget credits i = n * aget weights i - asum weights * aget wins i.

Lemma busy_step n a weights wins :
  pos3 weights -> busy_inv n weights (ad_credits a) wins ->
  let '(a', r) := chooseSmall a all_busy weights in
  exists b, r = Some b /\ busy_inv (n + 1) weights (ad_credits a') (bump wins b).
Proof.
  intros Hw [Hs Hi]. destruct weights as [w0 w1 w2], wins as [v0 v1 v2].
  pose proof (Hi 0%nat) as I0. pose proof (Hi 1%nat) as I1. pose proof (Hi 2%nat) as I2.
  pose proof (chooseSmall_correct a all_busy (Arr3 w0 w1 w2)) as Hc.
  destruct (chooseSmall a all_busy (Arr3 w0 w1 w2)) as [a' r].
  destruct Hc as (_ & Hnone & Hsome).
  destruct r as [b|]; cycle 1.
  { destruct Hnone as [Hnone _]. specialize (Hnone eq_refl 0%nat). cbn in Hnone. lia. }
  destruct (Hsome b eq_refl) as (Hb & _ & Hmax & Hcr). exists b. split; [done|].
  pose proof (Hcr 0%nat) as C0. pose proof (Hcr 1%nat) as C1. pose proof (Hcr 2%nat) as C2.
  pose proof (Hmax 0%nat) as M0. pose proof (Hmax 1%nat) as M1. pose proof (Hmax 2%nat) as M2.
  clear Hi Hcr Hmax Hsome Hnone.
  repeat match goal with H : context [decide ?P] |- _ => destruct (decide P) end;
  unfold busy_inv, accrue, available_weight, asum, pos3 in *;
  destruct (ad_credits a) as [c0 c1 c2], (ad_credits a') as [d0 d1 d2]; cbn in *;
  (split; [lia|]); intros i Hi; destruct b as [|[|[|b]]], i as [|[|[|i]]]; try lia; cbn in *; lia.
Qed.

Lemma run_small_inv n k a weights wins :
  pos3 weights -> busy_inv k weights (ad_credits a) wins ->
  let '(a', wins') := run_small n a weights wins in
  busy_inv (k + Z.of_nat n) weights (ad_credits a') wins'.
Proof.
  revert k a wins. induction n as [|n IH]; intros k a wins Hw Hi; cbn [run_small].
  - by replace (k + Z.of_nat 0) with k by lia.
  - pose proof (busy_step k a weights wins Hw Hi) as Hs.
    destruct (chooseSmall a all_busy weights) as [a' r]. destruct Hs as (b & -> & Hi').
    specialize (IH (k + 1) a' (bump wins b) Hw Hi').
    destruct (run_small n a' weights (bump wins b)) as [a'' wins''].
    by replace (k + Z.of_nat (S n)) with (k + 1 + Z.of_nat n) by lia.
Qed.

(** Long-run shares: over any number [n] of admissions from a fresh
    dispatcher with every queue busy, each queue's number of wins stays within
    two slots of its exact weighted share [n * w / total] (cross-multiplied). *)
Theorem chooseSmall_fair (n : nat) (weights : arr3 Z) (borrower : nat) (Hw : pos3 weights) :
  let '(_, wins) := run_small n (mkAdmission (Arr3 0 0 0) borrower) weights (Arr3 0 0 0) in
  forall i, (i < 3)%nat ->
    - (2 * asum weights) < asum weights * aget wins i - Z.of_nat n * aget weights i < asum weights.
Proof.
  pose proof (run_small_inv n 0 (mkAdmission (Arr3 0 0 0) borrower) weights (Arr3 0 0 0) Hw) as H.
  destruct (run_small _ _ _ _) as [a' wins].
  destruct H as [Hs Hi].
  - split; [reflexivity|]. destruct Hw as (?&?&?).
    intros [|[|[|i]]] ?; unfold asum; cbn; lia.
  - intros i Hlt. destruct (Hi 0%nat) as [L0 E0]; [lia|]. destruct (Hi 1%nat) as [L1 E1]; [lia|].
    destruct (Hi 2%nat) as [L2 E2]; [lia|]. destruct Hw as (?&?&?).
    unfold asum in *. destruct i as [|[|[|i]]]; cbn in *; try lia.
Qed.

Lemma chooseSmall_fair_witness :
  let '(_, wins) := run_small 100 (mkAdmission (Arr3 0 0 0) 0) (Arr3 10 45 45) (Arr3 0 0 0) in
  - 200 < 100 * at0 wins - 1000 < 100.
Proof.
  pose proof (chooseSmall_fair 100 (Arr3 10 45 45) 0) as H.
  destruct (run_small 100 (mkAdmission (Arr3 0 0 0) 0) (Arr3 10 45 45) (Arr3 0 0 0)) as [a wins] eqn:E.
  assert (Hw : pos3 (Arr3 10 45 45)) by (unfold pos3; simpl; lia).
  specialize (H Hw 0%nat ltac:(lia)). exact H.
Defined.
