(* ===== verification/ProxyStore.v ===== *)
(** * The proxy table ([infrastructure/postgres/repository/proxy.go],
      [proxy_scan.go])

    One adapter serves the consumer port ([ProxyRepository]) and the scan port
    ([ProxyScanStore]).  The [proxies] table is a finite map from id to row;
    each statement is a function of the table, of database time and of the
    [fault] the driver answers with. *)
From S2P Require Import Prelude GoErrors Contract.

(** [statement_timestamp()] of one call, and [clock_timestamp()] when the row
    with a given id is written. *)
Record DbTime := mkDbTime { stmt_ts : Z; clock_ts : Z -> Z }.

(** The table and the [SERIAL] sequence of its key. *)
Record ProxyDB := mkProxyDB {
  db_rows : gmap Z ProxyRecord;
  db_seq : Z;
}.

(** ** Policy defaults *)
Definition defaultFreshnessTTL : Z := 2 * minute.
Definition defaultLeaseDuration : Z := 30 * second.
Definition defaultRecoveryHorizon : Z := hour.

Definition normalizeScanPolicy (p : ProxyScanPolicy) : ProxyScanPolicy :=
  let p := if sp_FreshnessTTL p <=? 0 then p{{ sp_FreshnessTTL := defaultFreshnessTTL }} else p in
  let p := if sp_LeaseDuration p <=? 0 then p{{ sp_LeaseDuration := defaultLeaseDuration }} else p in
  if sp_RecoveryHorizon p <=? 0 then p{{ sp_RecoveryHorizon := defaultRecoveryHorizon }} else p.

(** ** SQL building blocks *)

(** [x > bound] and [x <= bound] on a nullable timestamp: NULL is not true. *)
Definition sql_gt (x : option Z) (bound : Z) : bool :=
  match x with Some t => bound <? t | None => false end.
(** [x IS NULL OR x <= bound]. *)
Definition null_or_le (x : option Z) (bound : Z) : bool :=
  match x with Some t => t <=? bound | None => true end.
(** [x = value] on a nullable column. *)
Definition sql_eq {A} `{EqDecision A} (x : option A) (v : A) : bool :=
  match x with Some y => bool_decide (y = v) | None => false end.

(** [freshPredicate]: healthy and verified within the TTL. *)
Definition freshPredicate (ttl now : Z) (p : ProxyRecord) : bool :=
  pr_GeneralHealthy p && sql_gt (pr_LastVerifiedAt p) (now - ttl).

Definition supportedProtocol (p : ProxyRecord) : bool :=
  bool_decide (pr_Protocol p ∈ ["http"; "https"; "socks4"; "socks5"]).

(** All rows of the table. *)
Definition rows_list (db : ProxyDB) : list ProxyRecord := (map_to_list (db_rows db)).*2.

(** [UPDATE proxies SET ... WHERE id = .. AND cond]: the row when it matched. *)
Definition update_where (db : ProxyDB) (id : Z) (cond : ProxyRecord -> bool)
    (set : ProxyRecord -> ProxyRecord) : ProxyDB * option ProxyRecord :=
  match db_rows db !! id with
  | Some r => if cond r then (db{{ db_rows := <[id := set r]> (db_rows db) }}, Some (set r)) else (db, None)
  | None => (db, None)
  end.

(** ** Reads and discovery inserts *)

Definition Exists (db : ProxyDB) (f : fault) (protocol ip : string) (port : Z) : result bool :=
  read_fault f (Ok (existsb (fun p => bool_decide (pr_Protocol p = protocol) && bool_decide (pr_IP p = ip)
                                  && (pr_Port p =? port)) (rows_list db))).

(** [ON CONFLICT DO NOTHING]: the sequence value is drawn before the conflict
    is detected, so it is consumed either way. *)
Definition InsertIfAbsent (db : ProxyDB) (f : fault) (now : Z) (rec : ProxyRecord)
    : ProxyDB * result (Z * bool) :=
  with_fault f db (
      let id := db_seq db in
      if existsb (fun p => bool_decide (pr_Protocol p = pr_Protocol rec) && bool_decide (pr_IP p = pr_IP rec)
                           && (pr_Port p =? pr_Port rec)) (rows_list db)
      then (db{{ db_seq := id + 1 }}, Ok (0, false))
      else
        let row := zeroProxyRecord{{ pr_ID := id; pr_Protocol := pr_Protocol rec; pr_IP := pr_IP rec;
                     pr_Port := pr_Port rec; pr_Country := pr_Country rec; pr_Anonymity := pr_Anonymity rec;
                     pr_LatencyMS := pr_LatencyMS rec; pr_UptimePercent := pr_UptimePercent rec;
                     pr_Status := ProxyStatusInactive; pr_FirstSeenAt := now; pr_Source := pr_Source rec;
                     pr_CreatedAt := now; pr_UpdatedAt := now }} in
        (mkProxyDB (<[id := row]> (db_rows db)) (id + 1), Ok (id, true))).

Definition Get (db : ProxyDB) (f : fault) (id : Z) : result (option ProxyRecord) :=
  read_fault f (Ok (db_rows db !! id)).

Definition Count (db : ProxyDB) (f : fault) : result Z :=
  read_fault f (Ok (Z.of_nat (size (db_rows db)))).

(** [ORDER BY latency_ms ASC NULLS LAST]. *)
Definition latency_le (a b : ProxyRecord) : Prop :=
  match pr_LatencyMS a, pr_LatencyMS b with
  | Some x, Some y => x <= y | None, Some _ => False | _, None => True
  end.
Global Instance latency_le_dec : RelDecision latency_le.
Proof. intros a b. unfold latency_le. repeat case_match; apply _. Defined.

(** A negative [LIMIT] is refused by the server. *)
Definition ListActive (pol : ProxyScanPolicy) (db : ProxyDB) (f : fault) (now limit : Z)
    : result (list ProxyRecord) :=
  read_fault f (
    if limit <? 0 then Err (ErrorString "proxy list active: LIMIT must not be negative")
    else Ok (take (Z.to_nat limit) (merge_sort latency_le
           (filter (fun p => freshPredicate (sp_FreshnessTTL pol) now p = true) (rows_list db))))).

(** The [CASE] of [CountByStatus]. *)
Definition statusBucket (ttl now : Z) (p : ProxyRecord) : string :=
  if freshPredicate ttl now p then "active"
  else if bool_decide (pr_Status p = "active") then "stale" else pr_Status p.

Definition CountByStatus (pol : ProxyScanPolicy) (db : ProxyDB) (f : fault) (now : Z)
    : result (gmap string Z) :=
  read_fault f (Ok (foldr (fun p counts =>
                  let bucket := statusBucket (sp_FreshnessTTL pol) now p in
                  <[bucket := default 0 (counts !! bucket) + 1]> counts) ∅ (rows_list db))).

(** ** Consumer locks *)

(** ASC NULLS LAST and DESC NULLS LAST on nullable integers. *)
Definition asc_nulls_last (a b : option Z) : comparison :=
  match a, b with
  | Some x, Some y => x ?= y
  | Some _, None => Lt | None, Some _ => Gt | None, None => Eq
  end.
Definition desc_nulls_last (a b : option Z) : comparison :=
  match a, b with
  | Some x, Some y => y ?= x
  | Some _, None => Lt | None, Some _ => Gt | None, None => Eq
  end.
Definition then_cmp (c d : comparison) : comparison := match c with Eq => d | _ => c end.

(** [ORDER BY uptime_percent DESC NULLS LAST, latency_ms ASC NULLS LAST,
    fail_count ASC]. *)
Definition claim_cmp (a b : ProxyRecord) : comparison :=
  then_cmp (desc_nulls_last (pr_UptimePercent a) (pr_UptimePercent b))
    (then_cmp (asc_nulls_last (pr_LatencyMS a) (pr_LatencyMS b))
       (pr_FailCount a ?= pr_FailCount b)).
Definition claim_le (a b : ProxyRecord) : Prop := claim_cmp a b <> Gt.
Global Instance claim_le_dec : RelDecision claim_le.
Proof. intros a b. unfold claim_le. apply _. Defined.

Definition claimable (pol : ProxyScanPolicy) (lockTTL now : Z) (p : ProxyRecord) : bool :=
  freshPredicate (sp_FreshnessTTL pol) now p
  && supportedProtocol p
  && match pr_LockedAt p with Some t => t <? now - lockTTL | None => true end
  && null_or_le (pr_DestinationCooldownUntil p) now.

(** [FOR UPDATE SKIP LOCKED]: [skip] holds the rows other transactions have
    locked at this moment.  The transaction runs two statements, each with its
    own [statement_timestamp()]: [now] of the SELECT, [lockNow] of the UPDATE. *)
Definition ClaimProxy (pol : ProxyScanPolicy) (db : ProxyDB) (f : fault) (now lockNow : Z)
    (skip : gset Z) (owner : string) (lockTTL : Z) : ProxyDB * result (option ProxyRecord) :=
  with_fault f db (
      match merge_sort claim_le (filter (fun p => claimable pol lockTTL now p = true /\ pr_ID p ∉ skip) (rows_list db)) with
      | [] => (db, Ok None)
      | p :: _ =>
          match update_where db (pr_ID p) (fun _ => true)
                  (fun r => r{{ pr_LockedBy := Some owner; pr_LockedAt := Some lockNow; pr_UpdatedAt := lockNow }}) with
          | (db', Some r) => (db', Ok (Some r))
          | (_, None) => (db, Err (ErrorString "proxy claim lock"))
          end
      end).

Definition RefreshConsumerLock (pol : ProxyScanPolicy) (db : ProxyDB) (f : fault) (now : Z)
    (id : Z) (owner : string) (lockTTL : Z) : ProxyDB * result (option ProxyRecord) :=
  with_fault f db (
      let '(db', r) := update_where db id
        (fun r => sql_eq (pr_LockedBy r) owner && sql_gt (pr_LockedAt r) (now - lockTTL)
                  && freshPredicate (sp_FreshnessTTL pol) now r
                  && null_or_le (pr_DestinationCooldownUntil r) now)
        (fun r => r{{ pr_LockedAt := Some now; pr_UpdatedAt := now }}) in
      (db', Ok r)).

Definition ReleaseProxy (db : ProxyDB) (f : fault) (now : Z) (id : Z) (owner : string)
    : ProxyDB * result unit :=
  with_fault f db (
      let '(db', _) := update_where db id (fun r => sql_eq (pr_LockedBy r) owner)
        (fun r => r{{ pr_LockedBy := None; pr_LockedAt := None; pr_UpdatedAt := now }}) in
      (db', Ok tt)).

(** [GREATEST(COALESCE(destination_cooldown_until, '-infinity'), now + delay)]. *)
Definition raise_cooldown (c : option Z) (t : Z) : option Z :=
  Some (match c with Some c => Z.max c t | None => t end).

Definition CooldownDestination (db : ProxyDB) (f : fault) (now : Z) (id : Z)
    (owner : string) (lockTTL delay : Z) : ProxyDB * result unit :=
  with_fault f db (
      let '(db', _) := update_where db id (fun r => sql_eq (pr_LockedBy r) owner)
        (fun r => r{{ pr_DestinationCooldownUntil := raise_cooldown (pr_DestinationCooldownUntil r) (now + delay);
                      pr_LockedBy := None; pr_LockedAt := None; pr_UpdatedAt := now }}) in
      (db', Ok tt)).

(** [RandomActive]: [pick] is [ORDER BY RANDOM()]'s choice among the eligible
    rows. *)
Definition RandomActive (pol : ProxyScanPolicy) (db : ProxyDB) (f : fault) (now : Z)
    (pick : list ProxyRecord -> option ProxyRecord) (excludeIDs : list Z) : result (option ProxyRecord) :=
  read_fault f (Ok (pick (filter (fun p => freshPredicate (sp_FreshnessTTL pol) now p = true
                              /\ supportedProtocol p = true /\ pr_ID p ∉ excludeIDs) (rows_list db)))).

(** ** Scan leases *)

Definition claimLeaseWhere (now : Z) (p : ProxyRecord) : bool :=
  null_or_le (pr_ScanLeaseUntil p) now && null_or_le (pr_ScanNotBefore p) now.

Definition claimQueueWhere (pol : ProxyScanPolicy) (queue : ScanQueue) (now : Z) (p : ProxyRecord) : bool :=
  match queue with
  | ScanVerification => pr_GeneralHealthy p && null_or_le (pr_NextAttemptAt p) now
  | ScanRecovery => negb (pr_GeneralHealthy p)
                    && sql_gt (pr_LastVerifiedAt p) (now - sp_RecoveryHorizon pol)
                    && null_or_le (pr_NextAttemptAt p) now
  | ScanBackground => negb (pr_GeneralHealthy p)
  end.

(** The nullable key each queue's [ORDER BY] uses. *)
Definition queue_key (queue : ScanQueue) (p : ProxyRecord) : option Z :=
  match queue with ScanBackground => pr_LastCompletedAt p | _ => pr_NextAttemptAt p end.

(** [ORDER BY key ASC NULLS FIRST, id ASC]. *)
Definition order_cmp (key : ProxyRecord -> option Z) (a b : ProxyRecord) : comparison :=
  then_cmp (match key a, key b with
            | None, None => Eq | None, Some _ => Lt | Some _, None => Gt | Some x, Some y => x ?= y
            end) (pr_ID a ?= pr_ID b).
Definition order_le (key : ProxyRecord -> option Z) (a b : ProxyRecord) : Prop := order_cmp key a b <> Gt.
Global Instance order_le_dec key : RelDecision (order_le key).
Proof. intros a b. unfold order_le. apply _. Defined.

(** The comparison function [sortScanLeases] passes to [sort.SliceStable]. *)
Definition lease_less (key : ScanLease -> option Z) (a b : ScanLease) : bool :=
  match key a, key b with
  | None, None => pr_ID (sl_Record a) <? pr_ID (sl_Record b)
  | None, Some _ => true
  | Some _, None => false
  | Some ki, Some kj =>
      if negb (ki =? kj) then ki <? kj else pr_ID (sl_Record a) <? pr_ID (sl_Record b)
  end.
Definition lease_le (key : ScanLease -> option Z) (a b : ScanLease) : Prop := lease_less key b a = false.
Global Instance lease_le_dec key : RelDecision (lease_le key).
Proof. intros a b. unfold lease_le. apply _. Defined.

Definition sortScanLeases (key : ScanLease -> option Z) (leases : list ScanLease) : list ScanLease :=
  merge_sort (lease_le key) leases.

(** The stamp of the claiming [UPDATE]. *)
Definition stamp_lease (pol : ProxyScanPolicy) (token : string) (clock : Z -> Z) (r : ProxyRecord) : ProxyRecord :=
  r{{ pr_ScanToken := Some token; pr_ScanLeaseUntil := Some (clock (pr_ID r) + sp_LeaseDuration pol);
      pr_ClaimedVersion := Some (pr_ObservationVersion r); pr_UpdatedAt := clock (pr_ID r) }}.

(** The rows the CTE chooses, in its order. *)
Definition chosen_rows (pol : ProxyScanPolicy) (db : ProxyDB) (now : Z) (skip : gset Z)
    (queue : ScanQueue) (limit : Z) : list ProxyRecord :=
  take (Z.to_nat limit)
    (merge_sort (order_le (queue_key queue))
      (filter (fun p => claimLeaseWhere now p = true /\ claimQueueWhere pol queue now p = true
                        /\ pr_ID p ∉ skip) (rows_list db))).

Definition lease_of (r : ProxyRecord) (token : string) : ScanLease :=
  mkScanLease r token (default 0 (pr_ClaimedVersion r)).

Definition ClaimScans (pol : ProxyScanPolicy) (db : ProxyDB) (f : fault) (t : DbTime)
    (skip : gset Z) (token : result string) (queue : ScanQueue) (limit : Z)
    : ProxyDB * result (list ScanLease) :=
  if limit <=? 0 then (db, Err (ErrorString "scan claim: limit must be positive"))
  else match token with
  | Err e => (db, Err e)
  | Ok token =>
      with_fault f db (
          let chosen := chosen_rows pol db (stmt_ts t) skip queue limit in
          let stamped := stamp_lease pol token (clock_ts t) <$> chosen in
          (db{{ db_rows := foldr (fun r m => <[pr_ID r := r]> m) (db_rows db) stamped }},
           Ok (sortScanLeases (fun l => queue_key queue (sl_Record l))
                 ((fun r => lease_of r token) <$> stamped))))
  end.

(** [fencedWhere]: the CAS predicate of a completion. *)
Definition fencedWhere (lease : ScanLease) (dbNow : Z) (r : ProxyRecord) : bool :=
  sql_eq (pr_ScanToken r) (sl_Token lease) && sql_eq (pr_ClaimedVersion r) (sl_Version lease)
  && (pr_ObservationVersion r =? sl_Version lease) && sql_gt (pr_ScanLeaseUntil r) dbNow.

Definition failureStatus (current : ProxyRecord) (dbNow : Z) (update : ScanUpdate) : string * Z :=
  let newFailCount := pr_FailCount current + 1 in
  let lastAlive := default (pr_FirstSeenAt current) (pr_LastAliveAt current) in
  let isDead := (su_FailThreshold update <=? newFailCount)
                || (su_DeadAfter update <? time_sub dbNow lastAlive) in
  if isDead then (ProxyStatusDead, newFailCount) else (ProxyStatusInactive, newFailCount).

(** The [SET] lists of the completion statements. *)
Definition clear_lease (r : ProxyRecord) : ProxyRecord :=
  r{{ pr_ScanToken := None; pr_ScanLeaseUntil := None; pr_ClaimedVersion := None }}.

Definition set_success (dbNow : Z) (u : ScanUpdate) (r : ProxyRecord) : ProxyRecord :=
  (clear_lease r){{ pr_GeneralHealthy := true; pr_Status := ProxyStatusActive;
      pr_LatencyMS := Some (su_LatencyMS u); pr_LastAliveAt := Some dbNow; pr_LastVerifiedAt := Some dbNow;
      pr_LastCompletedAt := Some dbNow; pr_FailCount := 0; pr_RecoveryStep := 0;
      pr_NextAttemptAt := Some (dbNow + su_NextDelay u); pr_ScanNotBefore := Some (dbNow + su_RepeatDelay u);
      pr_ObservationVersion := pr_ObservationVersion r + 1; pr_UpdatedAt := dbNow }}.

Definition set_failure (status : string) (failCount dbNow : Z) (u : ScanUpdate) (r : ProxyRecord) : ProxyRecord :=
  (clear_lease r){{ pr_GeneralHealthy := false; pr_Status := status; pr_LastCompletedAt := Some dbNow;
      pr_FailCount := failCount; pr_RecoveryStep := su_RecoveryStep u;
      pr_NextAttemptAt := Some (dbNow + su_NextDelay u); pr_ScanNotBefore := Some (dbNow + su_RepeatDelay u);
      pr_ObservationVersion := pr_ObservationVersion r + 1; pr_UpdatedAt := dbNow }}.

Definition set_inconclusive (dbNow : Z) (u : ScanUpdate) (r : ProxyRecord) : ProxyRecord :=
  (clear_lease r){{ pr_LastCompletedAt := Some dbNow;
      pr_NextAttemptAt := Some (dbNow + su_NextDelay u); pr_ScanNotBefore := Some (dbNow + su_RepeatDelay u);
      pr_UpdatedAt := dbNow }}.

Definition CompleteScan (db : ProxyDB) (f : fault) (dbNow : Z)
    (lease : ScanLease) (update : ScanUpdate) : ProxyDB * result bool :=
  with_fault f db (
      let id := pr_ID (sl_Record lease) in
      match db_rows db !! id with
      | None => (db, Ok false)
      | Some current =>
          let set := match su_Outcome update with
                     | ScanSuccess => set_success dbNow update
                     | ScanFailure =>
                         let '(status, n) := failureStatus current dbNow update in
                         set_failure status n dbNow update
                     | ScanInconclusive => set_inconclusive dbNow update
                     end in
          match update_where db id (fencedWhere lease dbNow) set with
          | (db', Some _) => (db', Ok true)
          | (_, None) => (db, Ok false)
          end
      end).

Definition ReleaseScan (db : ProxyDB) (f : fault) (now : Z) (lease : ScanLease)
    : ProxyDB * result unit :=
  with_fault f db (
      let '(db', _) := update_where db (pr_ID (sl_Record lease))
        (fun r => sql_eq (pr_ScanToken r) (sl_Token lease) && sql_eq (pr_ClaimedVersion r) (sl_Version lease))
        (fun r => (clear_lease r){{ pr_UpdatedAt := now }}) in
      (db', Ok tt)).

Definition RecordConsumerFailure (db : ProxyDB) (f : fault) (dbNow : Z) (rec : ProxyRecord)
    (owner : string) (lockTTL : Z) (update : ScanUpdate) : ProxyDB * result bool :=
  with_fault f db (
      match db_rows db !! pr_ID rec with
      | None => (db, Ok false)
      | Some current =>
          let owned := sql_eq (pr_LockedBy current) owner in
          let lockValid := owned && sql_gt (pr_LockedAt current) (dbNow - lockTTL) in
          if negb lockValid || negb (pr_ObservationVersion current =? pr_ObservationVersion rec)
          then
            let '(db', _) := update_where db (pr_ID rec)
              (fun r => sql_eq (pr_LockedBy r) owner && sql_gt (pr_LockedAt r) (dbNow - lockTTL))
              (fun r => r{{ pr_LockedBy := None; pr_LockedAt := None; pr_UpdatedAt := dbNow }}) in
            (db', Ok false)
          else
            let '(status, n) := failureStatus current dbNow update in
            let '(db', _) := update_where db (pr_ID rec) (fun _ => true) (set_failure status n dbNow update) in
            (db', Ok true)
      end).
