(* ===== verification/ProxyStoreFacts.v ===== *)
(** * Properties of the proxy table

    The table invariant and its preservation, the fencing of scan leases over
    arbitrary interleavings of the adapter's operations, the exclusivity of
    consumer locks, and the meaning of each accepted observation. *)
From S2P Require Import Prelude GoErrors Contract ProxyStore.

(** ** SQL conditions *)

Lemma sql_eq_true {A} `{EqDecision A} (x : option A) v : sql_eq x v = true <-> x = Some v.
Proof. unfold sql_eq. case_match; [|naive_solver]. rewrite bool_decide_eq_true. naive_solver. Qed.

Lemma sql_gt_true x b : sql_gt x b = true <-> exists t, x = Some t /\ b < t.
Proof. unfold sql_gt. case_match; [rewrite Z.ltb_lt|]; naive_solver. Qed.

Lemma fencedWhere_true lease now r :
  fencedWhere lease now r = true <-> exists until,
    pr_ScanToken r = Some (sl_Token lease) /\ pr_ClaimedVersion r = Some (sl_Version lease)
    /\ pr_ObservationVersion r = sl_Version lease /\ pr_ScanLeaseUntil r = Some until /\ now < until.
Proof.
  unfold fencedWhere. rewrite !andb_true_iff, !sql_eq_true, sql_gt_true, Z.eqb_eq. naive_solver.
Qed.

(** ** Statements as table updates *)

Lemma update_where_Some db id cond set r r' :
  update_where db id cond set = (r, Some r') ->
  exists row, db_rows db !! id = Some row /\ cond row = true /\ r' = set row
    /\ r = db{{ db_rows := <[id := set row]> (db_rows db) }}.
Proof. unfold update_where. destruct (db_rows db !! id) eqn:E; [|done]. case_match; intros [=]; eauto. Qed.

Lemma update_where_None db id cond set db' :
  update_where db id cond set = (db', None) -> db' = db
  /\ forall row, db_rows db !! id = Some row -> cond row = false.
Proof. unfold update_where. destruct (db_rows db !! id) eqn:E; [case_match|]; naive_solver. Qed.

(** The row an update leaves behind: unchanged, or the [SET] of a row that met
    the [WHERE]. *)
Lemma update_where_lookup db id cond set db' o j r' :
  update_where db id cond set = (db', o) -> db_rows db' !! j = Some r' ->
  db_rows db !! j = Some r' \/
  (j = id /\ exists row, db_rows db !! j = Some row /\ cond row = true /\ r' = set row).
Proof.
  intros H Hj. destruct o as [x|].
  - apply update_where_Some in H as (row & Hrow & Hc & -> & ->). cbn in Hj.
    rewrite lookup_insert in Hj. case_decide; [|by left]. simplify_eq. right. eauto.
  - apply update_where_None in H as [-> _]. by left.
Qed.

Lemma update_where_seq db id cond set : db_seq (update_where db id cond set).1 = db_seq db.
Proof. unfold update_where. repeat case_match; done. Qed.

Lemma update_where_keeps db id cond set j r :
  db_rows db !! j = Some r ->
  exists r', db_rows (update_where db id cond set).1 !! j = Some r'
    /\ (r' = r \/ (j = id /\ cond r = true /\ r' = set r)).
Proof.
  intros Hj. unfold update_where. destruct (db_rows db !! id) eqn:E; [|naive_solver].
  case_match; [|naive_solver]. cbn. rewrite lookup_insert. case_decide; naive_solver.
Qed.

(** ** The operations as one type *)
Inductive store_op :=
  | OpInsert (f : fault) (now : Z) (rec : ProxyRecord)
  | OpClaimProxy (f : fault) (now lockNow : Z) (skip : gset Z) (owner : string) (lockTTL : Z)
  | OpRefresh (f : fault) (now id : Z) (owner : string) (lockTTL : Z)
  | OpReleaseProxy (f : fault) (now id : Z) (owner : string)
  | OpCooldown (f : fault) (now id : Z) (owner : string) (lockTTL delay : Z)
  | OpFailure (f : fault) (now : Z) (rec : ProxyRecord) (owner : string) (lockTTL : Z) (u : ScanUpdate)
  | OpClaimScans (f : fault) (t : DbTime) (skip : gset Z) (token : result string)
                 (queue : ScanQueue) (limit : Z)
  | OpComplete (f : fault) (now : Z) (lease : ScanLease) (u : ScanUpdate)
  | OpReleaseScan (f : fault) (now : Z) (lease : ScanLease).

Definition apply_op (pol : ProxyScanPolicy) (db : ProxyDB) (op : store_op) : ProxyDB :=
  match op with
  | OpInsert f now rec => (InsertIfAbsent db f now rec).1
  | OpClaimProxy f now lnow skip owner ttl => (ClaimProxy pol db f now lnow skip owner ttl).1
  | OpRefresh f now id owner ttl => (RefreshConsumerLock pol db f now id owner ttl).1
  | OpReleaseProxy f now id owner => (ReleaseProxy db f now id owner).1
  | OpCooldown f now id owner ttl delay => (CooldownDestination db f now id owner ttl delay).1
  | OpFailure f now rec owner ttl u => (RecordConsumerFailure db f now rec owner ttl u).1
  | OpClaimScans f t skip token q limit => (ClaimScans pol db f t skip token q limit).1
  | OpComplete f now lease u => (CompleteScan db f now lease u).1
  | OpReleaseScan f now lease => (ReleaseScan db f now lease).1
  end.

Definition run_ops (pol : ProxyScanPolicy) (db : ProxyDB) (ops : list store_op) : ProxyDB :=
  fold_left (apply_op pol) ops db.

(** ** The table invariant *)

(** A row is filed under its id; a lease is either fully present or fully
    absent, and a present lease captured the current observation version. *)
Definition row_ok (id : Z) (r : ProxyRecord) : Prop :=
  pr_ID r = id
  /\ (pr_ScanToken r = None <-> pr_ScanLeaseUntil r = None)
  /\ (pr_ScanToken r = None <-> pr_ClaimedVersion r = None)
  /\ (forall v, pr_ClaimedVersion r = Some v -> v = pr_ObservationVersion r).

Definition table_ok (db : ProxyDB) : Prop :=
  forall id r, db_rows db !! id = Some r -> row_ok id r /\ id < db_seq db.

Lemma rows_list_lookup db r :
  table_ok db -> r ∈ rows_list db <-> db_rows db !! pr_ID r = Some r.
Proof.
  intros Hok. unfold rows_list. rewrite list_elem_of_fmap. split.
  - intros ([id r'] & -> & Hin). apply elem_of_map_to_list in Hin. cbn.
    destruct (Hok _ _ Hin) as [[-> _] _]. done.
  - intros Hr. exists (pr_ID r, r). split; [done|]. by apply elem_of_map_to_list.
Qed.

Lemma rows_list_NoDup db : table_ok db -> NoDup (pr_ID <$> rows_list db).
Proof.
  intros Hok. unfold rows_list. rewrite <- list_fmap_compose.
  assert (Heq : (pr_ID ∘ snd) <$> map_to_list (db_rows db) = (map_to_list (db_rows db)).*1).
  { apply list_fmap_ext. intros i [id r] Hi. cbn.
    apply list_elem_of_lookup_2, elem_of_map_to_list in Hi. by destruct (Hok _ _ Hi) as [[-> _] _]. }
  rewrite Heq. apply NoDup_fst_map_to_list.
Qed.

(** Rewriting a list of rows into the table. *)
Definition write_rows (m : gmap Z ProxyRecord) (l : list ProxyRecord) : gmap Z ProxyRecord :=
  foldr (fun r m => <[pr_ID r := r]> m) m l.

Lemma write_rows_lookup m l j :
  write_rows m l !! j = match list_find (fun r => pr_ID r = j) l with
                        | Some (_, r) => Some r | None => m !! j end.
Proof.
  induction l as [|r l IH]; [done|]. cbn [write_rows foldr list_find]. fold (write_rows m l).
  rewrite lookup_insert. case_decide; [done|]. rewrite IH.
  by destruct (list_find _ l) as [[]|].
Qed.

Lemma chosen_rows_spec pol db now skip q limit r :
  table_ok db -> r ∈ chosen_rows pol db now skip q limit ->
  db_rows db !! pr_ID r = Some r /\ claimLeaseWhere now r = true /\ claimQueueWhere pol q now r = true
  /\ pr_ID r ∉ skip.
Proof.
  intros Hok Hin. unfold chosen_rows in Hin.
  apply elem_of_take in Hin as (i & Hi & _). apply list_elem_of_lookup_2 in Hi.
  rewrite merge_sort_Permutation, list_elem_of_filter in Hi.
  destruct Hi as [(? & ? & ?) Hi]. by rewrite rows_list_lookup in Hi.
Qed.

(** The row a claim leaves at [j]: stamped if it was chosen, untouched
    otherwise. *)
Lemma claim_lookup pol db t skip token q limit j r' :
  table_ok db ->
  write_rows (db_rows db) (stamp_lease pol token (clock_ts t) <$> chosen_rows pol db (stmt_ts t) skip q limit) !! j
    = Some r' ->
  db_rows db !! j = Some r' \/
  exists r, db_rows db !! j = Some r /\ r ∈ chosen_rows pol db (stmt_ts t) skip q limit
    /\ r' = stamp_lease pol token (clock_ts t) r.
Proof.
  intros Hok. rewrite write_rows_lookup.
  destruct (list_find _ _) as [[i x]|] eqn:E; [|by left].
  intros [= ->]. apply list_find_Some in E as (Hi & Hid & _). right.
  apply list_lookup_fmap_Some in Hi as (r & -> & Hi). apply list_elem_of_lookup_2 in Hi.
  exists r. split; [|done].
  destruct (chosen_rows_spec _ _ _ _ _ _ _ Hok Hi) as [Hr _]. change (pr_ID r = j) in Hid. by rewrite Hid in Hr.
Qed.

(** Case analysis of one operation on the row it leaves at [j]. *)
Inductive row_change (pol : ProxyScanPolicy) (op : store_op) (j : Z) : ProxyRecord -> ProxyRecord -> Prop :=
  | rc_same r : row_change pol op j r r
  | rc_lock r f now lnow skip owner ttl :
      op = OpClaimProxy f now lnow skip owner ttl -> claimable pol ttl now r = true -> j ∉ skip ->
      row_change pol op j r (r{{ pr_LockedBy := Some owner; pr_LockedAt := Some lnow; pr_UpdatedAt := lnow }})
  | rc_refresh r f now id owner ttl :
      op = OpRefresh f now id owner ttl -> sql_eq (pr_LockedBy r) owner = true ->
      sql_gt (pr_LockedAt r) (now - ttl) = true ->
      row_change pol op j r (r{{ pr_LockedAt := Some now; pr_UpdatedAt := now }})
  | rc_unlock r now owner :
      (exists f id, op = OpReleaseProxy f now id owner)
        \/ (exists f rec ttl u, op = OpFailure f now rec owner ttl u) ->
      sql_eq (pr_LockedBy r) owner = true ->
      row_change pol op j r (r{{ pr_LockedBy := None; pr_LockedAt := None; pr_UpdatedAt := now }})
  | rc_cooldown r f now id owner ttl delay :
      op = OpCooldown f now id owner ttl delay -> sql_eq (pr_LockedBy r) owner = true ->
      row_change pol op j r (r{{ pr_DestinationCooldownUntil := raise_cooldown (pr_DestinationCooldownUntil r) (now + delay);
                      pr_LockedBy := None; pr_LockedAt := None; pr_UpdatedAt := now }})
  | rc_claim r f t skip token q limit :
      op = OpClaimScans f t skip (Ok token) q limit ->
      claimLeaseWhere (stmt_ts t) r = true -> claimQueueWhere pol q (stmt_ts t) r = true ->
      row_change pol op j r (stamp_lease pol token (clock_ts t) r)
  | rc_complete r f now lease u set :
      op = OpComplete f now lease u -> j = pr_ID (sl_Record lease) -> fencedWhere lease now r = true ->
      set = match su_Outcome u with
            | ScanSuccess => set_success now u
            | ScanFailure => let '(status, n) := failureStatus r now u in set_failure status n now u
            | ScanInconclusive => set_inconclusive now u
            end ->
      row_change pol op j r (set r)
  | rc_release r f now lease :
      op = OpReleaseScan f now lease -> sql_eq (pr_ScanToken r) (sl_Token lease) = true ->
      row_change pol op j r ((clear_lease r){{ pr_UpdatedAt := now }})
  | rc_fail r f now rec owner ttl u :
      op = OpFailure f now rec owner ttl u -> sql_eq (pr_LockedBy r) owner = true ->
      pr_ObservationVersion r = pr_ObservationVersion rec ->
      row_change pol op j r (let '(status, n) := failureStatus r now u in set_failure status n now u r).

(** ** The effect of each operation on a row *)

Lemma ClaimProxy_pick pol db f now lnow skip owner ttl db' r :
  table_ok db -> ClaimProxy pol db f now lnow skip owner ttl = (db', Ok (Some r)) ->
  exists p, db_rows db !! pr_ID p = Some p /\ claimable pol ttl now p = true /\ (pr_ID p ∉ skip)
    /\ r = (p{{ pr_LockedBy := Some owner; pr_LockedAt := Some lnow; pr_UpdatedAt := lnow }})
    /\ db' = (db{{ db_rows := <[pr_ID p := r]> (db_rows db) }}).
Proof.
  intros Hok Hcl. apply with_fault_Ok in Hcl as [_ Hcl].
  destruct (merge_sort claim_le _) as [|p l] eqn:E; [done|].
  assert (Hp : p ∈ p :: l) by apply list_elem_of_here.
  rewrite <- E, merge_sort_Permutation, list_elem_of_filter in Hp.
  destruct Hp as [[Hc Hs] Hp]. rewrite rows_list_lookup in Hp by done.
  unfold update_where in Hcl. rewrite Hp in Hcl. simplify_eq. exists p. done.
Qed.

(** A single-row update changes the row by its [SET] or not at all. *)
Lemma update_where_change db id cond set j r (P : ProxyRecord -> Prop) :
  db_rows db !! j = Some r -> P r -> (j = id -> cond r = true -> P (set r)) ->
  exists r', db_rows (update_where db id cond set).1 !! j = Some r' /\ P r'.
Proof.
  intros Hj Hsame Hset. destruct (update_where_keeps db id cond set j r Hj) as (r' & H & [->|(-> & Hc & ->)]); eauto.
Qed.

Lemma with_fault_change {A} f db (x : ProxyDB * result A) j r (P : ProxyRecord -> Prop) :
  db_rows db !! j = Some r -> P r ->
  (exists r', db_rows x.1 !! j = Some r' /\ P r') ->
  exists r', db_rows (with_fault f db x).1 !! j = Some r' /\ P r'.
Proof. intros Hj Hr Hx. destruct f; cbn; eauto. Qed.

Lemma write_rows_keeps m l j r :
  m !! j = Some r -> exists r', write_rows m l !! j = Some r'.
Proof. intros Hj. rewrite write_rows_lookup. destruct (list_find _ l) as [[]|]; eauto. Qed.

Lemma ClaimProxy_change pol db f now lnow skip owner ttl j r :
  table_ok db -> db_rows db !! j = Some r ->
  exists r', db_rows (ClaimProxy pol db f now lnow skip owner ttl).1 !! j = Some r'
    /\ row_change pol (OpClaimProxy f now lnow skip owner ttl) j r r'.
Proof.
  intros Hok Hj. unfold ClaimProxy. apply with_fault_change with r; [done|constructor|].
  destruct (merge_sort claim_le _) as [|p l] eqn:E; [cbn; eauto using row_change|].
  assert (Hp : p ∈ p :: l) by apply list_elem_of_here.
  rewrite <- E, merge_sort_Permutation, list_elem_of_filter in Hp.
  destruct Hp as [[Hc Hs] Hp]. rewrite rows_list_lookup in Hp by done.
  unfold update_where. rewrite Hp. cbn. rewrite lookup_insert. case_decide; [|eauto using row_change].
  simplify_eq. eexists. split; [done|]. econstructor; eauto.
Qed.

Lemma ClaimScans_change pol db f t skip token q limit j r :
  table_ok db -> db_rows db !! j = Some r ->
  exists r', db_rows (ClaimScans pol db f t skip token q limit).1 !! j = Some r'
    /\ row_change pol (OpClaimScans f t skip token q limit) j r r'.
Proof.
  intros Hok Hj. unfold ClaimScans. case_match; [cbn; eauto using row_change|].
  destruct token as [token|e]; [|cbn; eauto using row_change].
  apply with_fault_change with r; [done|constructor|].
  cbn. fold (write_rows (db_rows db) (stamp_lease pol token (clock_ts t) <$> chosen_rows pol db (stmt_ts t) skip q limit)).
  edestruct write_rows_keeps as [r' Hr']; [exact Hj|]. exists r'. split; [exact Hr'|].
  apply claim_lookup in Hr' as [?|(r0 & ? & Hin & ->)]; [simplify_eq; constructor| |done].
  simplify_eq. apply chosen_rows_spec in Hin as (? & ? & ? & ?); [|done]. econstructor; eauto.
Qed.

(** Every operation changes an existing row by one of the listed statements,
    and keeps it in the table. *)
Lemma apply_op_row pol db op j r :
  table_ok db -> db_rows db !! j = Some r ->
  exists r', db_rows (apply_op pol db op) !! j = Some r' /\ row_change pol op j r r'.
Proof.
  intros Hok Hj. destruct op; cbn.
  - apply with_fault_change with r; [done|constructor|]. case_match; cbn; [eauto using row_change|].
    rewrite lookup_insert. case_decide as Heq; [|eauto using row_change].
    subst. apply Hok in Hj. lia.
  - by apply ClaimProxy_change.
  - apply with_fault_change with r; [done|constructor|]. rewrite (surjective_pairing (update_where _ _ _ _)).
    apply update_where_change with r; [done|constructor|]. intros -> H. bsplit. econstructor; eauto.
  - apply with_fault_change with r; [done|constructor|]. rewrite (surjective_pairing (update_where _ _ _ _)).
    apply update_where_change with r; [done|constructor|]. intros -> H. bsplit. eapply rc_unlock; eauto.
  - apply with_fault_change with r; [done|constructor|]. rewrite (surjective_pairing (update_where _ _ _ _)).
    apply update_where_change with r; [done|constructor|]. intros -> H. bsplit. eapply rc_cooldown; eauto.
  - apply with_fault_change with r; [done|constructor|].
    destruct (db_rows db !! pr_ID rec) as [cur|] eqn:Hcur; [|cbn; eauto using row_change].
    cbv zeta. case_match eqn:Hv.
    + rewrite (surjective_pairing (update_where _ _ _ _)).
      apply update_where_change with r; [done|constructor|]. intros -> H. bsplit. eapply rc_unlock; eauto 10.
    + bsplit. destruct (failureStatus cur now u) as [status n] eqn:Hf.
      rewrite (surjective_pairing (update_where _ _ _ _)).
      apply update_where_change with r; [done|constructor|]. intros -> _. simplify_eq.
      pose proof (rc_fail pol (OpFailure f now rec owner lockTTL u) (pr_ID rec) r f now rec owner lockTTL u) as Hrc.
      rewrite Hf in Hrc. apply Hrc; auto.
  - by apply ClaimScans_change.
  - apply with_fault_change with r; [done|constructor|].
    cbv zeta. destruct (db_rows db !! pr_ID (sl_Record lease)) as [cur|] eqn:Hcur; [|cbn; eauto using row_change].
    unfold update_where. rewrite Hcur. destruct (fencedWhere lease now cur) eqn:Hfe; cbn; [|eauto using row_change].
    rewrite lookup_insert. case_decide; [|eauto using row_change]. simplify_eq.
    eexists. split; [done|]. eapply rc_complete; eauto.
  - apply with_fault_change with r; [done|constructor|]. rewrite (surjective_pairing (update_where _ _ _ _)).
    apply update_where_change with r; [done|constructor|]. intros -> H. bsplit. eapply rc_release; eauto.
Qed.

(** A statement that updates rows adds none. *)
Lemma update_where_absent db id cond set j :
  db_rows db !! j = None -> db_rows (update_where db id cond set).1 !! j = None.
Proof.
  intros Hj. unfold update_where. case_match eqn:E; [|done]. case_match; [|done].
  cbn. rewrite lookup_insert_ne; congruence.
Qed.

Lemma ClaimScans_absent pol db f t skip token q limit j :
  table_ok db -> db_rows db !! j = None -> db_rows (ClaimScans pol db f t skip token q limit).1 !! j = None.
Proof.
  intros Hok Hj. unfold ClaimScans. case_match; [done|]. destruct token as [token|e]; [|done].
  assert (Hw : foldr (fun r m => <[pr_ID r := r]> m) (db_rows db)
            (stamp_lease pol token (clock_ts t) <$> chosen_rows pol db (stmt_ts t) skip q limit) !! j = None).
  { destruct (foldr _ _ _ !! j) as [r'|] eqn:E; [|done].
    apply claim_lookup in E as [?|(? & ? & _)]; [congruence|congruence|done]. }
  destruct f; done.
Qed.

Definition is_insert (op : store_op) : bool := match op with OpInsert _ _ _ => true | _ => false end.

Lemma apply_op_absent pol db op j :
  table_ok db -> is_insert op = false -> db_rows db !! j = None -> db_rows (apply_op pol db op) !! j = None.
Proof.
  intros Hok Hni Hj. destruct op; try discriminate; cbn; try (by apply ClaimScans_absent);
    match goal with |- db_rows (?op) .1 !! j = None => unfold ClaimProxy, RefreshConsumerLock, ReleaseProxy,
      CooldownDestination, RecordConsumerFailure, CompleteScan, ReleaseScan end;
    destruct f; try done; cbn;
    repeat match goal with
    | |- context [update_where ?d ?i ?c ?s] => pose proof (update_where_absent d i c s j Hj);
         destruct (update_where d i c s) as [? []]
    | |- _ => case_match
    end; done.
Qed.

(** A row the table did not have comes from an insert, under the sequence
    value, never scanned and never leased. *)
Lemma InsertIfAbsent_new db f now rec j r' :
  db_rows (InsertIfAbsent db f now rec).1 !! j = Some r' -> db_rows db !! j = None ->
  j = db_seq db /\ db_seq (InsertIfAbsent db f now rec).1 = db_seq db + 1 /\ row_ok j r'
  /\ pr_ScanToken r' = None /\ pr_GeneralHealthy r' = false.
Proof.
  intros Hr' Hj.
  unfold InsertIfAbsent in *. destruct db as [m n]. destruct f; cbn in *; [|congruence|];
    (destruct (existsb _ _); cbn in *; [congruence|]; rewrite lookup_insert in Hr'; case_decide; [|congruence];
     simplify_eq; unfold row_ok; cbn; naive_solver).
Qed.

(** ** The invariant holds in every reachable table *)

(** Case analysis on the statement that changed a row. *)
Ltac row_cases H :=
  destruct H; subst; cbn in *; repeat case_match; simplify_eq; cbn in *.

Lemma row_change_ok pol op j r r' : row_change pol op j r r' -> row_ok j r -> row_ok j r'.
Proof.
  intros Hc (Hid & Htl & Htv & Hv). unfold row_ok in *.
  destruct Hc as [r|r|r|r|r|r|r f now lease u set _ _ _ ->|r|r]; cbn in *; try done.
  all: try destruct (su_Outcome u); repeat case_match; cbn in *; repeat split; intros; simplify_eq; auto.
Qed.

Lemma with_fault_seq {A} f db (x : ProxyDB * result A) :
  db_seq db <= db_seq x.1 -> db_seq db <= db_seq (with_fault f db x).1.
Proof. destruct f; cbn; lia. Qed.

Lemma apply_op_seq_mono pol db op : db_seq db <= db_seq (apply_op pol db op).
Proof.
  destruct db as [m n]. destruct op; cbn [apply_op];
    unfold InsertIfAbsent, ClaimProxy, RefreshConsumerLock, ReleaseProxy, CooldownDestination,
      RecordConsumerFailure, CompleteScan, ReleaseScan; cbv zeta.
  7: unfold ClaimScans; case_match; [cbn; lia|]; destruct token; [|cbn; lia].
  all: apply with_fault_seq; cbv zeta;
    try match goal with
    | |- context [existsb ?g ?l] => destruct (existsb g l)
    | |- context [merge_sort ?R ?l] => destruct (merge_sort R l)
    | |- context [db_rows ?d !! ?i] => destruct (db_rows d !! i)
    end; try match goal with |- context [negb ?a || ?b] => destruct (negb a || b) end;
    try match goal with |- context [failureStatus ?a ?b ?c] => destruct (failureStatus a b c) end;
    try match goal with
    | |- context [update_where ?d ?i ?c ?s] => pose proof (update_where_seq d i c s);
         destruct (update_where d i c s) as [? []]
    end; cbn in *; lia.
Qed.

Lemma apply_op_ok pol db op : table_ok db -> table_ok (apply_op pol db op).
Proof.
  intros Hok j r' Hr'. pose proof (apply_op_seq_mono pol db op) as Hseq.
  destruct (db_rows db !! j) as [r|] eqn:Hj.
  - destruct (Hok _ _ Hj). edestruct apply_op_row as (r0 & Hr0 & Hc); [done|exact Hj|].
    rewrite Hr0 in Hr'. simplify_eq. split; [by eapply row_change_ok|lia].
  - destruct (is_insert op) eqn:Hi; [|rewrite (apply_op_absent pol db op j) in Hr' by done; done].
    destruct op; try done. apply InsertIfAbsent_new in Hr' as (-> & Hs & ? & _); [|done].
    cbn in *. rewrite Hs. split; [done|lia].
Qed.

Lemma run_ops_ind pol (P : ProxyDB -> Prop) :
  (forall db op, table_ok db -> P db -> P (apply_op pol db op)) ->
  forall ops db, table_ok db -> P db -> table_ok (run_ops pol db ops) /\ P (run_ops pol db ops).
Proof.
  intros Hstep ops. unfold run_ops. induction ops as [|op ops IH]; intros db Hok HP; [done|].
  cbn. apply IH; [by apply apply_op_ok|by apply Hstep].
Qed.

Definition empty_db : ProxyDB := mkProxyDB ∅ 1.

Lemma empty_db_ok : table_ok empty_db.
Proof. intros id r H. done. Qed.

(** C1: whatever the interleaving of inserts, consumer locks, scan
    claims, completions, releases and failures, with any of them refused by
    the driver or answered too late, every row stays filed under its id, its
    lease columns (token, expiry, captured version) are set together or not at
    all, and a captured version is the row's current observation version. *)
Theorem proxy_table_invariant pol ops :
  table_ok (run_ops pol empty_db ops).
Proof. apply (run_ops_ind pol (fun _ => True)); auto using empty_db_ok. Qed.

Lemma run_ops_ok pol db ops : table_ok db -> table_ok (run_ops pol db ops).
Proof. intros. by apply (run_ops_ind pol (fun _ => True)). Qed.

(** ** Fencing *)

(** A completion of [(id, token)] that took effect, as it is seen from outside:
    it changed the row, or the caller was told that it did. *)
Definition took_effect (db : ProxyDB) (op : store_op) (id : Z) (token : string) : bool :=
  match op with
  | OpComplete f now lease u =>
      let '(db', r) := CompleteScan db f now lease u in
      bool_decide (pr_ID (sl_Record lease) = id) && bool_decide (sl_Token lease = token)
      && (negb (bool_decide (db_rows db' !! id = db_rows db !! id)) || match r with Ok b => b | Err _ => false end)
  | _ => false
  end.

(** Does the operation issue [token]? *)
Definition issues (op : store_op) (token : string) : bool :=
  match op with OpClaimScans _ _ _ (Ok t) _ _ => bool_decide (t = token) | _ => false end.

Fixpoint count_effects (pol : ProxyScanPolicy) (db : ProxyDB) (ops : list store_op) (id : Z) (token : string) : nat :=
  match ops with
  | [] => 0
  | op :: ops => (Nat.b2n (took_effect db op id token) + count_effects pol (apply_op pol db op) ops id token)%nat
  end.

Definition count_issues (ops : list store_op) (token : string) : nat :=
  foldr (fun op n => (Nat.b2n (issues op token) + n)%nat) 0%nat ops.

(** Does row [id] hold a lease with [token]? *)
Definition live (db : ProxyDB) (id : Z) (token : string) : bool :=
  match db_rows db !! id with Some r => bool_decide (pr_ScanToken r = Some token) | None => false end.

(** A completion that takes effect met the fence: the row held the lease, which
    was for the version the row still has and had not expired; and it is gone
    afterwards. *)
Lemma CompleteScan_effect pol db f now lease u id token :
  took_effect db (OpComplete f now lease u) id token = true ->
  (exists r, db_rows db !! id = Some r /\ sl_Token lease = token /\ fencedWhere lease now r = true)
  /\ live db id token = true /\ live (apply_op pol db (OpComplete f now lease u)) id token = false.
Proof.
  unfold took_effect, live. cbn [apply_op]. unfold CompleteScan, update_where. cbv zeta.
  destruct (decide (pr_ID (sl_Record lease) = id)) as [<-|Hid].
  2: { destruct (with_fault _ _ _). rewrite (bool_decide_false (_ = id)) by done. done. }
  destruct (db_rows db !! pr_ID (sl_Record lease)) as [r|] eqn:Hr.
  2: { destruct f; cbn; rewrite Hr, (bool_decide_true (None = None)) by done; cbn; by rewrite andb_false_r. }
  destruct (fencedWhere lease now r) eqn:Hf.
  2: { destruct f; cbn; rewrite Hr, (bool_decide_true (Some r = Some r)) by done; cbn; by rewrite andb_false_r. }
  assert (Htk : pr_ScanToken r = Some (sl_Token lease)) by (by apply fencedWhere_true in Hf as (? & ? & _)).
  destruct f as [|e|e]; cbn [with_fault fst]; rewrite ?Hr.
  2: { rewrite (bool_decide_true (Some r = Some r)) by done. by rewrite andb_false_r. }
  all: intros [[_ <-%bool_decide_eq_true]%andb_true_iff _]%andb_true_iff; split_and!;
    [by exists r|by apply bool_decide_eq_true_2|]; cbn; rewrite lookup_insert_eq; destruct r;
    destruct (su_Outcome u); cbn; repeat case_match; cbn; by apply bool_decide_eq_false_2.
Qed.

(** A lease on [token] can only appear through an operation that issues it. *)
Lemma live_step pol db op id token :
  table_ok db -> issues op token = false -> live (apply_op pol db op) id token = true -> live db id token = true.
Proof.
  intros Hok Hi Hl. unfold live in *.
  destruct (db_rows db !! id) as [r|] eqn:Hr.
  - destruct (apply_op_row pol db op id r Hok Hr) as (r' & Hr' & Hc). rewrite Hr' in Hl. bsplit.
    apply bool_decide_eq_true_2. destruct Hc as [r|r|r|r|r|r ? ? ? tok ? ? ->|r f now lease u set _ _ _ ->|r|r];
      try exact Hl; cbn in Hl.
    + cbn in Hi. bsplit. congruence.
    + destruct (su_Outcome u); repeat case_match; done.
    + done.
    + repeat case_match; done.
  - destruct (db_rows (apply_op pol db op) !! id) as [r'|] eqn:Hr'; [|done].
    destruct (is_insert op) eqn:Hins; [|rewrite (apply_op_absent pol db op id) in Hr' by done; done].
    destruct op; try done. apply InsertIfAbsent_new in Hr' as (_ & _ & _ & Htok & _); [|done].
    rewrite Htok in Hl. by bsplit.
Qed.

Lemma effect_live pol db op id token :
  table_ok db ->
  (Nat.b2n (took_effect db op id token) + Nat.b2n (live (apply_op pol db op) id token)
    <= Nat.b2n (live db id token) + Nat.b2n (issues op token))%nat.
Proof.
  intros Hok. destruct (took_effect db op id token) eqn:Hc.
  - destruct op; try done. apply (CompleteScan_effect pol) in Hc as (_ & -> & ->). cbn. lia.
  - pose proof (live_step pol db op id token Hok). destruct (issues op token), (live (apply_op pol db op) id token);
      cbn; try lia. rewrite H by done. cbn. lia.
Qed.

Lemma count_effects_bound pol ops id token : forall db, table_ok db ->
  (count_effects pol db ops id token + Nat.b2n (live (run_ops pol db ops) id token)
    <= Nat.b2n (live db id token) + count_issues ops token)%nat.
Proof.
  induction ops as [|op ops IH]; intros db Hok; [cbn; lia|].
  change (run_ops pol db (op :: ops)) with (run_ops pol (apply_op pol db op) ops).
  change (count_issues (op :: ops) token) with (Nat.b2n (issues op token) + count_issues ops token)%nat.
  cbn [count_effects]. specialize (IH (apply_op pol db op) (apply_op_ok pol db op Hok)).
  pose proof (effect_live pol db op id token Hok). lia.
Qed.

(** C2: fencing.  A claim token is drawn from 128 random bits, so no two
    claims share one; under that assumption, over any interleaving of store
    operations at most one completion with the token changes its row or is
    reported as done, whether the worker replays it, another worker raced it,
    the lease expired, or the reply was lost; and once one has, the lease is
    gone. *)
Theorem scan_completes_once pol ops id token
    (Hnonce : (count_issues ops token <= 1)%nat) :
  (count_effects pol empty_db ops id token + Nat.b2n (live (run_ops pol empty_db ops) id token) <= 1)%nat.
Proof.
  pose proof (count_effects_bound pol ops id token empty_db empty_db_ok) as H.
  assert (Hl : live empty_db id token = false) by (unfold live; cbn; by rewrite lookup_empty).
  rewrite Hl in H.
  cbn [Nat.b2n] in H. lia.
Qed.

(** A concrete run: insert, claim, complete twice (the second is a replay). *)
Definition demo_policy : ProxyScanPolicy :=
  mkProxyScanPolicy minute (2 * minute) (10 * second) (5 * minute) hour (30 * second) second (15 * second) (24 * hour) 5.
Definition demo_proxy : ProxyRecord := zeroProxyRecord{{ pr_Protocol := "http"; pr_IP := "10.0.0.1"; pr_Port := 8080 }}.
Definition demo_success : ScanUpdate := mkScanUpdate ScanSuccess 42 minute second 0 (2 * minute) (24 * hour) 5.
Definition demo_lease : ScanLease := mkScanLease (demo_proxy{{ pr_ID := 1 }}) "t0" 0.
Definition demo_ops : list store_op :=
  [OpInsert NoFault 0 demo_proxy;
   OpClaimScans NoFault (mkDbTime second (fun _ => second)) ∅ (Ok "t0") ScanBackground 10;
   OpComplete (LostReply (ErrorString "connection reset")) (2 * second) demo_lease demo_success;
   OpComplete NoFault (3 * second) demo_lease demo_success].

Lemma scan_completes_once_witness :
  (count_issues demo_ops "t0" <= 1)%nat /\ count_effects demo_policy empty_db demo_ops 1 "t0" = 1%nat
  /\ (count_effects demo_policy empty_db demo_ops 1 "t0"
      + Nat.b2n (live (run_ops demo_policy empty_db demo_ops) 1 "t0") <= 1)%nat.
Proof.
  split; [vm_compute; lia|]. split; [vm_compute; reflexivity|].
  apply (scan_completes_once demo_policy demo_ops 1 "t0"). vm_compute. lia.
Defined.

(** ** Versioned evidence *)

(** The columns a conclusive observation writes. *)
Definition evidence (r : ProxyRecord) : bool * string * option Z * option Z * option Z * Z * Z :=
  (pr_GeneralHealthy r, pr_Status r, pr_LatencyMS r, pr_LastAliveAt r, pr_LastVerifiedAt r,
   pr_FailCount r, pr_RecoveryStep r).

Definition same_or_newer (r r' : ProxyRecord) : Prop :=
  (pr_ObservationVersion r' = pr_ObservationVersion r /\ evidence r' = evidence r)
  \/ pr_ObservationVersion r < pr_ObservationVersion r'.

Lemma row_change_evidence pol op j r r' : row_change pol op j r r' -> same_or_newer r r'.
Proof.
  intros Hc. unfold same_or_newer.
  destruct Hc as [r|r|r|r|r|r|r f now lease u set _ _ _ ->|r|r]; try (by left).
  - destruct (su_Outcome u); [by left|right; cbn; lia|]. case_match. right. cbn. lia.
  - case_match. right. cbn. lia.
Qed.

Lemma run_ops_row pol (R : ProxyRecord -> ProxyRecord -> Prop) j ops :
  (forall r, R r r) -> (forall r1 r2 r3, R r1 r2 -> R r2 r3 -> R r1 r3) ->
  (forall op r r', op ∈ ops -> row_change pol op j r r' -> R r r') ->
  forall db r, table_ok db -> db_rows db !! j = Some r ->
  exists r', db_rows (run_ops pol db ops) !! j = Some r' /\ R r r'.
Proof.
  intros Hrefl Htrans. induction ops as [|op ops IH]; intros Hstep db r Hok Hr; [by exists r|].
  destruct (apply_op_row pol db op j r Hok Hr) as (r1 & Hr1 & Hc).
  edestruct (IH) as (r2 & Hr2 & HR); [|by apply apply_op_ok|exact Hr1|].
  - intros. eapply Hstep; [by apply list_elem_of_further|done].
  - exists r2. split; [exact Hr2|]. eapply Htrans; [|exact HR]. eapply Hstep; [apply list_elem_of_here|done].
Qed.

(** C36: the observation version identifies the evidence.  Over any
    interleaving, a row never leaves the table, its version never decreases,
    and two reads of the row with the same version carry the same health,
    status, latency, success stamps, failure count and recovery step; this is
    what makes a compare-and-set on the version a compare-and-set on the
    evidence. *)
Theorem observation_version_identifies_evidence pol ops1 ops2 id r
    (Hr : db_rows (run_ops pol empty_db ops1) !! id = Some r) :
  exists r', db_rows (run_ops pol empty_db (ops1 ++ ops2)) !! id = Some r'
    /\ pr_ObservationVersion r <= pr_ObservationVersion r'
    /\ (pr_ObservationVersion r' = pr_ObservationVersion r -> evidence r' = evidence r).
Proof.
  assert (Hsplit : run_ops pol empty_db (ops1 ++ ops2) = run_ops pol (run_ops pol empty_db ops1) ops2)
    by apply fold_left_app.
  rewrite Hsplit.
  destruct (run_ops_row pol same_or_newer id ops2) with (db := run_ops pol empty_db ops1) (r := r) as (r' & Hr' & HR);
    [by left| |eauto using row_change_evidence|apply run_ops_ok, empty_db_ok|done|].
  - unfold same_or_newer. intros r1 r2 r3 [[Hv1 He1]|H1] [[Hv2 He2]|H2]; [left; split; congruence|right; lia..].
  - exists r'. split; [done|]. destruct HR as [[-> ->]|?]; [auto using Z.le_refl|]. split; [lia|intros; lia].
Qed.

Lemma observation_version_identifies_evidence_witness :
  exists r r', db_rows (run_ops demo_policy empty_db (take 1 demo_ops)) !! 1 = Some r
    /\ db_rows (run_ops demo_policy empty_db (take 1 demo_ops ++ drop 1 demo_ops)) !! 1 = Some r'
    /\ pr_ObservationVersion r <= pr_ObservationVersion r'.
Proof.
  edestruct (observation_version_identifies_evidence demo_policy (take 1 demo_ops) (drop 1 demo_ops) 1)
    as (r' & Hr' & Hle & _); [vm_compute; reflexivity|].
  eexists _, r'. split; [vm_compute; reflexivity|]. split; [exact Hr'|exact Hle].
Defined.
