(* ===== verification/ProxyClaims.v ===== *)
(** * Claims of the proxy table

    What a scan claim leases and in which order, what an accepted completion
    writes, and who may hold a consumer lock. *)
From S2P Require Import Prelude GoErrors Contract ProxyStore ProxyStoreFacts.

(** ** The claim order *)

(** [key ASC NULLS FIRST, id ASC], as a proposition. *)
Definition key_le (ka kb : option Z) (ia ib : Z) : Prop :=
  match ka, kb with
  | None, None => ia <= ib
  | None, Some _ => True
  | Some _, None => False
  | Some x, Some y => x < y \/ (x = y /\ ia <= ib)
  end.

Lemma order_le_spec key a b : order_le key a b <-> key_le (key a) (key b) (pr_ID a) (pr_ID b).
Proof.
  unfold order_le, order_cmp, then_cmp, key_le. destruct (key a) as [x|], (key b) as [y|]; try naive_solver.
  all: destruct (Z.compare_spec (pr_ID a) (pr_ID b)); try (destruct (Z.compare_spec x y)); naive_solver lia.
Qed.

Lemma lease_le_spec key a b :
  lease_le key a b <-> key_le (key a) (key b) (pr_ID (sl_Record a)) (pr_ID (sl_Record b)).
Proof.
  unfold lease_le, lease_less, key_le. destruct (key a) as [x|], (key b) as [y|]; try naive_solver; zbool; naive_solver lia.
Qed.

Lemma key_le_trans ka kb kc ia ib ic : key_le ka kb ia ib -> key_le kb kc ib ic -> key_le ka kc ia ic.
Proof. unfold key_le. destruct ka, kb, kc; naive_solver lia. Qed.
Lemma key_le_total ka kb ia ib : key_le ka kb ia ib \/ key_le kb ka ib ia.
Proof. unfold key_le. destruct ka as [x|], kb as [y|]; try naive_solver; [|lia]. destruct (Z.lt_trichotomy x y) as [|[]]; naive_solver lia. Qed.
Lemma key_le_antisym ka kb ia ib : key_le ka kb ia ib -> key_le kb ka ib ia -> ia = ib.
Proof. unfold key_le. destruct ka, kb; naive_solver lia. Qed.

Global Instance order_le_trans key : Transitive (order_le key).
Proof. intros a b c. rewrite !order_le_spec. apply key_le_trans. Qed.
Global Instance order_le_total key : Total (order_le key).
Proof. intros a b. rewrite !order_le_spec. apply key_le_total. Qed.
Global Instance lease_le_trans key : Transitive (lease_le key).
Proof. intros a b c. rewrite !lease_le_spec. apply key_le_trans. Qed.
Global Instance lease_le_total key : Total (lease_le key).
Proof. intros a b. rewrite !lease_le_spec. apply key_le_total. Qed.

Lemma NoDup_fmap_key {A B} (f : A -> B) l x y :
  NoDup (f <$> l) -> x ∈ l -> y ∈ l -> f x = f y -> x = y.
Proof.
  intros Hnd Hx Hy Hf. apply list_elem_of_lookup in Hx as [i Hi]. apply list_elem_of_lookup in Hy as [j Hj].
  assert (i = j) as ->; [|congruence].
  eapply (NoDup_lookup (f <$> l)); [done|apply list_lookup_fmap_Some; eauto|].
  rewrite Hf. apply list_lookup_fmap_Some; eauto.
Qed.

(** ** The rows a claim chooses *)

Definition eligible (pol : ProxyScanPolicy) (now : Z) (skip : gset Z) (q : ScanQueue) (p : ProxyRecord) : Prop :=
  claimLeaseWhere now p = true /\ claimQueueWhere pol q now p = true /\ pr_ID p ∉ skip.

Lemma sorted_eligible pol db now skip q :
  StronglySorted (order_le (queue_key q)) (merge_sort (order_le (queue_key q))
     (filter (eligible pol now skip q) (rows_list db))).
Proof. apply StronglySorted_merge_sort; apply _. Qed.

Lemma chosen_rows_NoDup pol db now skip q limit :
  table_ok db -> NoDup (pr_ID <$> chosen_rows pol db now skip q limit).
Proof.
  intros Hok. unfold chosen_rows. rewrite fmap_take. eapply sublist_NoDup; [|apply sublist_take].
  rewrite merge_sort_Permutation. eapply sublist_NoDup; [apply rows_list_NoDup, Hok|].
  apply fmap_sublist, sublist_filter.
Qed.

(** No eligible row is passed over for a later one. *)
Lemma chosen_rows_first pol db now skip q limit r :
  table_ok db -> 0 < limit -> db_rows db !! pr_ID r = Some r -> eligible pol now skip q r ->
  r ∉ chosen_rows pol db now skip q limit ->
  Z.of_nat (length (chosen_rows pol db now skip q limit)) = limit
  /\ forall c, c ∈ chosen_rows pol db now skip q limit -> order_le (queue_key q) c r.
Proof.
  intros Hok Hl Hr He Hn. pose proof (sorted_eligible pol db now skip q) as Hs.
  unfold chosen_rows in *. unfold eligible in Hs.
  set (l := merge_sort _ _) in *. set (n := Z.to_nat limit) in *.
  assert (Hin : r ∈ l).
  { unfold l. rewrite merge_sort_Permutation, list_elem_of_filter, rows_list_lookup; done. }
  rewrite <- (take_drop n l) in Hin, Hs. apply elem_of_app in Hin as [?|Hin]; [done|].
  apply StronglySorted_app in Hs as (Hs & _ & _). split; [|eauto].
  rewrite length_take_le; [lia|]. destruct (decide (length l <= n)%nat) as [Hle|]; [|lia].
  rewrite drop_ge in Hin by done. by apply elem_of_nil in Hin.
Qed.

Lemma write_rows_chosen pol db t skip token q limit r :
  table_ok db -> r ∈ chosen_rows pol db (stmt_ts t) skip q limit ->
  write_rows (db_rows db) (stamp_lease pol token (clock_ts t) <$> chosen_rows pol db (stmt_ts t) skip q limit)
    !! pr_ID r = Some (stamp_lease pol token (clock_ts t) r).
Proof.
  intros Hok Hin. rewrite write_rows_lookup.
  destruct (list_find _ _) as [[i x]|] eqn:E.
  - apply list_find_Some in E as (Hi & Hid & _).
    apply list_lookup_fmap_Some in Hi as (r0 & -> & Hi). apply list_elem_of_lookup_2 in Hi.
    change (pr_ID r0 = pr_ID r) in Hid.
    pose proof (chosen_rows_spec _ _ _ _ _ _ _ Hok Hi) as [Hr0 _].
    pose proof (chosen_rows_spec _ _ _ _ _ _ _ Hok Hin) as [Hr _]. congruence.
  - apply list_find_None in E. rewrite Forall_forall in E. exfalso.
    by apply (E (stamp_lease pol token (clock_ts t) r)); [apply list_elem_of_In, list_elem_of_fmap_2|].
Qed.

Lemma write_rows_other m l j : j ∉ (pr_ID <$> l) -> write_rows m l !! j = m !! j.
Proof.
  intros Hj. rewrite write_rows_lookup. destruct (list_find _ _) as [[i x]|] eqn:E; [|done].
  apply list_find_Some in E as (Hi & <- & _). destruct Hj. apply list_elem_of_fmap_2.
  by eapply list_elem_of_lookup_2.
Qed.

(** ** The order of the leases *)

Definition lease_key (q : ScanQueue) (l : ScanLease) : option Z := queue_key q (sl_Record l).

Definition claim_leases pol db t skip token q limit : list ScanLease :=
  (fun r => lease_of r token) <$> (stamp_lease pol token (clock_ts t) <$> chosen_rows pol db (stmt_ts t) skip q limit).

Lemma stamp_lease_key pol token clock q r : queue_key q (stamp_lease pol token clock r) = queue_key q r.
Proof. by destruct q. Qed.

Lemma claim_leases_ids pol db t skip token q limit :
  (fun l => pr_ID (sl_Record l)) <$> claim_leases pol db t skip token q limit
    = pr_ID <$> chosen_rows pol db (stmt_ts t) skip q limit.
Proof. unfold claim_leases. rewrite <- !list_fmap_compose. apply list_fmap_ext. done. Qed.

Lemma claim_leases_sorted pol db t skip token q limit :
  StronglySorted (lease_le (lease_key q)) (claim_leases pol db t skip token q limit).
Proof.
  unfold claim_leases. rewrite <- list_fmap_compose. apply (StronglySorted_fmap _ (order_le (queue_key q))).
  - intros a b. rewrite order_le_spec, lease_le_spec. unfold lease_key. cbn -[stamp_lease].
    by rewrite !stamp_lease_key.
  - unfold chosen_rows. pose proof (sorted_eligible pol db (stmt_ts t) skip q) as Hs. unfold eligible in Hs.
    rewrite <- (take_drop (Z.to_nat limit) (merge_sort _ _)) in Hs.
    by apply StronglySorted_app in Hs as (_ & Hs & _).
Qed.

Lemma sortScanLeases_claim pol db t skip token q limit returned
    (Hok : table_ok db)
    (Hret : returned ≡ₚ claim_leases pol db t skip token q limit) :
  sortScanLeases (lease_key q) returned = claim_leases pol db t skip token q limit.
Proof.
  eapply (StronglySorted_unique_strong (lease_le (lease_key q))).
  - intros x y Hx Hy Hxy Hyx. rewrite lease_le_spec in *.
    pose proof (key_le_antisym _ _ _ _ Hxy Hyx) as Hid.
    unfold sortScanLeases in Hx. rewrite merge_sort_Permutation, Hret in Hx.
    apply (NoDup_fmap_key (fun l => pr_ID (sl_Record l)) (claim_leases pol db t skip token q limit)); try done.
    rewrite claim_leases_ids. by apply chosen_rows_NoDup.
  - apply StronglySorted_merge_sort; apply _.
  - apply claim_leases_sorted.
  - unfold sortScanLeases. by rewrite merge_sort_Permutation.
Qed.

(** [UPDATE ... RETURNING] hands the claimed rows back in any
    order; whatever it is, [sortScanLeases] restores exactly the order in
    which the claim's [SELECT ... ORDER BY key ASC NULLS FIRST, id ASC] chose
    them. *)
Theorem sortScanLeases_restores_claim_order pol db t skip token q limit returned
    (Hok : table_ok db)
    (Hret : returned ≡ₚ claim_leases pol db t skip token q limit) :
  sortScanLeases (lease_key q) returned = claim_leases pol db t skip token q limit.
Proof. by apply sortScanLeases_claim. Qed.

Definition lease_ids (leases : list ScanLease) : list Z := (fun l => pr_ID (sl_Record l)) <$> leases.

Lemma ClaimScans_shape pol db t skip token q limit db' leases :
  table_ok db -> ClaimScans pol db NoFault t skip (Ok token) q limit = (db', Ok leases) ->
  0 < limit /\ leases = claim_leases pol db t skip token q limit
  /\ db_rows db' = write_rows (db_rows db) (stamp_lease pol token (clock_ts t) <$> chosen_rows pol db (stmt_ts t) skip q limit).
Proof.
  intros Hok. unfold ClaimScans. case_match eqn:Hl; [done|]. bsplit. cbn [with_fault]. cbv zeta.
  intros [= <- <-]. split; [done|]. split; [|by destruct db].
  by apply sortScanLeases_claim.
Qed.

(** A lease of a claim is the row as it is stored. *)
Lemma claimed_lease_stored pol db t skip token q limit db' leases l : table_ok db ->
  ClaimScans pol db NoFault t skip (Ok token) q limit = (db', Ok leases) -> l ∈ leases ->
  exists r, db_rows db !! pr_ID r = Some r /\ eligible pol (stmt_ts t) skip q r /\ sl_Record l = stamp_lease pol token (clock_ts t) r
    /\ sl_Token l = token /\ sl_Version l = pr_ObservationVersion r /\ db_rows db' !! pr_ID r = Some (sl_Record l).
Proof.
  intros Hok Hrun Hin. apply ClaimScans_shape in Hrun as (Hl & -> & Hdb'); [|done]. rewrite Hdb'.
  unfold claim_leases in Hin. rewrite <- list_fmap_compose in Hin.
  apply list_elem_of_fmap in Hin as (r & -> & Hin). exists r.
  pose proof (chosen_rows_spec _ _ _ _ _ _ _ Hok Hin) as (? & ? & ? & ?).
  by rewrite write_rows_chosen.
Qed.


Definition demo_time : DbTime := mkDbTime second (fun _ => second).
Definition demo_db : ProxyDB := run_ops demo_policy empty_db
  [OpInsert NoFault 0 demo_proxy; OpInsert NoFault 0 (demo_proxy{{ pr_Port := 8081 }})].

Lemma demo_db_ok : table_ok demo_db.
Proof. apply run_ops_ok, empty_db_ok. Qed.


Lemma sortScanLeases_restores_claim_order_witness :
  sortScanLeases (lease_key ScanBackground) (reverse (claim_leases demo_policy demo_db demo_time ∅ "t0" ScanBackground 2))
    = claim_leases demo_policy demo_db demo_time ∅ "t0" ScanBackground 2.
Proof.
  apply (sortScanLeases_restores_claim_order demo_policy demo_db demo_time ∅ "t0" ScanBackground 2);
    [apply demo_db_ok|apply reverse_Permutation].
Defined.

(** ** Completions *)

Definition completed (now : Z) (u : ScanUpdate) (r : ProxyRecord) : ProxyRecord :=
  match su_Outcome u with
  | ScanSuccess => set_success now u r
  | ScanFailure => let '(status, n) := failureStatus r now u in set_failure status n now u r
  | ScanInconclusive => set_inconclusive now u r
  end.

(** [CompleteScan] answers [true] exactly when the row still
    carries the lease's token, its captured version is still the row's current
    observation version, and the lease has not expired at the post-lock
    database time; it then writes the outcome's columns to that row alone.
    Otherwise it answers [false] and the table is unchanged. *)
Theorem CompleteScan_correct db now lease u :
  match CompleteScan db NoFault now lease u with
  | (db', Ok accepted) =>
      (accepted = true <-> exists r until, db_rows db !! pr_ID (sl_Record lease) = Some r
         /\ pr_ScanToken r = Some (sl_Token lease) /\ pr_ClaimedVersion r = Some (sl_Version lease)
         /\ pr_ObservationVersion r = sl_Version lease /\ pr_ScanLeaseUntil r = Some until /\ now < until)
      /\ (accepted = false -> db' = db)
      /\ (accepted = true -> exists r, db_rows db !! pr_ID (sl_Record lease) = Some r
            /\ db_rows db' = <[pr_ID (sl_Record lease) := completed now u r]> (db_rows db))
  | (_, Err _) => False
  end.
Proof.
  unfold CompleteScan, update_where, with_fault. cbv zeta.
  destruct (db_rows db !! pr_ID (sl_Record lease)) as [r|] eqn:Hr; [|naive_solver].
  destruct (fencedWhere lease now r) eqn:Hf.
  - apply fencedWhere_true in Hf. split; [naive_solver|]. split; [done|]. intros _. exists r. split; [done|].
    unfold completed. destruct (su_Outcome u); cbn; [done..|]. by destruct (failureStatus r now u).
  - apply not_true_iff_false in Hf. rewrite fencedWhere_true in Hf. naive_solver.
Qed.

Lemma CompleteScan_correct_replay :
  CompleteScan (run_ops demo_policy empty_db demo_ops) NoFault (3 * second) demo_lease demo_success
    = (run_ops demo_policy empty_db demo_ops, Ok false).
Proof. vm_compute. reflexivity. Qed.

(** ** Consumer locks *)

Lemma desc_asc a b : desc_nulls_last a b = asc_nulls_last (Z.opp <$> a) (Z.opp <$> b).
Proof. destruct a as [x|], b as [y|]; cbn; try done. symmetry. apply Z.compare_opp. Qed.

(** [claim_le] is a lexicographic order on three keys. *)
Definition nl_lt (a b : option Z) : Prop := asc_nulls_last a b = Lt.
Definition nl_key (p : ProxyRecord) : option Z * option Z * Z :=
  (Z.opp <$> pr_UptimePercent p, pr_LatencyMS p, pr_FailCount p).

Lemma asc_eq a b : asc_nulls_last a b = Eq <-> a = b.
Proof. destruct a as [x|], b as [y|]; cbn; try naive_solver. rewrite Z.compare_eq_iff. naive_solver. Qed.
Lemma asc_antisym a b : asc_nulls_last b a = CompOpp (asc_nulls_last a b).
Proof. destruct a as [x|], b as [y|]; cbn; try done. apply Z.compare_antisym. Qed.
Lemma asc_lt_trans a b c : nl_lt a b -> nl_lt b c -> nl_lt a c.
Proof. unfold nl_lt. destruct a, b, c; cbn; try done. rewrite !Z.compare_lt_iff. lia. Qed.

Lemma claim_le_spec a b :
  claim_le a b <->
    nl_lt (nl_key a).1.1 (nl_key b).1.1
    \/ ((nl_key a).1.1 = (nl_key b).1.1 /\ (nl_lt (pr_LatencyMS a) (pr_LatencyMS b)
         \/ (pr_LatencyMS a = pr_LatencyMS b /\ pr_FailCount a <= pr_FailCount b))).
Proof.
  unfold claim_le, claim_cmp, nl_lt, nl_key. cbn [fst snd]. rewrite desc_asc, <- !asc_eq.
  destruct (asc_nulls_last (_ <$> _) _); cbn; [|naive_solver..].
  destruct (asc_nulls_last (pr_LatencyMS a) _); cbn; [|naive_solver..].
  destruct (Z.compare_spec (pr_FailCount a) (pr_FailCount b)); naive_solver lia.
Qed.

Global Instance claim_le_trans : Transitive claim_le.
Proof.
  intros a b c. rewrite !claim_le_spec. generalize (nl_key a).1.1 (nl_key b).1.1 (nl_key c).1.1. intros ka kb kc.
  intros [H1|[-> [H1|[-> H1]]]] [H2|[<- [H2|[<- H2]]]]; eauto 6 using asc_lt_trans; right; split; auto; right; split; auto; lia.
Qed.
Lemma claim_cmp_antisym a b : claim_cmp b a = CompOpp (claim_cmp a b).
Proof.
  unfold claim_cmp. rewrite !desc_asc, (asc_antisym (_ <$> pr_UptimePercent a)), (asc_antisym (pr_LatencyMS a)).
  rewrite (Z.compare_antisym (pr_FailCount a)).
  destruct (asc_nulls_last (_ <$> _) _), (asc_nulls_last (pr_LatencyMS a) _), (pr_FailCount a ?= pr_FailCount b); done.
Qed.
Global Instance claim_le_total : Total claim_le.
Proof. intros a b. unfold claim_le. rewrite (claim_cmp_antisym a b). destruct (claim_cmp a b); cbn; auto. Qed.

(** a consumer claim hands out the best row of the claim order
    (uptime, then latency, then failures) among the rows that are healthy,
    verified within the freshness TTL, of a supported protocol, unlocked or
    with an expired lock, past their destination cooldown and not locked by a
    concurrent transaction; the row now carries the owner's lock.  It answers
    "none" only when there is no such row. *)
Theorem ClaimProxy_correct pol db now lnow skip owner ttl (Hok : table_ok db) :
  match ClaimProxy pol db NoFault now lnow skip owner ttl with
  | (db', Ok (Some p)) =>
      exists r, db_rows db !! pr_ID p = Some r /\ claimable pol ttl now r = true /\ (pr_ID p ∉ skip)
        /\ db_rows db' = <[pr_ID p := p]> (db_rows db)
        /\ pr_LockedBy p = Some owner /\ pr_LockedAt p = Some lnow /\ evidence p = evidence r
        /\ forall c, db_rows db !! pr_ID c = Some c -> claimable pol ttl now c = true -> pr_ID c ∉ skip -> claim_le r c
  | (db', Ok None) => db' = db /\ forall c, db_rows db !! pr_ID c = Some c -> claimable pol ttl now c = true -> pr_ID c ∈ skip
  | (_, Err _) => False
  end.
Proof.
  unfold ClaimProxy, with_fault.
  assert (Hin : forall c, c ∈ merge_sort claim_le (filter (fun p => claimable pol ttl now p = true /\ pr_ID p ∉ skip) (rows_list db))
            <-> (claimable pol ttl now c = true /\ pr_ID c ∉ skip) /\ db_rows db !! pr_ID c = Some c).
  { intros c. by rewrite merge_sort_Permutation, list_elem_of_filter, rows_list_lookup. }
  pose proof (StronglySorted_merge_sort claim_le (filter (fun p => claimable pol ttl now p = true /\ pr_ID p ∉ skip) (rows_list db))) as Hs.
  destruct (merge_sort claim_le _) as [|p l].
  - split; [done|]. intros c Hc Hcl. destruct (decide (pr_ID c ∈ skip)); [done|].
    by assert (c ∈ []) as []%elem_of_nil by (apply Hin; done).
  - destruct (proj1 (Hin p) (list_elem_of_here _ _)) as [[Hc Hs'] Hp]. unfold update_where. rewrite Hp.
    exists p. repeat split; try done. intros c Hc' Hcl Hn.
    apply StronglySorted_inv in Hs as [_ Hall]. rewrite Forall_forall in Hall.
    assert (c ∈ p :: l) as [->|Hl]%elem_of_cons by (apply Hin; done).
    + by destruct (total claim_le p p).
    + apply Hall. by apply list_elem_of_In.
Qed.

Lemma ClaimProxy_correct_witness :
  table_ok (run_ops demo_policy empty_db demo_ops)
  /\ match ClaimProxy demo_policy (run_ops demo_policy empty_db demo_ops) NoFault (4 * second) (4 * second) ∅ "w1" minute with
     | (_, Ok (Some p)) => pr_ID p = 1 /\ pr_LockedBy p = Some "w1"
     | _ => False
     end.
Proof.
  assert (Hok : table_ok (run_ops demo_policy empty_db demo_ops)) by apply run_ops_ok, empty_db_ok.
  split; [exact Hok|].
  pose proof (ClaimProxy_correct demo_policy _ (4 * second) (4 * second) ∅ "w1" minute Hok) as H.
  destruct (ClaimProxy _ _ _ _ _ _ _ _) as [db' [[p|]|e]] eqn:E.
  - destruct H as (r & _ & _ & _ & _ & Hl & _). split; [|exact Hl].
    apply (f_equal snd) in E. vm_compute in E. injection E as <-. reflexivity.
  - apply (f_equal snd) in E. vm_compute in E. discriminate.
  - exact H.
Defined.

(** [owner]'s lock, taken or renewed at [t0] or later. *)
Definition lock_held (owner : string) (t0 : Z) (r : ProxyRecord) : Prop :=
  pr_LockedBy r = Some owner /\ exists t, pr_LockedAt r = Some t /\ t0 <= t.

(** The operations other processes may run while [owner] keeps its lock: any
    but [owner]'s own release, cooldown or failure report; consumer claims
    only while the lock taken at [t0] has not outlived their TTL. *)
Definition while_held (owner : string) (t0 : Z) (op : store_op) : Prop :=
  match op with
  | OpClaimProxy _ now _ _ _ ttl => now <= t0 + ttl
  | OpRefresh _ now _ o _ => o = owner -> t0 <= now
  | OpReleaseProxy _ _ _ o | OpCooldown _ _ _ o _ _ | OpFailure _ _ _ o _ _ => o <> owner
  | _ => True
  end.

Lemma lock_held_step pol owner t0 op j r r' :
  while_held owner t0 op -> row_change pol op j r r' -> lock_held owner t0 r -> lock_held owner t0 r'.
Proof.
  intros Hw Hc (Hby & t & Hat & Ht).
  destruct Hc as [r|r f now lnow skip o ttl -> Hcl _|r f now id o ttl -> Ho _|r now o Ho Hb|r f now id o ttl d -> Ho
                 |r|r f now lease u set _ _ _ ->|r|r f now rec o ttl u -> Ho _]; cbn in Hw; unfold lock_held; cbn.
  - eauto.
  - unfold claimable in Hcl. rewrite Hat in Hcl. bsplit. lia.
  - apply sql_eq_true in Ho. rewrite Hby in Ho. simplify_eq. naive_solver.
  - apply sql_eq_true in Hb. rewrite Hby in Hb. simplify_eq. destruct Ho as [(?&?&->)|(?&?&?&?&->)]; done.
  - apply sql_eq_true in Ho. rewrite Hby in Ho. by simplify_eq.
  - eauto.
  - destruct (su_Outcome u); cbn; repeat case_match; cbn; eauto.
  - eauto.
  - repeat case_match; cbn; eauto.
Qed.

Lemma run_ops_lock pol owner t0 ops j db r :
  table_ok db -> Forall (while_held owner t0) ops -> db_rows db !! j = Some r -> lock_held owner t0 r ->
  exists r', db_rows (run_ops pol db ops) !! j = Some r' /\ lock_held owner t0 r'.
Proof.
  intros Hok Hall Hr Hl. rewrite Forall_forall in Hall.
  destruct (run_ops_row pol (fun a b => lock_held owner t0 a -> lock_held owner t0 b) j ops)
    with (db := db) (r := r) as (r' & Hr' & HR); eauto.
  intros op a b Hin Hc. eapply lock_held_step; [|done]. by apply Hall, list_elem_of_In.
Qed.

(** C3: mutual exclusion of consumers.  Between a consumer's claim at
    [t0] and [t0] plus the lock TTL, as long as that consumer does not release
    the proxy, cool it down or report it failed, no claim by anyone hands the
    same proxy out again, whatever scans, releases and claims by others are
    interleaved. *)
Theorem consumer_lock_exclusive pol db sel0 t0 skip owner ttl db1 p ops now lnow skip' other ttl' db2 p'
    (Hok : table_ok db)
    (Hclaim : ClaimProxy pol db NoFault sel0 t0 skip owner ttl = (db1, Ok (Some p)))
    (Hops : Forall (while_held owner t0) ops)
    (Hwindow : now <= t0 + ttl')
    (Hagain : ClaimProxy pol (run_ops pol db1 ops) NoFault now lnow skip' other ttl' = (db2, Ok (Some p'))) :
  pr_ID p' <> pr_ID p.
Proof.
  pose proof (apply_op_ok pol db (OpClaimProxy NoFault sel0 t0 skip owner ttl) Hok) as Hok1. cbn [apply_op] in Hok1.
  rewrite Hclaim in Hok1. cbn in Hok1.
  apply ClaimProxy_pick in Hclaim as (r & Hr & _ & _ & -> & ->); [|done].
  edestruct (run_ops_lock pol owner t0 ops (pr_ID r)) as (r2 & Hr2 & Hby & t & Hat & Ht);
    [exact Hok1|done|cbn; by rewrite lookup_insert_eq|split; [done|eexists; split; [done|lia]]|].
  apply ClaimProxy_pick in Hagain as (c & Hc & Hcl & _ & -> & _); [|by apply run_ops_ok].
  cbn. intros Heq. change (pr_ID c = pr_ID r) in Heq. rewrite Heq, Hr2 in Hc. simplify_eq.
  unfold claimable in Hcl. rewrite Hat in Hcl. bsplit. lia.
Qed.

(** Two verified proxies. *)
Definition demo_ops2 : list store_op :=
  [OpInsert NoFault 0 demo_proxy; OpInsert NoFault 0 (demo_proxy{{ pr_Port := 8081 }});
   OpClaimScans NoFault demo_time ∅ (Ok "t0") ScanBackground 10;
   OpComplete NoFault (2 * second) demo_lease demo_success;
   OpComplete NoFault (2 * second) (mkScanLease (demo_proxy{{ pr_ID := 2 }}) "t0" 0) demo_success].

Lemma consumer_lock_exclusive_witness :
  exists db1 p db2 p',
    ClaimProxy demo_policy (run_ops demo_policy empty_db demo_ops2) NoFault (4 * second) (4 * second) ∅ "w1" minute = (db1, Ok (Some p))
    /\ ClaimProxy demo_policy (run_ops demo_policy db1 [OpReleaseProxy NoFault (5 * second) 1 "w2"]) NoFault (6 * second) (6 * second) ∅ "w2" minute
       = (db2, Ok (Some p'))
    /\ pr_ID p' <> pr_ID p.
Proof.
  eexists _, _, _, _. split; [vm_compute; reflexivity|]. split; [vm_compute; reflexivity|].
  eapply (consumer_lock_exclusive demo_policy (run_ops demo_policy empty_db demo_ops2) (4 * second) (4 * second) ∅ "w1" minute
            _ _ [OpReleaseProxy NoFault (5 * second) 1 "w2"] (6 * second) (6 * second) ∅ "w2" minute).
  - apply run_ops_ok, empty_db_ok.
  - vm_compute. reflexivity.
  - repeat constructor. discriminate.
  - vm_compute. discriminate.
  - vm_compute. reflexivity.
Defined.

(** ** Destination cooldowns *)

Definition cooling (c : Z) (r : ProxyRecord) : Prop :=
  exists until, pr_DestinationCooldownUntil r = Some until /\ c <= until.

Lemma cooling_step pol c op j r r' : row_change pol op j r r' -> cooling c r -> cooling c r'.
Proof.
  intros Hc (u & Hu & Hle). unfold cooling.
  destruct Hc as [| | | | | |? ? ? ? u0 ? _ _ _ ->| |]; cbn; eauto.
  - rewrite Hu. cbn. eexists. split; [done|lia].
  - destruct (su_Outcome u0); cbn; repeat case_match; cbn; eauto.
  - repeat case_match; cbn; eauto.
Qed.

(** once a consumer has put a proxy it owns on destination
    cooldown, no later operation shortens the cooldown (a second, shorter one
    included), and until it ends the proxy is neither claimed nor renewed by
    any consumer; its health evidence and version are untouched by it. *)
Theorem destination_cooldown_respected pol db t0 id owner ttl delay r
    (Hok : table_ok db) (Hr : db_rows db !! id = Some r) (Hown : pr_LockedBy r = Some owner) :
  let db1 := (CooldownDestination db NoFault t0 id owner ttl delay).1 in
  (exists r1, db_rows db1 !! id = Some r1 /\ evidence r1 = evidence r
     /\ pr_ObservationVersion r1 = pr_ObservationVersion r /\ pr_LockedBy r1 = None)
  /\ forall ops now, now < t0 + delay ->
     (forall db2 lnow skip o lttl p, ClaimProxy pol (run_ops pol db1 ops) NoFault now lnow skip o lttl = (db2, Ok (Some p)) -> pr_ID p <> id)
     /\ (forall o lttl, (RefreshConsumerLock pol (run_ops pol db1 ops) NoFault now id o lttl).2 = Ok None).
Proof.
  intros db1.
  set (r1 := r{{ pr_DestinationCooldownUntil := raise_cooldown (pr_DestinationCooldownUntil r) (t0 + delay);
                 pr_LockedBy := None; pr_LockedAt := None; pr_UpdatedAt := t0 }}).
  assert (Hr1 : db_rows db1 !! id = Some r1).
  { unfold db1, CooldownDestination, update_where. rewrite Hr. cbn.
    rewrite (proj2 (sql_eq_true _ _) Hown). cbn. by rewrite lookup_insert_eq. }
  assert (Hok1 : table_ok db1) by (by apply (apply_op_ok pol db (OpCooldown NoFault t0 id owner ttl delay))).
  split; [by exists r1|]. intros ops now Hnow.
  destruct (run_ops_row pol (fun a b => cooling (t0 + delay) a -> cooling (t0 + delay) b) id ops)
    with (db := db1) (r := r1) as (r2 & Hr2 & HR); eauto using cooling_step.
  destruct HR as (u & Hu & Hle). { eexists. split; [done|]. case_match; lia. }
  split.
  - intros db2 lnow skip o lttl p Hcl. apply ClaimProxy_pick in Hcl as (c & Hc & Hcl & _ & -> & _); [|by apply run_ops_ok].
    cbn. intros Heq. change (pr_ID c = id) in Heq. rewrite Heq, Hr2 in Hc. simplify_eq.
    unfold claimable in Hcl. rewrite Hu in Hcl. bsplit. cbn in *. bsplit. lia.
  - intros o lttl. unfold RefreshConsumerLock, update_where. rewrite Hr2. cbn. rewrite Hu. cbn.
    rewrite (proj2 (Z.leb_gt u now)) by lia. by rewrite andb_false_r.
Qed.

Definition demo_locked : ProxyDB :=
  run_ops demo_policy empty_db (demo_ops2 ++ [OpClaimProxy NoFault (4 * second) (4 * second) ∅ "w1" minute]).

Lemma destination_cooldown_respected_witness :
  exists r r1, db_rows demo_locked !! 2 = Some r /\ pr_LockedBy r = Some "w1"
    /\ db_rows (CooldownDestination demo_locked NoFault (5 * second) 2 "w1" minute hour).1 !! 2 = Some r1
    /\ evidence r1 = evidence r.
Proof.
  assert (Hr : exists r, db_rows demo_locked !! 2 = Some r /\ pr_LockedBy r = Some "w1").
  { eexists. split; vm_compute; reflexivity. }
  destruct Hr as (r & Hr & Hl).
  destruct (destination_cooldown_respected demo_policy demo_locked (5 * second) 2 "w1" minute hour r) as [(r1 & H1 & H2 & _) _].
  - apply run_ops_ok, empty_db_ok.
  - exact Hr.
  - exact Hl.
  - exists r, r1. split; [exact Hr|]. split; [exact Hl|]. split; [exact H1|exact H2].
Defined.
