(* ===== verification/ScanWorker.v ===== *)
(** * The scan worker ([domain/proxy/worker/scan.go])

    One dispatcher goroutine owns every scheduling counter; a fixed population
    of executors takes jobs from one channel and reports results on another.
    The dispatcher's operations are functions over its state and over the
    world it calls (store, guard, clock, context), which is an interface:
    [ScanEnv].  Executors and dispatcher interleave in [scan_step]. *)
From S2P Require Import Prelude GoErrors Contract Scheduling Admission ProxyStore ProxyStoreFacts.

(** ** The world of the worker *)

(** The structured events of the worker's logger, without their durations. *)
Inductive log_event :=
  | LogClaimError (queue : string) (e : gerror)
  | LogClaim (queue : string) (requested claimed : Z)
  | LogCompleteError (proxy_id : Z) (e : gerror)
  | LogReleaseError (proxy_id : Z) (e : gerror)
  | LogShutdownIncomplete (outstanding : Z)
  | LogCompletion (proxy_id : Z) (queue outcome reason : string) (accepted : bool)
                  (recovery_step : Z) (previously_healthy : bool).

(** [contract.ProxyScanStore], [contract.ProxyEndpointGuard], [time.Now],
    [ctx.Err() != nil], the availability notifier and the logger. *)
Class ScanEnv (W : Type) := {
  env_ClaimScans : ScanQueue -> Z -> ST W (result (list ScanLease));
  env_CompleteScan : ScanLease -> ScanUpdate -> ST W (result bool);
  env_ReleaseScan : ScanLease -> ST W (result unit);
  env_Snapshot : ST W GuardSnapshot;
  env_Now : ST W Z;
  env_Cancelled : ST W bool;
  env_Notify : ST W unit;
  env_Log : log_event -> ST W unit;
}.

(** What the dispatcher relies on: a claim never returns more rows than it
    was asked for. *)
Class ScanEnvLaws (W : Type) `{ScanEnv W} := {
  claim_at_most : forall w queue limit leases, 0 < limit ->
    (env_ClaimScans queue limit w).2 = Ok leases -> Z.of_nat (length leases) <= limit;
}.

(** ** Constants *)
Definition claimPauseFloor : Z := 100 * millisecond.
Definition claimPauseCeil : Z := second.
Definition defaultStoreTimeout : Z := 5 * second.

(** ** Types *)
Record ScanWorker := mkScanWorker {
  sw_policy : ProxyScanPolicy;
  sw_weights : arr3 Z;
  sw_notifier : bool; (* is a notifier registered? *)
}.

Record scanJob := mkScanJob { sj_lease : ScanLease; sj_queue : ScanQueue }.

Record scanResult := mkScanResult {
  sr_lease : ScanLease;
  sr_queue : ScanQueue;
  sr_latency : Z;
  sr_err : option gerror;
  sr_startSnap : GuardSnapshot;
  sr_finishSnap : GuardSnapshot;
  sr_cancelled : bool;
  sr_panicked : bool;
}.

(** The channels are lists, the oldest element first. *)
Record dispatcher := mkDispatcher {
  d_jobs : list scanJob;
  d_results : list scanResult;
  d_targets : arr3 Z;
  d_small : bool;
  d_free : Z;
  d_inFlight : arr3 Z;
  d_adm : admission;
  d_owned : gmap Z ScanLease;
}.

Definition newDispatcher (concurrency : Z) (targets : arr3 Z) : dispatcher := {|
  d_jobs := []; d_results := [];
  d_targets := targets;
  d_small := concurrency <? scanQueueCount;
  d_free := concurrency;
  d_inFlight := Arr3 0 0 0;
  d_adm := mkAdmission (Arr3 0 0 0) 0;
  d_owned := ∅ |}.

Record claimPause := mkClaimPause { cp_until : Z; cp_backoff : Z }.
Definition zeroPause : claimPause := mkClaimPause zero_time 0.

Definition pause_active (now : Z) (p : claimPause) : bool := now <? cp_until p.
Definition pause_engage (now : Z) (p : claimPause) : claimPause :=
  let backoff := if cp_backoff p <=? 0 then claimPauseFloor
                 else let b := cp_backoff p * 2 in if claimPauseCeil <? b then claimPauseCeil else b in
  mkClaimPause (now + backoff) backoff.
Definition pause_lift (p : claimPause) : claimPause := mkClaimPause zero_time 0.

(** ** Diagnostic labels *)
Definition queueName (q : ScanQueue) : string :=
  match q with
  | ScanVerification => "verification" | ScanRecovery => "recovery" | ScanBackground => "background"
  end.
Definition outcomeName (o : ScanOutcome) : string :=
  match o with ScanSuccess => "success" | ScanFailure => "failure" | ScanInconclusive => "inconclusive" end.
Definition checkReason (err : option gerror) : string :=
  match err with
  | None => ""
  | Some err =>
      match errors_As_check err with
      | Some c => if bool_decide (ce_Reason c <> "") then ce_Reason c else ProxyCheckKind_String (ce_Kind c)
      | None => "untyped"
      end
  end.

(** ** Timeouts *)
Definition claimTimeout (w : ScanWorker) : Z :=
  if sp_LeaseDuration (sw_policy w) <=? 0 then defaultStoreTimeout
  else Z.quot (sp_LeaseDuration (sw_policy w)) 2.
Definition storeTimeout (w : ScanWorker) : Z :=
  let limit := if 0 <? sp_LeaseDuration (sw_policy w)
               then Z.min (Z.quot (sp_LeaseDuration (sw_policy w)) 2) (2 * second)
               else defaultStoreTimeout in
  if limit <? 250 * millisecond then 250 * millisecond else limit.

(** ** One admission pass *)

(** The state of a pass: the dispatcher, the pause, and which queues have
    returned no row in this pass. *)
Record pass := mkPass { ps_d : dispatcher; ps_pause : claimPause; ps_empty : arr3 bool }.

Section Worker.
Context {W : Type} `{E : ScanEnv W} (w : ScanWorker).

(** The loop body of [claimDue] for one lease. *)
Definition start_lease (queue : ScanQueue) (d : dispatcher) (lease : ScanLease) : dispatcher :=
  let i := queue_index queue in
  d{{ d_inFlight := aset (d_inFlight d) i (aget (d_inFlight d) i + 1);
      d_free := d_free d - 1;
      d_owned := <[pr_ID (sl_Record lease) := lease]> (d_owned d);
      d_jobs := d_jobs d ++ [mkScanJob lease queue] }}.

Definition claimDue (queue : ScanQueue) (limit : Z) (p : pass) : ST W (pass * bool) :=
  r ← env_ClaimScans queue limit;
  match r with
  | Err e =>
      cancelled ← env_Cancelled;
      if (cancelled : bool) then mret (p, false)
      else
        _ ← env_Log (LogClaimError (queueName queue) e);
        now ← env_Now;
        mret (p{{ ps_pause := pause_engage now (ps_pause p) }}, false)
  | Ok leases =>
      let p := p{{ ps_pause := pause_lift (ps_pause p) }} in
      match leases with
      | [] => mret (p{{ ps_empty := aset (ps_empty p) (queue_index queue) true }}, true)
      | _ =>
          _ ← env_Log (LogClaim (queueName queue) limit (Z.of_nat (length leases)));
          mret (p{{ ps_d := fold_left (start_lease queue) leases (ps_d p) }}, true)
      end
  end.

(** The loop over the queues, verification first. *)
Fixpoint fill_from (queues : list ScanQueue) (p : pass) : ST W pass :=
  match queues with
  | [] => mret p
  | queue :: queues =>
      let i := queue_index queue in
      let deficit := aget (d_targets (ps_d p)) i - aget (d_inFlight (ps_d p)) i in
      if (deficit <=? 0) || (d_free (ps_d p) <=? 0) then fill_from queues p
      else
        let limit := Z.min deficit (d_free (ps_d p)) in
        if 0 <? limit then
          r ← claimDue queue limit p;
          let '(p, ok) := r in
          if (ok : bool) then fill_from queues p else mret p
        else fill_from queues p
  end.
Definition all_queues : list ScanQueue := [ScanVerification; ScanRecovery; ScanBackground].
Definition fillReservations (p : pass) : ST W pass := fill_from all_queues p.

(** The inner loop of [borrow]: the first queue after the cursor that has not
    been empty in this pass; [None] when all three were. *)
Fixpoint next_borrower (steps : list nat) (borrower : nat) (empty : arr3 bool) : option ScanQueue :=
  match steps with
  | [] => None
  | step :: steps =>
      let q := ((borrower + 1 + step) mod 3)%nat in
      if aget empty q then next_borrower steps borrower empty else queue_of_index q
  end.

(** [for d.free > 0 { ... }]; each iteration either starts a check or finds a
    queue empty, so [fuel] bounds it (see [borrow_loop_progress]). *)
Fixpoint borrow_loop (fuel : nat) (p : pass) : ST W (option pass) :=
  match fuel with
  | O => mret None
  | S fuel =>
      let d := ps_d p in
      if d_free d <=? 0 then mret (Some p)
      else if d_small d then
        let available := Arr3 (negb (at0 (ps_empty p))) (negb (at1 (ps_empty p))) (negb (at2 (ps_empty p))) in
        let '(adm, choice) := chooseSmall (d_adm d) available (sw_weights w) in
        let p := p{{ ps_d := d{{ d_adm := adm }} }} in
        match choice ≫= queue_of_index with
        | None => mret (Some p)
        | Some queue =>
            r ← claimDue queue 1 p;
            let '(p, ok) := r in
            if (ok : bool) then borrow_loop fuel p else mret (Some p)
        end
      else
        match next_borrower indices (ad_borrower (d_adm d)) (ps_empty p) with
        | None => mret (Some p)
        | Some queue =>
            r ← claimDue queue 1 p;
            let '(p, ok) := r in
            if (ok : bool) then
              let d := ps_d p in
              borrow_loop fuel (p{{ ps_d := d{{ d_adm := (d_adm d){{ ad_borrower := queue_index queue }} }} }})
            else mret (Some p)
        end
  end.

Definition borrow_fuel (p : pass) : nat := (Z.to_nat (d_free (ps_d p)) + 4)%nat.
Definition borrow (p : pass) : ST W (option pass) := borrow_loop (borrow_fuel p) p.

Definition admit_pass (d : dispatcher) (pause : claimPause) : ST W (option (dispatcher * claimPause)) :=
  if d_free d <=? 0 then mret (Some (d, pause))
  else
    now ← env_Now;
    if pause_active now pause then mret (Some (d, pause))
    else
      snap ← env_Snapshot;
      if negb (gs_Healthy snap) then mret (Some (d, pause))
      else
        p ← fillReservations (mkPass d pause (Arr3 false false false));
        r ← borrow p;
        mret ((fun p => (ps_d p, ps_pause p)) <$> r).

(** ** Completions *)

Definition releaseLease (lease : ScanLease) : ST W unit :=
  r ← env_ReleaseScan lease;
  match r with
  | Err e => env_Log (LogReleaseError (pr_ID (sl_Record lease)) e)
  | Ok _ => mret tt
  end.

Definition fireNotifier : ST W unit := if sw_notifier w then env_Notify else mret tt.

Definition finish (res : scanResult) (pause : claimPause) : ST W claimPause :=
  recheck ← env_Snapshot;
  let effectiveFinish := if negb (gs_Generation recheck =? gs_Generation (sr_startSnap res))
                         then recheck else sr_finishSnap res in
  let rec := sl_Record (sr_lease res) in
  let update := MakeScanUpdate (sw_policy w) rec (sr_latency res) (sr_err res) (sr_startSnap res) effectiveFinish in
  r ← env_CompleteScan (sr_lease res) update;
  match r with
  | Err e =>
      _ ← env_Log (LogCompleteError (pr_ID rec) e);
      now ← env_Now;
      mret (pause_engage now pause)
  | Ok accepted =>
      _ ← (if accepted && bool_decide (su_Outcome update = ScanSuccess) then fireNotifier else mret tt);
      _ ← env_Log (LogCompletion (pr_ID rec) (queueName (sr_queue res)) (outcomeName (su_Outcome update))
                     (checkReason (sr_err res)) accepted (su_RecoveryStep update) (pr_GeneralHealthy rec));
      mret (pause_lift pause)
  end.

Definition free_slot (d : dispatcher) (res : scanResult) : dispatcher :=
  let i := queue_index (sr_queue res) in
  d{{ d_inFlight := aset (d_inFlight d) i (aget (d_inFlight d) i - 1);
      d_free := d_free d + 1;
      d_owned := delete (pr_ID (sl_Record (sr_lease res))) (d_owned d) }}.

Definition handle (d : dispatcher) (res : scanResult) (pause : claimPause) : ST W (dispatcher * claimPause) :=
  let d := free_slot d res in
  if sr_panicked res then _ ← releaseLease (sr_lease res); mret (d, pause)
  else if sr_cancelled res then _ ← releaseLease (sr_lease res); mret (d, pause)
  else pause ← finish res pause; mret (d, pause).

(** ** Executors *)

(** [contract.ProxyChecker.Check] answers a latency and an error, or panics. *)
Inductive check_answer := Checked (latency : Z) (err : option gerror) | Panicked.

Definition runCheck (check : ScanLease -> check_answer) (job : scanJob) : ST W scanResult :=
  startSnap ← env_Snapshot;
  match check (sj_lease job) with
  | Panicked =>
      mret (mkScanResult (sj_lease job) (sj_queue job) 0 None startSnap (mkGuardSnapshot false 0) false true)
  | Checked latency err =>
      finishSnap ← env_Snapshot;
      cancelled ← env_Cancelled;
      mret (mkScanResult (sj_lease job) (sj_queue job) latency err startSnap finishSnap cancelled false)
  end.

(** ** The dispatch loop *)

(** [handlePending]: the completions already delivered, in order. *)
Fixpoint handle_all (pending : list scanResult) (d : dispatcher) (pause : claimPause)
    : ST W (dispatcher * claimPause) :=
  match pending with
  | [] => mret (d, pause)
  | res :: pending =>
      r ← handle d res pause;
      let '(d, pause) := r in handle_all pending d pause
  end.
Definition handlePending (d : dispatcher) (pause : claimPause) : ST W (dispatcher * claimPause) :=
  handle_all (d_results d) (d{{ d_results := [] }}) pause.

(** What ends the blocking [select] of one iteration. *)
Inductive wakeup := WakeDone | WakeResult | WakeTick.

(** One iteration of [dispatchLoop]; [None] when the loop ends. *)
Definition dispatch_iteration (ev : wakeup) (d : dispatcher) (pause : claimPause)
    : ST W (option (dispatcher * claimPause)) :=
  cancelled ← env_Cancelled;
  if (cancelled : bool) then mret None
  else
    r ← handlePending d pause;
    let '(d, pause) := r in
    r ← admit_pass d pause;
    match r with
    | None => mret None
    | Some (d, pause) =>
        match ev, d_results d with
        | WakeDone, _ => mret None
        | WakeTick, _ => mret (Some (d, pause))
        | WakeResult, [] => mret (Some (d, pause))
        | WakeResult, res :: rest =>
            r ← handle (d{{ d_results := rest }}) res pause; mret (Some r)
        end
    end.

(** ** Shutdown *)

(** [drain]: results arrive ([Some]) until nothing is owned or the timer
    fires ([None]). *)
Fixpoint drain (arrivals : list (option scanResult)) (d : dispatcher) (pause : claimPause) : ST W dispatcher :=
  if bool_decide (d_owned d = ∅) then mret d
  else match arrivals with
  | [] | None :: _ =>
      _ ← env_Log (LogShutdownIncomplete (Z.of_nat (size (d_owned d))));
      mret d
  | Some res :: arrivals =>
      r ← handle d res pause;
      let '(d, pause) := r in drain arrivals d pause
  end.

(** Go iterates the map in any order: [order] lists its leases. *)
Fixpoint releaseOutstanding (order : list ScanLease) : ST W unit :=
  match order with
  | [] => mret tt
  | lease :: order => _ ← releaseLease lease; releaseOutstanding order
  end.

End Worker.

(** [RunScan]'s guards and the dispatcher it starts. *)
Definition RunScan_start (w : ScanWorker) (concurrency : Z) : result (option dispatcher) :=
  if concurrency <=? 0 then Err (ErrorString "proxy scan: concurrency must be positive")
  else if (at0 (sw_weights w) <=? 0) || (at1 (sw_weights w) <=? 0) || (at2 (sw_weights w) <=? 0)
  then Err (ErrorString "proxy scan: queue weight must be positive")
  else Ok (newDispatcher concurrency <$> reservationTargets concurrency (sw_weights w)).
