(* ===== verification/ScanWorkerFacts.v ===== *)
(** * Properties of the scan worker

    Capacity accounting, lease conservation and channel bounds over every
    interleaving of dispatcher and executors; progress of an admission pass;
    what a completion may persist. *)
From S2P Require Import Prelude GoErrors Contract Scheduling Admission ProxyStore ProxyStoreFacts ProxyClaims ScanWorker.

(** ** A world that records the calls on the store *)

Inductive store_call :=
  | CallClaim (q : ScanQueue) (limit : Z) (leases : list ScanLease)
  | CallComplete (lease : ScanLease) (u : ScanUpdate)
  | CallRelease (lease : ScanLease).

Definition traced (W : Type) : Type := W * list store_call.

Definition on_world {W A} (m : ST W A) : ST (traced W) A :=
  fun '(w, log) => let '(w', a) := m w in ((w', log), a).
Definition record_call {W A} (m : ST W A) (call : A -> list store_call) : ST (traced W) A :=
  fun '(w, log) => let '(w', a) := m w in ((w', log ++ call a), a).

Global Instance traced_env W `{E : ScanEnv W} : ScanEnv (traced W) := {|
  env_ClaimScans q n := record_call (env_ClaimScans q n)
      (fun r => match r with Ok leases => [CallClaim q n leases] | Err _ => [] end);
  env_CompleteScan lease u := record_call (env_CompleteScan lease u) (fun _ => [CallComplete lease u]);
  env_ReleaseScan lease := record_call (env_ReleaseScan lease) (fun _ => [CallRelease lease]);
  env_Snapshot := on_world env_Snapshot;
  env_Now := on_world env_Now;
  env_Cancelled := on_world env_Cancelled;
  env_Notify := on_world env_Notify;
  env_Log e := on_world (env_Log e) |}.

(** The leases handed to the worker, and those it gave back. *)
Definition claimed_in (log : list store_call) : list ScanLease :=
  log ≫= (fun c => match c with CallClaim _ _ ls => ls | _ => [] end).
Definition disposed_in (log : list store_call) : list ScanLease :=
  log ≫= (fun c => match c with CallComplete l _ | CallRelease l => [l] | CallClaim _ _ _ => [] end).

(** ** Accounting *)

Definition outstanding (d : dispatcher) (running : list scanJob) : list (ScanLease * ScanQueue) :=
  ((fun j => (sj_lease j, sj_queue j)) <$> d_jobs d)
  ++ ((fun j => (sj_lease j, sj_queue j)) <$> running)
  ++ ((fun r => (sr_lease r, sr_queue r)) <$> d_results d).

Definition in_queue (q : ScanQueue) (l : list (ScanLease * ScanQueue)) : Z :=
  Z.of_nat (length (filter (fun x => x.2 = q) l)).

Record accounts (c : Z) (d : dispatcher) (running : list scanJob) (log : list store_call) : Prop := {
  acc_free : 0 <= d_free d;
  acc_sum : d_free d + asum (d_inFlight d) = c;
  acc_queue q : aget (d_inFlight d) (queue_index q) = in_queue q (outstanding d running);
  acc_owned id lease : d_owned d !! id = Some lease ->
    lease ∈ (outstanding d running).*1 /\ pr_ID (sl_Record lease) = id;
  acc_leases : claimed_in log ≡ₚ disposed_in log ++ (outstanding d running).*1;
}.

Global Instance in_queue_Permutation q : Proper ((≡ₚ) ==> (=)) (in_queue q).
Proof. intros l1 l2 Hl. unfold in_queue. by rewrite Hl. Qed.

Lemma in_queue_cons q lease q' l : in_queue q ((lease, q') :: l) = in_queue q l + (if decide (q' = q) then 1 else 0).
Proof. unfold in_queue. rewrite filter_cons. cbn. case_decide; cbn [length]; lia. Qed.

Lemma in_queue_total l : in_queue ScanVerification l + in_queue ScanRecovery l + in_queue ScanBackground l
  = Z.of_nat (length l).
Proof.
  induction l as [|[x q] l IH]; [done|]. rewrite !in_queue_cons. cbn [length].
  destruct q; repeat case_decide; try done; lia.
Qed.

Lemma aget_aset {A} (a : arr3 A) q q' x :
  aget (aset a (queue_index q) x) (queue_index q') = if decide (q = q') then x else aget a (queue_index q').
Proof. destruct a, q, q'; reflexivity. Qed.

Lemma asum_aset a q x : asum (aset a (queue_index q) x) = asum a - aget a (queue_index q) + x.
Proof. destruct a, q; unfold asum; cbn; lia. Qed.

Lemma accounts_bound c d running log :
  accounts c d running log -> Z.of_nat (length (outstanding d running)) = c - d_free d.
Proof.
  intros [_ Hs Hq _ _]. rewrite <- in_queue_total, <- !Hq. unfold asum in Hs. cbn. lia.
Qed.

(** Starting one claimed lease. *)
Lemma start_lease_outstanding q d lease running :
  outstanding (start_lease q d lease) running ≡ₚ (lease, q) :: outstanding d running.
Proof.
  unfold outstanding, start_lease. cbn. rewrite fmap_app. cbn. rewrite <- app_assoc. cbn.
  symmetry. apply Permutation_middle.
Qed.

Lemma start_leases_accounts c q limit leases running log : forall d,
  Z.of_nat (length leases) <= d_free d -> accounts c d running log ->
  accounts c (fold_left (start_lease q) leases d) running (log ++ [CallClaim q limit leases]).
Proof.
  intros d Hlen Hacc.
  cut (forall prev d, Z.of_nat (length leases) <= d_free d ->
         accounts c d running (log ++ [CallClaim q limit prev]) ->
         accounts c (fold_left (start_lease q) leases d) running (log ++ [CallClaim q limit (prev ++ leases)])).
  { intros H. apply (H []); [done|]. destruct Hacc as [? ? ? ? Hl]. split; try done.
    unfold claimed_in, disposed_in in *. rewrite !bind_app. cbn. by rewrite !app_nil_r. }
  clear d Hlen Hacc. induction leases as [|l leases IH]; intros prev d Hlen Hacc; cbn [fold_left].
  { by rewrite app_nil_r. }
  replace (prev ++ l :: leases) with ((prev ++ [l]) ++ leases) by (by rewrite <- app_assoc). apply IH; cbn [length] in Hlen; [cbn; lia|].
  pose proof (start_lease_outstanding q d l running) as Hp.
  destruct Hacc as [Hf Hs Hq Ho Hl]. split.
  - cbn. lia.
  - unfold start_lease. cbn [d_free d_inFlight]. cbn -[asum aset aget queue_index]. rewrite asum_aset. lia.
  - intros q'. rewrite Hp, in_queue_cons, <- Hq. unfold start_lease. cbn -[aset aget queue_index].
    rewrite aget_aset. case_decide; [subst|]; lia.
  - intros id lease. rewrite Hp. unfold start_lease. cbn. rewrite lookup_insert. case_decide.
    + intros [= <-]. split; [apply list_elem_of_here|done].
    + intros Hin. destruct (Ho _ _ Hin). split; [by apply list_elem_of_further|done].
  - unfold claimed_in, disposed_in in *. rewrite !bind_app in *. cbn in *. rewrite !app_nil_r in *.
    rewrite Hp. cbn. rewrite app_assoc, Hl. solve_Permutation.
Qed.

(** One call on the traced world. *)
Ltac st_step :=
  rewrite ST_bind_eq;
  cbn [env_ClaimScans env_CompleteScan env_ReleaseScan env_Snapshot env_Now env_Cancelled env_Notify env_Log
       traced_env on_world record_call fst snd mret ST_ret].

Section Accounting.
Context {W : Type} `{L : ScanEnvLaws W} (w : ScanWorker).

(** The two ways [claimDue] ends. *)
Inductive claim_result (q : ScanQueue) (limit : Z) (p : pass) (log : list store_call)
    : list store_call -> pass -> bool -> Prop :=
  | claim_failed pause : claim_result q limit p log log (mkPass (ps_d p) pause (ps_empty p)) false
  | claim_done leases :
      Z.of_nat (length leases) <= limit ->
      claim_result q limit p log (log ++ [CallClaim q limit leases])
        (mkPass (fold_left (start_lease q) leases (ps_d p)) (mkClaimPause zero_time 0)
           (if decide (leases = []) then aset (ps_empty p) (queue_index q) true else ps_empty p)) true.

Lemma claimDue_cases q limit p t log t' log' p' ok :
  0 < limit -> claimDue q limit p (t, log) = ((t', log'), (p', ok)) ->
  claim_result q limit p log log' p' ok.
Proof.
  intros Hl. unfold claimDue. rewrite ST_bind_eq. cbn. unfold record_call.
  pose proof (claim_at_most t q limit) as Hlaw.
  destruct (env_ClaimScans q limit t) as [t1 [leases|e]] eqn:E; cbn in *.
  - specialize (Hlaw leases Hl eq_refl). destruct p as [d pa em]. destruct leases as [|l ls].
    + intros [= <- <- <- <-]. by apply (claim_done q limit (mkPass d pa em) log []).
    + rewrite ST_bind_eq. cbn. unfold on_world. destruct (env_Log _ t1). cbn.
      intros [= <- <- <- <-]. by apply (claim_done q limit (mkPass d pa em) log (l :: ls)).
  - rewrite app_nil_r. rewrite ST_bind_eq. cbn. unfold on_world. destruct (env_Cancelled t1) as [t2 b]. cbn.
    destruct p as [d pa em]. destruct b; [intros [= <- <- <- <-]; apply claim_failed|].
    rewrite ST_bind_eq. cbn. unfold on_world. destruct (env_Log _ t2). cbn.
    rewrite ST_bind_eq. cbn. unfold on_world. destruct (env_Now _). cbn.
    intros [= <- <- <- <-]. apply (claim_failed q limit (mkPass d pa em)).
Qed.

Lemma start_leases_free q leases : forall d,
  d_free (fold_left (start_lease q) leases d) = d_free d - Z.of_nat (length leases)
  /\ d_targets (fold_left (start_lease q) leases d) = d_targets d
  /\ d_small (fold_left (start_lease q) leases d) = d_small d
  /\ d_adm (fold_left (start_lease q) leases d) = d_adm d
  /\ d_results (fold_left (start_lease q) leases d) = d_results d
  /\ forall q', aget (d_inFlight (fold_left (start_lease q) leases d)) (queue_index q')
       = aget (d_inFlight d) (queue_index q') + (if decide (q = q') then Z.of_nat (length leases) else 0).
Proof.
  induction leases as [|l ls IH]; intros d; cbn [fold_left length].
  - repeat split; try lia. intros. case_decide; lia.
  - destruct (IH (start_lease q d l)) as (H1 & H2 & H3 & H4 & H5 & H6).
    rewrite H1, H2, H3, H4, H5. repeat split; try (cbn; lia). intros q'. rewrite H6.
    unfold start_lease. cbn -[aget aset queue_index Z.of_nat]. rewrite aget_aset. repeat case_decide; simplify_eq; lia.
Qed.

(** [accounts] does not look at the admission state. *)
Lemma accounts_adm c d running log adm :
  accounts c d running log -> accounts c (d{{ d_adm := adm }}) running log.
Proof. by intros [? ? ? ? ?]. Qed.

Lemma claim_result_accounts c q limit p log log' p' ok running :
  claim_result q limit p log log' p' ok -> limit <= d_free (ps_d p) ->
  accounts c (ps_d p) running log -> accounts c (ps_d p') running log'.
Proof. intros [] Hl Hacc; [done|]. cbn. apply start_leases_accounts; [lia|done]. Qed.

Lemma fill_from_accounts c running qs : forall p t log t' log' p',
  accounts c (ps_d p) running log -> fill_from qs p (t, log) = ((t', log'), p') ->
  accounts c (ps_d p') running log'.
Proof.
  induction qs as [|q qs IH]; intros p t log t' log' p' Hacc; cbn [fill_from]; cbv zeta.
  { intros [= <- <- <-]. done. }
  case_match eqn:Hg; [by apply IH|]. bsplit. case_match eqn:Hpos; [|by apply IH]. bsplit.
  rewrite ST_bind_eq. destruct (claimDue q _ p (t, log)) as [[t1 log1] [p1 ok]] eqn:Hc. cbn.
  apply claimDue_cases in Hc; [|done]. eapply (claim_result_accounts c) in Hc; [|lia|done].
  destruct ok; [by apply IH|]. by intros [= <- <- <-].
Qed.

Lemma borrow_loop_accounts c running fuel : forall p t log t' log' p',
  accounts c (ps_d p) running log -> borrow_loop w fuel p (t, log) = ((t', log'), Some p') ->
  accounts c (ps_d p') running log'.
Proof.
  induction fuel as [|fuel IH]; intros p t log t' log' p' Hacc; cbn [borrow_loop]; [done|].
  case_match eqn:Hf; [by intros [= <- <- <-]|]. bsplit. case_match.
  - destruct (chooseSmall _ _ _) as [adm choice]. destruct (choice ≫= queue_of_index) as [q|].
    + rewrite ST_bind_eq. destruct (claimDue q 1 _ (t, log)) as [[t1 log1] [p1 ok]] eqn:Hc. cbn [fst snd].
      apply claimDue_cases in Hc; [|done].
      eapply (claim_result_accounts c) in Hc; [|change (1 <= d_free (ps_d p)); lia|by apply accounts_adm].
      destruct ok; [by apply IH|]. by intros [= <- <- <-].
    + intros [= <- <- <-]. by apply accounts_adm.
  - destruct (next_borrower _ _ _) as [q|]; [|by intros [= <- <- <-]].
    rewrite ST_bind_eq. destruct (claimDue q 1 _ (t, log)) as [[t1 log1] [p1 ok]] eqn:Hc. cbn [fst snd].
    apply claimDue_cases in Hc; [|done]. eapply (claim_result_accounts c) in Hc; [|lia|done].
    destruct ok; [|by intros [= <- <- <-]]. apply IH. cbn. by apply accounts_adm.
Qed.

Lemma admit_accounts c running d pause t log t' log' d' pause' :
  accounts c d running log -> admit_pass w d pause (t, log) = ((t', log'), Some (d', pause')) ->
  accounts c d' running log'.
Proof.
  intros Hacc. unfold admit_pass. case_match; [by intros [= <- <- <- <-]|].
  st_step. destruct (env_Now t) as [t1 now]. cbn [fst snd]. case_match; [by intros [= <- <- <- <-]|].
  st_step. destruct (env_Snapshot t1) as [t2 snap]. cbn [fst snd]. case_match; [by intros [= <- <- <- <-]|].
  st_step. destruct (fillReservations _ (t2, log)) as [[t3 log3] p] eqn:Hfill. cbn [fst snd].
  eapply (fill_from_accounts c running) in Hfill; [|done].
  st_step. destruct (borrow w p (t3, log3)) as [[t4 log4] r] eqn:Hb. cbn [fst snd].
  destruct r as [p'|]; [|done]. intros [= <- <- <- <-]. by eapply borrow_loop_accounts.
Qed.

(** ** Completions *)

Definition effective_finish (res : scanResult) (recheck : GuardSnapshot) : GuardSnapshot :=
  if negb (gs_Generation recheck =? gs_Generation (sr_startSnap res)) then recheck else sr_finishSnap res.

Definition scan_update (res : scanResult) (recheck : GuardSnapshot) : ScanUpdate :=
  MakeScanUpdate (sw_policy w) (sl_Record (sr_lease res)) (sr_latency res) (sr_err res) (sr_startSnap res)
    (effective_finish res recheck).

(** A result leads to exactly one call on the store: a release for a panicked
    or cancelled check, one completion otherwise. *)
Lemma handle_cases d res pause t log t' log' d' pause' :
  handle w d res pause (t, log) = ((t', log'), (d', pause')) ->
  d' = free_slot d res
  /\ (if sr_panicked res || sr_cancelled res then log' = log ++ [CallRelease (sr_lease res)]
      else log' = log ++ [CallComplete (sr_lease res) (scan_update res (env_Snapshot t).2)]).
Proof.
  unfold handle.
  assert (Hrel : forall t1 log1 x, releaseLease (sr_lease res) (t, log) = ((t1, log1), x) ->
            log1 = log ++ [CallRelease (sr_lease res)]).
  { intros t1 log1 x. unfold releaseLease. st_step. destruct (env_ReleaseScan _ t) as [t2 [?|e]]; cbn [fst snd].
    - by intros [= <- <-].
    - cbn. destruct (env_Log _ t2). by intros [= <- <-]. }
  destruct (sr_panicked res); [|destruct (sr_cancelled res)]; cbn [orb].
  1,2: rewrite ST_bind_eq; destruct (releaseLease _ (t, log)) as [[t1 log1] x] eqn:Hr; cbn [fst snd];
       intros [= <- <- <- <-]; eauto.
  rewrite ST_bind_eq. unfold finish. st_step. destruct (env_Snapshot t) as [t1 recheck]. cbn [fst snd].
  fold (effective_finish res recheck). fold (scan_update res recheck).
  st_step. destruct (env_CompleteScan _ _ t1) as [t2 [accepted|e]]; cbn [fst snd].
  - rewrite ST_bind_eq.
    assert (Hn : forall t0 l0, exists t3, (if accepted && bool_decide (su_Outcome (scan_update res recheck) = ScanSuccess)
              then fireNotifier w else mret tt) (t0, l0) = ((t3, l0), tt)).
    { intros t0 l0. case_match; [|by eexists]. unfold fireNotifier. destruct (sw_notifier w); [|by eexists].
      cbn. destruct (env_Notify t0) as [? []]. by eexists. }
    edestruct Hn as [t3 Ht3]. rewrite Ht3. cbn [fst snd]. st_step. destruct (env_Log _ t3). cbn.
    by intros [= <- <- <- <-].
  - st_step. destruct (env_Log _ t2) as [t3 ?]. cbn [fst snd]. st_step. destruct (env_Now t3). cbn.
    by intros [= <- <- <- <-].
Qed.

Lemma handle_accounts c running d res rest pause t log t' log' d' pause' :
  d_results d = res :: rest -> accounts c d running log ->
  handle w (d{{ d_results := rest }}) res pause (t, log) = ((t', log'), (d', pause')) ->
  accounts c d' running log'.
Proof.
  intros Hres Hacc Hh. apply handle_cases in Hh as [-> Hlog].
  set (d1 := free_slot (d{{ d_results := rest }}) res).
  assert (Hp : outstanding d running ≡ₚ (sr_lease res, sr_queue res) :: outstanding d1 running).
  { unfold outstanding. rewrite Hres. change (d_results d1) with rest. change (d_jobs d1) with (d_jobs d). cbn.
    rewrite !Permutation_middle. done. }
  assert (Hd : disposed_in log' ≡ₚ sr_lease res :: disposed_in log /\ claimed_in log' = claimed_in log).
  { unfold disposed_in, claimed_in. destruct (sr_panicked res || sr_cancelled res); subst log';
      rewrite !bind_app; cbn; rewrite app_nil_r; split; try done; by rewrite Permutation_app_comm. }
  destruct Hd as [Hd Hc]. destruct Hacc as [Hf Hs Hq Ho Hl]. split.
  - change (0 <= d_free d + 1). lia.
  - change (d_free d + 1 + asum (aset (d_inFlight d) (queue_index (sr_queue res))
              (aget (d_inFlight d) (queue_index (sr_queue res)) - 1)) = c). rewrite asum_aset. lia.
  - intros q. change (aget (aset (d_inFlight d) (queue_index (sr_queue res))
              (aget (d_inFlight d) (queue_index (sr_queue res)) - 1)) (queue_index q) = in_queue q (outstanding d1 running)).
    rewrite aget_aset. specialize (Hq q). rewrite Hp, in_queue_cons in Hq. repeat case_decide; subst; lia.
  - intros id lease. change (d_owned d1) with (delete (pr_ID (sl_Record (sr_lease res))) (d_owned d)).
    rewrite lookup_delete_Some. intros [Hne Hin]. destruct (Ho _ _ Hin) as [Hin' Hid]. split; [|done].
    rewrite Hp in Hin'. cbn in Hin'. apply elem_of_cons in Hin' as [->|?]; done.
  - rewrite Hc, Hl, Hp, Hd. cbn. by rewrite Permutation_middle.
Qed.
End Accounting.

(** ** The running system *)

(** Dispatcher, the jobs the executors hold, the pause, the world. *)
Record sys (W : Type) := mkSys {
  sys_d : dispatcher;
  sys_running : list scanJob;
  sys_pause : claimPause;
  sys_world : W;
  sys_log : list store_call;
}.
Arguments mkSys {W}.
Arguments sys_d {W}.
Arguments sys_running {W}.
Arguments sys_pause {W}.
Arguments sys_world {W}.
Arguments sys_log {W}.

Section System.
Context {W : Type} `{L : ScanEnvLaws W} (w : ScanWorker) (concurrency : Z).

(** Executors and dispatcher interleave freely; the world moves on its own
    between any two steps.  An executor's result carries the job's lease and
    queue ([runCheck_job]); everything else about it is arbitrary. *)
Inductive scan_step : sys W -> sys W -> Prop :=
  | step_take d job jobs running pause t log :
      d_jobs d = job :: jobs -> Z.of_nat (length running) < concurrency ->
      scan_step (mkSys d running pause t log) (mkSys (d{{ d_jobs := jobs }}) (job :: running) pause t log)
  | step_report d run1 job run2 res pause t log :
      sr_lease res = sj_lease job -> sr_queue res = sj_queue job ->
      scan_step (mkSys d (run1 ++ job :: run2) pause t log)
                (mkSys (d{{ d_results := d_results d ++ [res] }}) (run1 ++ run2) pause t log)
  | step_handle d res rest running pause t log t' log' d' pause' :
      d_results d = res :: rest ->
      handle w (d{{ d_results := rest }}) res pause (t, log) = ((t', log'), (d', pause')) ->
      scan_step (mkSys d running pause t log) (mkSys d' running pause' t' log')
  | step_admit d running pause t log t' log' d' pause' :
      admit_pass w d pause (t, log) = ((t', log'), Some (d', pause')) ->
      scan_step (mkSys d running pause t log) (mkSys d' running pause' t' log')
  | step_world d running pause t log t' :
      scan_step (mkSys d running pause t log) (mkSys d running pause t' log).

Lemma runCheck_job check job (t : W) : let res := (runCheck check job t).2 in
  sr_lease res = sj_lease job /\ sr_queue res = sj_queue job.
Proof.
  unfold runCheck. rewrite ST_bind_eq. destruct (check (sj_lease job)); [|done].
  by rewrite !ST_bind_eq.
Qed.

Definition sys_accounts (s : sys W) : Prop := accounts concurrency (sys_d s) (sys_running s) (sys_log s).

Lemma accounts_perm c d d' running running' log :
  d_free d' = d_free d -> d_inFlight d' = d_inFlight d -> d_owned d' = d_owned d ->
  outstanding d' running' ≡ₚ outstanding d running -> accounts c d running log -> accounts c d' running' log.
Proof.
  intros Hf Hi Ho Hp [A1 A2 A3 A4 A5]. split; rewrite ?Hf, ?Hi, ?Ho; try done.
  - intros q. by rewrite Hp.
  - intros id lease. rewrite Hp. apply A4.
  - by rewrite Hp.
Qed.

Lemma scan_step_accounts s s' : scan_step s s' -> sys_accounts s -> sys_accounts s'.
Proof.
  intros Hs. unfold sys_accounts. destruct Hs as [d job jobs running pause t log Hj _|d r1 job r2 res pause t log Hl Hq
    |d res rest running pause t log t' log' d' pause' Hr Hh|d running pause t log t' log' d' pause' Ha|]; cbn; intros Hacc.
  - eapply accounts_perm; [..|exact Hacc]; try done. unfold outstanding. rewrite Hj.
    change (d_jobs (d{{ d_jobs := jobs }})) with jobs. change (d_results (d{{ d_jobs := jobs }})) with (d_results d).
    cbn. solve_Permutation.
  - eapply accounts_perm; [..|exact Hacc]; try done. unfold outstanding.
    destruct d. cbn. rewrite !fmap_app. cbn. rewrite Hl, Hq. solve_Permutation.
  - by eapply handle_accounts.
  - by eapply admit_accounts.
  - done.
Qed.

Definition initial_sys (targets : arr3 Z) (t : W) : sys W :=
  mkSys (newDispatcher concurrency targets) [] zeroPause t [].

Lemma initial_accounts targets t : 0 <= concurrency -> sys_accounts (initial_sys targets t).
Proof. intros Hc. split; cbn; unfold asum; cbn; try done; try lia. by intros []. Qed.

Lemma reachable_accounts targets t s : 0 <= concurrency ->
  rtc scan_step (initial_sys targets t) s -> sys_accounts s.
Proof.
  intros Hc Hs. assert (Hi := initial_accounts targets t Hc). revert Hi.
  induction Hs; [done|]. eauto using scan_step_accounts.
Qed.

(** C4: bounded execution and lease conservation.  In every reachable
    state of the scan worker, whatever the interleaving of claims, checks,
    panics, cancellations and store errors: free slots plus in-flight checks
    equal the configured concurrency; each per-queue counter is the number of
    checks of that queue between claim and completion; so neither channel
    (capacity [concurrency]) can block its sender; and the leases obtained
    from the store are, as a multiset, exactly those completed or released
    plus those still in flight: none is dropped, none is given back twice. *)
Theorem scan_worker_accounts targets t s
    (Hc : 0 < concurrency) (Hreach : rtc scan_step (initial_sys targets t) s) :
  d_free (sys_d s) + asum (d_inFlight (sys_d s)) = concurrency
  /\ (forall q, aget (d_inFlight (sys_d s)) (queue_index q) = in_queue q (outstanding (sys_d s) (sys_running s)))
  /\ Z.of_nat (length (d_jobs (sys_d s)) + length (sys_running s) + length (d_results (sys_d s))) <= concurrency
  /\ claimed_in (sys_log s) ≡ₚ disposed_in (sys_log s) ++ (outstanding (sys_d s) (sys_running s)).*1.
Proof.
  assert (Ha := reachable_accounts targets t s (Z.lt_le_incl _ _ Hc) Hreach).
  pose proof (accounts_bound _ _ _ _ Ha) as Hb. destruct Ha as [Hf Hs Hq _ Hl].
  split; [done|]. split; [done|]. split; [|done].
  unfold outstanding in Hb. rewrite !length_app, !length_fmap in Hb. lia.
Qed.

End System.

(** ** Progress of an admission pass *)

Section Progress.
Context {W : Type} `{L : ScanEnvLaws W} (w : ScanWorker).

Definition busy_queues (e : arr3 bool) : nat :=
  (Nat.b2n (negb (at0 e)) + Nat.b2n (negb (at1 e)) + Nat.b2n (negb (at2 e)))%nat.

Definition pass_measure (p : pass) : nat := (Z.to_nat (d_free (ps_d p)) + busy_queues (ps_empty p))%nat.

Lemma busy_queues_aset e q : aget e (queue_index q) = false ->
  busy_queues e = S (busy_queues (aset e (queue_index q) true)).
Proof. destruct e as [a b c], q; cbn; intros ->; unfold busy_queues; cbn; lia. Qed.

(** A successful claim of one slot on a queue not yet found empty makes
    progress. *)
Lemma claim_one_measure q p log log' p' :
  claim_result q 1 p log log' p' true -> 0 < d_free (ps_d p) -> aget (ps_empty p) (queue_index q) = false ->
  (pass_measure p' < pass_measure p)%nat /\ 0 <= d_free (ps_d p').
Proof.
  intros Hc Hf He. inversion Hc as [|leases Hlen]; subst. unfold pass_measure. cbn [ps_d ps_empty].
  destruct (start_leases_free q leases (ps_d p)) as (-> & _).
  case_decide as Hn; subst; cbn [length].
  - rewrite (busy_queues_aset (ps_empty p) q He). lia.
  - destruct leases; [done|]. cbn [length] in *. lia.
Qed.

Lemma chooseSmall_available adm e weights adm' choice :
  chooseSmall adm (Arr3 (negb (at0 e)) (negb (at1 e)) (negb (at2 e))) weights = (adm', choice) ->
  match choice ≫= queue_of_index with
  | None => e = Arr3 true true true
  | Some q => aget e (queue_index q) = false
  end.
Proof.
  intros Hch. pose proof (chooseSmall_correct adm (Arr3 (negb (at0 e)) (negb (at1 e)) (negb (at2 e))) weights) as Hc.
  rewrite Hch in Hc. destruct Hc as (_ & Hnone & Hsome). destruct e as [e0 e1 e2]. destruct choice as [b|].
  - destruct (Hsome b eq_refl) as (Hb & Hav & _). destruct b as [|[|[|]]]; cbn in *; try lia; by apply negb_true_iff.
  - cbn. destruct Hnone as [Hn _]. specialize (Hn eq_refl).
    assert (H0 := Hn 0%nat). assert (H1 := Hn 1%nat). assert (H2 := Hn 2%nat). cbn in *.
    f_equal; apply negb_false_iff; auto with lia.
Qed.

Lemma next_borrower_spec b e :
  match next_borrower indices b e with
  | None => e = Arr3 true true true
  | Some q => aget e (queue_index q) = false
  end.
Proof.
  unfold indices. cbn [next_borrower].
  assert (Hm : forall n, (n mod 3 = 0 \/ n mod 3 = 1 \/ n mod 3 = 2)%nat).
  { intros n. pose proof (Nat.mod_upper_bound n 3). lia. }
  pose proof (Nat.div_mod_eq (b + 1 + 0) 3). pose proof (Nat.div_mod_eq (b + 1 + 1) 3).
  pose proof (Nat.div_mod_eq (b + 1 + 2) 3).
  destruct e as [e0 e1 e2], (Hm (b + 1 + 0)%nat) as [E0|[E0|E0]], (Hm (b + 1 + 1)%nat) as [E1|[E1|E1]],
    (Hm (b + 1 + 2)%nat) as [E2|[E2|E2]]; rewrite E0, E1, E2 in *; try lia;
    destruct e0, e1, e2; cbn; reflexivity.
Qed.

(** The queues marked empty in a pass did answer an empty claim in it. *)
Definition empty_seen (log0 : list store_call) (e : arr3 bool) (log : list store_call) : Prop :=
  exists new, log = log0 ++ new /\
    forall q, aget e (queue_index q) = true -> exists n, CallClaim q n [] ∈ new.

Lemma claim_result_seen q limit p log0 log log' p' ok :
  claim_result q limit p log log' p' ok -> empty_seen log0 (ps_empty p) log -> empty_seen log0 (ps_empty p') log'.
Proof.
  intros [|leases Hlen] (new & -> & Hs); [by exists new|]. eexists. rewrite <- app_assoc. split; [done|].
  intros q'. cbn. case_decide; subst.
  - rewrite aget_aset. case_decide; subst.
    + intros _. exists limit. apply elem_of_app. right. apply list_elem_of_here.
    + intros Hq. destruct (Hs _ Hq) as [n Hn]. exists n. apply elem_of_app. by left.
  - intros Hq. destruct (Hs _ Hq) as [n Hn]. exists n. apply elem_of_app. by left.
Qed.

(** The store answers every claim for at least one row. *)
Definition claim_never_fails : Prop := forall q n (t : W), 0 < n -> is_ok (env_ClaimScans q n t).2 = true.

Lemma claimDue_ok q limit p t log : 0 < limit -> claim_never_fails -> (claimDue q limit p (t, log)).2.2 = true.
Proof.
  intros Hl Hok. specialize (Hok q limit t Hl). unfold claimDue. st_step.
  destruct (env_ClaimScans q limit t) as [t1 [leases|e]]; [|done]. cbn [fst snd]. by destruct leases; [|st_step].
Qed.

Definition drained (p : pass) : Prop := d_free (ps_d p) = 0 \/ ps_empty p = Arr3 true true true.

Lemma borrow_loop_progress fuel : forall log0 p t log,
  0 <= d_free (ps_d p) -> (pass_measure p < fuel)%nat -> empty_seen log0 (ps_empty p) log ->
  exists t' log' p', borrow_loop w fuel p (t, log) = ((t', log'), Some p')
    /\ empty_seen log0 (ps_empty p') log' /\ (claim_never_fails -> drained p').
Proof.
  induction fuel as [|fuel IH]; intros log0 p t log Hf Hm Hseen; [lia|]. cbn [borrow_loop].
  case_match eqn:Hfree; bsplit.
  { eexists _, _, _. split; [reflexivity|]. split; [done|]. intros _. left. lia. }
  assert (Hstep : forall q p0, ps_empty p0 = ps_empty p -> d_free (ps_d p0) = d_free (ps_d p) ->
      aget (ps_empty p) (queue_index q) = false ->
      forall t1 log1 p1 ok, claimDue q 1 p0 (t, log) = ((t1, log1), (p1, ok)) ->
      empty_seen log0 (ps_empty p1) log1 /\ (claim_never_fails -> ok = true)
      /\ (ok = true -> (pass_measure p1 < fuel)%nat /\ 0 <= d_free (ps_d p1))).
  { intros q p0 He Hd Hq t1 log1 p1 ok Hc. pose proof (claimDue_ok q 1 p0 t log ltac:(lia)) as Hok. rewrite Hc in Hok. cbn in Hok.
    apply claimDue_cases in Hc; [|done]. split; [eapply claim_result_seen; [done|by rewrite He]|]. split; [done|].
    intros ->. apply claim_one_measure in Hc; [|lia|by rewrite He].
    unfold pass_measure in *. rewrite He, Hd in Hc. lia. }
  case_match.
  - destruct (chooseSmall _ _ _) as [adm choice] eqn:Hch. apply chooseSmall_available in Hch.
    destruct (choice ≫= queue_of_index) as [q|].
    + rewrite ST_bind_eq. destruct (claimDue q 1 _ (t, log)) as [[t1 log1] [p1 ok]] eqn:Hc. cbn [fst snd].
      apply Hstep in Hc as (Hs & Hok & Hmeas); [|by destruct p|by destruct p as [[]]|done].
      destruct ok; [destruct Hmeas; [done|]; by apply IH|].
      eexists _, _, _. split; [reflexivity|]. split; [done|]. intros Hn. by specialize (Hok Hn).
    + eexists _, _, _. split; [reflexivity|]. split; [by destruct p|]. intros _. right. by destruct p.
  - pose proof (next_borrower_spec (ad_borrower (d_adm (ps_d p))) (ps_empty p)) as Hnb.
    destruct (next_borrower _ _ _) as [q|]; [|eexists _, _, _; split; [reflexivity|]; split; [done|]; intros _; by right].
    rewrite ST_bind_eq. destruct (claimDue q 1 _ (t, log)) as [[t1 log1] [p1 ok]] eqn:Hc. cbn [fst snd].
    apply Hstep in Hc as (Hs & Hok & Hmeas); [|done..].
    destruct ok; [|eexists _, _, _; split; [reflexivity|]; split; [done|]; intros Hn; by specialize (Hok Hn)].
    destruct Hmeas as [Hmeas Hf1]; [done|].
    apply IH; destruct p1 as [[] pa em]; cbn in *; done.
Qed.

Lemma fill_from_seen log0 qs : forall p t log,
  0 <= d_free (ps_d p) -> empty_seen log0 (ps_empty p) log ->
  exists t' log' p', fill_from qs p (t, log) = ((t', log'), p')
    /\ empty_seen log0 (ps_empty p') log' /\ 0 <= d_free (ps_d p').
Proof.
  induction qs as [|q qs IH]; intros p t log Hf Hs; cbn [fill_from]; cbv zeta; [by eexists _, _, _|].
  case_match eqn:Hg; [by apply IH|]. bsplit. case_match eqn:Hpos; [|by apply IH]. bsplit.
  rewrite ST_bind_eq. destruct (claimDue q _ p (t, log)) as [[t1 log1] [p1 ok]] eqn:Hc. cbn [fst snd].
  apply claimDue_cases in Hc; [|done]. pose proof (claim_result_seen _ _ _ log0 _ _ _ _ Hc Hs) as Hs1.
  assert (Hf1 : 0 <= d_free (ps_d p1)).
  { destruct Hc as [|leases Hlen]; [done|]. cbn. destruct (start_leases_free q leases (ps_d p)) as (-> & _). lia. }
  destruct ok; [by apply IH|by eexists _, _, _].
Qed.

(** C40: an admission pass terminates within its fuel, and when it runs
    (a free slot, no pause, a healthy guard) against a store that answers, it
    is work-conserving: it stops only when every slot is busy or every one of
    the three queues has answered an empty claim during this very pass. *)
Theorem admit_progress d pause t log (Hfree : 0 <= d_free d) :
  exists t' log' d' pause', admit_pass w d pause (t, log) = ((t', log'), Some (d', pause'))
    /\ (0 < d_free d -> pause_active (env_Now t).2 pause = false ->
        gs_Healthy (env_Snapshot (env_Now t).1).2 = true -> claim_never_fails ->
        d_free d' = 0 \/ exists new, log' = log ++ new /\ forall q, exists n, CallClaim q n [] ∈ new).
Proof.
  unfold admit_pass. case_match eqn:Hf; bsplit.
  { eexists _, _, _, _. split; [reflexivity|]. intros. lia. }
  st_step. destruct (env_Now t) as [t1 now]. cbn [fst snd].
  case_match; [eexists _, _, _, _; split; [reflexivity|]; intros; congruence|].
  st_step. destruct (env_Snapshot t1) as [t2 snap]. cbn [fst snd].
  case_match; [eexists _, _, _, _; split; [reflexivity|]; intros; bsplit; congruence|].
  destruct (fill_from_seen log all_queues (mkPass d pause (Arr3 false false false)) t2 log)
    as (t3 & log3 & p & Hfill & Hseen & Hf3); [done|exists []; rewrite app_nil_r; split; [done|by intros []]|].
  st_step. unfold fillReservations. rewrite Hfill. cbn [fst snd].
  destruct (borrow_loop_progress (borrow_fuel p) log p t3 log3) as (t4 & log4 & p' & Hb & Hs4 & Hd); [done| |done|].
  { unfold borrow_fuel, pass_measure. assert (busy_queues (ps_empty p) <= 3)%nat; [|lia].
    destruct (ps_empty p) as [[] [] []]; unfold busy_queues; cbn; lia. }
  st_step. unfold borrow. rewrite Hb. cbn [fst snd]. eexists _, _, _, _. split; [reflexivity|].
  intros _ _ _ Hok. destruct (Hd Hok) as [?|He]; [by left|right].
  destruct Hs4 as (new & -> & Hn). exists new. split; [done|]. intros q. apply Hn. rewrite He. by destruct q.
Qed.
End Progress.

(** ** The worker on the proxy table *)

(** The world whose store is the proxy table: tokens are drawn from a
    counter-indexed supply, the clock is a field. *)
Record StoreWorld := mkStoreWorld {
  wd_pol : ProxyScanPolicy;
  wd_db : ProxyDB;
  wd_clock : Z;
  wd_token : nat -> string;
  wd_drawn : nat;
  wd_guard : GuardSnapshot;
  wd_cancelled : bool;
  wd_notified : nat;
  wd_events : list log_event;
}.

Global Instance store_world_env : ScanEnv StoreWorld := {|
  env_ClaimScans q n := fun t =>
    let '(db, r) := ClaimScans (wd_pol t) (wd_db t) NoFault (mkDbTime (wd_clock t) (fun _ => wd_clock t)) ∅
                      (Ok (wd_token t (wd_drawn t))) q n in
    (t{{ wd_db := db; wd_drawn := S (wd_drawn t) }}, r);
  env_CompleteScan lease u := fun t =>
    let '(db, r) := CompleteScan (wd_db t) NoFault (wd_clock t) lease u in (t{{ wd_db := db }}, r);
  env_ReleaseScan lease := fun t =>
    let '(db, r) := ReleaseScan (wd_db t) NoFault (wd_clock t) lease in (t{{ wd_db := db }}, r);
  env_Snapshot := fun t => (t, wd_guard t);
  env_Now := fun t => (t, wd_clock t);
  env_Cancelled := fun t => (t, wd_cancelled t);
  env_Notify := fun t => (t{{ wd_notified := S (wd_notified t) }}, tt);
  env_Log e := fun t => (t{{ wd_events := wd_events t ++ [e] }}, tt) |}.

Lemma ClaimScans_length pol db f t skip token q limit leases :
  (ClaimScans pol db f t skip token q limit).2 = Ok leases -> Z.of_nat (length leases) <= limit.
Proof.
  unfold ClaimScans. case_match eqn:Hl; [done|]. bsplit. destruct token as [token|]; [|done].
  destruct f; cbn; [|done..]. intros [= <-]. unfold sortScanLeases.
  rewrite (Permutation_length (merge_sort_Permutation _ _)), !length_fmap. unfold chosen_rows.
  rewrite length_take. lia.
Qed.

Global Instance store_world_laws : ScanEnvLaws StoreWorld.
Proof.
  split. intros t q limit leases Hl. cbn.
  destruct (ClaimScans _ _ _ _ _ _ _ _) as [db r] eqn:E. cbn. intros ->.
  eapply ClaimScans_length. by rewrite E.
Qed.

Definition demo_world : StoreWorld :=
  mkStoreWorld demo_policy demo_db second (fun n => String (Ascii.ascii_of_nat n) "") 0 (mkGuardSnapshot true 1) false 0 [].
Definition demo_worker : ScanWorker := mkScanWorker demo_policy (Arr3 60 20 20) true.

(** A pass over the demo table: both proxies are claimed. *)
Lemma demo_admit :
  match admit_pass demo_worker (newDispatcher 4 (Arr3 2 1 1)) zeroPause (demo_world, []) with
  | (_, Some (d, _)) => (d_free d, d_inFlight d) = (2, Arr3 0 0 2)
  | _ => False
  end.
Proof. vm_compute. reflexivity. Qed.

Lemma scan_worker_accounts_witness :
  exists s, rtc (scan_step demo_worker 4) (initial_sys 4 (Arr3 2 1 1) demo_world) s
    /\ d_inFlight (sys_d s) = Arr3 0 0 2
    /\ d_free (sys_d s) + asum (d_inFlight (sys_d s)) = 4.
Proof.
  destruct (admit_pass demo_worker (newDispatcher 4 (Arr3 2 1 1)) zeroPause (demo_world, [])) as [[t log] [[d pause]|]] eqn:E.
  - exists (mkSys d [] pause t log).
    assert (Hs : rtc (scan_step demo_worker 4) (initial_sys 4 (Arr3 2 1 1) demo_world) (mkSys d [] pause t log))
      by (apply rtc_once, step_admit, E).
    split; [exact Hs|]. split.
    + pose proof demo_admit as Hd. rewrite E in Hd. by injection Hd.
    + apply (scan_worker_accounts demo_worker 4 (Arr3 2 1 1) demo_world); [lia|exact Hs].
  - pose proof demo_admit as Hd. rewrite E in Hd. destruct Hd.
Defined.

(** The table answers every claim, so the pass ends with every slot busy or
    every queue found empty. *)
Lemma store_answers : claim_never_fails (W := StoreWorld).
Proof.
  intros q n t Hn. cbn. unfold ClaimScans. rewrite (proj2 (Z.leb_gt _ _)) by lia. reflexivity.
Qed.
Lemma admit_progress_witness :
  exists t' log' d' pause', admit_pass demo_worker (newDispatcher 4 (Arr3 2 1 1)) zeroPause (demo_world, [])
    = ((t', log'), Some (d', pause')) /\ (d_free d' = 0 \/ exists new, log' = [] ++ new /\ forall q, exists n, CallClaim q n [] ∈ new).
Proof.
  destruct (admit_progress demo_worker (newDispatcher 4 (Arr3 2 1 1)) zeroPause demo_world [])
    as (t' & log' & d' & pause' & H & Hw); [vm_compute; discriminate|].
  exists t', log', d', pause'. split; [exact H|]. apply Hw; [reflexivity|reflexivity|reflexivity|exact store_answers].
Defined.

(** ** Attribution of failures *)

Section Attribution.
Context {W : Type} `{E : ScanEnv W} (w : ScanWorker).

(** The worker reports a conclusive failure for a proxy only when
    the check neither panicked nor was cancelled, ended with a typed proxy or
    deadline error, and the endpoint guard was healthy when the check started
    and finished and showed one and the same generation at the start, at the
    finish and at the re-check right before the write.  Panicked and cancelled
    checks are only ever released. *)
Theorem failure_needs_stable_guard d res pause t log t' log' d' pause' u
    (Hrun : handle w d res pause (t, log) = ((t', log'), (d', pause')))
    (Hcall : log' = log ++ [CallComplete (sr_lease res) u])
    (Hfail : su_Outcome u = ScanFailure) :
  sr_panicked res = false /\ sr_cancelled res = false
  /\ (exists e c, sr_err res = Some e /\ errors_Is e ContextCanceled = false /\ errors_As_check e = Some c
        /\ (ce_Kind c = CheckProxy \/ ce_Kind c = CheckDeadline))
  /\ gs_Healthy (sr_startSnap res) = true /\ gs_Healthy (sr_finishSnap res) = true
  /\ gs_Generation (sr_finishSnap res) = gs_Generation (sr_startSnap res)
  /\ gs_Generation (env_Snapshot t).2 = gs_Generation (sr_startSnap res).
Proof.
  apply handle_cases in Hrun as [_ Hlog].
  destruct (sr_panicked res), (sr_cancelled res); cbn in Hlog; subst log';
    apply app_inv_head in Hcall; simplify_eq.
  unfold scan_update in Hfail. rewrite MakeScanUpdate_outcome in Hfail.
  apply ClassifyCheck_failure_iff in Hfail as (e & c & He & Hcan & Has & Hk & Hs & Hf & Hg).
  unfold effective_finish in *. case_match eqn:Hgen; bsplit; [congruence|].
  repeat split; try done; try congruence. by exists e, c.
Qed.

(** ** Shutdown *)

Lemma releaseLease_log lease t log :
  exists t', releaseLease lease (t, log) = ((t', log ++ [CallRelease lease]), tt).
Proof.
  unfold releaseLease. st_step. destruct (env_ReleaseScan lease t) as [t1 [?|e]]; cbn [fst snd]; [by eexists|].
  cbn. destruct (env_Log _ t1) as [t2 []]. by eexists.
Qed.

Lemma releaseOutstanding_log order : forall t log,
  exists t', releaseOutstanding order (t, log) = ((t', log ++ (CallRelease <$> order)), tt).
Proof.
  induction order as [|lease order IH]; intros t log; cbn [releaseOutstanding]; [rewrite app_nil_r; by eexists|].
  rewrite ST_bind_eq. destruct (releaseLease_log lease t log) as [t1 ->]. cbn [fst snd].
  destruct (IH t1 (log ++ [CallRelease lease])) as [t2 ->]. exists t2. by rewrite <- app_assoc.
Qed.

Lemma disposed_release order : disposed_in (CallRelease <$> order) = order.
Proof. unfold disposed_in. induction order as [|l order IH]; cbn; [done|]. f_equal. exact IH. Qed.

(** A result of another lease on the same proxy. *)
Definition displaces (id : Z) (lease : ScanLease) (res : scanResult) : Prop :=
  pr_ID (sl_Record (sr_lease res)) = id /\ sr_lease res <> lease.

Lemma drain_log arrivals : forall d pause t log, exists t' new d', drain w arrivals d pause (t, log) = ((t', log ++ new), d')
  /\ (forall id lease, d_owned d !! id = Some lease ->
        d_owned d' !! id = Some lease \/ lease ∈ disposed_in new \/ exists res, Some res ∈ arrivals /\ displaces id lease res)
  /\ (forall id lease, d_owned d' !! id = Some lease -> d_owned d !! id = Some lease)
  /\ (forall lease, lease ∈ disposed_in new -> exists res, Some res ∈ arrivals /\ sr_lease res = lease).
Proof.
  induction arrivals as [|a arrivals IH]; intros d pause t log; cbn [drain].
  - case_match; [eexists _, [], _; rewrite app_nil_r; split; [reflexivity|]; split_and!; auto; intros ? []%elem_of_nil|].
    st_step. destruct (env_Log _ t) as [t1 ?]. eexists _, [], _. rewrite app_nil_r. split; [reflexivity|]. split_and!; auto. intros ? []%elem_of_nil.
  - case_match; [eexists _, [], _; rewrite app_nil_r; split; [reflexivity|]; split_and!; auto; intros ? []%elem_of_nil|].
    destruct a as [res|]; cycle 1.
    { st_step. destruct (env_Log _ t) as [t1 ?]. eexists _, [], _. rewrite app_nil_r. split; [reflexivity|]. split_and!; auto. intros ? []%elem_of_nil. }
    rewrite ST_bind_eq. destruct (handle w d res pause (t, log)) as [[t1 log1] [d1 pause1]] eqn:Hh. cbn [fst snd].
    apply handle_cases in Hh as [-> Hlog].
    assert (Hdel : d_owned (free_slot d res) = delete (pr_ID (sl_Record (sr_lease res))) (d_owned d)) by done.
    assert (Hnew : exists call, log1 = log ++ [call] /\ disposed_in [call] = [sr_lease res]).
    { case_match; eexists; split; try exact Hlog; done. }
    destruct Hnew as (call & -> & Hdisp).
    destruct (IH (free_slot d res) pause1 t1 (log ++ [call])) as (t2 & new & d2 & Hd & Hcover & Hkept & Hgiven).
    exists t2, ([call] ++ new), d2. rewrite app_assoc. split; [exact Hd|].
    assert (Hbind : disposed_in ([call] ++ new) = [sr_lease res] ++ disposed_in new).
    { rewrite <- Hdisp. apply bind_app. }
    rewrite Hbind. split; [|split].
    + intros id lease Hl. destruct (decide (pr_ID (sl_Record (sr_lease res)) = id)) as [<-|Hne].
      * right. destruct (decide (sr_lease res = lease)) as [<-|Hne]; [left; apply list_elem_of_here|].
        right. exists res. split; [apply list_elem_of_here|done].
      * destruct (Hcover id lease) as [?|[?|(res' & Hin & Hdis)]]; [by rewrite Hdel, lookup_delete_ne|by left|right; left; by apply elem_of_app; right|].
        right. right. exists res'. split; [by apply list_elem_of_further|done].
    + intros id lease Hl. specialize (Hkept id lease Hl). rewrite Hdel, lookup_delete_Some in Hkept. by destruct Hkept.
    + intros lease [->%list_elem_of_singleton|Hl]%elem_of_app; [exists res; split; [apply list_elem_of_here|done]|].
      destruct (Hgiven lease Hl) as (res' & Hin & He). exists res'. split; [by apply list_elem_of_further|done].
Qed.

(** C37: after cancellation, whatever results still arrive before the
    drain bound and whatever order the map is iterated in, every lease the
    dispatcher owned when the drain began is handed back to the store, as a
    completion or as a release, unless a result of another lease of the same
    proxy arrived: the map is keyed by proxy, so such a result takes the lease
    out of it.  And nothing else is handed back: only leases of arriving
    results and leases the dispatcher owned. *)
Theorem shutdown_returns_every_lease d pause arrivals t log :
  exists t1 log1 d1, drain w arrivals d pause (t, log) = ((t1, log1), d1)
    /\ forall order, order ≡ₚ (map_to_list (d_owned d1)).*2 ->
       exists t2 new, releaseOutstanding order (t1, log1) = ((t2, log ++ new), tt)
         /\ (forall id lease, d_owned d !! id = Some lease ->
               lease ∈ disposed_in new \/ exists res, Some res ∈ arrivals /\ pr_ID (sl_Record (sr_lease res)) = id /\ sr_lease res <> lease)
         /\ (forall lease, lease ∈ disposed_in new ->
               (exists res, Some res ∈ arrivals /\ sr_lease res = lease) \/ exists id, d_owned d !! id = Some lease).
Proof.
  destruct (drain_log arrivals d pause t log) as (t1 & new & d1 & Hd & Hcover & Hkept & Hgiven).
  exists t1, (log ++ new), d1. split; [done|]. intros order Hord.
  destruct (releaseOutstanding_log order t1 (log ++ new)) as [t2 Hr].
  exists t2, (new ++ (CallRelease <$> order)). rewrite app_assoc. split; [done|].
  assert (Hsplit : disposed_in (new ++ (CallRelease <$> order)) = disposed_in new ++ order).
  { unfold disposed_in. rewrite bind_app. f_equal. apply disposed_release. }
  rewrite Hsplit. split.
  - intros id lease Hl. destruct (Hcover id lease Hl) as [Ho|[?|Hdis]]; [left|left; by apply elem_of_app; left|by right].
    apply elem_of_app. right. rewrite Hord, list_elem_of_fmap. exists (id, lease). split; [done|]. by apply elem_of_map_to_list.
  - intros lease [Hl|Hl]%elem_of_app; [left; by apply Hgiven|right].
    rewrite Hord, list_elem_of_fmap in Hl. destruct Hl as ([id lease'] & -> & Hin). apply elem_of_map_to_list in Hin. exists id. by apply Hkept.
Qed.
End Attribution.

(** A finished check on a demo proxy: a refused connection under a stable
    guard. *)
Definition demo_refused : gerror := ErrCheck CheckProxy "proxy refused" false 0 None.
Definition demo_result : scanResult :=
  mkScanResult demo_lease ScanBackground 0 (Some demo_refused) (mkGuardSnapshot true 1) (mkGuardSnapshot true 1) false false.
Definition demo_dispatcher : dispatcher :=
  (newDispatcher 4 (Arr3 2 1 1)){{ d_free := 3; d_inFlight := Arr3 0 0 1; d_owned := {[ 1 := demo_lease ]} }}.

Lemma failure_needs_stable_guard_witness :
  exists u, (handle demo_worker demo_dispatcher demo_result zeroPause (demo_world, [])).1.2 = [CallComplete demo_lease u]
    /\ su_Outcome u = ScanFailure /\ sr_cancelled demo_result = false.
Proof.
  destruct (handle demo_worker demo_dispatcher demo_result zeroPause (demo_world, [])) as [[t' log'] [d' pause']] eqn:Eh.
  exists (scan_update demo_worker demo_result (mkGuardSnapshot true 1)).
  assert (Hlog : log' = [] ++ [CallComplete demo_lease (scan_update demo_worker demo_result (mkGuardSnapshot true 1))]).
  { apply (f_equal (fun x => x.1.2)) in Eh. vm_compute in Eh. vm_compute. symmetry. exact Eh. }
  split; [exact Hlog|]. split; [vm_compute; reflexivity|].
  apply (failure_needs_stable_guard demo_worker demo_dispatcher demo_result zeroPause demo_world [] t' log' d' pause'
           (scan_update demo_worker demo_result (mkGuardSnapshot true 1)) Eh Hlog).
  vm_compute. reflexivity.
Defined.

(** The map of owned leases is keyed by proxy: the late result of a lease that
    expired takes the newer lease of the same proxy out of it, and the drain ends
    without releasing that one. *)
Definition expired_lease : ScanLease := demo_lease{{ sl_Token := "expired" }}.
Example late_result_displaces_lease :
  let '(t1, d1) := drain demo_worker [Some (demo_result{{ sr_lease := expired_lease }})] demo_dispatcher zeroPause (demo_world, []) in
  d_owned demo_dispatcher = {[ 1 := demo_lease ]} /\ d_owned d1 = ∅ /\ Forall (fun c => forall l, c = CallRelease l -> l <> demo_lease) t1.2.
Proof.
  vm_compute. split; [reflexivity|]. split; [reflexivity|]. repeat constructor; intros l [=].
Qed.

(** ** Reservations can be lent

    Three slots, one reserved per queue.  With no verification due, one pass
    lends the verification slot, and the recovery slot, to background: a
    verification row that becomes due now has to wait for a background check
    to finish. *)
Definition three_background : ProxyDB := run_ops demo_policy empty_db
  [OpInsert NoFault 0 demo_proxy; OpInsert NoFault 0 (demo_proxy{{ pr_Port := 8081 }});
   OpInsert NoFault 0 (demo_proxy{{ pr_Port := 8082 }})].

(** The slot reserved for verification is lent to a busy background
    queue whenever verification has nothing due at that moment, so background
    can occupy all three slots of a three-slot worker. *)
Theorem background_borrows_verification_slot :
  reservationTargets 3 (Arr3 60 20 20) = Some (Arr3 1 1 1)
  /\ match admit_pass demo_worker (newDispatcher 3 (Arr3 1 1 1)) zeroPause (demo_world{{ wd_db := three_background }}, []) with
     | (_, Some (d, _)) => d_free d = 0 /\ d_inFlight d = Arr3 0 0 3
     | _ => False
     end.
Proof. vm_compute. repeat split. Qed.
