(* ===== verification/Guard.v ===== *)
(** * The endpoint guard ([infrastructure/proxy/guard.go])

    The local circuit breaker of the scan worker: serial control requests and
    the snapshot they leave.  The attribution theorem of the scan worker is
    composed with it: a failure is persisted only when every control request
    of the check's whole window succeeded. *)
From S2P Require Import Prelude GoErrors Contract Scheduling Admission ProxyStore ProxyStoreFacts ScanWorker ScanWorkerFacts.

(** ** EndpointGuard *)

(** [uint64] increments wrap. *)

(** [control]: the callback's error recorded under the lock. *)
Definition control (state : GuardSnapshot) (err : option gerror) : GuardSnapshot :=
  let state :=
    match err with
    | Some _ => if gs_Healthy state then state{{ gs_Generation := u64 (gs_Generation state + 1) }} else state
    | None => state
    end in
  state{{ gs_Healthy := match err with None => true | Some _ => false end }}.

(** The zero snapshot of a new guard. *)
Definition NewEndpointGuard : GuardSnapshot := mkGuardSnapshot false 0.

(** [Run]: the first control at once, then one per timer tick until the context
    is cancelled.  [answers] are the controls' outcomes in order; the result is
    the snapshot after each of them. *)
Fixpoint Run (state : GuardSnapshot) (answers : list (option gerror)) : list GuardSnapshot :=
  match answers with
  | [] => []
  | err :: answers => let state := control state err in state :: Run state answers
  end.

(** [jitteredInterval]; [draw n] is [rand.Int64N(n)]. *)
Definition jitteredInterval (draw : Z -> Z) (interval : Z) : Z :=
  if interval <=? 0 then interval
  else
    let span := Z.quot interval 10 in
    if span =? 0 then interval
    else i64 (i64 (interval - span) + draw (i64 (2 * span))).

(** ** The interval *)

(** The argument of [rand.Int64N] is positive, so the draw does not panic, and
    the wait stays within a tenth of the interval (for intervals whose tenth can
    still be added to them). *)
Lemma jitteredInterval_bounds (draw : Z -> Z) interval :
  (forall n, 0 < n -> 0 <= draw n < n) -> 0 < interval -> 11 * interval <= 10 * max_int64 ->
  10 * jitteredInterval draw interval <= 11 * interval /\ 9 * interval <= 10 * jitteredInterval draw interval.
Proof.
  intros Hdraw Hpos Hi. unfold max_int64 in Hi. unfold jitteredInterval.
  rewrite (proj2 (Z.leb_gt interval 0)) by lia. cbv zeta.
  rewrite Z.quot_div_nonneg by lia. pose proof (Z.div_mod interval 10 ltac:(lia)) as Hdm.
  pose proof (Z.mod_pos_bound interval 10 ltac:(lia)) as Hm. set (span := interval / 10) in *.
  destruct (Z.eqb_spec span 0) as [He|He]; cbv iota; [lia|].
  assert (Hs : 0 < span) by (pose proof (Z.div_pos interval 10 ltac:(lia) ltac:(lia)); lia).
  rewrite (i64_id (2 * span)) by (unfold is_i64, min_int64, max_int64; lia).
  pose proof (Hdraw (2 * span) ltac:(lia)).
  rewrite (i64_id (interval - span)) by (unfold is_i64, min_int64, max_int64; lia).
  rewrite i64_id by (unfold is_i64, min_int64, max_int64; lia). lia.
Qed.

(** ** What two snapshots say about the controls between them *)

(** The snapshot after the first [n] controls of a guard's life. *)
Definition snapshot_at (answers : list (option gerror)) (n : nat) : GuardSnapshot :=
  last (Run NewEndpointGuard (take n answers)) NewEndpointGuard.
Definition controls_between (answers : list (option gerror)) (i j : nat) : list (option gerror) :=
  take (j - i) (drop i answers).

Definition guard_after (state : GuardSnapshot) (answers : list (option gerror)) : GuardSnapshot :=
  fold_left control answers state.
Lemma Run_last answers : forall state d, last (Run state answers) d = match answers with [] => d | _ => guard_after state answers end.
Proof.
  induction answers as [|e answers IH]; intros state d; [done|]. cbn [Run]. unfold guard_after. cbn [fold_left].
  specialize (IH (control state e) d). destruct answers as [|e' answers]; [done|]. exact IH.
Qed.
Lemma snapshot_at_eq answers n : snapshot_at answers n = guard_after NewEndpointGuard (take n answers).
Proof. unfold snapshot_at. rewrite Run_last. by destruct (take n answers). Qed.
Lemma snapshot_at_between answers i j : (i <= j)%nat ->
  snapshot_at answers j = guard_after (snapshot_at answers i) (controls_between answers i j).
Proof.
  intros Hij. rewrite !snapshot_at_eq. unfold guard_after, controls_between.
  rewrite <- fold_left_app. f_equal. rewrite take_take_drop. f_equal. lia.
Qed.

(** The number of failed controls that found the guard healthy. *)
Fixpoint transitions (healthy : bool) (answers : list (option gerror)) : Z :=
  match answers with
  | [] => 0
  | Some _ :: answers => (if healthy then 1 else 0) + transitions false answers
  | None :: answers => transitions true answers
  end.
Lemma transitions_bound answers : forall h, 0 <= transitions h answers <= Z.of_nat (length answers).
Proof.
  induction answers as [|[e|] answers IH]; intros h; cbn [transitions length]; [lia|specialize (IH false)|specialize (IH true)];
    destruct h; lia.
Qed.
Lemma transitions_zero answers : transitions true answers = 0 -> Forall (fun e => e = None) answers.
Proof.
  induction answers as [|[e|] answers IH]; cbn [transitions]; intros H; [constructor|..].
  - pose proof (transitions_bound answers false). lia.
  - constructor; [done|]. by apply IH.
Qed.

Lemma guard_after_generation answers : forall state,
  gs_Generation (guard_after state answers) mod 18446744073709551616
    = (gs_Generation state + transitions (gs_Healthy state) answers) mod 18446744073709551616.
Proof.
  induction answers as [|e answers IH]; intros state; cbn [transitions]; [f_equal; cbn; lia|].
  unfold guard_after in *. cbn [fold_left]. rewrite IH. destruct state as [h g].
  destruct e as [err|], h; cbn -[Z.modulo transitions Z.add]; unfold u64; rewrite ?Zplus_mod_idemp_l; f_equal; lia.
Qed.

(** Two snapshots of one guard, the earlier one healthy, with the same
    generation: no control between them failed. *)
Lemma stable_generation answers i j : (i <= j)%nat -> Z.of_nat (length answers) < 18446744073709551616 ->
  gs_Healthy (snapshot_at answers i) = true ->
  gs_Generation (snapshot_at answers j) = gs_Generation (snapshot_at answers i) ->
  Forall (fun e => e = None) (controls_between answers i j).
Proof.
  intros Hij Hlen Hh Hg. apply transitions_zero. rewrite (snapshot_at_between answers i j Hij) in Hg.
  pose proof (guard_after_generation (controls_between answers i j) (snapshot_at answers i)) as Hgen.
  rewrite Hg, Hh in Hgen. pose proof (transitions_bound (controls_between answers i j) true) as Hb.
  assert (Hl : Z.of_nat (length (controls_between answers i j)) <= Z.of_nat (length answers)).
  { unfold controls_between. rewrite length_take, length_drop. lia. }
  set (k := transitions true _) in *. set (g := gs_Generation (snapshot_at answers i)) in *.
  assert (Hk : k mod 18446744073709551616 = 0).
  { replace k with ((g + k) - g) by lia. rewrite Zminus_mod.  rewrite <- Hgen, Z.sub_diag. reflexivity. }
  rewrite Z.mod_small in Hk by lia. exact Hk.
Qed.

Lemma Forall_between (P : option gerror -> Prop) answers i j k : (i <= j <= k)%nat ->
  Forall P (controls_between answers i j) -> Forall P (controls_between answers j k) -> Forall P (controls_between answers i k).
Proof.
  intros Hijk Hij Hjk. unfold controls_between in *.
  replace (k - i)%nat with ((j - i) + (k - j))%nat by lia. rewrite <- take_take_drop.
  apply Forall_app. split; [done|]. rewrite drop_drop. by replace (i + (j - i))%nat with j by lia.
Qed.

(** ** Attribution under the guard *)

Section Attribution.
Context {W : Type} `{E : ScanEnv W} (w : ScanWorker).

(** C23: the scan worker persists a conclusive failure of a proxy
    only when the replica's own egress was up for the check's whole window:
    with the guard's snapshots taken after [i], [j] and [k] control requests
    (when the check started, when it finished, and right before the write),
    every control request in between succeeded; and the check neither
    panicked nor was cancelled and ended with a typed proxy or deadline error.
    So an outage of the endpoint that a control request saw is never held
    against a proxy. *)
Theorem failure_means_endpoint_up (answers : list (option gerror)) (i j k : nat)
    d res pause t log t' log' d' pause' u
    (Horder : (i <= j <= k)%nat) (Hlife : Z.of_nat (length answers) < 18446744073709551616)
    (Hstart : sr_startSnap res = snapshot_at answers i) (Hfinish : sr_finishSnap res = snapshot_at answers j)
    (Hrecheck : (env_Snapshot t).2 = snapshot_at answers k)
    (Hrun : handle w d res pause (t, log) = ((t', log'), (d', pause')))
    (Hcall : log' = log ++ [CallComplete (sr_lease res) u]) (Hfail : su_Outcome u = ScanFailure) :
  Forall (fun answer => answer = None) (controls_between answers i k)
  /\ sr_panicked res = false /\ sr_cancelled res = false
  /\ exists e c, sr_err res = Some e /\ errors_Is e ContextCanceled = false /\ errors_As_check e = Some c
       /\ (ce_Kind c = CheckProxy \/ ce_Kind c = CheckDeadline).
Proof.
  destruct (failure_needs_stable_guard w d res pause t log t' log' d' pause' u Hrun Hcall Hfail)
    as (Hp & Hc & He & Hh1 & Hh2 & Hg & Hg').
  rewrite Hstart, Hfinish, ?Hrecheck in *. split; [|by repeat split].
  apply (Forall_between _ answers i j k Horder).
  - apply stable_generation; [lia|done|exact Hh1|exact Hg].
  - apply stable_generation; [lia|done|exact Hh2|congruence].
Qed.
End Attribution.

(** An outage before the check, none during it. *)
Lemma failure_means_endpoint_up_witness :
  let answers := [None; Some (ErrorString "no route"); None; None] in
  exists u, (handle demo_worker demo_dispatcher demo_result zeroPause (demo_world, [])).1.2 = [CallComplete demo_lease u]
    /\ su_Outcome u = ScanFailure /\ Forall (fun answer => answer = None) (controls_between answers 3 4).
Proof.
  intros answers.
  destruct (handle demo_worker demo_dispatcher demo_result zeroPause (demo_world, [])) as [[t' log'] [d' pause']] eqn:Eh.
  exists (scan_update demo_worker demo_result (mkGuardSnapshot true 1)).
  assert (Hlog : log' = [] ++ [CallComplete demo_lease (scan_update demo_worker demo_result (mkGuardSnapshot true 1))]).
  { apply (f_equal (fun x => x.1.2)) in Eh. vm_compute in Eh. vm_compute. symmetry. exact Eh. }
  split; [exact Hlog|]. split; [vm_compute; reflexivity|].
  refine (proj1 (failure_means_endpoint_up demo_worker answers 3 3 4 demo_dispatcher demo_result zeroPause demo_world [] t' log'
           d' pause' _ _ _ _ _ _ Eh Hlog _)); [lia|reflexivity..].
Defined.
