(* ===== verification/Hub.v ===== *)
(** * Proxy consumers ([domain/proxy/hub.go], [proxy.go],
      [domain/census/worker/worker.go])

    A consumer worker acquires a proxy from the hub, runs every queue job
    through it, and gives it up or replaces it according to how the job
    failed.  The worker is written against the [ConsumerEnv] interface: the
    repository calls, the destination checker, the queue, the handlers of the
    proxy's client, and the waits.  Log records are left out. *)
From stdpp Require Import pretty.
From S2P Require Import Prelude GoErrors Contract Scheduling Payloads.

(** What ends a wait for a proxy: the backoff timer, the hub's notification
    channel, or the cancelled context. *)
Inductive proxy_wake := WakeTimer | WakeNotify | WakeCancelled (e : gerror).

(** A handler returns, or panics and is recovered by the worker. *)
Inductive handler_answer := Returned (r : result (list QueueJob)) | HandlerPanicked.

Class ConsumerEnv (W : Type) := {
  (* contract.ProxyRepository *)
  ce_ClaimProxy : string -> Z -> ST W (result (option ProxyRecord));
  ce_RefreshConsumerLock : Z -> string -> Z -> ST W (result (option ProxyRecord));
  ce_RecordConsumerFailure : ProxyRecord -> string -> Z -> ScanUpdate -> ST W (result bool);
  ce_CooldownDestination : Z -> string -> Z -> Z -> ST W (result unit);
  ce_ReleaseProxy : Z -> string -> ST W (result unit);
  (* contract.ProxyChecker against the destination; [None] is success *)
  ce_Check : ProxyRecord -> ST W (option gerror);
  (* contract.Queue *)
  ce_Publish : QueueJob -> ST W (result unit);
  (* newLodestoneClient for an address; the handlers it gives are registered
     under [ce_Registered] and run by [ce_Handle] *)
  ce_NewClient : string -> ST W (result unit);
  ce_Registered : string -> bool;
  ce_Handle : string -> QueueJob -> ST W handler_answer;
  (* the proxy's own rate limiter, the backoff wait, NotifyAvailable *)
  ce_WaitProviders : string -> ST W (result unit);
  ce_Wait : Z -> ST W proxy_wake;
  ce_NotifyAvailable : ST W unit;
}.

Record ProxyHub := mkProxyHub {
  ph_lockTTL : Z;
  ph_checker : bool; (* is a destination checker configured? *)
  ph_destCooldown : Z;
  ph_policy : ProxyScanPolicy;
}.

(** [Proxy.Address]: protocol://ip:port. *)
Definition Address (p : ProxyRecord) : string :=
  pr_Protocol p +:+ "://" +:+ pr_IP p +:+ ":" +:+ pretty (pr_Port p).

Section Consumer.
Context {W : Type} `{E : ConsumerEnv W} (h : ProxyHub) (owner : string).

(** ** Proxy (proxy.go): the receiver's record is returned updated *)

Definition CanUse (p : ProxyRecord) : ST W (ProxyRecord * result bool) :=
  r ← ce_RefreshConsumerLock (pr_ID p) owner (ph_lockTTL h);
  match r with
  | Err e => mret (p, Err (ErrWrap "refresh consumer lock" e))
  | Ok None => mret (p, Ok false)
  | Ok (Some fresh) => mret (fresh, Ok true)
  end.

Definition MarkFailed (p : ProxyRecord) : ST W (result bool) :=
  ce_RecordConsumerFailure p owner (ph_lockTTL h) (MakeConsumerFailureUpdate (ph_policy h) p).

Definition Proxy_CooldownDestination (p : ProxyRecord) (delay : Z) : ST W (result unit) :=
  ce_CooldownDestination (pr_ID p) owner (ph_lockTTL h) delay.

Definition Release (p : ProxyRecord) : ST W (ProxyRecord * result unit) :=
  r ← ce_ReleaseProxy (pr_ID p) owner;
  match r with
  | Err e => mret (p, Err e)
  | Ok _ => mret (p{{ pr_LockedBy := None; pr_LockedAt := None }}, Ok tt)
  end.

(** ** ProxyHub (hub.go) *)

(** Release errors are ignored. *)
Definition releaseClaim (p : ProxyRecord) : ST W unit := _ ← Release p; mret tt.

Definition NewProxy : ST W (result (option ProxyRecord)) :=
  claimed ← ce_ClaimProxy owner (ph_lockTTL h);
  match claimed with
  | Err e => mret (Err e)
  | Ok None => mret (Ok None)
  | Ok (Some rec) =>
      if negb (ph_checker h) then mret (Ok (Some rec))
      else
        checked ← ce_Check rec;
        match checked with
        | None =>
            current ← ce_RefreshConsumerLock (pr_ID rec) owner (ph_lockTTL h);
            match current with
            | Err e => mret (Err e)
            | Ok None => _ ← releaseClaim rec; mret (Ok None)
            | Ok (Some current) => mret (Ok (Some current))
            end
        | Some err =>
            match errors_As_check err with
            | None => _ ← releaseClaim rec; mret (Ok None)
            | Some checkErr =>
                match ce_Kind checkErr with
                | CheckProxy =>
                    marked ← MarkFailed rec;
                    match marked with
                    | Err e => mret (Err e)
                    | Ok _ => _ ← releaseClaim rec; mret (Ok None)
                    end
                | CheckTarget =>
                    let delay := Z.max (ce_RetryAfter checkErr) (ph_destCooldown h) in
                    cooled ← Proxy_CooldownDestination rec delay;
                    match cooled with
                    | Err e => mret (Err e)
                    | Ok _ => mret (Ok None)
                    end
                | _ => _ ← releaseClaim rec; mret (Ok None)
                end
            end
        end
  end.

(** ** Worker (worker.go) *)

Definition minBackoff : Z := 5 * second.
Definition maxBackoff : Z := 60 * second.
Definition next_backoff (backoff : Z) : Z :=
  let b := backoff * 2 in if maxBackoff <? b then maxBackoff else b.

(** The loop has no bound of its own: [None] when the worker is still waiting
    after [fuel] acquisition attempts. *)
Fixpoint waitForProxy (fuel : nat) (backoff : Z) : ST W (option (result ProxyRecord)) :=
  match fuel with
  | O => mret None
  | S fuel =>
      r ← NewProxy;
      match r with
      | Ok (Some p) => mret (Some (Ok p))
      | _ =>
          wake ← ce_Wait backoff;
          match wake with
          | WakeCancelled e => mret (Some (Err e))
          | WakeTimer => waitForProxy fuel (next_backoff backoff)
          | WakeNotify => waitForProxy fuel minBackoff
          end
      end
  end.

(** [replaceProxy] from a proxy the worker has (no caller passes nil).  The
    answer carries the worker's proxy after the call: the replacement, or the
    previous one with its lock fields cleared when no replacement was
    obtained. *)
Definition replaceProxy (fuel : nat) (previous : ProxyRecord) : ST W (option (ProxyRecord * result unit)) :=
  released ← Release previous;
  let previous := released.1 in
  _ ← ce_NotifyAvailable;
  acquired ← waitForProxy fuel minBackoff;
  match acquired with
  | None => mret None
  | Some (Err e) => mret (Some (previous, Err (ErrWrap "no checked proxy available" e)))
  | Some (Ok replacement) =>
      client ← ce_NewClient (Address replacement);
      match client with
      | Err e => _ ← Release replacement; mret (Some (previous, Err (ErrWrap "create lodestone client" e)))
      | Ok _ => mret (Some (replacement, Ok tt))
      end
  end.

Definition isGeneralProxyFailure (err : gerror) : bool :=
  match errors_As_check err with
  | Some checkErr => bool_decide (ce_Kind checkErr = CheckProxy)
  | None => false
  end.
(** The typed destination rejection of a job error. *)
Definition destinationRejection (err : gerror) : option ProxyCheckError :=
  match errors_As_check err with
  | Some checkErr => if bool_decide (ce_Kind checkErr = CheckTarget) then Some checkErr else None
  | None => None
  end.

Definition missingHandlerError (eventType : string) : gerror :=
  ErrWrap ("no handler registered for event " +:+ eventType) (ErrSentinel ErrNoHandler).

Definition runHandler (address : string) (job : QueueJob) : ST W (result (list QueueJob)) :=
  a ← ce_Handle address job;
  mret (match a with Returned r => r | HandlerPanicked => Err (ErrorString "worker panic") end).

Fixpoint publishNext (next : list QueueJob) : ST W (result unit) :=
  match next with
  | [] => mret (Ok tt)
  | job :: next =>
      r ← ce_Publish job;
      match r with Err e => mret (Err e) | Ok _ => publishNext next end
  end.

(** The provider wait, handler lookup and handler call of one attempt; the
    first sum component reports an error that ends the job as it is. *)
Definition attempt (p : ProxyRecord) (job : QueueJob) : ST W (gerror + result (list QueueJob)) :=
  waited ← ce_WaitProviders (qj_Type job);
  match waited with
  | Err e => mret (inl e)
  | Ok _ =>
      if negb (ce_Registered (qj_Type job)) then mret (inl (missingHandlerError (qj_Type job)))
      else r ← runHandler (Address p) job; mret (inr r)
  end.

(** The second attempt, through a replacement proxy, after a conclusive proxy
    failure. *)
Definition retryJob (p : ProxyRecord) (job : QueueJob) : ST W (ProxyRecord * result unit) :=
  a ← attempt p job;
  match a with
  | inl e => mret (p, Err e)
  | inr (Ok retryNext) => r ← publishNext retryNext; mret (p, r)
  | inr (Err retryErr) =>
      marked ← (if isGeneralProxyFailure retryErr then MarkFailed p else mret (Ok true));
      match marked with
      | Err e => mret (p, Err (ErrWrap "record proxy failure" e))
      | Ok _ => released ← Release p; mret (released.1, Err retryErr)
      end
  end.

(** [processJob] with the worker's current proxy; [None] while it waits for a
    replacement. *)
Definition processJob (fuel : nat) (p : ProxyRecord) (job : QueueJob) : ST W (option (ProxyRecord * result unit)) :=
  used ← CanUse p;
  match used with
  | (p, Err e) => mret (Some (p, Err (ErrWrap "proxy canuse check" e)))
  | (p, Ok canUse) =>
      ready ← (if (canUse : bool) then mret (Some (p, Ok tt)) else replaceProxy fuel p);
      match ready with
      | None => mret None
      | Some (p, Err e) => mret (Some (p, Err (ErrWrap "proxy re-acquire" e)))
      | Some (p, Ok _) =>
          a ← attempt p job;
          match a with
          | inl e => mret (Some (p, Err e))
          | inr (Ok next) => r ← publishNext next; mret (Some (p, r))
          | inr (Err jobErr) =>
              match destinationRejection jobErr with
              | Some checkErr =>
                  cooled ← Proxy_CooldownDestination p (Z.max (ce_RetryAfter checkErr) (ph_destCooldown h));
                  match cooled with
                  | Err e => mret (Some (p, Err (ErrWrap "destination cooldown" e)))
                  | Ok _ => mret (Some (p, Err jobErr))
                  end
              | None =>
                  if isGeneralProxyFailure jobErr then
                    marked ← MarkFailed p;
                    match marked with
                    | Err e => mret (Some (p, Err (ErrWrap "record proxy failure" e)))
                    | Ok _ =>
                        replaced ← replaceProxy fuel p;
                        match replaced with
                        | None => mret None
                        | Some (p, Err e) => mret (Some (p, Err (ErrWrap "proxy re-acquire after failure" e)))
                        | Some (p, Ok _) => r ← retryJob p job; mret (Some r)
                        end
                    end
                  else mret (Some (p, Err jobErr))
              end
          end
      end
  end.

(** The deliveries [Consume] hands to the worker one at a time; [settle] is
    told each job's error. *)
Fixpoint consumeJobs (settle : QueueJob -> result unit -> ST W unit) (fuel : nat) (p : ProxyRecord)
    (jobs : list QueueJob) : ST W (option ProxyRecord) :=
  match jobs with
  | [] => mret (Some p)
  | job :: jobs =>
      r ← processJob fuel p job;
      match r with
      | None => mret None
      | Some (p, res) => _ ← settle job res; consumeJobs settle fuel p jobs
      end
  end.

(** [proxyWorkerLoop] until its queue stops delivering; [None] while it waits
    for a proxy. *)
Definition proxyWorkerLoop (settle : QueueJob -> result unit -> ST W unit) (fuel : nat) (jobs : list QueueJob)
    : ST W (option (result unit)) :=
  acquired ← waitForProxy fuel minBackoff;
  match acquired with
  | None => mret None
  | Some (Err e) => mret (Some (Err (ErrWrap "proxy acquire" e)))
  | Some (Ok p) =>
      client ← ce_NewClient (Address p);
      match client with
      | Err e =>
          released ← Release p;
          mret (Some (Err (match released.2 with
                           | Err relErr => ErrJoin [ErrWrap "create lodestone client" e; ErrWrap "release proxy" relErr]
                           | Ok _ => ErrWrap "create lodestone client" e
                           end)))
      | Ok _ =>
          done ← consumeJobs settle fuel p jobs;
          match done with
          | None => mret None
          | Some p =>
              released ← Release p;
              _ ← (if is_ok released.2 then ce_NotifyAvailable else mret tt);
              mret (Some (Ok tt))
          end
      end
  end.
End Consumer.
