(* ===== verification/HubFacts.v ===== *)
(** * Properties of the proxy consumers

    A worker never holds the locks of two proxies, and leaves none behind; a
    proxy handed out is usable; only conclusive failures cost a proxy its
    health.  The first is proved against the laws of the pool interface, which
    the proxy store of [ProxyStore] satisfies whatever other processes do
    between two calls of the worker. *)
From S2P Require Import Prelude GoErrors Contract Scheduling Payloads ProxyStore ProxyStoreFacts ProxyClaims Hub.

(** ** What a worker relies on *)

(** [pl_held]: the rows that carry the worker's lock; [pl_stuck]: those it
    still held when a repository call answered an error, so that it cannot
    know their state (their locks expire by TTL). *)
Class PoolLaws (W : Type) `{ConsumerEnv W} (owner : string) := {
  pl_ok : W -> Prop;
  pl_held : W -> gset Z;
  pl_stuck : W -> gset Z;
  law_claim : forall ttl w, pl_ok w ->
    let '(w', r) := ce_ClaimProxy owner ttl w in
    pl_ok w' /\ pl_stuck w ⊆ pl_stuck w'
    /\ pl_held w' ⊆ match r with
                    | Ok (Some p) => pl_held w ∪ {[ pr_ID p ]}
                    | Ok None => pl_held w
                    | Err _ => pl_stuck w'
                    end;
  law_refresh : forall id ttl w, pl_ok w ->
    let '(w', r) := ce_RefreshConsumerLock id owner ttl w in
    pl_ok w' /\ pl_stuck w ⊆ pl_stuck w'
    /\ (forall p, r = Ok (Some p) -> pr_ID p = id)
    /\ pl_held w' ⊆ match r with Ok _ => pl_held w | Err _ => pl_stuck w' end;
  law_failure : forall rec ttl u w, pl_ok w ->
    let '(w', r) := ce_RecordConsumerFailure rec owner ttl u w in
    pl_ok w' /\ pl_stuck w ⊆ pl_stuck w'
    /\ pl_held w' ⊆ match r with Ok _ => pl_held w | Err _ => pl_stuck w' end;
  law_cooldown : forall id ttl delay w, pl_ok w ->
    let '(w', r) := ce_CooldownDestination id owner ttl delay w in
    pl_ok w' /\ pl_stuck w ⊆ pl_stuck w'
    /\ pl_held w' ⊆ match r with Ok _ => pl_held w ∖ {[ id ]} | Err _ => pl_stuck w' end;
  law_release : forall id w, pl_ok w ->
    let '(w', r) := ce_ReleaseProxy id owner w in
    pl_ok w' /\ pl_stuck w ⊆ pl_stuck w'
    /\ pl_held w' ⊆ match r with Ok _ => pl_held w ∖ {[ id ]} | Err _ => pl_stuck w' end;
  (* the calls that do not reach the repository *)
  law_check : forall p w, pl_ok w -> let w' := (ce_Check p w).1 in
    pl_ok w' /\ pl_stuck w ⊆ pl_stuck w' /\ pl_held w' ⊆ pl_held w;
  law_publish : forall job w, pl_ok w -> let w' := (ce_Publish job w).1 in
    pl_ok w' /\ pl_stuck w ⊆ pl_stuck w' /\ pl_held w' ⊆ pl_held w;
  law_client : forall a w, pl_ok w -> let w' := (ce_NewClient a w).1 in
    pl_ok w' /\ pl_stuck w ⊆ pl_stuck w' /\ pl_held w' ⊆ pl_held w;
  law_handle : forall a job w, pl_ok w -> let w' := (ce_Handle a job w).1 in
    pl_ok w' /\ pl_stuck w ⊆ pl_stuck w' /\ pl_held w' ⊆ pl_held w;
  law_providers : forall e w, pl_ok w -> let w' := (ce_WaitProviders e w).1 in
    pl_ok w' /\ pl_stuck w ⊆ pl_stuck w' /\ pl_held w' ⊆ pl_held w;
  law_wait : forall b w, pl_ok w -> let w' := (ce_Wait b w).1 in
    pl_ok w' /\ pl_stuck w ⊆ pl_stuck w' /\ pl_held w' ⊆ pl_held w;
  law_notify : forall w, pl_ok w -> let w' := (ce_NotifyAvailable w).1 in
    pl_ok w' /\ pl_stuck w ⊆ pl_stuck w' /\ pl_held w' ⊆ pl_held w;
}.

(** ** Ownership triples *)

Section Ownership.
Context {W : Type} `{E : ConsumerEnv W} (owner : string) `{LW : !PoolLaws W owner} (h : ProxyHub).

(** The worker holds at most the rows of [C], apart from stuck ones. *)
Definition owns (C : gset Z) (w : W) : Prop := pl_ok w /\ pl_held w ⊆ C ∪ pl_stuck w.
Definition triple {A} (C : gset Z) (m : ST W A) (Q : A -> gset Z) : Prop :=
  forall w, owns C w -> owns (Q (m w).2) (m w).1.

Lemma owns_weaken C C' w : C ⊆ C' -> owns C w -> owns C' w.
Proof. intros HC [Hok Hh]. split; [done|]. set_solver. Qed.

Lemma triple_ret {A} C (a : A) (Q : A -> gset Z) : C ⊆ Q a -> triple C (mret a) Q.
Proof. intros HC w Hw. by eapply owns_weaken. Qed.
Lemma triple_bind {A B} C (m : ST W A) (k : A -> ST W B) Q R :
  triple C m Q -> (forall a, triple (Q a) (k a) R) -> triple C (m ≫= k) R.
Proof. intros Hm Hk w Hw. rewrite ST_bind_eq. apply Hk, Hm, Hw. Qed.
Lemma triple_frame {A} C (m : ST W A) :
  (forall w, pl_ok w -> let w' := (m w).1 in pl_ok w' /\ pl_stuck w ⊆ pl_stuck w' /\ pl_held w' ⊆ pl_held w) ->
  triple C m (fun _ => C).
Proof. intros Hm w [Hok Hh]. destruct (Hm w Hok) as (Hok' & Hs & Hl). split; [done|]. set_solver. Qed.

(** The repository calls. *)
Definition unless_err {A} (r : result A) (C : gset Z) : gset Z := match r with Ok _ => C | Err _ => ∅ end.
Definition acquired (r : result (option ProxyRecord)) : gset Z :=
  match r with Ok (Some p) => {[ pr_ID p ]} | _ => ∅ end.

Lemma triple_claim C ttl : triple C (ce_ClaimProxy owner ttl) (fun r => unless_err r C ∪ acquired r).
Proof.
  intros w [Hok Hh]. pose proof (law_claim ttl w Hok) as Hl. destruct (ce_ClaimProxy owner ttl w) as [w' [[p|]|e]];
    destruct Hl as (Hok' & Hs & Hl); (split; [done|]); cbn; set_solver.
Qed.
Lemma triple_refresh id ttl :
  triple {[ id ]} (ce_RefreshConsumerLock id owner ttl)
    (fun r => match r with Ok (Some p) => {[ pr_ID p ]} | Ok None => {[ id ]} | Err _ => ∅ end).
Proof.
  intros w [Hok Hh]. pose proof (law_refresh id ttl w Hok) as Hl.
  destruct (ce_RefreshConsumerLock id owner ttl w) as [w' [[p|]|e]];
    destruct Hl as (Hok' & Hs & Hid & Hl); (split; [done|]); cbn; [rewrite (Hid p) by done|..]; set_solver.
Qed.
Lemma triple_failure C rec : triple C (MarkFailed h owner rec) (fun r => unless_err r C).
Proof.
  intros w [Hok Hh]. pose proof (law_failure rec (ph_lockTTL h) (MakeConsumerFailureUpdate (ph_policy h) rec) w Hok) as Hl.
  unfold MarkFailed. destruct (ce_RecordConsumerFailure _ _ _ _ w) as [w' [r|e]];
    destruct Hl as (Hok' & Hs & Hl); (split; [done|]); cbn; set_solver.
Qed.
Lemma triple_cooldown C p delay : triple C (Proxy_CooldownDestination h owner p delay) (fun _ => C ∖ {[ pr_ID p ]}).
Proof.
  intros w [Hok Hh]. pose proof (law_cooldown (pr_ID p) (ph_lockTTL h) delay w Hok) as Hl.
  unfold Proxy_CooldownDestination. destruct (ce_CooldownDestination _ _ _ _ w) as [w' [r|e]];
    destruct Hl as (Hok' & Hs & Hl); (split; [done|]); cbn; set_solver.
Qed.
Lemma triple_release C p : triple C (Release owner p) (fun _ => C ∖ {[ pr_ID p ]}).
Proof.
  intros w [Hok Hh]. unfold Release. rewrite ST_bind_eq. pose proof (law_release (pr_ID p) w Hok) as Hl.
  destruct (ce_ReleaseProxy (pr_ID p) owner w) as [w' [r|e]];
    destruct Hl as (Hok' & Hs & Hl); (split; [done|]); cbn; set_solver.
Qed.

Lemma triple_weaken {A} C C' (m : ST W A) (Q Q' : A -> gset Z) :
  C' ⊆ C -> (forall a, Q a ⊆ Q' a) -> triple C m Q -> triple C' m Q'.
Proof. intros HC HQ Hm w Hw. eapply owns_weaken; [apply HQ|]. apply Hm. by eapply owns_weaken. Qed.

(** ** The operations *)

Lemma triple_releaseClaim C p : triple C (releaseClaim owner p) (fun _ => C ∖ {[ pr_ID p ]}).
Proof. unfold releaseClaim. eapply triple_bind; [apply triple_release|]. intros ?. by apply triple_ret. Qed.

Lemma triple_CanUse p :
  triple {[ pr_ID p ]} (CanUse h owner p) (fun r => {[ pr_ID r.1 ]}).
Proof.
  unfold CanUse. eapply triple_bind; [apply triple_refresh|]. intros [[f|]|e]; apply triple_ret; cbn; set_solver.
Qed.

Ltac own :=
  repeat match goal with
  | |- triple _ (mret _) _ => apply triple_ret; cbn; set_solver
  | |- triple _ (releaseClaim _ _ ≫= _) _ => eapply triple_bind; [apply triple_releaseClaim|intros ?]
  | |- triple _ (Release _ _ ≫= _) _ => eapply triple_bind; [apply triple_release|intros ?]
  | |- triple _ (MarkFailed _ _ _ ≫= _) _ => eapply triple_bind; [apply triple_failure|intros ?]
  | |- triple _ (Proxy_CooldownDestination _ _ _ _ ≫= _) _ => eapply triple_bind; [apply triple_cooldown|intros ?]
  | |- triple _ (ce_Check _ ≫= _) _ => eapply triple_bind; [apply triple_frame, law_check|intros ?]
  | |- triple _ (ce_NewClient _ ≫= _) _ => eapply triple_bind; [apply triple_frame, law_client|intros ?]
  | |- triple _ (ce_Wait _ ≫= _) _ => eapply triple_bind; [apply triple_frame, law_wait|intros ?]
  | |- triple _ (ce_NotifyAvailable ≫= _) _ => eapply triple_bind; [apply triple_frame, law_notify|intros ?]
  | |- triple _ (match ?x with _ => _ end) _ => destruct x
  end.

Lemma triple_NewProxy : triple ∅ (NewProxy h owner) acquired.
Proof.
  unfold NewProxy. eapply triple_bind; [apply triple_claim|]. intros [[rec|]|e]; cbn; [|own..].
  replace (∅ ∪ {[pr_ID rec]}) with ({[pr_ID rec]} : gset Z) by set_solver.
  destruct (negb (ph_checker h)); [own|]. eapply triple_bind; [apply triple_frame, law_check|]. intros [err|]; [own|].
  eapply triple_bind; [apply triple_refresh|]. intros [[cur|]|e]; own.
Qed.

(** The rows held after an acquisition. *)
Definition got (r : option (result ProxyRecord)) : gset Z :=
  match r with Some (Ok p) => {[ pr_ID p ]} | _ => ∅ end.
Lemma triple_waitForProxy fuel : forall backoff, triple ∅ (waitForProxy h owner fuel backoff) got.
Proof.
  induction fuel as [|fuel IH]; intros backoff; cbn [waitForProxy]; [own|].
  eapply triple_bind; [apply triple_NewProxy|]. intros [[p|]|e]; cbn [acquired]; own; apply IH.
Qed.

(** The rows held with the worker's current proxy. *)
Definition current (r : option (ProxyRecord * result unit)) : gset Z :=
  match r with Some (p, _) => {[ pr_ID p ]} | None => ∅ end.

Lemma triple_replaceProxy fuel p : triple {[ pr_ID p ]} (replaceProxy h owner fuel p) current.
Proof.
  unfold replaceProxy. own. eapply triple_bind.
  { eapply triple_weaken; [|reflexivity|apply triple_waitForProxy]. set_solver. }
  intros [[q|e]|]; cbn [got]; own.
Qed.

Lemma triple_publishNext C next : triple C (publishNext next) (fun _ => C).
Proof.
  induction next as [|job next IH]; cbn [publishNext]; [own|].
  eapply triple_bind; [apply triple_frame, law_publish|]. intros [u|e]; [apply IH|own].
Qed.

Lemma triple_runHandler C a job : triple C (runHandler a job) (fun _ => C).
Proof. unfold runHandler. eapply triple_bind; [apply triple_frame, law_handle|]. intros ?; own. Qed.

Lemma triple_attempt C p job : triple C (attempt p job) (fun _ => C).
Proof.
  unfold attempt. eapply triple_bind; [apply triple_frame, law_providers|]. intros [u|e]; [|own].
  destruct (negb _); [own|]. eapply triple_bind; [apply triple_runHandler|]. intros ?; own.
Qed.

Lemma triple_retryJob p job : triple {[ pr_ID p ]} (retryJob h owner p job) (fun r => {[ pr_ID r.1 ]}).
Proof.
  unfold retryJob. eapply triple_bind; [apply triple_attempt|]. intros [e|[next|e]]; [own| |].
  - eapply triple_bind; [apply triple_publishNext|]. intros ?; own.
  - eapply triple_bind.
    { instantiate (1 := fun _ => {[pr_ID p]}). destruct (isGeneralProxyFailure e); [|own].
      eapply triple_weaken; [done| |apply triple_failure]. intros [|]; cbn; set_solver. }
    intros [b|e']; own.
Qed.

Lemma triple_processJob fuel p job : triple {[ pr_ID p ]} (processJob h owner fuel p job) current.
Proof.
  unfold processJob. eapply triple_bind; [apply triple_CanUse|]. clear p. intros [p [canUse|e]]; cbn [fst]; [|own].
  eapply triple_bind.
  { instantiate (1 := current). destruct canUse; [own|apply triple_replaceProxy]. }
  clear p. intros [[p [u|e]]|]; cbn [current]; [|own..].
  eapply triple_bind; [apply triple_attempt|]. intros [e|[next|e]]; [own| |].
  { eapply triple_bind; [apply triple_publishNext|]. intros ?; own. }
  destruct (destinationRejection e); [own|]. destruct (isGeneralProxyFailure e); [|own].
  eapply triple_bind; [apply triple_failure|]. intros [b|e']; cbn [unless_err]; [|own].
  eapply triple_bind; [apply triple_replaceProxy|]. intros [[q [u'|e']]|]; cbn [current]; [|own..].
  eapply triple_bind; [apply triple_retryJob|]. intros [q' r]; own.
Qed.

Section Loop.
(** Telling the queue a job's outcome does not reach the repository. *)
Context (settle : QueueJob -> result unit -> ST W unit)
        (Hsettle : forall job r w, pl_ok w -> let w' := (settle job r w).1 in
           pl_ok w' /\ pl_stuck w ⊆ pl_stuck w' /\ pl_held w' ⊆ pl_held w).

Lemma triple_consumeJobs fuel jobs : forall p,
  triple {[ pr_ID p ]} (consumeJobs h owner settle fuel p jobs)
    (fun r => match r with Some p => {[ pr_ID p ]} | None => ∅ end).
Proof.
  induction jobs as [|job jobs IH]; intros p; cbn [consumeJobs]; [own|].
  eapply triple_bind; [apply triple_processJob|]. intros [[q r]|]; cbn [current]; [|own].
  eapply triple_bind; [apply triple_frame, Hsettle|]. intros ?. apply IH.
Qed.

Lemma triple_proxyWorkerLoop fuel jobs : triple ∅ (proxyWorkerLoop h owner settle fuel jobs) (fun _ => ∅).
Proof.
  unfold proxyWorkerLoop. eapply triple_bind; [apply triple_waitForProxy|].
  intros [[p|e]|]; cbn [got]; [|own..]. own.
  eapply triple_bind; [apply triple_consumeJobs|]. intros [q|]; [|own]. own.
  apply (triple_bind _ _ _ (fun _ => ∅)); [|intros ?; own]. destruct (is_ok _); [|own].
  eapply (triple_weaken ∅ _ _ (fun _ => ∅)); [set_solver|done|apply triple_frame, law_notify].
Qed.

(** C38: a consumer worker holds the lock of at most one proxy, its
    current one, between any two jobs, whatever its jobs, checks and database
    calls answer and however often it replaces the proxy; and when it stops,
    or while it waits for a proxy, it holds none.  The only exceptions are
    locks it still had when a database call failed, which their TTL ends. *)
Theorem worker_holds_one_proxy fuel (w : W) (Hok : pl_ok w) :
  (forall p job, pl_held w ⊆ {[ pr_ID p ]} ∪ pl_stuck w ->
     let '(w', r) := processJob h owner fuel p job w in
     pl_held w' ⊆ match r with Some (p', _) => {[ pr_ID p' ]} | None => ∅ end ∪ pl_stuck w')
  /\ (forall jobs, pl_held w ⊆ pl_stuck w ->
     let w' := (proxyWorkerLoop h owner settle fuel jobs w).1 in
     pl_held w' ⊆ pl_stuck w').
Proof.
  split.
  - intros p job Hh. destruct (triple_processJob fuel p job w (conj Hok Hh)) as [_ H'].
    by destruct (processJob h owner fuel p job w) as [w' [[p' r]|]].
  - intros jobs Hh. destruct (triple_proxyWorkerLoop fuel jobs w) as [_ H']; [split; set_solver|]. set_solver.
Qed.
End Loop.
End Ownership.

(** ** The proxy store as a pool *)

(** Other processes run [pw_others n] before the worker's [n]th call; the
    database answers it at [pw_time n] with [pw_fault n], and the rest of the
    world as scripted. *)
Record PoolWorld := mkPoolWorld {
  pw_policy : ProxyScanPolicy;
  pw_db : ProxyDB;
  pw_calls : nat;
  pw_stuck : gset Z;
  pw_others : nat -> list store_op;
  pw_time : nat -> Z;
  pw_fault : nat -> fault;
  pw_skip : nat -> gset Z;
  pw_answer : nat -> result unit;
  pw_check : nat -> option gerror;
  pw_handle : nat -> handler_answer;
  pw_wake : nat -> proxy_wake;
}.

Section Store.
Context (owner : string).

Definition locked_by (db : ProxyDB) : gset Z := dom (filter (fun kv => pr_LockedBy kv.2 = Some owner) (db_rows db)).

(** The world when the next call starts, and after it. *)
Definition now_db (w : PoolWorld) : ProxyDB := run_ops (pw_policy w) (pw_db w) (pw_others w (pw_calls w)).
Definition after (w : PoolWorld) (db : ProxyDB) (failed : bool) : PoolWorld :=
  w{{ pw_db := db; pw_calls := S (pw_calls w);
      pw_stuck := if failed then pw_stuck w ∪ locked_by db else pw_stuck w }}.
Definition repo {A} (op : PoolWorld -> ProxyDB * result A) : ST PoolWorld (result A) := fun w =>
  let '(db, r) := op w in (after w db (negb (is_ok r)), r).
Definition outside {A} (f : PoolWorld -> A) : ST PoolWorld A := fun w => (after w (now_db w) false, f w).

Global Instance PoolWorld_env : ConsumerEnv PoolWorld := {|
  ce_ClaimProxy o ttl := repo (fun w => let n := pw_calls w in
    ClaimProxy (pw_policy w) (now_db w) (pw_fault w n) (pw_time w n) (pw_time w n) (pw_skip w n) o ttl);
  ce_RefreshConsumerLock id o ttl := repo (fun w => let n := pw_calls w in
    RefreshConsumerLock (pw_policy w) (now_db w) (pw_fault w n) (pw_time w n) id o ttl);
  ce_RecordConsumerFailure rec o ttl u := repo (fun w => let n := pw_calls w in
    RecordConsumerFailure (now_db w) (pw_fault w n) (pw_time w n) rec o ttl u);
  ce_CooldownDestination id o ttl delay := repo (fun w => let n := pw_calls w in
    CooldownDestination (now_db w) (pw_fault w n) (pw_time w n) id o ttl delay);
  ce_ReleaseProxy id o := repo (fun w => let n := pw_calls w in
    ReleaseProxy (now_db w) (pw_fault w n) (pw_time w n) id o);
  ce_Check p := outside (fun w => pw_check w (pw_calls w));
  ce_Publish job := outside (fun w => pw_answer w (pw_calls w));
  ce_NewClient a := outside (fun w => pw_answer w (pw_calls w));
  ce_Registered _ := true;
  ce_Handle a job := outside (fun w => pw_handle w (pw_calls w));
  ce_WaitProviders e := outside (fun w => pw_answer w (pw_calls w));
  ce_Wait b := outside (fun w => pw_wake w (pw_calls w));
  ce_NotifyAvailable := outside (fun _ => tt);
|}.

(** No other process claims under the worker's name. *)
Definition foreign (op : store_op) : Prop :=
  match op with OpClaimProxy _ _ _ _ o _ => o <> owner | _ => True end.
Definition pool_ok (w : PoolWorld) : Prop := table_ok (pw_db w) /\ forall n, Forall foreign (pw_others w n).

Lemma elem_of_locked db j : j ∈ locked_by db <-> exists r, db_rows db !! j = Some r /\ pr_LockedBy r = Some owner.
Proof.
  unfold locked_by. rewrite elem_of_dom. split.
  - intros [r Hr]. apply map_lookup_filter_Some in Hr as [Hr Ho]. by exists r.
  - intros (r & Hr & Ho). exists r. by apply map_lookup_filter_Some.
Qed.

(** Only a claim in the owner's name gives the owner a row. *)
Lemma apply_op_locked pol db op : table_ok db -> foreign op -> locked_by (apply_op pol db op) ⊆ locked_by db.
Proof.
  intros Hok Hf j. rewrite !elem_of_locked. intros (r' & Hr' & Ho).
  destruct (db_rows db !! j) as [r|] eqn:Hj.
  - destruct (apply_op_row pol db op j r Hok Hj) as (r0 & Hr0 & Hc). rewrite Hr0 in Hr'. simplify_eq.
    exists r. split; [done|].
    destruct Hc as [r|r f now lnow skip o ttl -> _ _|r f now id o ttl -> _ _|r now o _ _|r f now id o ttl d -> _
                 |r|r f now lease u set _ _ _ ->|r|r f now rec o ttl u -> _ _]; try exact Ho; try discriminate Ho.
    + cbn in Hf. injection Ho as Ho. by subst.
    + destruct (su_Outcome u); [exact Ho..|]. destruct (failureStatus _ _ _). exact Ho.
    + destruct (failureStatus _ _ _). exact Ho.
  - exfalso. destruct (is_insert op) eqn:Hi; [|by rewrite (apply_op_absent pol db op j) in Hr'].
    destruct op; try done. cbn in Hr'. unfold InsertIfAbsent in Hr'. destruct db as [m n].
    destruct f; cbn in *; [|congruence|]; (destruct (existsb _ _); cbn in *; [congruence|];
      rewrite lookup_insert in Hr'; case_decide; [simplify_eq; done|congruence]).
Qed.

Lemma run_ops_locked pol ops : forall db, table_ok db -> Forall foreign ops -> locked_by (run_ops pol db ops) ⊆ locked_by db.
Proof.
  induction ops as [|op ops IH]; intros db Hok Hf; [done|]. apply list.Forall_cons_1 in Hf as [Hf Hfs]. cbn.
  etrans; [apply IH; [by apply apply_op_ok|done]|by apply apply_op_locked].
Qed.

Definition pool_held (w : PoolWorld) : gset Z := locked_by (pw_db w).

Lemma now_db_ok w : pool_ok w -> table_ok (now_db w) /\ locked_by (now_db w) ⊆ pool_held w.
Proof. intros [Hok Hf]. split; [by apply run_ops_ok|]. by apply run_ops_locked. Qed.

(** A repository call is one of the store's operations. *)
Lemma repo_step {A} (op : PoolWorld -> ProxyDB * result A) sop w :
  pool_ok w -> (op w).1 = apply_op (pw_policy w) (now_db w) sop ->
  let '(w', r) := repo op w in
  pool_ok w' /\ pw_stuck w ⊆ pw_stuck w' /\ (is_ok r = false -> pool_held w' ⊆ pw_stuck w')
  /\ pw_db w' = (op w).1 /\ r = (op w).2
  /\ (foreign sop -> pool_held w' ⊆ pool_held w).
Proof.
  intros Hok Hop. destruct (now_db_ok w Hok) as [Hnow Hheld]. unfold repo, after, pool_held.
  destruct (op w) as [db r]. cbn in Hop. subst db. destruct Hok as [_ Hf]. destruct w; cbn in *. split_and!.
  - split; cbn; [by apply apply_op_ok|done].
  - destruct (is_ok r); cbn; set_solver.
  - intros ->. cbn. set_solver.
  - done.
  - done.
  - intros Hfo. etrans; [by apply apply_op_locked|done].
Qed.

Lemma outside_step {A} (f : PoolWorld -> A) w :
  pool_ok w -> let w' := (outside f w).1 in
  pool_ok w' /\ pw_stuck w ⊆ pw_stuck w' /\ pool_held w' ⊆ pool_held w.
Proof.
  intros Hok. destruct (now_db_ok w Hok) as [Hnow Hheld]. destruct Hok as [_ Hf]. destruct w; cbn in *.
  split; [by split|]. done.
Qed.

(** The statements that release a lock release it. *)
Lemma unlock_where db id set :
  (forall r, pr_LockedBy (set r) = None) ->
  id ∉ locked_by (update_where db id (fun r => sql_eq (pr_LockedBy r) owner) set).1.
Proof.
  intros Hset. rewrite elem_of_locked. intros (r & Hr & Ho). unfold update_where in Hr.
  destruct (db_rows db !! id) as [r0|] eqn:Hid; [|cbn in Hr; congruence]. case_match eqn:Hc; cbn in Hr; destruct db; cbn in *.
  - rewrite lookup_insert_eq in Hr. simplify_eq. by rewrite Hset in Ho.
  - simplify_eq. apply not_true_iff_false in Hc. by apply Hc, sql_eq_true.
Qed.

Lemma ClaimProxy_none pol db f now lnow skip ttl db' :
  table_ok db -> ClaimProxy pol db f now lnow skip owner ttl = (db', Ok None) -> db' = db.
Proof.
  intros Hok Hc. apply with_fault_Ok in Hc as [_ Hc]. destruct (merge_sort _ _); [by simplify_eq|].
  by destruct (update_where _ _ _ _) as [? []]; simplify_eq.
Qed.

Lemma unlocked_held (A B : gset Z) id : A ⊆ B -> id ∉ A -> A ⊆ B ∖ {[ id ]}.
Proof. set_solver. Qed.

#[export] Program Instance PoolWorld_laws : PoolLaws PoolWorld owner := {|
  pl_ok := pool_ok; pl_held := pool_held; pl_stuck := pw_stuck |}.
Next Obligation.
  intros ttl w Hok. cbn [ce_ClaimProxy PoolWorld_env].
  pose proof (repo_step (fun w => let n := pw_calls w in ClaimProxy (pw_policy w) (now_db w) (pw_fault w n)
    (pw_time w n) (pw_time w n) (pw_skip w n) owner ttl) (OpClaimProxy (pw_fault w (pw_calls w)) (pw_time w (pw_calls w))
    (pw_time w (pw_calls w)) (pw_skip w (pw_calls w)) owner ttl) w Hok eq_refl) as Hst.
  destruct (repo _ w) as [w' r]. destruct Hst as (Hok' & Hs & Herr & Hdb & Hr & _). split; [done|]. split; [done|].
  destruct (now_db_ok w Hok) as [Hnow Hheld]. cbv zeta beta in Hdb, Hr.
  destruct (ClaimProxy (pw_policy w) _ _ _ _ _ _ _) as [db' r'] eqn:Hc. cbn in Hdb, Hr. subst r'.
  destruct r as [[p|]|e]; [| |by apply Herr]; unfold pool_held at 1; rewrite Hdb.
  - apply ClaimProxy_pick in Hc as (q & Hq & _ & _ & -> & ->); [|done]. intros j. rewrite elem_of_locked.
    intros (r & Hr & Ho). destruct (now_db w) as [m n] eqn:Hn. cbn in Hr.
    apply lookup_insert_Some in Hr as [[<- _]|[_ Hr]]; [set_solver|]. apply elem_of_union_l, Hheld, elem_of_locked. by exists r.
  - by rewrite (ClaimProxy_none _ _ _ _ _ _ _ _ Hnow Hc).
Qed.
Next Obligation.
  intros id ttl w Hok. cbn [ce_RefreshConsumerLock PoolWorld_env].
  pose proof (repo_step (fun w => let n := pw_calls w in RefreshConsumerLock (pw_policy w) (now_db w) (pw_fault w n)
    (pw_time w n) id owner ttl) (OpRefresh (pw_fault w (pw_calls w)) (pw_time w (pw_calls w)) id owner ttl) w Hok eq_refl) as Hst.
  destruct (repo _ w) as [w' r]. destruct Hst as (Hok' & Hs & Herr & _ & Hr & Hf). split; [done|]. split; [done|]. split.
  - intros p ->. destruct (now_db_ok w Hok) as [Hnow _]. symmetry in Hr. cbv zeta beta in Hr.
    destruct (RefreshConsumerLock _ _ _ _ _ _ _) as [db' r'] eqn:Hc. cbn in Hr. subst r'.
    apply with_fault_Ok in Hc as [_ Hc]. unfold update_where in Hc. destruct (db_rows (now_db w) !! id) as [q|] eqn:Hq; [|done].
    apply Hnow in Hq as [[Hid _] _]. match type of Hc with context [if ?c then _ else _] => destruct c end; [|done]. simplify_eq. by destruct q.
  - destruct r; [by apply Hf|by apply Herr].
Qed.
Next Obligation.
  intros rec ttl u w Hok. cbn [ce_RecordConsumerFailure PoolWorld_env].
  pose proof (repo_step (fun w => let n := pw_calls w in RecordConsumerFailure (now_db w) (pw_fault w n)
    (pw_time w n) rec owner ttl u) (OpFailure (pw_fault w (pw_calls w)) (pw_time w (pw_calls w)) rec owner ttl u) w Hok eq_refl) as Hst.
  destruct (repo _ w) as [w' r]. destruct Hst as (Hok' & Hs & Herr & _ & Hr & Hf). split; [done|]. split; [done|].
  destruct r; [by apply Hf|by apply Herr].
Qed.
Next Obligation.
  intros id ttl delay w Hok. cbn [ce_CooldownDestination PoolWorld_env].
  pose proof (repo_step (fun w => let n := pw_calls w in CooldownDestination (now_db w) (pw_fault w n)
    (pw_time w n) id owner ttl delay) (OpCooldown (pw_fault w (pw_calls w)) (pw_time w (pw_calls w)) id owner ttl delay) w Hok eq_refl) as Hst.
  destruct (repo _ w) as [w' r]. destruct Hst as (Hok' & Hs & Herr & Hdb & Hr & Hf). split; [done|]. split; [done|].
  destruct r; [|by apply Herr]. apply unlocked_held; [by apply Hf|]. unfold pool_held. rewrite Hdb.
  symmetry in Hr. cbv zeta beta in Hr |- *. destruct (CooldownDestination _ _ _ _ _ _ _) as [db' r'] eqn:Hc. cbn in Hr |- *. subst r'.
  apply with_fault_Ok in Hc as [_ Hc].
  match type of Hc with context [update_where ?d ?i ?c ?s] => pose proof (unlock_where d i s (fun r => eq_refl)) as Hu;
    destruct (update_where d i c s) end. by simplify_eq.
Qed.
Next Obligation.
  intros id w Hok. cbn [ce_ReleaseProxy PoolWorld_env].
  pose proof (repo_step (fun w => let n := pw_calls w in ReleaseProxy (now_db w) (pw_fault w n)
    (pw_time w n) id owner) (OpReleaseProxy (pw_fault w (pw_calls w)) (pw_time w (pw_calls w)) id owner) w Hok eq_refl) as Hst.
  destruct (repo _ w) as [w' r]. destruct Hst as (Hok' & Hs & Herr & Hdb & Hr & Hf). split; [done|]. split; [done|].
  destruct r; [|by apply Herr]. apply unlocked_held; [by apply Hf|]. unfold pool_held. rewrite Hdb.
  symmetry in Hr. cbv zeta beta in Hr |- *. destruct (ReleaseProxy _ _ _ _ _) as [db' r'] eqn:Hc. cbn in Hr |- *. subst r'.
  apply with_fault_Ok in Hc as [_ Hc].
  match type of Hc with context [update_where ?d ?i ?c ?s] => pose proof (unlock_where d i s (fun r => eq_refl)) as Hu;
    destruct (update_where d i c s) end. by simplify_eq.
Qed.
Next Obligation. intros p w Hok. by apply outside_step. Qed.
Next Obligation. intros p w Hok. by apply outside_step. Qed.
Next Obligation. intros p w Hok. by apply outside_step. Qed.
Next Obligation. intros p job w Hok. by apply outside_step. Qed.
Next Obligation. intros p w Hok. by apply outside_step. Qed.
Next Obligation. intros p w Hok. by apply outside_step. Qed.
Next Obligation. intros w Hok. by apply outside_step. Qed.

(** A rejected claim hands out nothing. *)
Definition hands_out_none (m : ST PoolWorld (result (option ProxyRecord))) : Prop := forall w p, (m w).2 <> Ok (Some p).
Lemma hands_out_none_bind {A} (m : ST PoolWorld A) k : (forall a, hands_out_none (k a)) -> hands_out_none (m ≫= k).
Proof. intros Hk w p. rewrite ST_bind_eq. apply Hk. Qed.
Lemma rejected_hands_out_none h rec err :
  hands_out_none (match errors_As_check err with
    | None => _ ← releaseClaim owner rec; mret (Ok None)
    | Some checkErr =>
        match ce_Kind checkErr with
        | CheckProxy =>
            marked ← MarkFailed h owner rec;
            match marked with Err e => mret (Err e) | Ok _ => _ ← releaseClaim owner rec; mret (Ok None) end
        | CheckTarget =>
            let delay := Z.max (ce_RetryAfter checkErr) (ph_destCooldown h) in
            cooled ← Proxy_CooldownDestination h owner rec delay;
            match cooled with Err e => mret (Err e) | Ok _ => mret (Ok None) end
        | _ => _ ← releaseClaim owner rec; mret (Ok None)
        end
    end).
Proof.
  cbv zeta. repeat (case_match || (apply hands_out_none_bind; intros ?)); try (intros ? ?; done).
Qed.

(** A proxy the hub hands out is usable.  It is the row as stored
    at that moment, it carries the owner's fresh lock, it was verified within
    the freshness TTL and is past its destination cooldown at the time of the
    final revalidation, and the destination check made under the claim
    succeeded, whatever other processes did to the row in between. *)
Theorem NewProxy_usable (h : ProxyHub) (w w' : PoolWorld) p
    (Hok : pool_ok w) (Hchecker : ph_checker h = true) (Hrun : NewProxy h owner w = (w', Ok (Some p))) :
  let now := pw_time w (pw_calls w + 2)%nat in
  db_rows (pw_db w') !! pr_ID p = Some p
  /\ pr_LockedBy p = Some owner /\ pr_LockedAt p = Some now
  /\ freshPredicate (sp_FreshnessTTL (pw_policy w)) now p = true
  /\ null_or_le (pr_DestinationCooldownUntil p) now = true
  /\ pw_check w (pw_calls w + 1)%nat = None.
Proof.
  unfold NewProxy in Hrun. rewrite ST_bind_eq in Hrun. pose proof (law_claim (ph_lockTTL h) w Hok) as Hl.
  destruct (ce_ClaimProxy owner (ph_lockTTL h) w) as [w1 r1] eqn:Hc1. destruct Hl as (Hok1 & _).
  assert (Hw1 : exists db st, w1 = w{{ pw_db := db; pw_calls := S (pw_calls w); pw_stuck := st }}).
  { cbn in Hc1. unfold repo, after in Hc1. destruct (ClaimProxy _ _ _ _ _ _ _ _). simplify_eq. eauto. }
  destruct Hw1 as (db1 & st1 & ->). clear Hc1. cbn [fst snd] in Hrun. destruct r1 as [[rec|]|e]; [|done..].
  rewrite Hchecker in Hrun. cbn [negb] in Hrun. rewrite ST_bind_eq in Hrun.
  set (w1 := w{{ pw_db := db1; pw_calls := S (pw_calls w); pw_stuck := st1 }}) in *.
  assert (Hok2 : pool_ok (after w1 (now_db w1) false)) by (by apply (outside_step (fun w => pw_check w (pw_calls w)))).
  change (ce_Check rec w1) with (after w1 (now_db w1) false, pw_check w (S (pw_calls w))) in Hrun. cbn [fst snd] in Hrun.
  set (w2 := after w1 (now_db w1) false) in *.
  destruct (pw_check w (S (pw_calls w))) as [err|] eqn:Hchk.
  { exfalso. apply (f_equal snd) in Hrun. revert Hrun. apply rejected_hands_out_none. }
  rewrite ST_bind_eq in Hrun.
  change (ce_RefreshConsumerLock (pr_ID rec) owner (ph_lockTTL h) w2) with
    (repo (fun w => RefreshConsumerLock (pw_policy w) (now_db w) (pw_fault w (pw_calls w)) (pw_time w (pw_calls w)) (pr_ID rec) owner (ph_lockTTL h)) w2) in Hrun.
  unfold repo in Hrun. destruct (RefreshConsumerLock _ _ _ _ _ _ _) as [db3 r3] eqn:Hre. cbn [fst snd] in Hrun.
  destruct r3 as [[cur|]|e]; [|by rewrite ST_bind_eq in Hrun|done].
  injection Hrun as <- <-. apply with_fault_Ok in Hre as [_ Hre]. destruct (now_db_ok w2 Hok2) as [Hnow _].
  rewrite (Nat.add_comm _ 2), (Nat.add_comm _ 1). unfold update_where in Hre.
  destruct (db_rows (now_db w2) !! pr_ID rec) as [q|] eqn:Hq; [|done]. apply Hnow in Hq as [[Hid _] _].
  match type of Hre with context [if ?c then _ else _] => destruct c eqn:Hcond end; [|done].
  injection Hre as <- <-. bsplit. match goal with H : sql_eq _ _ = true |- _ => apply sql_eq_true in H end.
  split_and!; [|done..]. destruct q; cbn in Hid |- *. subst. by rewrite lookup_insert_eq.
Qed.

(** ** Who writes evidence *)

(** Which store operations may write evidence. *)
Definition writes_evidence (op : store_op) : bool :=
  match op with OpComplete _ _ _ _ | OpFailure _ _ _ _ _ _ => true | _ => false end.

(** Other processes complete no scan and report no failure, and neither the
    destination checks nor the handlers of this worker ever report a
    conclusive proxy failure. *)
Definition innocent (w : PoolWorld) : Prop :=
  table_ok (pw_db w) /\ (forall n, Forall (fun op => writes_evidence op = false) (pw_others w n))
  /\ (forall n err, pw_check w n = Some err -> isGeneralProxyFailure err = false)
  /\ (forall n err, pw_handle w n = Returned (Err err) -> isGeneralProxyFailure err = false).

Definition evidence_le (db db' : ProxyDB) : Prop :=
  forall j r, db_rows db !! j = Some r -> exists r', db_rows db' !! j = Some r' /\ evidence r' = evidence r.
#[export] Instance evidence_le_preorder : PreOrder evidence_le.
Proof.
  split; [intros db j r Hr; by exists r|]. intros a b c H1 H2 j r Hr.
  destruct (H1 j r Hr) as (r1 & Hr1 & <-). destruct (H2 j r1 Hr1) as (r2 & Hr2 & <-). by exists r2.
Qed.

(** [spares post m]: in an innocent world [m] leaves the evidence alone. *)
Definition spares {A} (m : ST PoolWorld A) (post : A -> Prop) : Prop :=
  forall w, innocent w -> innocent (m w).1 /\ evidence_le (pw_db w) (pw_db (m w).1) /\ post (m w).2.

Lemma spares_ret {A} (a : A) (post : A -> Prop) : post a -> spares (mret a) post.
Proof. intros Ha w Hw. split; [done|]. by split. Qed.
Lemma spares_bind {A B} (m : ST PoolWorld A) (k : A -> ST PoolWorld B) post post' :
  spares m post -> (forall a, post a -> spares (k a) post') -> spares (m ≫= k) post'.
Proof.
  intros Hm Hk w Hw. rewrite ST_bind_eq. destruct (Hm w Hw) as (Hw1 & He1 & Hp). destruct (Hk _ Hp _ Hw1) as (Hw2 & He2 & Hp2).
  split; [done|]. split; [by etrans|done].
Qed.
Lemma spares_post {A} (m : ST PoolWorld A) (post post' : A -> Prop) : (forall a, post a -> post' a) -> spares m post -> spares m post'.
Proof. intros Hp Hm w Hw. destruct (Hm w Hw) as (? & ? & ?). auto. Qed.

Lemma apply_op_evidence pol db op : table_ok db -> writes_evidence op = false -> evidence_le db (apply_op pol db op).
Proof.
  intros Hok Hw j r Hr. destruct (apply_op_row pol db op j r Hok Hr) as (r' & Hr' & Hc). exists r'. split; [done|].
  destruct Hc as [r|r|r|r now o [(f & id & ->)|(f & rec & ttl & u & ->)] _|r|r|r f now lease u set -> _ _ _|r|r f now rec o ttl u -> _ _]; done.
Qed.

Lemma now_db_evidence w : innocent w -> table_ok (now_db w) /\ evidence_le (pw_db w) (now_db w).
Proof.
  intros (Hok & Hq & _). unfold now_db. specialize (Hq (pw_calls w)). revert Hok. generalize (pw_db w).
  induction (pw_others w (pw_calls w)) as [|op ops IH]; intros db Hok; [by split|].
  apply list.Forall_cons_1 in Hq as [H1 H2]. destruct (IH H2 (apply_op (pw_policy w) db op)) as [Hok' He]; [by apply apply_op_ok|].
  split; [done|]. etrans; [by apply apply_op_evidence|exact He].
Qed.

Lemma innocent_after w db failed : table_ok db -> innocent w -> innocent (after w db failed).
Proof. intros Hdb (_ & Hq & Hc & Hh). by destruct w. Qed.
Lemma after_db w db failed : pw_db (after w db failed) = db.
Proof. by destruct w. Qed.

Lemma spares_repo {A} (op : PoolWorld -> ProxyDB * result A) (sop : PoolWorld -> store_op) :
  (forall w, (op w).1 = apply_op (pw_policy w) (now_db w) (sop w)) -> (forall w, writes_evidence (sop w) = false) ->
  spares (repo op) (fun _ => True).
Proof.
  intros Hop Hs w Hw. destruct (now_db_evidence w Hw) as [Hok He].
  unfold repo. specialize (Hop w). destruct (op w) as [db r]. cbn in Hop. subst db. cbn [fst snd]. rewrite after_db.
  split; [apply innocent_after; [by apply apply_op_ok|done]|]. split; [|done].
  etrans; [exact He|by apply apply_op_evidence].
Qed.

Lemma spares_outside {A} (f : PoolWorld -> A) (post : A -> Prop) :
  (forall w, innocent w -> post (f w)) -> spares (outside f) post.
Proof.
  intros Hf w Hw. destruct (now_db_evidence w Hw) as [Hok He]. cbn [outside fst snd]. rewrite after_db.
  split; [by apply innocent_after|]. split; [done|by apply Hf].
Qed.

Lemma spares_claim ttl : spares (ce_ClaimProxy owner ttl) (fun _ => True).
Proof.
  apply (spares_repo _ (fun w => OpClaimProxy (pw_fault w (pw_calls w)) (pw_time w (pw_calls w))
    (pw_time w (pw_calls w)) (pw_skip w (pw_calls w)) owner ttl)); done.
Qed.
Lemma spares_refresh id ttl : spares (ce_RefreshConsumerLock id owner ttl) (fun _ => True).
Proof. apply (spares_repo _ (fun w => OpRefresh (pw_fault w (pw_calls w)) (pw_time w (pw_calls w)) id owner ttl)); done. Qed.
Lemma spares_cooldown h p delay : spares (Proxy_CooldownDestination h owner p delay) (fun _ => True).
Proof.
  apply (spares_repo _ (fun w => OpCooldown (pw_fault w (pw_calls w)) (pw_time w (pw_calls w)) (pr_ID p) owner (ph_lockTTL h) delay)); done.
Qed.
Lemma spares_release p : spares (Release owner p) (fun _ => True).
Proof.
  eapply spares_bind; [apply (spares_repo _ (fun w => OpReleaseProxy (pw_fault w (pw_calls w)) (pw_time w (pw_calls w)) (pr_ID p) owner)); done|].
  intros [u|e] _; by apply spares_ret.
Qed.
Lemma spares_releaseClaim p : spares (releaseClaim owner p) (fun _ => True).
Proof. eapply spares_bind; [apply spares_release|]. intros ? _. by apply spares_ret. Qed.

(** A check or handler error that is not a conclusive proxy failure. *)
Definition blameless (e : option gerror) : Prop := forall err, e = Some err -> isGeneralProxyFailure err = false.
Definition err_of {A} (r : result A) : option gerror := match r with Ok _ => None | Err e => Some e end.

Lemma spares_check p : spares (ce_Check p) blameless.
Proof. apply spares_outside. intros w (_ & _ & Hc & _) err. apply Hc. Qed.
Lemma spares_runHandler a job : spares (runHandler a job) (fun r => blameless (err_of r)).
Proof.
  eapply spares_bind; [apply (spares_outside _ (fun ans => forall err, ans = Returned (Err err) -> isGeneralProxyFailure err = false))|].
  - intros w (_ & _ & _ & Hh). apply Hh.
  - intros [r|] Hr; apply spares_ret; intros err Herr; [|cbn in Herr; by simplify_eq].
    apply Hr. destruct r; cbn in Herr; [done|]. by simplify_eq.
Qed.

Ltac spare :=
  repeat first
  [ apply spares_ret; done
  | apply spares_refresh
  | eapply spares_bind; [first [apply spares_claim | apply spares_refresh | apply spares_cooldown | apply spares_release
                              | apply spares_releaseClaim | (apply (spares_outside _ (fun _ => True)); intros ? _; exact I)]|intros ? _]
  | match goal with |- spares (match ?x with _ => _ end) _ => destruct x eqn:? end ].

Lemma spares_NewProxy h : spares (NewProxy h owner) (fun _ => True).
Proof.
  unfold NewProxy. eapply spares_bind; [apply spares_claim|]. intros [[rec|]|e] _; [|spare..].
  destruct (negb (ph_checker h)); [spare|]. eapply spares_bind; [apply spares_check|]. intros [err|] Hb; [|spare].
  specialize (Hb err eq_refl). unfold isGeneralProxyFailure in Hb.
  destruct (errors_As_check err) as [ce|]; [|spare]. apply bool_decide_eq_false in Hb.
  destruct (ce_Kind ce); cbv zeta; try done; spare.
Qed.

Lemma spares_waitForProxy h fuel : forall backoff, spares (waitForProxy h owner fuel backoff) (fun _ => True).
Proof.
  induction fuel as [|fuel IH]; intros backoff; cbn [waitForProxy]; [spare|].
  eapply spares_bind; [apply spares_NewProxy|]. intros [[p|]|e] _; [spare|..];
    (eapply spares_bind; [apply (spares_outside _ (fun _ => True)); done|]; intros [| |e'] _; [apply IH..|spare]).
Qed.

Lemma spares_replaceProxy h fuel p : spares (replaceProxy h owner fuel p) (fun _ => True).
Proof.
  unfold replaceProxy. spare. eapply spares_bind; [apply spares_waitForProxy|]. intros [[q|e]|] _; spare.
Qed.

Lemma spares_publishNext next : spares (publishNext next) (fun _ => True).
Proof.
  induction next as [|job next IH]; cbn [publishNext]; [spare|].
  eapply spares_bind; [apply (spares_outside _ (fun _ => True)); done|]. intros [u|e] _; [apply IH|spare].
Qed.

Lemma spares_attempt p job :
  spares (attempt p job) (fun a => match a with inr r => blameless (err_of r) | inl _ => True end).
Proof.
  unfold attempt. eapply spares_bind; [apply (spares_outside _ (fun _ => True)); done|]. intros [u|e] _; [|spare].
  case_match; [spare|]. eapply spares_bind; [apply spares_runHandler|]. intros r Hr. by apply spares_ret.
Qed.

Lemma spares_retryJob h p job : spares (retryJob h owner p job) (fun _ => True).
Proof.
  unfold retryJob. eapply spares_bind; [apply spares_attempt|]. intros [e|[next|e]] Hb; [spare| |].
  - eapply spares_bind; [apply spares_publishNext|]. intros ? _. spare.
  - rewrite (Hb e eq_refl). apply (spares_bind _ _ (fun _ => True)); [spare|]. intros [u|e'] _; spare.
Qed.

Lemma spares_processJob h fuel p job : spares (processJob h owner fuel p job) (fun _ => True).
Proof.
  unfold processJob. eapply spares_bind.
  { instantiate (1 := fun _ => True). unfold CanUse. eapply spares_bind; [apply spares_refresh|]. intros [[q|]|e] _; spare. }
  clear p. intros [p [canUse|e]] _; [|spare].
  apply (spares_bind _ _ (fun _ => True)); [destruct canUse; [spare|apply spares_replaceProxy]|].
  clear p. intros [[p [u|e]]|] _; [|spare..].
  eapply spares_bind; [apply spares_attempt|]. intros [e|[next|e]] Hb; [spare| |].
  { eapply spares_bind; [apply spares_publishNext|]. intros ? _. spare. }
  rewrite (Hb e eq_refl). spare.
Qed.

End Store.

(** ** A pool of two proxies *)

Definition pool_world (check : nat -> option gerror) (handle : nat -> handler_answer) : PoolWorld := {|
  pw_policy := demo_policy; pw_db := run_ops demo_policy empty_db demo_ops2; pw_calls := 0; pw_stuck := ∅;
  pw_others := fun n => [OpReleaseProxy NoFault (Z.of_nat n * second) 1 "somebody else"];
  pw_time := fun n => (4 + Z.of_nat n) * second; pw_fault := fun _ => NoFault; pw_skip := fun _ => ∅;
  pw_answer := fun _ => Ok tt; pw_check := check; pw_handle := handle; pw_wake := fun _ => WakeTimer |}.
Definition pool_hub : ProxyHub := mkProxyHub minute true minute demo_policy.
Definition no_settle (job : QueueJob) (r : result unit) : ST PoolWorld unit := mret tt.
Definition pool_job : QueueJob := mkQueueJob EventCharacterCensus JNull.

Lemma pool_world_ok check handle : pool_ok "w1" (pool_world check handle).
Proof. split; [apply run_ops_ok, empty_db_ok|]. intros n. repeat constructor. Qed.

(** The handler reports the first proxy dead, so it is replaced; at the end
    neither is locked. *)
Lemma worker_holds_one_proxy_witness :
  let w' := (proxyWorkerLoop (E := PoolWorld_env "w1") pool_hub "w1" no_settle 3 [pool_job]
               (pool_world (fun _ => None) (fun _ => Returned (Err (ErrCheck CheckProxy "refused" false 0 None))))).1 in
  locked_by "w1" (pw_db w') ⊆ pw_stuck w' /\ pw_stuck w' = ∅.
Proof.
  cbv zeta. split; [|vm_compute; reflexivity].
  pose proof (pool_world_ok (fun _ => None) (fun _ => Returned (Err (ErrCheck CheckProxy "refused" false 0 None)))) as Hok.
  assert (Hfree : locked_by "w1" (pw_db (pool_world (fun _ => None)
      (fun _ => Returned (Err (ErrCheck CheckProxy "refused" false 0 None))))) ⊆ ∅)
    by (apply (bool_decide_unpack _); vm_compute; exact I).
  assert (Hsettle : forall job r (w0 : PoolWorld), pool_ok "w1" w0 ->
    let w' := (no_settle job r w0).1 in
    pool_ok "w1" w' /\ pw_stuck w0 ⊆ pw_stuck w' /\ locked_by "w1" (pw_db w') ⊆ locked_by "w1" (pw_db w0))
    by (intros job r w0 H0; cbn; split; [exact H0|split; reflexivity]).
  pose proof (proj2 (worker_holds_one_proxy (W := PoolWorld) (E := PoolWorld_env "w1") "w1" pool_hub no_settle
    Hsettle 3 _ Hok) [pool_job] Hfree) as H. cbv zeta in H. exact H.
Defined.

Lemma NewProxy_usable_witness :
  exists w' p, NewProxy (E := PoolWorld_env "w1") pool_hub "w1" (pool_world (fun _ => None) (fun _ => HandlerPanicked)) = (w', Ok (Some p))
    /\ pr_LockedBy p = Some "w1".
Proof.
  destruct (NewProxy (E := PoolWorld_env "w1") pool_hub "w1" (pool_world (fun _ => None) (fun _ => HandlerPanicked))) as [w' r] eqn:Hrun.
  assert (Hr : exists p, r = Ok (Some p)).
  { apply (f_equal snd) in Hrun. vm_compute in Hrun. subst r. eexists. reflexivity. }
  destruct Hr as [p ->]. exists w', p. split; [reflexivity|].
  exact (proj1 (proj2 (NewProxy_usable "w1" pool_hub _ w' p (pool_world_ok _ _) eq_refl Hrun))).
Defined.

