(* ===== verification/Queue.v ===== *)
(** * The work queue ([infrastructure/rabbitmq/queue.go])

    The RabbitMQ adapter: naming, headers, the retry ladder, the confirmed
    publish, and what the consumers do with each delivery.  The broker and its
    client library are outside the repository: they are the [Broker] interface,
    whose laws are RabbitMQ's documented publisher-confirm guarantees. *)
From S2P Require Import Prelude GoErrors GoStrings Payloads.

(** ** Names *)
Definition exchangeMain : string := "census".
Definition queuePrefix : string := "census.".
Definition headerAttempts : string := "x-attempts".
Definition headerNotBefore : string := "x-not-before-ms".
Definition backoffBaseSec : Z := 5.
Definition maxBackoffSec : Z := 3600.

Definition eventTypes : list string := ["id-sweep"; "character-census"; "achievement-census"; "new-proxy"].
Definition knownEventType (et : string) : bool := existsb (fun known => bool_decide (et = known)) eventTypes.
Definition canonicalEventType (et : string) : string := TrimSuffix et ".failed".
Definition failedQueueEventType (failedQueue : string) : string :=
  canonicalEventType (TrimPrefix failedQueue queuePrefix).
Definition failedQueueFor (eventType : string) : string := queuePrefix +:+ eventType +:+ ".failed".
Definition deadQueueFor (eventType : string) : string := queuePrefix +:+ eventType +:+ ".dead".
Definition mainQueueFor (eventType : string) : string := queuePrefix +:+ eventType.

(** ** Headers *)

(** The values of an [amqp.Table] the code distinguishes by type assertion. *)
Inductive hval := HInt32 (n : Z) | HInt64 (n : Z) | HOther (s : string).
Abbreviation table := (gmap string hval).

(** A nil table reads as an empty one. *)
Definition getAttempts (headers : option table) : Z :=
  match headers with
  | None => 0
  | Some h => match h !! headerAttempts with Some (HInt32 n) => n | _ => 0 end
  end.

(** [time.UnixMilli(ms)] against [now], both in nanoseconds. *)
Definition remainingBackoff (headers : option table) (now : Z) : Z :=
  match headers with
  | None => 0
  | Some h =>
      match h !! headerNotBefore with
      | Some (HInt64 ms) =>
          let notBefore := ms * millisecond in
          if negb (now <? notBefore) then 0 else time_sub notBefore now
      | _ => 0
      end
  end.

Definition copyHeaders (headers : option table) (attempts : Z) : table :=
  <[headerAttempts := HInt32 (i32 attempts)]> (default ∅ headers).

(** ** The retry ladder *)

Definition retryBackoffSec (attempts : Z) : Z :=
  let shift := i64 (attempts - 1) in
  let shift := if shift <? 0 then 0 else shift in
  if 10 <? shift then maxBackoffSec
  else
    let backoff := backoffBaseSec * Z.shiftl 1 shift in
    if maxBackoffSec <? backoff then maxBackoffSec else backoff.

Record failureOutcome := mkFailureOutcome { fo_dead : bool; fo_backoffSec : Z }.

Definition failureDecision (handlerErr : gerror) (attempts : Z) : failureOutcome :=
  if errors_Is handlerErr ErrPoisonPayload || errors_Is handlerErr ErrNoHandler
  then mkFailureOutcome true 0
  else mkFailureOutcome false (retryBackoffSec attempts).

(** ** The broker *)

Record Publishing := mkPublishing {
  pb_ContentType : string;
  pb_Persistent : bool;
  pb_Body : json;
  pb_Headers : table;
  pb_Expiration : option Z; (* milliseconds *)
}.

(** What [PublishWithDeferredConfirmWithContext] and [WaitContext] answer. *)
Inductive publish_answer :=
  | PublishError (e : gerror)
  | NoConfirmation
  | WaitError (e : gerror)
  | Confirmed (acked : bool).

Class Broker (B : Type) := {
  br_IsClosed : B -> bool;
  br_reconnect : ST B (result unit);           (* openSession *)
  br_drain_return : ST B bool;                 (* the non-blocking read of q.returns *)
  br_publish : string -> string -> bool -> Publishing -> ST B publish_answer;
  br_declare : string -> ST B (result unit);   (* QueueDeclare of a durable queue *)
  br_now : ST B Z;
  br_accepted : B -> list (string * Publishing); (* durable queue, message: everything accepted so far *)
  br_routes : B -> string -> string -> list string; (* the durable queues an exchange and key route to *)
}.

(** RabbitMQ's documented guarantees.  Nothing accepted is forgotten; a
    positively confirmed message has been accepted by every queue it routes
    to; an unroutable mandatory message is returned before it is confirmed;
    the default exchange routes a key only to the queue of that name. *)
Class BrokerLaws (B : Type) `{Broker B} := {
  accepted_reconnect b : br_accepted b ⊆ br_accepted (br_reconnect b).1;
  accepted_drain b : br_accepted (br_drain_return b).1 = br_accepted b;
  accepted_publish b ex key m pub : br_accepted b ⊆ br_accepted (br_publish ex key m pub b).1;
  accepted_declare b q : br_accepted b ⊆ br_accepted (br_declare q b).1;
  accepted_now b : br_accepted (br_now b).1 = br_accepted b;
  confirmed_accepted b ex key m pub b' q :
    br_publish ex key m pub b = (b', Confirmed true) -> q ∈ br_routes b ex key -> (q, pub) ∈ br_accepted b';
  mandatory_returned b ex key pub b' :
    br_publish ex key true pub b = (b', Confirmed true) -> br_routes b ex key = [] ->
    (br_drain_return b').2 = true;
  default_exchange b key q : q ∈ br_routes b "" key -> q = key;
}.

(** What happens to a delivery. *)
Inductive settlement := Ack | NackRequeue.

Record Delivery := mkDelivery {
  dl_ConsumerTag : string;
  dl_Body : json;
  dl_Headers : option table;
}.

Section Adapter.
Context {B : Type} `{Broker B}.

Definition publishConfirmed (exchange key : string) (pub : Publishing) : ST B (result unit) :=
  fun b =>
  let reconnected := if br_IsClosed b then br_reconnect b else (b, Ok tt) in
  match reconnected with
  | (b, Err e) => (b, Err (ErrWrap "publish reconnect" e))
  | (b, Ok _) =>
      let '(b, _) := br_drain_return b in
      match br_publish exchange key true pub b with
      | (b, PublishError e) => (b, Err (ErrWrap "publish" e))
      | (b, NoConfirmation) => (b, Err (ErrorString "publish: deferred confirmation is nil"))
      | (b, WaitError e) => (b, Err (ErrWrap "publish confirm" e))
      | (b, Confirmed false) => (b, Err (ErrorString "publish: broker nacked message"))
      | (b, Confirmed true) =>
          let '(b, returned) := br_drain_return b in
          if (returned : bool) then (b, Err (ErrorString "rabbitmq unroutable")) else (b, Ok tt)
      end
  end.

Definition Publish (job : QueueJob) : ST B (result unit) :=
  publishConfirmed exchangeMain (qj_Type job)
    (mkPublishing "application/json" true (qj_Payload job) {[ headerAttempts := HInt32 0 ]} None).

Definition publishToFailed (queueName : string) (body : json) (headers : option table) (attempts backoffSec : Z)
    : ST B (result unit) :=
  let hdrs := copyHeaders headers attempts in
  if 0 <? backoffSec then
    now ← br_now;
    let hdrs := <[headerNotBefore := HInt64 (Z.div (now + backoffSec * second) millisecond)]> hdrs in
    publishConfirmed "" queueName (mkPublishing "application/json" true body hdrs (Some (backoffSec * 1000)))
  else publishConfirmed "" queueName (mkPublishing "application/json" true body hdrs None).

Definition parkDelivery (deadQueue : string) (body : json) (headers : option table) (attempts : Z) : ST B bool :=
  r ← br_declare deadQueue;
  match r with
  | Err _ => mret false
  | Ok _ => r ← publishToFailed deadQueue body headers attempts 0; mret (is_ok r)
  end.

Definition handleFailure (msg : Delivery) (jobType : string) (handlerErr : gerror) : ST B settlement :=
  let attempts := getAttempts (dl_Headers msg) + 1 in
  let decision := failureDecision handlerErr attempts in
  let target := if fo_dead decision then deadQueueFor jobType else failedQueueFor jobType in
  let backoff := if fo_dead decision then 0 else fo_backoffSec decision in
  r ← publishToFailed target (dl_Body msg) (dl_Headers msg) attempts backoff;
  mret (if is_ok r then Ack else NackRequeue).

(** One delivery of [consumeWorker]; [stopping] is the state of
    [stopClaiming], [handler] the registered handler. *)
Definition consume_delivery (stopping : bool) (handler : QueueJob -> ST B (option gerror)) (msg : Delivery)
    : ST B settlement :=
  if stopping then mret NackRequeue
  else
    let job := mkQueueJob (canonicalEventType (dl_ConsumerTag msg)) (dl_Body msg) in
    r ← handler job;
    match r with
    | Some err => handleFailure msg (qj_Type job) err
    | None => mret Ack
    end.

(** One delivery of [failedWorker], and whether the worker returns after it;
    [interrupted] tells whether shutdown ends the backoff wait.  The worker's
    own channel is in confirm mode, where the client always returns a
    confirmation handle. *)
Definition failed_delivery (maxAttempts : Z) (stopping interrupted : bool) (msg : Delivery) : ST B (settlement * bool) :=
  if stopping then mret (NackRequeue, true)
  else
    let eventType := canonicalEventType (dl_ConsumerTag msg) in
    let attempts := getAttempts (dl_Headers msg) + 1 in
    if negb (knownEventType eventType) then
      parked ← parkDelivery (queuePrefix +:+ eventType +:+ ".dead") (dl_Body msg) (dl_Headers msg) attempts;
      mret (if (parked : bool) then Ack else NackRequeue, false)
    else if maxAttempts <=? attempts then
      parked ← parkDelivery (deadQueueFor eventType) (dl_Body msg) (dl_Headers msg) attempts;
      mret (if (parked : bool) then Ack else NackRequeue, false)
    else
      now ← br_now;
      if (0 <? remainingBackoff (dl_Headers msg) now) && interrupted then mret (NackRequeue, true)
      else
        r ← br_publish exchangeMain eventType false
              (mkPublishing "" true (dl_Body msg) (copyHeaders (dl_Headers msg) attempts) None);
        match r with
        | Confirmed true => mret (Ack, false)
        | _ => mret (NackRequeue, false)
        end.
End Adapter.
