(* ===== verification/QueueFacts.v ===== *)
(** * Properties of the work queue

    The retry ladder, the round trip of queue names, and that no delivery is
    given up before the broker has confirmed a durable copy of it. *)
From S2P Require Import Prelude GoErrors GoStrings Payloads Queue.

(** ** The ladder *)

(** The backoff of the Nth failed attempt is 5 seconds doubled N-1
    times, capped at one hour: for every attempt count a header can carry the
    shift never leaves the machine width, the first step is 5 s and later
    steps never shrink. *)
Theorem retryBackoffSec_ladder (attempts : Z) (Hn : 0 <= attempts <= max_int64) :
  retryBackoffSec attempts = Z.min 3600 (5 * 2 ^ (Z.max 0 (attempts - 1)))
  /\ 5 <= retryBackoffSec attempts <= 3600
  /\ forall later, attempts <= later <= max_int64 -> retryBackoffSec attempts <= retryBackoffSec later.
Proof.
  assert (Heq : forall n, 0 <= n <= max_int64 -> retryBackoffSec n = Z.min 3600 (5 * 2 ^ (Z.max 0 (n - 1)))).
  { intros n Hr. unfold retryBackoffSec, maxBackoffSec, backoffBaseSec.
    rewrite i64_id by (unfold is_i64, min_int64, max_int64 in *; lia). cbv zeta.
    set (s := if n - 1 <? 0 then 0 else n - 1).
    assert (Hs : s = Z.max 0 (n - 1)) by (unfold s; zbool; lia). rewrite <- Hs.
    destruct (Z.ltb_spec 10 s) as [Hbig|Hsmall].
    - pose proof (Z.pow_le_mono_r 2 11 s). change (2 ^ 11) with 2048 in *. lia.
    - rewrite Z.shiftl_mul_pow2, Z.mul_1_l by lia. zbool; lia. }
  rewrite Heq by done. pose proof (Z.pow_pos_nonneg 2 (Z.max 0 (attempts - 1))) as Hp.
  split; [done|]. split; [lia|]. intros later Hl. rewrite Heq by lia.
  pose proof (Z.pow_le_mono_r 2 (Z.max 0 (attempts - 1)) (Z.max 0 (later - 1))). lia.
Qed.

Lemma retryBackoffSec_ladder_witness : retryBackoffSec 4 = 40 /\ retryBackoffSec 4 = Z.min 3600 (5 * 2 ^ (Z.max 0 (4 - 1))).
Proof. split; [reflexivity|]. apply (retryBackoffSec_ladder 4). unfold max_int64. lia. Defined.

(** ** Names *)

(** The failed queue of an event type decodes back to that event
    type, for every event type; and a consumer tag set from it is mapped to
    the same type again, as long as the type does not itself end in
    ".failed". *)
Theorem failed_queue_roundtrip (et : string) :
  failedQueueEventType (failedQueueFor et) = et
  /\ (HasSuffix et ".failed" = false -> canonicalEventType (failedQueueEventType (failedQueueFor et)) = et)
  /\ failedQueueFor et <> mainQueueFor et /\ failedQueueFor et <> deadQueueFor et.
Proof.
  assert (Hrt : failedQueueEventType (failedQueueFor et) = et).
  { unfold failedQueueEventType, failedQueueFor, canonicalEventType. by rewrite TrimPrefix_app, TrimSuffix_app. }
  split; [done|]. rewrite Hrt. split.
  - unfold HasSuffix, canonicalEventType, TrimSuffix. by destruct (strip_suffix _ et).
  - split; unfold failedQueueFor, mainQueueFor, deadQueueFor; intros Heq; apply (f_equal String.length) in Heq;
      rewrite !string_length_app in Heq; cbn in Heq; lia.
Qed.

(** ** Headers *)

Lemma getAttempts_copy h n : getAttempts (Some (copyHeaders h n)) = i32 n.
Proof. unfold getAttempts, copyHeaders. by rewrite lookup_insert_eq. Qed.

(** ** Nothing is given up unconfirmed *)

Section Confirmed.
Context {B : Type} `{L : BrokerLaws B}.

Lemma publishConfirmed_grows ex key pub (b b' : B) r :
  publishConfirmed ex key pub b = (b', r) -> br_accepted b ⊆ br_accepted b'.
Proof.
  intros Hrun. unfold publishConfirmed in Hrun.
  assert (Hrec : forall b1 r1, (if br_IsClosed b then br_reconnect b else (b, Ok tt)) = (b1, r1) -> br_accepted b ⊆ br_accepted b1).
  { intros b1 r1. destruct (br_IsClosed b); [|by intros [= <- <-]].
    pose proof (accepted_reconnect b) as Ha. intros Heq. by rewrite Heq in Ha. }
  destruct (if br_IsClosed b then _ else _) as [b1 [u|e]]; specialize (Hrec _ _ eq_refl); [|by simplify_eq].
  pose proof (accepted_drain b1) as Hd. destruct (br_drain_return b1) as [b2 x]. cbn in Hd.
  pose proof (accepted_publish b2 ex key true pub) as Hp. destruct (br_publish ex key true pub b2) as [b3 ans]. cbn in Hp.
  rewrite Hd in Hp. assert (br_accepted b ⊆ br_accepted b3) by (etrans; eassumption).
  destruct ans as [e| |e|[]]; simplify_eq; try done.
  pose proof (accepted_drain b3) as Hd3. destruct (br_drain_return b3) as [b4 []]; simplify_eq; cbn in Hd3; by rewrite Hd3.
Qed.

(** A confirmed publish to a named queue is durably there. *)
Lemma publishConfirmed_default key pub (b b' : B) :
  publishConfirmed "" key pub b = (b', Ok tt) -> (key, pub) ∈ br_accepted b'.
Proof.
  intros Hrun. unfold publishConfirmed in Hrun.
  destruct (if br_IsClosed b then _ else _) as [b1 [u|e]]; [|done].
  destruct (br_drain_return b1) as [b2 x].
  destruct (br_publish "" key true pub b2) as [b3 ans] eqn:Hp. destruct ans as [e| |e|[]]; try done.
  pose proof (accepted_drain b3) as Hd3. pose proof (mandatory_returned b2 "" key pub b3 Hp) as Hret.
  destruct (br_drain_return b3) as [b4 []]; [done|]. cbn in *. simplify_eq. rewrite Hd3.
  destruct (br_routes b2 "" key) as [|q qs] eqn:Hr; [by specialize (Hret eq_refl)|].
  assert (Hq : q ∈ br_routes b2 "" key) by (rewrite Hr; apply list_elem_of_here).
  pose proof (default_exchange _ _ _ Hq) as ->. by eapply confirmed_accepted.
Qed.

(** The copy a side queue receives. *)
Definition side_copy (msg : Delivery) (attempts backoffSec : Z) (pub : Publishing) : Prop :=
  pb_Body pub = dl_Body msg /\ pb_Persistent pub = true
  /\ getAttempts (Some (pb_Headers pub)) = i32 attempts
  /\ pb_Expiration pub = (if 0 <? backoffSec then Some (backoffSec * 1000) else None).

Lemma publishToFailed_cases q msg attempts backoffSec (b b' : B) r :
  publishToFailed q (dl_Body msg) (dl_Headers msg) attempts backoffSec b = (b', r) ->
  br_accepted b ⊆ br_accepted b'
  /\ (r = Ok tt -> exists pub, (q, pub) ∈ br_accepted b' /\ side_copy msg attempts backoffSec pub).
Proof.
  unfold publishToFailed, side_copy. case_match eqn:Hb.
  - rewrite ST_bind_eq. pose proof (accepted_now b) as Hn. destruct (br_now b) as [b1 now]. cbn [fst snd] in *.
    intros Hrun. split; [rewrite <- Hn; by eapply publishConfirmed_grows|]. intros ->.
    apply publishConfirmed_default in Hrun. eexists. split; [exact Hrun|]. repeat split. cbn.
    unfold copyHeaders. rewrite lookup_insert_ne by done. by rewrite lookup_insert_eq.
  - intros Hrun. split; [by eapply publishConfirmed_grows|]. intros ->.
    apply publishConfirmed_default in Hrun. eexists. split; [exact Hrun|]. repeat split. apply getAttempts_copy.
Qed.

Lemma handleFailure_cases (b b' : B) msg jobType err s
    (Hrun : handleFailure msg jobType err b = (b', s)) :
  br_accepted b ⊆ br_accepted b'
  /\ (s = Ack -> exists pub,
        let n := getAttempts (dl_Headers msg) + 1 in
        if errors_Is err ErrPoisonPayload || errors_Is err ErrNoHandler
        then (deadQueueFor jobType, pub) ∈ br_accepted b' /\ side_copy msg n 0 pub
        else (failedQueueFor jobType, pub) ∈ br_accepted b' /\ side_copy msg n (retryBackoffSec n) pub).
Proof.
  unfold handleFailure in Hrun. rewrite ST_bind_eq in Hrun.
  destruct (publishToFailed _ _ _ _ _ b) as [b1 r] eqn:Hp. cbn [fst snd] in Hrun.
  apply publishToFailed_cases in Hp as [Hg Hok]. unfold failureDecision in *.
  destruct r as [[]|e]; cbn in Hrun; injection Hrun as <- <-; (split; [exact Hg|]); [|discriminate]. intros _.
  destruct (Hok eq_refl) as (pub & Hin & Hc). exists pub. cbv zeta.
  destruct (errors_Is err ErrPoisonPayload || errors_Is err ErrNoHandler); done.
Qed.

(** C5: a delivery whose handler failed is acknowledged only when the
    broker has durably accepted a persistent copy of its body with the attempt
    count incremented: on the event's dead queue for a poison payload or a
    missing handler, on its failed queue with the ladder's expiration
    otherwise.  In every other case it is handed back for redelivery, and
    nothing accepted before is lost. *)
Theorem handleFailure_never_drops (b b' : B) msg jobType err s
    (Hrun : handleFailure msg jobType err b = (b', s)) :
  br_accepted b ⊆ br_accepted b'
  /\ (s = Ack -> exists pub,
        let n := getAttempts (dl_Headers msg) + 1 in
        if errors_Is err ErrPoisonPayload || errors_Is err ErrNoHandler
        then (deadQueueFor jobType, pub) ∈ br_accepted b' /\ side_copy msg n 0 pub
        else (failedQueueFor jobType, pub) ∈ br_accepted b' /\ side_copy msg n (retryBackoffSec n) pub).
Proof. by apply handleFailure_cases. Qed.

Lemma parkDelivery_cases q msg attempts (b b' : B) ok :
  parkDelivery q (dl_Body msg) (dl_Headers msg) attempts b = (b', ok) ->
  br_accepted b ⊆ br_accepted b'
  /\ (ok = true -> exists pub, (q, pub) ∈ br_accepted b' /\ side_copy msg attempts 0 pub).
Proof.
  unfold parkDelivery. rewrite ST_bind_eq. pose proof (accepted_declare b q) as Hd.
  destruct (br_declare q b) as [b1 [u|e]]; cbn [fst snd] in *; [|intros [= <- <-]; split; [done|discriminate]].
  rewrite ST_bind_eq. destruct (publishToFailed _ _ _ _ _ b1) as [b2 r] eqn:Hp. cbn [fst snd].
  intros [= <- <-]. apply publishToFailed_cases in Hp as [Hg Hok]. split; [by etrans|].
  destruct r as [[]|]; [|done]. intros _. by apply Hok.
Qed.

Lemma failed_delivery_cases (b b' : B) maxAttempts stopping interrupted msg s ret
    (Hbound : forall b0 : B, forall et, knownEventType et = true -> mainQueueFor et ∈ br_routes b0 exchangeMain et)
    (Hrun : failed_delivery maxAttempts stopping interrupted msg b = (b', (s, ret))) :
  br_accepted b ⊆ br_accepted b'
  /\ (s = Ack ->
        let et := canonicalEventType (dl_ConsumerTag msg) in
        let n := getAttempts (dl_Headers msg) + 1 in
        exists q pub, (q, pub) ∈ br_accepted b' /\ side_copy msg n 0 pub
          /\ q = if knownEventType et && (n <? maxAttempts) then mainQueueFor et else deadQueueFor et).
Proof.
  unfold failed_delivery in Hrun. destruct stopping; [by injection Hrun as <- <- <-|]. cbv zeta.
  set (et := canonicalEventType _) in *. set (n := getAttempts _ + 1) in *.
  assert (Hpark : forall q, (parked ← parkDelivery q (dl_Body msg) (dl_Headers msg) n;
                   mret (if (parked : bool) then Ack else NackRequeue, false)) b = (b', (s, ret)) ->
            br_accepted b ⊆ br_accepted b' /\ (s = Ack -> exists pub, (q, pub) ∈ br_accepted b' /\ side_copy msg n 0 pub)).
  { intros q. rewrite ST_bind_eq. destruct (parkDelivery q _ _ _ b) as [b1 ok] eqn:Hp. cbn.
    intros [= <- <- <-]. apply parkDelivery_cases in Hp as [Hg Hok]. split; [done|]. destruct ok; [|done]. auto. }
  destruct (knownEventType et) eqn:Hk; cbn [negb andb] in *.
  2:{ apply Hpark in Hrun as [Hg Hok]. split; [done|]. intros Hs. destruct (Hok Hs) as (pub & Hin & Hc). eauto 6. }
  destruct (Z.leb_spec maxAttempts n) as [Hmax|Hmax].
  { apply Hpark in Hrun as [Hg Hok]. split; [done|]. intros Hs. destruct (Hok Hs) as (pub & Hin & Hc).
    rewrite (proj2 (Z.ltb_ge n maxAttempts)) by lia. eauto 6. }
  rewrite (proj2 (Z.ltb_lt n maxAttempts)) by lia.
  rewrite ST_bind_eq in Hrun. pose proof (accepted_now b) as Hn. destruct (br_now b) as [b1 now]. cbn [fst snd] in *.
  destruct (_ && interrupted); [injection Hrun as <- <- <-; by rewrite Hn|].
  rewrite ST_bind_eq in Hrun. destruct (br_publish _ _ _ _ b1) as [b2 ans] eqn:Hp. cbn [fst snd] in Hrun.
  pose proof (accepted_publish b1 exchangeMain et false
    (mkPublishing "" true (dl_Body msg) (copyHeaders (dl_Headers msg) n) None)) as Hg.
  rewrite Hp in Hg. cbn in Hg. rewrite Hn in Hg.
  destruct ans as [| | |[]]; injection Hrun as <- <- <-; (split; [done|]); try done. intros _.
  eexists (mainQueueFor et), _. split; [eapply confirmed_accepted; [exact Hp|by apply Hbound]|].
  split; [|done]. split_and!; [done|done|apply getAttempts_copy|done].
Qed.

(** C6: a delivery on a failed queue is acknowledged only when a persistent
    copy of its body, with the attempt count incremented and no expiration,
    was accepted by a durable queue: on its dead queue when its event type is
    unknown or its attempts are exhausted, and on the main queue of its event
    type otherwise, provided the main exchange still routes that type (the
    republish, unlike every other publish, is not mandatory). *)
Theorem failed_delivery_never_drops (b b' : B) maxAttempts stopping interrupted msg s ret
    (Hbound : forall b0 : B, forall et, knownEventType et = true -> mainQueueFor et ∈ br_routes b0 exchangeMain et)
    (Hrun : failed_delivery maxAttempts stopping interrupted msg b = (b', (s, ret))) :
  br_accepted b ⊆ br_accepted b'
  /\ (s = Ack ->
        let et := canonicalEventType (dl_ConsumerTag msg) in
        let n := getAttempts (dl_Headers msg) + 1 in
        exists q pub, (q, pub) ∈ br_accepted b' /\ side_copy msg n 0 pub
          /\ q = if knownEventType et && (n <? maxAttempts) then mainQueueFor et else deadQueueFor et).
Proof. by eapply failed_delivery_cases. Qed.
End Confirmed.

(** ** A broker with the declared topology *)

Record MemBroker := mkMemBroker {
  mb_queues : list string;
  mb_log : list (string * Publishing);
  mb_returned : bool;
  mb_clock : Z;
}.

Definition mem_routes (b : MemBroker) (ex key : string) : list string :=
  if bool_decide (ex = "") then (if bool_decide (key ∈ mb_queues b) then [key] else [])
  else if bool_decide (ex = exchangeMain) && knownEventType key then [mainQueueFor key] else [].

Global Instance mem_broker : Broker MemBroker := {|
  br_IsClosed _ := false;
  br_reconnect := fun b => (b, Ok tt);
  br_drain_return := fun b => (b{{ mb_returned := false }}, mb_returned b);
  br_publish ex key mandatory pub := fun b =>
    let qs := mem_routes b ex key in
    (b{{ mb_log := mb_log b ++ ((fun q => (q, pub)) <$> qs); mb_returned := mandatory && bool_decide (qs = []) }},
     Confirmed true);
  br_declare q := fun b => (b{{ mb_queues := q :: mb_queues b }}, Ok tt);
  br_now := fun b => (b, mb_clock b);
  br_accepted := mb_log;
  br_routes := mem_routes |}.

Global Instance mem_broker_laws : BrokerLaws MemBroker.
Proof.
  split; cbn; try done.
  - intros b ex key m pub x Hx. apply elem_of_app. by left.
  - intros b ex key m pub b' q [= <-] Hq. cbn. apply elem_of_app. right. by apply (list_elem_of_fmap_2 (fun q => (q, pub))).
  - intros b ex key pub b' [= <-] Hr. cbn. by rewrite Hr.
  - intros b key q. unfold mem_routes. rewrite bool_decide_eq_true_2 by done. case_match; [|by intros ?%elem_of_nil].
    by intros ?%list_elem_of_singleton.
Qed.

Definition demo_broker : MemBroker :=
  mkMemBroker (eventTypes ≫= (fun et => [mainQueueFor et; failedQueueFor et; deadQueueFor et])) [] false 0.
Definition demo_delivery (headers : option table) : Delivery := mkDelivery "id-sweep" (marshal_IDSweep (mkIDSweepPayload 1 100 "")) headers.
Definition timeout_err : gerror := ErrWrap "fetch" (ErrSentinel ContextDeadlineExceeded).

Lemma handleFailure_never_drops_witness :
  exists b' pub, handleFailure (demo_delivery None) "id-sweep" timeout_err demo_broker = (b', Ack)
    /\ (failedQueueFor "id-sweep", pub) ∈ br_accepted b'.
Proof.
  destruct (handleFailure (demo_delivery None) "id-sweep" timeout_err demo_broker) as [b' s] eqn:Eh.
  assert (Hs : s = Ack) by (apply (f_equal snd) in Eh; vm_compute in Eh; symmetry; exact Eh).
  destruct (handleFailure_never_drops demo_broker b' (demo_delivery None) "id-sweep" timeout_err s Eh) as [_ H].
  destruct (H Hs) as [pub Hp]. exists b', pub. subst s. split; [reflexivity|]. exact (proj1 Hp).
Defined.

Lemma mem_bound : forall b0 : MemBroker, forall et, knownEventType et = true -> mainQueueFor et ∈ br_routes b0 exchangeMain et.
Proof. intros b0 et Hk. cbn. unfold mem_routes. rewrite Hk. cbn. apply list_elem_of_here. Qed.

Lemma failed_delivery_never_drops_witness :
  exists b' q pub, failed_delivery 50 false false (demo_delivery None) demo_broker = (b', (Ack, false))
    /\ (q, pub) ∈ br_accepted b'.
Proof.
  destruct (failed_delivery 50 false false (demo_delivery None) demo_broker) as [b' sr] eqn:Eh.
  assert (Hs : sr = (Ack, false)) by (apply (f_equal snd) in Eh; vm_compute in Eh; symmetry; exact Eh).
  subst sr. destruct (failed_delivery_never_drops demo_broker b' 50 false false (demo_delivery None) Ack false mem_bound Eh) as [_ H].
  destruct (H eq_refl) as (q & pub & Hp & _). exists b', q, pub. split; [reflexivity|]. exact Hp.
Defined.

(** ** Two increments per cycle

    A retryable delivery that goes around main queue, failed queue and
    [failedWorker] is counted twice per cycle. *)

(** One cycle; the delays it was given, in seconds. *)
Fixpoint retry_cycles (n : nat) (headers : option table) (b : MemBroker) : list Z :=
  match n with
  | O => []
  | S n =>
      let '(b, _) := handleFailure (demo_delivery headers) "id-sweep" timeout_err b in
      match head (reverse (mb_log b)) with
      | None => []
      | Some (_, copy) =>
          let b := b{{ mb_clock := mb_clock b + hour }} in
          let '(b, _) := failed_delivery 50 false false (demo_delivery (Some (pb_Headers copy))) b in
          match head (reverse (mb_log b)) with
          | None => []
          | Some (_, again) =>
              default 0 (pb_Expiration copy) / 1000 :: retry_cycles n (Some (pb_Headers again)) b
          end
      end
  end.

(** With a failed-queue consumer running, the delays a retryable
    failure sees are 5, 20, 80, 320 seconds: both the failure and the
    republish increment the attempt header, so every other step of the ladder
    is skipped. *)
Theorem retry_cycles_skip_steps : retry_cycles 4 None demo_broker = [5; 20; 80; 320].
Proof. vm_compute. reflexivity. Qed.
