(* ===== verification/QueueSession.v ===== *)
(** * Queue sessions ([infrastructure/rabbitmq/queue.go], the connection)

    Opening, replacing and closing the broker session, the topology it
    declares, and how a consumer sets up its channel.  The AMQP library answers
    each call or fails it; a broker refuses to redeclare a queue with other
    arguments.  What a session holds open is counted. *)
From S2P Require Import Prelude GoErrors GoStrings Payloads Queue.

(** ** The broker's topology *)

(** A queue's dead-letter exchange and routing key, if it has them. *)
Definition queue_args : Type := option (string * string).
Record topology := mkTopology {
  tp_exchanges : gset string;
  tp_queues : gmap string queue_args;
  tp_bindings : gset (string * string * string); (* exchange, routing key, queue *)
}.
Definition no_topology : topology := mkTopology ∅ ∅ ∅.

Inductive amqp_call :=
  | Dial
  | OpenChannel
  | ExchangeDeclare (name : string)
  | QueueDeclare (name : string) (args : queue_args)
  | QueueBind (queue key exchange : string)
  | Confirm
  | Qos (prefetch : Z)
  | ConsumeQueue (queue tag : string)
  | CloseChannel
  | CloseConn.

(** The library fails the calls it fails; [aw_conns] and [aw_chans] count what
    is open. *)
Record amqpWorld := mkAmqpWorld {
  aw_fail : nat -> option gerror;
  aw_calls : nat;
  aw_log : list amqp_call;
  aw_conns : Z;
  aw_chans : Z;
  aw_topology : topology;
}.

(** What a call that is not failed by the library does. *)
Definition effect (c : amqp_call) (w : amqpWorld) : result amqpWorld :=
  let t := aw_topology w in
  match c with
  | Dial => Ok (w{{ aw_conns := aw_conns w + 1 }})
  | OpenChannel => Ok (w{{ aw_chans := aw_chans w + 1 }})
  | ExchangeDeclare name => Ok (w{{ aw_topology := mkTopology ({[name]} ∪ tp_exchanges t) (tp_queues t) (tp_bindings t) }})
  | QueueDeclare name args =>
      match tp_queues t !! name with
      | Some args' =>
          if bool_decide (args' = args) then Ok w else Err (ErrorString "PRECONDITION_FAILED - inequivalent arg")
      | None => Ok (w{{ aw_topology := mkTopology (tp_exchanges t) (<[name := args]> (tp_queues t)) (tp_bindings t) }})
      end
  | QueueBind queue key exchange =>
      Ok (w{{ aw_topology := mkTopology (tp_exchanges t) (tp_queues t) ({[(exchange, key, queue)]} ∪ tp_bindings t) }})
  | Confirm | Qos _ | ConsumeQueue _ _ => Ok w
  | CloseChannel => Ok (w{{ aw_chans := aw_chans w - 1 }})
  | CloseConn => Ok (w{{ aw_conns := aw_conns w - 1 }})
  end.
Definition amqp (c : amqp_call) : ST amqpWorld (result unit) := fun w =>
  let w' := w{{ aw_calls := S (aw_calls w); aw_log := aw_log w ++ [c] }} in
  match aw_fail w (aw_calls w) with
  | Some e => (w', Err e)
  | None => match effect c w' with Ok w'' => (w'', Ok tt) | Err e => (w', Err e) end
  end.
(** Closing gives the resource up whatever it answers. *)
Definition close (c : amqp_call) : ST amqpWorld (option gerror) := fun w =>
  let w' := w{{ aw_calls := S (aw_calls w); aw_log := aw_log w ++ [c] }} in
  (match effect c w' with Ok w'' => w'' | Err _ => w' end, aw_fail w (aw_calls w)).

(** ** declareTopology *)

(** The declarations, in the order of the code. *)
Definition event_declarations (et : string) : list amqp_call :=
  [QueueDeclare (mainQueueFor et) None; QueueBind (mainQueueFor et) et exchangeMain;
   QueueDeclare (failedQueueFor et) (Some (exchangeMain, et)); QueueDeclare (deadQueueFor et) None].
Definition declarations : list amqp_call := ExchangeDeclare exchangeMain :: (eventTypes ≫= event_declarations).

Fixpoint declare_all (cs : list amqp_call) : ST amqpWorld (result unit) :=
  match cs with
  | [] => mret (Ok tt)
  | c :: cs => r ← amqp c; match r with Err e => mret (Err (ErrWrap "declare" e)) | Ok _ => declare_all cs end
  end.
Definition declareTopology : ST amqpWorld (result unit) := declare_all declarations.

(** ** Sessions *)

Definition openSession : ST amqpWorld (result unit) :=
  r ← amqp Dial;
  match r with
  | Err e => mret (Err (ErrWrap "rabbitmq dial" e))
  | Ok _ =>
      r ← amqp OpenChannel;
      match r with
      | Err e => _ ← close CloseConn; mret (Err (ErrWrap "rabbitmq channel" e))
      | Ok _ =>
          r ← declareTopology;
          match r with
          | Err e => _ ← close CloseChannel; _ ← close CloseConn; mret (Err (ErrWrap "rabbitmq topology" e))
          | Ok _ =>
              r ← amqp Confirm;
              match r with
              | Err e => _ ← close CloseChannel; _ ← close CloseConn; mret (Err (ErrWrap "rabbitmq confirm" e))
              | Ok _ => mret (Ok tt)
              end
          end
      end
  end.

(** [Queue]: its attempt limit and the session it works on, named by the number
    of library calls made when it was opened. *)
Record QueueState := mkQueueState { q_maxAttempts : Z; q_session : nat }.

Definition New (maxAttempts : Z) : ST amqpWorld (result QueueState) :=
  if maxAttempts <? 1 then mret (Err (ErrorString "rabbitmq max attempts must be >= 1"))
  else fun w =>
    let '(w', r) := openSession w in
    (w', match r with Err e => Err e | Ok _ => Ok (mkQueueState maxAttempts (aw_calls w)) end).

(** [reconnect]: the old session stays in place unless a new one is ready. *)
Definition reconnect (q : QueueState) : ST amqpWorld (QueueState * result unit) := fun w =>
  let '(w', r) := openSession w in
  match r with
  | Err e => (w', (q, Err e))
  | Ok _ => (w', (q{{ q_session := aw_calls w }}, Ok tt))
  end.

(** [Close] of a queue with a session; [isClosed] tells whether the connection
    is gone already. *)
Definition Close (isClosed : bool) : ST amqpWorld (option gerror) :=
  chErr ← close CloseChannel;
  connErr ← (if isClosed then mret None else close CloseConn);
  mret (match chErr, connErr with
        | None, None => None
        | _, _ => Some (ErrJoin (option_list chErr ++ option_list connErr))
        end).

(** ** Consumers *)

Record consumer := mkConsumer { cn_queue : string; cn_tag : string }.

(** One subscription per distinct queue, in order; [seen] are the names that
    were subscribed. *)
Fixpoint subscribe (wanted : list consumer) (seen : list string) : ST amqpWorld (result (list consumer)) :=
  match wanted with
  | [] => mret (Ok [])
  | c :: wanted =>
      if bool_decide (cn_queue c ∈ seen) then subscribe wanted seen
      else
        r ← amqp (ConsumeQueue (cn_queue c) (cn_tag c));
        match r with
        | Err e => mret (Err (ErrWrap "consume" e))
        | Ok _ => rest ← subscribe wanted (cn_queue c :: seen); mret (cons c <$> rest)
        end
  end.

(** A worker's channel: opened, configured by [calls], subscribed; [run] is the
    delivery loop, and the channel is closed when the worker returns. *)
Definition with_channel (calls : list amqp_call) (wanted : list consumer) (run : list consumer -> ST amqpWorld (result unit)) :
    ST amqpWorld (result unit) :=
  r ← amqp OpenChannel;
  match r with
  | Err e => mret (Err (ErrWrap "channel" e))
  | Ok _ =>
      r ← declare_all calls;
      r ← match r with
          | Err e => mret (Err e)
          | Ok _ =>
              cs ← subscribe wanted [];
              match cs with Err e => mret (Err e) | Ok cs => run cs end
          end;
      _ ← close CloseChannel;
      mret r
  end.
Definition main_consumers (eventTypes : list string) : list consumer := (fun et => mkConsumer (mainQueueFor et) et) <$> eventTypes.
Definition consumeWorker (eventTypes : list string) (run : list consumer -> ST amqpWorld (result unit)) : ST amqpWorld (result unit) :=
  with_channel [Qos 1] (main_consumers eventTypes) run.
Definition failed_queues (types : list string) : list string := failedQueueFor <$> (match types with [] => eventTypes | _ => types end).
Definition failed_consumers (failedQueues : list string) : list consumer :=
  (fun fq => mkConsumer fq (failedQueueEventType fq)) <$> failedQueues.
Definition failedWorker (failedQueues : list string) (run : list consumer -> ST amqpWorld (result unit)) : ST amqpWorld (result unit) :=
  with_channel [Qos 1; Confirm] (failed_consumers failedQueues) run.

(** [Consume] and [ConsumeFailed] wait for all workers: [outcomes] are their
    results, with whether shutdown had begun when each returned. *)
Definition worker_count (concurrency : Z) : Z := if concurrency <=? 0 then 4 else concurrency.
Definition joined_errors (what : string) (outcomes : list (result unit * bool)) : result unit :=
  match omap (fun o => match o with (Err e, false) => Some e | _ => None end) outcomes with
  | [] => Ok tt
  | _ => Err (ErrorString what)
  end.
Definition consume_result : list (result unit * bool) -> result unit := joined_errors "consume errors".
Definition consume_failed_result : list (result unit * bool) -> result unit := joined_errors "failed consumer errors".
(** A consumer fails exactly when a worker failed before shutdown. *)
Lemma joined_errors_ok what outcomes : joined_errors what outcomes = Ok tt <-> forall e, (Err e, false) ∉ outcomes.
Proof.
  unfold joined_errors. destruct (omap _ outcomes) as [|e l] eqn:Ho; split; try done.
  - intros _ e Hin. assert (e ∈ omap (fun o => match o with (Err e, false) => Some e | _ => None end) outcomes) as Hn by (apply list_elem_of_omap; by exists (Err e, false)).
    rewrite Ho in Hn. by apply elem_of_nil in Hn.
  - intros Hn. assert (Hin : e ∈ e :: l) by left. rewrite <-Ho in Hin. apply list_elem_of_omap in Hin as ([[|e'] []] & Hin & He); try done. injection He as ->. by apply Hn in Hin.
Qed.
