(* ===== verification/QueueSessionFacts.v ===== *)
(** * Sessions leak nothing and declare the whole topology *)
From S2P Require Import Prelude GoErrors GoStrings Payloads Queue QueueFacts QueueSession.

(** ** Growing topologies *)

Definition topo_le (t t' : topology) : Prop :=
  tp_exchanges t ⊆ tp_exchanges t' /\ tp_queues t ⊆ tp_queues t' /\ tp_bindings t ⊆ tp_bindings t'.
#[export] Instance topo_le_preorder : PreOrder topo_le.
Proof. split; [by intros t|]. intros a b c (?&?&?) (?&?&?). split_and!; by etrans. Qed.

(** A declaration, and that it holds. *)
Definition is_declaration (c : amqp_call) : bool :=
  match c with ExchangeDeclare _ | QueueDeclare _ _ | QueueBind _ _ _ | Confirm | Qos _ | ConsumeQueue _ _ => true | _ => false end.
Definition declared (t : topology) (c : amqp_call) : Prop :=
  match c with
  | ExchangeDeclare name => name ∈ tp_exchanges t
  | QueueDeclare name args => tp_queues t !! name = Some args
  | QueueBind queue key exchange => (exchange, key, queue) ∈ tp_bindings t
  | _ => True
  end.
Lemma declared_mono t t' c : topo_le t t' -> declared t c -> declared t' c.
Proof.
  intros (He & Hq & Hb). destruct c; cbn; try done; [by apply He| |by apply Hb]. intros H. by eapply lookup_weaken.
Qed.

(** What the library calls leave alone. *)
Record same_open (w w' : amqpWorld) : Prop := {
  so_conns : aw_conns w' = aw_conns w;
  so_chans : aw_chans w' = aw_chans w;
}.
#[export] Instance same_open_preorder : PreOrder same_open.
Proof. split; [by intros w|]. intros a b c [] []. split; congruence. Qed.

(** The bindings of [t'] are those of [t] and the ones the calls make. *)
Definition binds_only (cs : list amqp_call) (t t' : topology) : Prop :=
  forall exchange key queue, (exchange, key, queue) ∈ tp_bindings t' -> (exchange, key, queue) ∈ tp_bindings t \/ QueueBind queue key exchange ∈ cs.

(** One declaration. *)
Definition declares (c : amqp_call) (w w' : amqpWorld) : Prop :=
  same_open w w' /\ topo_le (aw_topology w) (aw_topology w') /\ binds_only [c] (aw_topology w) (aw_topology w').

Lemma declares_nothing c w w' : aw_conns w' = aw_conns w -> aw_chans w' = aw_chans w -> aw_topology w' = aw_topology w -> declares c w w'.
Proof. intros H1 H2 H3. unfold declares. rewrite H3. split; [by split|]. split; [done|]. intros ? ? ? ?. by left. Qed.

Lemma effect_declaration c w w' : is_declaration c = true -> effect c w = Ok w' -> declares c w w' /\ declared (aw_topology w') c.
Proof.
  intros Hc He. destruct c; try discriminate Hc; cbn in He; try (injection He as <-; split; [by apply declares_nothing|done]).
  - injection He as <-. split; [|cbn; by apply elem_of_union_l, elem_of_singleton]. split; [by split|]. split; [|by left].
    split_and!; cbn; [apply union_subseteq_r|done..].
  - destruct (tp_queues (aw_topology w) !! name) as [args'|] eqn:Hq.
    + case_bool_decide; [|done]. injection He as <-. subst. split; [by apply declares_nothing|done].
    + injection He as <-. split; [|apply lookup_insert_eq]. split; [by split|]. split; [|by left]. split_and!; cbn; [done| |done].
      by apply insert_subseteq.
  - injection He as <-. split; [|cbn; by apply elem_of_union_l, elem_of_singleton]. split; [by split|]. split.
    + split_and!; cbn; [done|done|apply union_subseteq_r].
    + intros exchange' key' queue'. cbn. rewrite elem_of_union, elem_of_singleton. intros [[= -> -> ->]|Hin]; [right; left|by left].
Qed.

Lemma amqp_declaration c w : is_declaration c = true ->
  let '(w', r) := amqp c w in declares c w w' /\ (r = Ok tt -> declared (aw_topology w') c).
Proof.
  intros Hc. unfold amqp. set (w1 := w{{ aw_calls := S (aw_calls w); aw_log := aw_log w ++ [c] }}).
  assert (H1 : declares c w w1) by by apply declares_nothing. destruct (aw_fail w (aw_calls w)); [done|].
  destruct (effect c w1) as [w2|e] eqn:He; [|done]. apply effect_declaration in He as [Hd Hdec]; [|done]. split; [|done].
  destruct Hd as ([H1a H1b] & Ht & Ho). split; [by split|]. split; [exact Ht|exact Ho].
Qed.

Lemma declare_all_spec cs : forall w, Forall (fun c => is_declaration c = true) cs ->
  let '(w', r) := declare_all cs w in
  same_open w w' /\ topo_le (aw_topology w) (aw_topology w') /\
  binds_only cs (aw_topology w) (aw_topology w') /\ (r = Ok tt -> Forall (declared (aw_topology w')) cs).
Proof.
  induction cs as [|c cs IH]; intros w Hcs; cbn [declare_all]; [split_and!; try done; intros ? ? ? ?; by left|]. inversion Hcs as [|? ? Hc Hcs']; subst.
  rewrite ST_bind_eq. pose proof (amqp_declaration c w Hc) as H. destruct (amqp c w) as [w1 [[]|e]]; cbn [fst snd]; destruct H as ((Hs & Ht & Ho) & Hd).
  - specialize (IH w1 Hcs'). destruct (declare_all cs w1) as [w2 r]. destruct IH as (Hs2 & Ht2 & Ho2 & Hd2). split_and!; [by etrans|by etrans| |].
    + intros x k q Hin. destruct (Ho2 x k q Hin) as [Hin'|?]; [|right; by right]. destruct (Ho x k q Hin') as [|Hc']; [by left|].
      right. apply list_elem_of_singleton in Hc' as <-. left.
    + intros Hr. constructor; [by eapply declared_mono, Hd|by apply Hd2].
  - split_and!; try done. intros x k q Hin. destruct (Ho x k q Hin) as [|Hc']; [by left|]. right. apply list_elem_of_singleton in Hc' as <-. left.
Qed.

Lemma declarations_declare : Forall (fun c => is_declaration c = true) declarations.
Proof. by repeat constructor. Qed.
Lemma declarations_bind queue key exchange : QueueBind queue key exchange ∈ declarations ->
  exchange = exchangeMain /\ key ∈ eventTypes /\ queue = mainQueueFor key.
Proof.
  unfold declarations. rewrite elem_of_cons, list_elem_of_bind. intros [?|(et & Hin & Het)]; [done|]. unfold event_declarations in Hin.
  rewrite !elem_of_cons in Hin. destruct Hin as [?|[Heq|[?|[?|Hn]]]]; try done; [|by apply elem_of_nil in Hn]. by injection Heq as -> -> ->.
Qed.

(** ** Routing *)

(** The queues a message goes to: the default exchange knows every queue by its
    name. *)
Definition routes (t : topology) (exchange key : string) : gset string :=
  if bool_decide (exchange = "") then (match tp_queues t !! key with Some _ => {[key]} | None => ∅ end)
  else set_map snd (filter (fun b : string * string * string => b.1 = (exchange, key)) (tp_bindings t)).
(** Where a queue sends a message that expires in it. *)
Definition dead_letters (t : topology) (queue : string) : gset string :=
  match tp_queues t !! queue with Some (Some (exchange, key)) => routes t exchange key | _ => ∅ end.

(** The topology [t] a session finds ready on a broker that had [t0]. *)
Record topology_ready (t0 t : topology) : Prop := {
  tr_main et : et ∈ eventTypes -> routes t exchangeMain et = {[mainQueueFor et]} ∪ routes t0 exchangeMain et;
  tr_other key : key ∉ eventTypes -> routes t exchangeMain key = routes t0 exchangeMain key;
  tr_failed et : et ∈ eventTypes -> routes t "" (failedQueueFor et) = {[failedQueueFor et]};
  tr_dead et : et ∈ eventTypes -> routes t "" (deadQueueFor et) = {[deadQueueFor et]};
  tr_expired et : et ∈ eventTypes -> dead_letters t (failedQueueFor et) = routes t exchangeMain et;
}.

Lemma declared_event t et c : Forall (declared t) declarations -> et ∈ eventTypes -> c ∈ event_declarations et -> declared t c.
Proof.
  intros Hd Het Hc. rewrite Forall_forall in Hd. apply Hd. unfold declarations. apply list_elem_of_In.
  apply list_elem_of_further. apply list_elem_of_bind. eauto.
Qed.

Lemma elem_of_routes t exchange key q : exchange <> "" -> q ∈ routes t exchange key <-> (exchange, key, q) ∈ tp_bindings t.
Proof.
  intros Hx. unfold routes. rewrite bool_decide_false by done. rewrite elem_of_map. split.
  - intros ([[e k] q'] & -> & Hf). by apply elem_of_filter in Hf as [[= -> ->] Hin].
  - intros Hin. exists (exchange, key, q). split; [done|]. by apply elem_of_filter.
Qed.
Lemma topology_declared t0 t : topo_le t0 t -> binds_only declarations t0 t -> Forall (declared t) declarations -> topology_ready t0 t.
Proof.
  intros (_ & _ & Hle) Hown Hd.
  assert (Hq : forall et name args, et ∈ eventTypes -> QueueDeclare name args ∈ event_declarations et -> tp_queues t !! name = Some args).
  { intros et name args Het Hin. exact (declared_event t et _ Hd Het Hin). }
  split; intros x Hx.
  - pose proof (declared_event t x (QueueBind (mainQueueFor x) x exchangeMain) Hd Hx) as Hb. cbn in Hb. apply set_eq. intros q.
    rewrite elem_of_union, elem_of_singleton, !elem_of_routes by done. split.
    + intros [Hin|Hin]%Hown; [by right|left]. by apply declarations_bind in Hin as (_ & _ & ->).
    + intros [->|Hin]; [apply Hb; right; left|by apply Hle].
  - apply set_eq. intros q. rewrite !elem_of_routes by done. split; [|by apply Hle].
    intros [Hin|Hin]%Hown; [done|]. by apply declarations_bind in Hin as (_ & ? & _).
  - unfold routes. rewrite bool_decide_true by done. by rewrite (Hq x _ (Some (exchangeMain, x)) Hx) by (right; right; left).
  - unfold routes. rewrite bool_decide_true by done. by rewrite (Hq x _ None Hx) by (right; right; right; left).
  - unfold dead_letters. by rewrite (Hq x _ (Some (exchangeMain, x)) Hx) by (right; right; left).
Qed.

(** ** openSession *)

(** A call that opens or closes something. *)
Lemma amqp_Dial w : let '(w', r) := amqp Dial w in
  aw_topology w' = aw_topology w /\ aw_chans w' = aw_chans w /\ aw_conns w' = aw_conns w + (if is_ok r then 1 else 0).
Proof. unfold amqp. destruct (aw_fail w (aw_calls w)); cbn [is_ok effect]; rewrite ?Z.add_0_r; done. Qed.
Lemma amqp_OpenChannel w : let '(w', r) := amqp OpenChannel w in
  aw_topology w' = aw_topology w /\ aw_conns w' = aw_conns w /\ aw_chans w' = aw_chans w + (if is_ok r then 1 else 0).
Proof. unfold amqp. destruct (aw_fail w (aw_calls w)); cbn [is_ok effect]; rewrite ?Z.add_0_r; done. Qed.
Lemma amqp_Confirm w : let '(w', r) := amqp Confirm w in
  aw_topology w' = aw_topology w /\ aw_conns w' = aw_conns w /\ aw_chans w' = aw_chans w.
Proof. unfold amqp. by destruct (aw_fail w (aw_calls w)). Qed.

Lemma close_conn w : aw_conns (close CloseConn w).1 = aw_conns w - 1 /\ aw_chans (close CloseConn w).1 = aw_chans w.
Proof. done. Qed.
Lemma close_chan w : aw_chans (close CloseChannel w).1 = aw_chans w - 1 /\ aw_conns (close CloseChannel w).1 = aw_conns w.
Proof. done. Qed.

(** C10: opening a session leaks nothing and is all or nothing.  However
    the library and the broker fail its calls and whatever the broker had
    declared before, a session that could not be set up leaves as many
    connections and channels open as before, and the queue keeps the session it
    had; a session that was set up has one connection and one channel more, and
    the broker then routes every event type to its main queue, besides the
    queues an older binding already sent it to, routes every other key as
    before, knows the failed and the dead queue of every type by name, and sends
    what expires in a failed queue to where it routes the type. *)
Theorem session_all_or_nothing q w :
  let '(w', (q', r)) := reconnect q w in
  match r with
  | Err _ => q' = q /\ aw_conns w' = aw_conns w /\ aw_chans w' = aw_chans w
  | Ok _ => q_session q' = aw_calls w /\ q_maxAttempts q' = q_maxAttempts q /\
            aw_conns w' = aw_conns w + 1 /\ aw_chans w' = aw_chans w + 1 /\ topology_ready (aw_topology w) (aw_topology w')
  end.
Proof.
  unfold reconnect, openSession. rewrite ST_bind_eq. pose proof (amqp_Dial w) as H1. destruct (amqp Dial w) as [w1 [[]|e]]; cbn [fst snd is_ok] in *.
  2:{ split_and!; [done|cbn [fst]; lia..]. }
  rewrite ST_bind_eq. pose proof (amqp_OpenChannel w1) as H2. destruct (amqp OpenChannel w1) as [w2 [[]|e]]; cbn [fst snd is_ok] in *.
  2:{ rewrite ST_bind_eq. pose proof (close_conn w2). split_and!; [done|cbn [fst]; lia..]. }
  rewrite ST_bind_eq. unfold declareTopology. pose proof (declare_all_spec declarations w2 declarations_declare) as H3.
  destruct (declare_all declarations w2) as [w3 [[]|e]]; cbn [fst snd]; destruct H3 as ([Hc Hch] & Ht & Hob & Hdec).
  2:{ rewrite !ST_bind_eq. pose proof (close_chan w3). pose proof (close_conn (close CloseChannel w3).1). split_and!; [done|cbn [fst]; lia..]. }
  rewrite ST_bind_eq. pose proof (amqp_Confirm w3) as H4. destruct (amqp Confirm w3) as [w4 [[]|e]]; cbn [fst snd] in *.
  2:{ rewrite !ST_bind_eq. pose proof (close_chan w4). pose proof (close_conn (close CloseChannel w4).1). split_and!; [done|cbn [fst]; lia..]. }
  unfold mret, ST_ret. destruct H4 as (H4 & H5 & H6). split_and!; [done|done|lia|lia|]. rewrite H4.
  destruct H1 as (H1 & _), H2 as (H2 & _). rewrite <-H1, <-H2. apply topology_declared; [done|done|by apply Hdec].
Qed.

(** A broker with an older declaration of a dead queue refuses the session. *)
Definition fresh_world : amqpWorld := mkAmqpWorld (fun _ => None) 0 [] 0 0 no_topology.
Lemma session_all_or_nothing_witness :
  let '(w', (q', r)) := reconnect (mkQueueState 3 0) fresh_world in r = Ok tt /\ topology_ready no_topology (aw_topology w').
Proof.
  pose proof (session_all_or_nothing (mkQueueState 3 0) fresh_world) as H.
  destruct (reconnect (mkQueueState 3 0) fresh_world) as [w' [q' r]] eqn:Hr.
  assert (r = Ok tt) as -> by (apply (f_equal (fun x => x.2.2)) in Hr; vm_compute in Hr; by rewrite <-Hr).
  split; [reflexivity|]. apply H.
Defined.

Example stale_queue_refuses :
  let w := fresh_world{{ aw_topology := mkTopology ∅ {[ deadQueueFor "new-proxy" := Some (exchangeMain, "new-proxy") ]} ∅ }} in
  let '(w', (_, r)) := reconnect (mkQueueState 3 0) w in is_ok r = false /\ aw_conns w' = 0 /\ aw_chans w' = 0.
Proof. vm_compute. done. Qed.

(** ** Consumers *)

Lemma closing_balanced w w' (r : result unit) : aw_conns w' = aw_conns w -> aw_chans w' = aw_chans w + 1 ->
  same_open w ((_ ← close CloseChannel; mret r) w').1.
Proof. intros Hc Hh. split; [exact Hc|]. change (aw_chans w' - 1 = aw_chans w). lia. Qed.

(** A worker gives its channel back however it ends. *)
Lemma with_channel_balanced calls wanted run w : Forall (fun c => is_declaration c = true) calls ->
  (forall cs w1, same_open w1 (run cs w1).1) -> same_open w (with_channel calls wanted run w).1.
Proof.
  intros Hcalls Hrun. unfold with_channel. rewrite ST_bind_eq. pose proof (amqp_OpenChannel w) as H1.
  destruct (amqp OpenChannel w) as [w1 [[]|e]]; cbn [fst snd is_ok] in *; [|unfold mret, ST_ret; cbn [fst]; split; lia].
  assert (Hsub : forall l seen w0, same_open w0 (subscribe l seen w0).1).
  { induction l as [|c l IH]; intros seen w0; cbn [subscribe]; [done|]. case_bool_decide; [apply IH|]. rewrite ST_bind_eq.
    pose proof (amqp_declaration (ConsumeQueue (cn_queue c) (cn_tag c)) w0 eq_refl) as Hd.
    destruct (amqp _ w0) as [w2 [[]|e]]; cbn [fst snd]; destruct Hd as ((Hs & _) & _); [|done]. rewrite ST_bind_eq.
    etrans; [exact Hs|]. specialize (IH (cn_queue c :: seen) w2). by destruct (subscribe _ _ w2). }
  rewrite ST_bind_eq. pose proof (declare_all_spec calls w1 Hcalls) as H2. destruct (declare_all calls w1) as [w2 [[]|e]]; cbn [fst snd];
    destruct H2 as ([Hc Hch] & _); rewrite ST_bind_eq; [|apply (closing_balanced w w2); lia].
  set (body := subscribe wanted [] ≫= _) in *.
  assert (same_open w2 (body w2).1) as [Hc2 Hch2].
  { subst body. rewrite ST_bind_eq. etrans; [apply (Hsub wanted [])|]. destruct (subscribe wanted [] w2) as [w3 [cs|e]]; [apply Hrun|done]. }
  apply closing_balanced; lia.
Qed.

(** Every queue named is subscribed once. *)
Lemma subscribe_once wanted : forall seen w cs, (subscribe wanted seen w).2 = Ok cs ->
  NoDup (cn_queue <$> cs) /\ (forall q, q ∈ cn_queue <$> cs <-> q ∈ cn_queue <$> wanted /\ q ∉ seen).
Proof.
  induction wanted as [|c wanted IH]; intros seen w cs; cbn [subscribe].
  - intros [= <-]. split; [constructor|]. intros q. rewrite fmap_nil, elem_of_nil. tauto.
  - case_bool_decide as Hseen.
    + intros H. destruct (IH _ _ _ H) as [Hnd Hin]. split; [done|]. intros q. rewrite Hin, fmap_cons, elem_of_cons.
      split; [tauto|]. intros [[->|Hq] Hn]; [done|tauto].
    + rewrite ST_bind_eq. destruct (amqp _ w) as [w1 [[]|e]]; cbn [fst snd]; [|done]. rewrite ST_bind_eq.
      specialize (IH (cn_queue c :: seen) w1). destruct (subscribe wanted _ w1) as [w2 [rest|e]]; cbn; [|done]. intros [= <-].
      destruct (IH rest eq_refl) as [Hnd Hin]. rewrite fmap_cons. split.
      * constructor; [|done]. rewrite Hin, elem_of_cons. tauto.
      * intros q. rewrite ?fmap_cons, !elem_of_cons, Hin, elem_of_cons. destruct (decide (q = cn_queue c)) as [->|]; tauto.
Qed.
