(* ===== verification/QueueConsumers.v ===== *)
(** * The delivery loops of the queue ([infrastructure/rabbitmq/queue.go])

    [Consume] and [ConsumeFailed] run a number of workers.  Each has a channel
    with a prefetch of one per consumer, a forwarding goroutine per subscribed
    queue ([mergeDeliveries]) and a loop that settles one delivery at a time.
    The broker, the forwarders, the loops, shutdown and lost connections
    interleave freely: the system is a step relation. *)
From S2P Require Import Prelude GoErrors GoStrings Payloads Queue QueueFacts.

(** ** What a loop does with a delivery *)

(** The body of the loop: how it settles a delivery, and whether the worker
    returns after it; the flags tell whether shutdown had begun when the
    delivery was picked up, and whether it ends a wait.  [lb_reason b0 b msg] is
    what justifies the acknowledgement of a delivery that was processed from the
    state [b0], in the later state [b]. *)
Class LoopBody (B : Type) `{Broker B} := {
  lb_process : bool -> bool -> Delivery -> ST B (settlement * bool);
  lb_reason : B -> B -> Delivery -> Prop;
}.
Class LoopBodyLaws (B : Type) `{Broker B, LB : !LoopBody B} := {
  lb_stops interrupted msg b : (lb_process true interrupted msg b).2 = (NackRequeue, true);
  lb_grows stopping interrupted msg b : br_accepted b ⊆ br_accepted (lb_process stopping interrupted msg b).1;
  lb_justified stopping interrupted msg b ret :
    (lb_process stopping interrupted msg b).2 = (Ack, ret) -> lb_reason b (lb_process stopping interrupted msg b).1 msg;
  lb_lasting msg b0 b b' : br_accepted b ⊆ br_accepted b' -> lb_reason b0 b msg -> lb_reason b0 b' msg;
}.

(** ** State *)

Inductive activity := Idle | Picked (msg : Delivery) | Settling (msg : Delivery) (s : settlement) (ret : bool).
Inductive phase := Running | Returned | Closed.

(** A worker: what the broker counts as unacknowledged on its channel, whether
    the channel is still up, what the client library and the forwarders hold,
    and where the loop is. *)
Record worker := mkWorker {
  wk_tags : list string;     (* the consumers of the channel *)
  wk_prefetch : nat;         (* of every consumer of the channel; 0 is no limit *)
  wk_unacked : list Delivery;
  wk_up : bool;
  wk_buffer : list Delivery; (* delivered, not read by a forwarder *)
  wk_held : list Delivery;   (* read by a forwarder, not handed to the loop *)
  wk_live : list string;     (* the forwarders that run, by consumer tag *)
  wk_activity : activity;
  wk_phase : phase;
}.
(** A worker that has set up its channel: [ch.Qos(1, 0, false)] and a consumer
    per queue. *)
Definition fresh_worker (tags : list string) : worker := mkWorker tags 1 [] true [] [] tags Idle Running.

Record shared (B : Type) := mkShared {
  sh_ready : list Delivery;
  sh_done : list Delivery; (* acknowledged *)
  sh_broker : B;
  sh_log : list (Delivery * B); (* ghost: what was processed, from which state *)
}.
Arguments mkShared {B}. Arguments sh_ready {B}. Arguments sh_done {B}. Arguments sh_broker {B}. Arguments sh_log {B}.

Record system (B : Type) := mkSystem {
  sy_stopped : bool; (* stopClaiming *)
  sy_published : list Delivery;
  sy_shared : shared B;
  sy_workers : list worker;
}.
Arguments mkSystem {B}. Arguments sy_stopped {B}. Arguments sy_published {B}. Arguments sy_shared {B}. Arguments sy_workers {B}.

Section Steps.
Context {B : Type} `{Broker B, LB : !LoopBody B}.

(** A settlement reaches the broker only on a channel that is up. *)
Definition settle (s : settlement) (msg : Delivery) (sh : shared B) : shared B :=
  match s with
  | Ack => mkShared (sh_ready sh) (msg :: sh_done sh) (sh_broker sh) (sh_log sh)
  | NackRequeue => mkShared (msg :: sh_ready sh) (sh_done sh) (sh_broker sh) (sh_log sh)
  end.

(** What the broker counts against the prefetch of a consumer. *)
Definition count_tag (tag : string) (un : list Delivery) : nat := length (filter (fun m => dl_ConsumerTag m = tag) un).

(** One step of one worker: [taken], [rest] and the like split a list at the
    delivery that moves. *)
Inductive wstep (stopped : bool) : shared B * worker -> shared B * worker -> Prop :=
  | W_deliver ready1 msg ready2 dn b log w :
      wk_up w = true -> dl_ConsumerTag msg ∈ wk_tags w ->
      wk_prefetch w = 0%nat \/ (count_tag (dl_ConsumerTag msg) (wk_unacked w) < wk_prefetch w)%nat ->
      wstep stopped (mkShared (ready1 ++ msg :: ready2) dn b log, w)
        (mkShared (ready1 ++ ready2) dn b log, w{{ wk_unacked := msg :: wk_unacked w; wk_buffer := wk_buffer w ++ [msg] }})
  | W_read sh buf1 msg buf2 w :
      wk_buffer w = buf1 ++ msg :: buf2 -> dl_ConsumerTag msg ∈ wk_live w ->
      Forall (fun m => dl_ConsumerTag m <> dl_ConsumerTag msg) (wk_held w) ->
      wstep stopped (sh, w) (sh, w{{ wk_buffer := buf1 ++ buf2; wk_held := msg :: wk_held w }})
  | W_hand sh held1 msg held2 w :
      wk_held w = held1 ++ msg :: held2 -> dl_ConsumerTag msg ∈ wk_live w -> wk_activity w = Idle -> wk_phase w = Running ->
      wstep stopped (sh, w) (sh, w{{ wk_held := held1 ++ held2; wk_activity := Picked msg }})
  | W_forwarder_stops sh live1 tag live2 w :
      stopped = true -> wk_live w = live1 ++ tag :: live2 ->
      wstep stopped (sh, w)
        (sh, w{{ wk_held := filter (fun m => dl_ConsumerTag m <> tag) (wk_held w); wk_live := live1 ++ live2 }})
  | W_forwarder_ends sh live1 tag live2 w :
      wk_up w = false -> wk_live w = live1 ++ tag :: live2 -> Forall (fun m => dl_ConsumerTag m <> tag) (wk_buffer w ++ wk_held w) ->
      wstep stopped (sh, w) (sh, w{{ wk_live := live1 ++ live2 }})
  | W_process sh msg w interrupted b s ret :
      wk_activity w = Picked msg -> lb_process stopped interrupted msg (sh_broker sh) = (b, (s, ret)) ->
      wstep stopped (sh, w) (mkShared (sh_ready sh) (sh_done sh) b (sh_log sh ++ [(msg, sh_broker sh)]), w{{ wk_activity := Settling msg s ret }})
  | W_settle sh un1 msg un2 w s ret :
      wk_activity w = Settling msg s ret -> wk_up w = true -> wk_unacked w = un1 ++ msg :: un2 ->
      wstep stopped (sh, w)
        (settle s msg sh, w{{ wk_unacked := un1 ++ un2; wk_activity := Idle; wk_phase := if (ret : bool) then Returned else Running }})
  | W_settle_fails sh msg w s ret :
      wk_activity w = Settling msg s ret -> wk_up w = false ->
      wstep stopped (sh, w) (sh, w{{ wk_activity := Idle; wk_phase := if (ret : bool) then Returned else Running }})
  | W_return sh w :
      wk_live w = [] -> wk_activity w = Idle -> wk_phase w = Running ->
      wstep stopped (sh, w) (sh, w{{ wk_phase := Returned }})
  | W_close sh w :
      wk_phase w = Returned ->
      wstep stopped (sh, w)
        (mkShared (wk_unacked w ++ sh_ready sh) (sh_done sh) (sh_broker sh) (sh_log sh), w{{ wk_unacked := []; wk_up := false; wk_phase := Closed }})
  | W_lose sh w :
      wk_up w = true ->
      wstep stopped (sh, w)
        (mkShared (wk_unacked w ++ sh_ready sh) (sh_done sh) (sh_broker sh) (sh_log sh), w{{ wk_unacked := []; wk_up := false }}).

(** The workers, shutdown, publishers and everything else that uses the broker. *)
Inductive sstep : system B -> system B -> Prop :=
  | S_worker stopped pub sh sh' ws1 w w' ws2 :
      wstep stopped (sh, w) (sh', w') ->
      sstep (mkSystem stopped pub sh (ws1 ++ w :: ws2)) (mkSystem stopped pub sh' (ws1 ++ w' :: ws2))
  | S_stop stopped pub sh ws : sstep (mkSystem stopped pub sh ws) (mkSystem true pub sh ws)
  | S_publish stopped pub sh ws msg :
      sstep (mkSystem stopped pub sh ws)
        (mkSystem stopped (msg :: pub) (mkShared (msg :: sh_ready sh) (sh_done sh) (sh_broker sh) (sh_log sh)) ws)
  | S_environment stopped pub sh ws b :
      br_accepted (sh_broker sh) ⊆ br_accepted b ->
      sstep (mkSystem stopped pub sh ws) (mkSystem stopped pub (mkShared (sh_ready sh) (sh_done sh) b (sh_log sh)) ws).

(** A system at the start: [waiting] are the messages in the queues. *)
Definition start (n : nat) (tags : list string) (waiting : list Delivery) (b : B) : system B :=
  mkSystem false waiting (mkShared waiting [] b []) (replicate n (fresh_worker tags)).
Definition all_unacked (ws : list worker) : list Delivery := ws ≫= wk_unacked.
End Steps.

(** ** The invariant *)

Section Invariant.
Context {B : Type} `{Broker B, LB : !LoopBody B, LBL : !LoopBodyLaws B}.

Definition working (w : worker) : list Delivery :=
  match wk_activity w with Idle => [] | Picked m | Settling m _ _ => [m] end.

(** The message was processed in this run, and that justifies settling it. *)
Definition justified (sh : shared B) (msg : Delivery) : Prop :=
  exists b0, (msg, b0) ∈ sh_log sh /\ lb_reason b0 (sh_broker sh) msg.

Record worker_ok (sh : shared B) (w : worker) : Prop := {
  wo_qos : wk_prefetch w = 1%nat;
  wo_prefetch : NoDup (dl_ConsumerTag <$> wk_unacked w);
  wo_client : wk_up w = true -> wk_buffer w ++ wk_held w ++ working w ⊆+ wk_unacked w;
  wo_down : wk_up w = false -> wk_unacked w = [];
  wo_settling msg ret : wk_activity w = Settling msg Ack ret -> justified sh msg;
  wo_busy : wk_activity w <> Idle -> wk_phase w = Running;
  wo_closed : wk_phase w = Closed -> wk_up w = false;
}.

Record system_ok (s : system B) : Prop := {
  so_conserved : sh_ready (sy_shared s) ++ all_unacked (sy_workers s) ++ sh_done (sy_shared s) ≡ₚ sy_published s;
  so_reasons : Forall (justified (sy_shared s)) (sh_done (sy_shared s));
  so_workers : Forall (worker_ok (sy_shared s)) (sy_workers s);
}.

(** The broker and the log only grow. *)
Definition grows (sh sh' : shared B) : Prop := br_accepted (sh_broker sh) ⊆ br_accepted (sh_broker sh') /\ sh_log sh ⊆ sh_log sh'.
Lemma justified_mono sh sh' msg : grows sh sh' -> justified sh msg -> justified sh' msg.
Proof. intros [Hb Hl] (b0 & Hin & Hr). exists b0. split; [by apply Hl|]. by eapply lb_lasting. Qed.
Lemma worker_ok_mono sh sh' w : grows sh sh' -> worker_ok sh w -> worker_ok sh' w.
Proof. intros Hb []. split; auto. intros m r Ha. eapply justified_mono; eauto. Qed.
Lemma reasons_mono sh sh' l : grows sh sh' -> Forall (justified sh) l -> Forall (justified sh') l.
Proof. intros Hb. apply Forall_impl. intros m. by apply justified_mono. Qed.

(** What a worker's step does to the shared state. *)
Record step_ok (sh sh' : shared B) (w w' : worker) : Prop := {
  st_conserved : sh_ready sh' ++ wk_unacked w' ++ sh_done sh' ≡ₚ sh_ready sh ++ wk_unacked w ++ sh_done sh;
  st_grows : grows sh sh';
  st_reasons : Forall (justified sh) (sh_done sh) -> Forall (justified sh') (sh_done sh');
  st_worker : worker_ok sh' w';
}.

(** Steps that only move deliveries inside the client. *)
Lemma inside_ok sh w w' : worker_ok sh w' -> wk_unacked w' = wk_unacked w -> step_ok sh sh w w'.
Proof. intros Hw Hu. split; [by rewrite Hu|done|done|done]. Qed.

Lemma worker_ok_inside sh w w' :
  worker_ok sh w -> wk_prefetch w' = wk_prefetch w -> wk_unacked w' = wk_unacked w -> wk_up w' = wk_up w -> wk_phase w' = wk_phase w ->
  (wk_activity w' = wk_activity w \/ exists msg, wk_activity w' = Picked msg /\ wk_phase w = Running) ->
  wk_buffer w' ++ wk_held w' ++ working w' ⊆+ wk_buffer w ++ wk_held w ++ working w -> worker_ok sh w'.
Proof.
  intros [] Hq Hu Hup Hph Ha Hc. split; rewrite ?Hq, ?Hu, ?Hup, ?Hph; auto.
  - intros ?. etrans; eauto.
  - intros m r Hs. destruct Ha as [Ha|(? & Ha & _)]; rewrite Ha in Hs; [eauto|done].
  - intros Hn. destruct Ha as [Ha|(? & _ & ?)]; [rewrite Ha in Hn; auto|done].
Qed.

Lemma submseteq_drop_mid (x y z : list Delivery) m : x ++ m :: y ⊆+ z -> x ++ y ⊆+ z.
Proof. intros Hs. etrans; [|exact Hs]. apply submseteq_app; [done|]. by apply submseteq_cons. Qed.

(** The loop gave its delivery up: what the client still holds. *)
Lemma client_rest (buf held un1 un2 : list Delivery) msg :
  buf ++ held ++ [msg] ⊆+ un1 ++ msg :: un2 -> buf ++ held ++ [] ⊆+ un1 ++ un2.
Proof.
  intros Hs. apply (submseteq_app_inv_l _ _ [msg]). etrans; [|etrans; [exact Hs|]]; solve_submseteq.
Qed.

(** A channel that goes down gives everything back. *)
Lemma down_ok sh w w' : worker_ok sh w -> wk_prefetch w' = wk_prefetch w -> wk_unacked w' = [] -> wk_up w' = false -> wk_activity w' = wk_activity w ->
  (wk_phase w' = wk_phase w \/ wk_activity w = Idle) ->
  step_ok sh (mkShared (wk_unacked w ++ sh_ready sh) (sh_done sh) (sh_broker sh) (sh_log sh)) w w'.
Proof.
  intros [] Hq Hu Hup Ha Hp. split; cbn; try done.
  - rewrite Hu. solve_Permutation.
  - split; rewrite ?Hq, ?Hu, ?Hup, ?Ha; try done; [constructor|]. destruct Hp as [->|Hi]; auto. by rewrite Hi.
Qed.

(** The loop is done with a delivery and goes on or returns. *)
Lemma idle_ok sh w w' (ret : bool) : worker_ok sh w -> wk_prefetch w' = wk_prefetch w -> wk_activity w' = Idle -> wk_phase w' = (if ret then Returned else Running) ->
  wk_up w' = wk_up w -> NoDup (dl_ConsumerTag <$> wk_unacked w') -> (wk_up w' = true -> wk_buffer w' ++ wk_held w' ++ [] ⊆+ wk_unacked w') ->
  (wk_up w' = false -> wk_unacked w' = []) -> worker_ok sh w'.
Proof. intros [] Hq Ha Hp Hup Hn Hc Hd. split; rewrite ?Hq; auto; unfold working; rewrite ?Ha; try done. rewrite Hp. by destruct ret. Qed.

Lemma wstep_ok stopped sh w sh' w' : worker_ok sh w -> wstep stopped (sh, w) (sh', w') -> step_ok sh sh' w w'.
Proof.
  intros Hw Hstep. inversion Hstep as
    [r1 msg r2 dn b log w0 Hup Htag Hfree|? b1 msg b2 w0 Hbuf Hlive Hfree|? h1 msg h2 w0 Hheld Hlive Hidle Hrun
    |? l1 tag l2 w0 Hst Hlive|? l1 tag l2 w0 Hup Hlive Hempty|? msg w0 intr b s ret Ha Hproc|? u1 msg u2 w0 s ret Ha Hup Hun
    |? msg w0 s ret Ha Hup|? w0 Hlive Ha Hrun|? w0 Hret|? w0 Hup]; subst;
    destruct w as [tags pre un up buf held live act ph]; cbn in *; subst.
  - split; cbn [sh_ready sh_done sh_broker]; try done; [cbn; solve_Permutation|]. destruct Hw. split; cbn; try done.
    + constructor; [|done]. rewrite list_elem_of_fmap. intros (m & He & Hm). cbn in wo_qos0. subst. destruct Hfree as [|Hfree]; [done|].
      apply Nat.lt_1_r, nil_length_inv in Hfree. eapply (not_elem_of_nil m). rewrite <-Hfree. by apply list_elem_of_filter.
    + intros _. etrans; [|apply submseteq_skip, wo_client0; done]. cbn. solve_submseteq.
  - apply inside_ok; [|done]. eapply worker_ok_inside; try done; [by left|]. cbn. solve_submseteq.
  - apply inside_ok; [|done]. eapply worker_ok_inside; try done; [by right; eauto|]. cbn. solve_submseteq.
  - apply inside_ok; [|done]. eapply worker_ok_inside; try done; [by left|]. cbn. apply submseteq_app; [done|].
    apply submseteq_app; [|done]. apply sublist_submseteq, sublist_filter.
  - apply inside_ok; [|done]. eapply worker_ok_inside; try done; by left.
  - pose proof (lb_grows stopped intr msg (sh_broker sh)) as Hg. pose proof (lb_justified stopped intr msg (sh_broker sh) ret) as Hj.
    rewrite Hproc in Hg, Hj. cbn [fst snd] in *. set (sh' := mkShared _ _ _ _).
    assert (Hgr : grows sh sh') by (split; [done|]; intros x Hx; apply elem_of_app; by left).
    split; [done|done|by apply reasons_mono|]. apply (worker_ok_mono _ sh') in Hw; [|done]. destruct Hw. split; try done.
    + intros m r [= <- -> ->]. exists (sh_broker sh). split; [|by apply Hj]. apply elem_of_app. right. by apply list_elem_of_singleton.
    + intros _. by apply wo_busy0.
  - assert (Hwo := Hw). destruct Hwo. split.
    + destruct s; cbn; solve_Permutation.
    + by destruct s.
    + intros Hr. apply (reasons_mono sh (settle s msg sh)) in Hr; [|by destruct s]. destruct s; cbn; [|done]. constructor; [|done].
      eapply (justified_mono sh); [done|]. eauto.
    + apply (worker_ok_mono _ (settle s msg sh)) in Hw; [|by destruct s].
      apply (idle_ok _ _ _ ret Hw); try done; cbn [wk_unacked wk_up wk_buffer wk_held] in *.
      * rewrite fmap_app, fmap_cons in wo_prefetch0. rewrite fmap_app.
        apply NoDup_ListNoDup in wo_prefetch0. apply NoDup_ListNoDup. by eapply NoDup_remove_1.
      * intros _. exact (client_rest _ _ _ _ _ (wo_client0 eq_refl)).
  - apply inside_ok; [|done]. destruct (Hw). apply (idle_ok _ _ _ ret Hw); done.
  - apply inside_ok; [|done]. by destruct Hw.
  - apply (down_ok sh (mkWorker _ _ un _ _ _ _ _ _)); try done. right. destruct Hw. destruct act; [done|..]; by specialize (wo_busy0 ltac:(done)).
  - apply (down_ok sh (mkWorker _ _ un _ _ _ _ _ _)); try done. by left.
Qed.

Lemma all_unacked_mid (ws1 ws2 : list worker) w : all_unacked (ws1 ++ w :: ws2) = all_unacked ws1 ++ wk_unacked w ++ all_unacked ws2.
Proof. unfold all_unacked. by rewrite bind_app, bind_cons. Qed.

Lemma sstep_ok s s' : sstep s s' -> system_ok s -> system_ok s'.
Proof.
  intros Hstep [Hc Hr Hws]. destruct Hstep as [stopped pub sh sh' ws1 w w' ws2 Hw|stopped pub sh ws|stopped pub sh ws msg|stopped pub sh ws b Hb];
    cbn [sy_shared sy_workers sy_published] in *.
  - apply Forall_app in Hws as [Hw1 Hw2]. inversion Hw2 as [|? ? Hwok Hw3]; subst.
    destruct (wstep_ok stopped sh w sh' w' Hwok Hw) as [Hc' Hg Hr' Hok].
    split; cbn [sy_shared sy_workers sy_published]; [|by apply Hr'|].
    + rewrite <-Hc, !all_unacked_mid. transitivity (all_unacked ws1 ++ all_unacked ws2 ++ sh_ready sh' ++ wk_unacked w' ++ sh_done sh');
        [solve_Permutation|]. rewrite Hc'. solve_Permutation.
    + apply Forall_app. split; [|constructor; [done|]]; (eapply Forall_impl; [|eassumption]); intros; by eapply worker_ok_mono.
  - by split.
  - split; cbn; [by rewrite Hc|by eapply reasons_mono|]. eapply Forall_impl; [|exact Hws]. intros w. by apply worker_ok_mono.
  - split; cbn; [done|by eapply reasons_mono|]. eapply Forall_impl; [|exact Hws]. intros w. by apply worker_ok_mono.
Qed.

Lemma start_ok n tags waiting b : system_ok (start n tags waiting b).
Proof.
  split; cbn [start sy_shared sy_workers sh_ready sh_done sh_broker sy_published].
  - assert (all_unacked (replicate n (fresh_worker tags)) = []) as -> by by induction n. by rewrite !app_nil_r.
  - constructor.
  - apply Forall_replicate. split; cbn; try done. constructor.
Qed.

Lemma reachable_ok s s' : rtc sstep s s' -> system_ok s -> system_ok s'.
Proof. induction 1; eauto using sstep_ok. Qed.

(** ** Shutdown *)

Definition worker_steps (stopped : bool) : relation (shared B * worker) := rtc (wstep stopped).
Lemma forwarders_stop sh w : exists w', worker_steps true (sh, w) (sh, w') /\ wk_live w' = [] /\ wk_activity w' = wk_activity w /\ wk_phase w' = wk_phase w.
Proof.
  destruct w as [tags pre un up buf held live act ph]. revert held. induction live as [|t live IH]; intros held; [eexists; by split; [apply rtc_refl|]|].
  destruct (IH (filter (fun m => dl_ConsumerTag m <> t) held)) as (w' & Hs & Hl & Ha & Hp). exists w'. split; [|done].
  eapply rtc_l; [|exact Hs]. by apply (W_forwarder_stops true sh [] t live (mkWorker tags pre un up buf held (t :: live) act ph)).
Qed.

(** Once stopped, every worker can finish on its own: it settles the delivery it
    has, its forwarders end, it returns and closes its channel. *)
Lemma settled_step sh w msg s ret : worker_ok sh w -> wk_activity w = Settling msg s ret ->
  exists sh' w', wstep true (sh, w) (sh', w') /\ wk_activity w' = Idle /\ wk_phase w' = (if ret then Returned else Running).
Proof.
  intros [] Ha. destruct (wk_up w) eqn:Hup.
  - assert (Hin : msg ∈ wk_unacked w).
    { eapply elem_of_submseteq; [|by apply wo_client0]. unfold working. rewrite Ha. set_solver. }
    apply list_elem_of_split in Hin as (un1 & un2 & Hun). do 2 eexists. split; [by eapply W_settle|done].
  - do 2 eexists. split; [by eapply W_settle_fails|done].
Qed.

Lemma returned_closes sh w : wk_phase w = Returned -> wk_activity w = Idle ->
  exists sh' w', worker_steps true (sh, w) (sh', w') /\ wk_phase w' = Closed /\ wk_activity w' = Idle.
Proof. intros Hp Ha. do 2 eexists. split; [apply rtc_once; by apply W_close|done]. Qed.

Lemma idle_shuts_down sh w : wk_phase w = Running -> wk_activity w = Idle ->
  exists sh' w', worker_steps true (sh, w) (sh', w') /\ wk_phase w' = Closed /\ wk_activity w' = Idle.
Proof.
  intros Hp Ha. destruct (forwarders_stop sh w) as (w1 & Hs1 & Hl & Ha1 & Hp1).
  destruct (returned_closes sh (w1{{ wk_phase := Returned }})) as (sh' & w' & Hs2 & ?); [done|by rewrite <-Ha, <-Ha1|].
  exists sh', w'. split; [|done]. unfold worker_steps in *. etrans; [exact Hs1|]. eapply rtc_l; [|exact Hs2]. apply W_return; congruence.
Qed.

Lemma settling_shuts_down sh w msg s ret : worker_ok sh w -> wk_activity w = Settling msg s ret ->
  exists sh' w', worker_steps true (sh, w) (sh', w') /\ wk_phase w' = Closed /\ wk_activity w' = Idle.
Proof.
  intros Hok Ha. destruct (settled_step sh w msg s ret Hok Ha) as (sh1 & w1 & Hs1 & Ha1 & Hp1).
  assert (exists sh' w', worker_steps true (sh1, w1) (sh', w') /\ wk_phase w' = Closed /\ wk_activity w' = Idle) as (sh' & w' & Hs2 & ?).
  { destruct ret; [by apply returned_closes|by apply idle_shuts_down]. }
  exists sh', w'. split; [|done]. by eapply rtc_l.
Qed.

Lemma worker_shuts_down sh w : worker_ok sh w ->
  exists sh' w', worker_steps true (sh, w) (sh', w') /\ wk_phase w' = Closed /\ wk_activity w' = Idle.
Proof.
  intros Hok. destruct (wk_activity w) as [|msg|msg s ret] eqn:Ha.
  - destruct (wk_phase w) eqn:Hp; [by apply idle_shuts_down|by apply returned_closes|]. do 2 eexists. by split; [apply rtc_refl|].
  - destruct (lb_process true true msg (sh_broker sh)) as [b [s ret]] eqn:Hproc.
    assert (Hstep := W_process true sh msg w true b s ret Ha Hproc). destruct (wstep_ok _ _ _ _ _ Hok Hstep) as [_ _ _ Hok1].
    destruct (settling_shuts_down _ _ msg s ret Hok1 eq_refl) as (sh' & w' & Hs & ?). exists sh', w'. split; [by eapply rtc_l|done].
  - by eapply settling_shuts_down.
Qed.

Lemma lift_steps pub ws1 ws2 p p' : worker_steps true p p' ->
  rtc sstep (mkSystem true pub p.1 (ws1 ++ p.2 :: ws2)) (mkSystem true pub p'.1 (ws1 ++ p'.2 :: ws2)).
Proof.
  induction 1 as [|[sh w] [sh' w'] p' Hs _ IH]; [done|]. eapply rtc_l; [|exact IH]. by apply S_worker.
Qed.

Definition finished (w : worker) : Prop := wk_phase w = Closed /\ wk_activity w = Idle.
Lemma all_shut_down pub ws2 : forall ws1 sh, system_ok (mkSystem true pub sh (ws1 ++ ws2)) -> Forall finished ws1 ->
  exists sh' ws', rtc sstep (mkSystem true pub sh (ws1 ++ ws2)) (mkSystem true pub sh' ws') /\ Forall finished ws'.
Proof.
  induction ws2 as [|w ws2 IH]; intros ws1 sh Hok Hf; [exists sh, ws1; split; [by rewrite app_nil_r|done]|].
  pose proof (so_workers _ Hok) as Hws. apply Forall_app in Hws as [_ Hws]. inversion Hws as [|? ? Hw _]; subst.
  destruct (worker_shuts_down sh w Hw) as (sh1 & w1 & Hs & Hp). apply (lift_steps pub ws1 ws2) in Hs. cbn [fst snd] in Hs.
  pose proof (reachable_ok _ _ Hs Hok) as Hok1. rewrite (cons_middle w1), app_assoc in Hok1, Hs.
  destruct (IH (ws1 ++ [w1]) sh1 Hok1) as (sh' & ws' & Hs2 & Hf'); [apply Forall_app; split; [done|by apply Forall_singleton]|].
  exists sh', ws'. split; [by etrans|done].
Qed.

Lemma finished_unacked ws b : Forall (worker_ok b) ws -> Forall finished ws -> all_unacked ws = [].
Proof.
  induction ws as [|w ws IH]; [done|]. intros Hok Hf. inversion Hok as [|? ? [] Hok']; inversion Hf as [|? ? [Hp _] Hf']; subst.
  unfold all_unacked in *. rewrite bind_cons, IH, wo_down0 by auto. done.
Qed.

(** The log is the run's: the loop of some worker started on the message in an
    earlier state of this run, with the broker in the logged state. *)
Definition started_in_run (s0 s : system B) (msg : Delivery) (b0 : B) : Prop :=
  exists s1 w, rtc sstep s0 s1 /\ rtc sstep s1 s /\ sh_broker (sy_shared s1) = b0 /\ w ∈ sy_workers s1 /\ wk_activity w = Picked msg.
Lemma wstep_log stopped sh w sh' w' : wstep stopped (sh, w) (sh', w') ->
  sh_log sh' = sh_log sh \/ exists msg, sh_log sh' = sh_log sh ++ [(msg, sh_broker sh)] /\ wk_activity w = Picked msg.
Proof. inversion 1; subst; cbn; try (by left); [by right; eauto|]. left. by destruct s. Qed.
Lemma log_in_run s0 s : sh_log (sy_shared s0) = [] -> rtc sstep s0 s -> forall msg b0, (msg, b0) ∈ sh_log (sy_shared s) -> started_in_run s0 s msg b0.
Proof.
  intros H0. revert s. apply (rtc_ind_r (fun s => forall msg b0, (msg, b0) ∈ sh_log (sy_shared s) -> started_in_run s0 s msg b0)).
  { intros msg b0 Hin. rewrite H0 in Hin. by apply elem_of_nil in Hin. }
  intros s1 s2 Hrun Hstep IH msg b0 Hin.
  assert (Hold : (msg, b0) ∈ sh_log (sy_shared s1) -> started_in_run s0 s2 msg b0).
  { intros Hl. destruct (IH msg b0 Hl) as (s3 & w & ? & ? & ? & ? & ?). exists s3, w. split_and!; try done. by eapply rtc_r. }
  destruct (Hstep) as [stopped pub sh sh' ws1 w w' ws2 Hw|stopped pub sh ws|stopped pub sh ws m|stopped pub sh ws b Hb]; cbn in Hin; auto.
  destruct (wstep_log _ _ _ _ _ Hw) as [Heq|(m & Heq & Hp)]; rewrite Heq in Hin; [auto|].
  apply elem_of_app in Hin as [Hin|Hin]; [auto|]. apply list_elem_of_singleton in Hin as [= -> ->].
  exists (mkSystem stopped pub sh (ws1 ++ w :: ws2)), w. split_and!; try done; [by apply rtc_once|]. cbn. set_solver.
Qed.

(** What a run of the workers guarantees. *)
Record keeps_everything (s0 s : system B) : Prop := {
  ke_conserved : sh_ready (sy_shared s) ++ all_unacked (sy_workers s) ++ sh_done (sy_shared s) ≡ₚ sy_published s;
  ke_prefetch : Forall (fun w => NoDup (dl_ConsumerTag <$> wk_unacked w)) (sy_workers s);
  ke_reasons : Forall (fun msg => exists b0, started_in_run s0 s msg b0 /\ lb_reason b0 (sh_broker (sy_shared s)) msg) (sh_done (sy_shared s));
  ke_shutdown : exists sh' ws', rtc sstep s (mkSystem true (sy_published s) sh' ws') /\ Forall finished ws'
                  /\ sh_ready sh' ++ sh_done sh' ≡ₚ sy_published s;
}.

Lemma workers_keep_everything n tags waiting b s : rtc sstep (start n tags waiting b) s -> keeps_everything (start n tags waiting b) s.
Proof.
  intros Hr. pose proof (reachable_ok _ _ Hr (start_ok n tags waiting b)) as Hok. destruct (Hok) as [Hc Hre Hws]. split; [done| | |].
  - eapply Forall_impl; [|exact Hws]. by intros w [].
  - eapply Forall_impl; [|exact Hre]. intros msg (b0 & Hin & Hb). exists b0. split; [|done]. by apply log_in_run.
  - clear Hr. destruct s as [stopped pub sh ws]. cbn [sy_shared sy_workers sy_published] in *. assert (Hstop : sstep (mkSystem stopped pub sh ws) (mkSystem true pub sh ws)) by constructor.
    destruct (all_shut_down pub ws [] sh) as (sh' & ws' & Hs & Hf); [by eapply sstep_ok|done|].
    assert (Hrun : rtc sstep (mkSystem stopped pub sh ws) (mkSystem true pub sh' ws')) by by eapply rtc_l.
    destruct (reachable_ok _ _ Hrun Hok) as [Hc' _ Hws']. cbn [sy_shared sy_workers sy_published] in *. exists sh', ws'. split; [done|]. split; [done|].
    by rewrite (finished_unacked ws' _ Hws' Hf) in Hc'.
Qed.
End Invariant.

(** ** The two loops *)

Section Loops.
Context {B : Type} `{L : BrokerLaws B}.
Variable handler : QueueJob -> ST B (option gerror).
Hypothesis handler_grows : forall job b, br_accepted b ⊆ br_accepted (handler job b).1.
(** What the handler's success from a state means; nothing accepted later takes
    it back. *)
Variable succeeded : B -> B -> QueueJob -> Prop.
Hypothesis handler_succeeds : forall job b, (handler job b).2 = None -> succeeded b (handler job b).1 job.
Hypothesis succeeded_lasts : forall job b0 b b', br_accepted b ⊆ br_accepted b' -> succeeded b0 b job -> succeeded b0 b' job.

Definition delivered_job (msg : Delivery) : QueueJob := mkQueueJob (canonicalEventType (dl_ConsumerTag msg)) (dl_Body msg).

(** A delivery is acknowledged when the handler, called in the state [b0], was
    done with it, or when it failed and the queue for its error has the copy. *)
Definition handled (b0 b : B) (msg : Delivery) : Prop :=
  match (handler (delivered_job msg) b0).2 with
  | None => succeeded b0 b (delivered_job msg)
  | Some err =>
      let n := getAttempts (dl_Headers msg) + 1 in
      exists pub,
        if errors_Is err ErrPoisonPayload || errors_Is err ErrNoHandler
        then (deadQueueFor (qj_Type (delivered_job msg)), pub) ∈ br_accepted b /\ side_copy msg n 0 pub
        else (failedQueueFor (qj_Type (delivered_job msg)), pub) ∈ br_accepted b /\ side_copy msg n (retryBackoffSec n) pub
  end.
Lemma handled_lasts b0 b b' msg : br_accepted b ⊆ br_accepted b' -> handled b0 b msg -> handled b0 b' msg.
Proof.
  intros Hb. unfold handled. destruct (handler (delivered_job msg) b0).2 as [err|]; [|by apply succeeded_lasts].
  intros (pub & Hp). exists pub. destruct (_ || _); destruct Hp as [Hin Hc]; (split; [by apply Hb|done]).
Qed.

#[local] Instance consume_body : LoopBody B := {|
  lb_process stopping _ msg := s ← consume_delivery stopping handler msg; mret (s, stopping);
  lb_reason := handled |}.

Lemma consume_delivery_spec stopping msg b : let '(b', s) := consume_delivery stopping handler msg b in
  br_accepted b ⊆ br_accepted b' /\ (s = Ack -> handled b b' msg).
Proof.
  unfold consume_delivery. destruct stopping; [by split|]. fold (delivered_job msg). rewrite ST_bind_eq. unfold handled.
  pose proof (handler_grows (delivered_job msg) b) as Hg. destruct (handler (delivered_job msg) b) as [b1 [err|]] eqn:Hh; cbn [fst snd] in *.
  - destruct (handleFailure msg _ err b1) as [b2 s] eqn:Hf. apply handleFailure_cases in Hf as [Hg2 Hs]. split; [by etrans|]. exact Hs.
  - split; [done|]. intros _. specialize (handler_succeeds (delivered_job msg) b). rewrite Hh in handler_succeeds. auto.
Qed.

#[local] Instance consume_body_laws : LoopBodyLaws B.
Proof.
  assert (Hrun : forall stopping interrupted msg b, lb_process stopping interrupted msg b =
            ((consume_delivery stopping handler msg b).1, ((consume_delivery stopping handler msg b).2, stopping))).
  { intros. cbn. by rewrite ST_bind_eq. }
  split.
  - intros interrupted msg b. by rewrite Hrun.
  - intros stopping interrupted msg b. rewrite Hrun. pose proof (consume_delivery_spec stopping msg b) as Hs.
    by destruct (consume_delivery _ _ _ _); destruct Hs.
  - intros stopping interrupted msg b ret. rewrite Hrun. pose proof (consume_delivery_spec stopping msg b) as Hs.
    destruct (consume_delivery _ _ _ _). intros [= -> _]. by apply Hs.
  - intros msg b0 b b'. apply handled_lasts.
Qed.

(** The failed queues: a delivery is acknowledged when the main or the dead
    queue of its event type has its copy. *)
Variables (maxAttempts : Z).
Hypothesis main_bound : forall (b : B) et, knownEventType et = true -> mainQueueFor et ∈ br_routes b exchangeMain et.

Definition moved_on (b : B) (msg : Delivery) : Prop :=
  let et := canonicalEventType (dl_ConsumerTag msg) in
  let n := getAttempts (dl_Headers msg) + 1 in
  exists q pub, (q, pub) ∈ br_accepted b /\ side_copy msg n 0 pub /\
    q = if knownEventType et && (n <? maxAttempts) then mainQueueFor et else deadQueueFor et.

Definition failed_body : LoopBody B := {|
  lb_process := failed_delivery maxAttempts;
  lb_reason _ := moved_on |}.
Lemma failed_body_laws : LoopBodyLaws B (LB := failed_body).
Proof.
  split; cbn.
  - done.
  - intros st it msg b. destruct (failed_delivery maxAttempts st it msg b) as [b' [s ret]] eqn:Hf. by apply failed_delivery_cases in Hf as [Hg _].
  - intros st it msg b ret. destruct (failed_delivery maxAttempts st it msg b) as [b' [s ret']] eqn:Hf. cbn. intros [= -> ->].
    apply failed_delivery_cases in Hf as [_ Hs]; [|done]. by apply Hs.
  - intros msg _ b b' Hb (q & pub & Hin & Hr). exists q, pub. split; [by apply Hb|done].
Qed.
End Loops.

(** The handler, called in the state [b0] of the run, succeeded, and what it
    had the broker accept is still there. *)
Definition ran_to_success {B : Type} `{Broker B} (handler : QueueJob -> ST B (option gerror)) (b0 b : B) (job : QueueJob) : Prop :=
  (handler job b0).2 = None /\ br_accepted (handler job b0).1 ⊆ br_accepted b.

Lemma consumers_keep_everything {B : Type} `{L : BrokerLaws B} (handler : QueueJob -> ST B (option gerror))
    (Hgrows : forall job b, br_accepted b ⊆ br_accepted (handler job b).1) (succeeded : B -> B -> QueueJob -> Prop)
    (Hsucc : forall job b, (handler job b).2 = None -> succeeded b (handler job b).1 job)
    (Hlasts : forall job b0 b b', br_accepted b ⊆ br_accepted b' -> succeeded b0 b job -> succeeded b0 b' job) n tags waiting (b : B) s :
  rtc (sstep (LB := consume_body handler succeeded)) (start n tags waiting b) s ->
  keeps_everything (LB := consume_body handler succeeded) (start n tags waiting b) s.
Proof. apply (workers_keep_everything (LBL := consume_body_laws handler Hgrows succeeded Hsucc Hlasts)). Qed.

(** C7: consumers lose nothing.  [Consume] runs any number of workers;
    deliveries, forwarding goroutines, handlers, publishers, lost channels and
    the shutdown interleave in any order.  In every state that can be reached,
    a message that was acknowledged was picked up by a worker of this run, and
    its handler, called in the broker state of that moment, either succeeded,
    with everything it published still accepted, or failed with an error for
    which the broker has accepted the copy of the message: on the dead queue of
    its event type for a poison payload or a missing handler, on the failed
    queue with the ladder's delay otherwise.  With the prefetch the workers set,
    no consumer has more than one message unacknowledged; every message that was
    published and not acknowledged is ready or unacknowledged; and from there
    the workers can shut down by themselves, after which it is ready for
    redelivery. *)
Theorem consume_loses_nothing {B : Type} `{L : BrokerLaws B} (handler : QueueJob -> ST B (option gerror)) n tags waiting (b : B) s
    (Hgrows : forall job b, br_accepted b ⊆ br_accepted (handler job b).1)
    (Hrun : rtc (sstep (LB := consume_body handler (ran_to_success handler))) (start n tags waiting b) s) :
  keeps_everything (LB := consume_body handler (ran_to_success handler)) (start n tags waiting b) s.
Proof.
  eapply (consumers_keep_everything handler Hgrows); [by intros job b0|intros job b0 b1 b2 Hb [Hok Hacc]; split; [done|by etrans]|exact Hrun].
Qed.

(** [ConsumeFailed] likewise, as long as the main exchange routes every event type. *)
Theorem consume_failed_loses_nothing {B : Type} `{L : BrokerLaws B} maxAttempts n tags waiting (b : B) s
    (Hbound : forall (b : B) et, knownEventType et = true -> mainQueueFor et ∈ br_routes b exchangeMain et)
    (Hrun : rtc (sstep (LB := failed_body maxAttempts)) (start n tags waiting b) s) :
  keeps_everything (LB := failed_body maxAttempts) (start n tags waiting b) s.
Proof. eapply (workers_keep_everything (LBL := failed_body_laws maxAttempts Hbound)). exact Hrun. Qed.

(** One worker takes a message from the broker to its acknowledgement. *)
Abbreviation lone_worker tag un buf held act := (mkWorker [tag] 1 un true buf held [tag] act Running).
Lemma one_delivery {B : Type} `{Broker B, LB : !LoopBody B} msg (b b' : B) (tag := dl_ConsumerTag msg) :
  lb_process false false msg b = (b', (Ack, false)) ->
  rtc sstep (start 1 [tag] [msg] b) (mkSystem false [msg] (mkShared [] [msg] b' [(msg, b)]) [lone_worker tag [] [] [] Idle]).
Proof.
  intros Hproc.
  apply (rtc_l _ _ (mkSystem false [msg] (mkShared [] [] b []) [lone_worker tag [msg] [msg] [] Idle])).
  { apply (S_worker false [msg] _ _ [] _ _ []), (W_deliver false [] msg [] [] b [] (lone_worker tag [] [] [] Idle)); [done|left|by right; cbn; lia]. }
  apply (rtc_l _ _ (mkSystem false [msg] (mkShared [] [] b []) [lone_worker tag [msg] [] [msg] Idle])).
  { apply (S_worker false [msg] _ _ [] _ _ []), (W_read false _ [] msg [] (lone_worker tag [msg] [msg] [] Idle)); [done|left|done]. }
  apply (rtc_l _ _ (mkSystem false [msg] (mkShared [] [] b []) [lone_worker tag [msg] [] [] (Picked msg)])).
  { apply (S_worker false [msg] _ _ [] _ _ []), (W_hand false _ [] msg [] (lone_worker tag [msg] [] [msg] Idle)); [done|left|done..]. }
  apply (rtc_l _ _ (mkSystem false [msg] (mkShared [] [] b' [(msg, b)]) [lone_worker tag [msg] [] [] (Settling msg Ack false)])).
  { by apply (S_worker false [msg] _ _ [] _ _ []), (W_process false (mkShared [] [] b []) msg (lone_worker tag [msg] [] [] (Picked msg)) false b' Ack false). }
  apply rtc_once. by apply (S_worker false [msg] _ _ [] _ _ []), (W_settle false (mkShared [] [] b' [(msg, b)]) [] msg [] (lone_worker tag [msg] [] [] (Settling msg Ack false)) Ack false).
Qed.

Definition content_handler : QueueJob -> ST MemBroker (option gerror) := fun _ => mret None.
Lemma consume_loses_nothing_witness :
  exists s, rtc (sstep (LB := consume_body content_handler (ran_to_success content_handler))) (start 1 ["id-sweep"] [demo_delivery None] demo_broker) s
    /\ sh_done (sy_shared s) = [demo_delivery None] /\ keeps_everything (LB := consume_body content_handler (ran_to_success content_handler)) (start 1 ["id-sweep"] [demo_delivery None] demo_broker) s.
Proof.
  eexists. split; [exact (one_delivery (LB := consume_body content_handler (ran_to_success content_handler)) (demo_delivery None) demo_broker demo_broker eq_refl)|]. split; [reflexivity|].
  eapply (consume_loses_nothing content_handler); [intros; reflexivity|]. exact (one_delivery (LB := consume_body content_handler (ran_to_success content_handler)) (demo_delivery None) demo_broker demo_broker eq_refl).
Defined.

(** ** Lost channels

    When the connection is lost the delivery channels close, so the loop ends
    like after a shutdown and the worker reports no error. *)
Example lost_connection_ends_quietly :
  let LB := consume_body content_handler (ran_to_success content_handler) in
  let w := fresh_worker ["id-sweep"] in
  rtc (wstep (LB := LB) false) (mkShared [] [] demo_broker [], w)
    (mkShared [] [] demo_broker [], mkWorker ["id-sweep"] 1 [] false [] [] [] Idle Returned).
Proof.
  cbv zeta. pose (LB := consume_body content_handler (ran_to_success content_handler)).
  eapply rtc_l; [by apply (W_lose false (mkShared [] [] demo_broker []) (fresh_worker ["id-sweep"]))|]. cbn.
  eapply rtc_l; [by apply (W_forwarder_ends false _ [] "id-sweep" [] (mkWorker ["id-sweep"] 1 [] false [] [] ["id-sweep"] Idle Running))|]. cbn. apply rtc_once. by apply W_return.
Qed.
