(* ===== verification/Discovery.v ===== *)
(** * Proxy ingestion ([domain/proxy/service.go],
      [domain/proxy/handler/new_proxy.go], [domain/proxy/worker/worker.go])

    A [new-proxy] delivery inserts a discovered proxy unless its
    (protocol, ip, port) tuple is known.  The code is written against
    [DiscoveryEnv]; the store implements it in [StoreWorld], where any other
    process may act between the existence check and the insert.  Log records
    are left out. *)
From S2P Require Import Prelude GoErrors Contract Scheduling ProxyStore ProxyStoreFacts ProxyClaims Payloads Hub Queue.

Class DiscoveryEnv (W : Type) := {
  (* contract.ProxyRepository *)
  de_Exists : string -> string -> Z -> ST W (result bool);
  de_InsertIfAbsent : ProxyRecord -> ST W (result (Z * bool));
  (* contract.Queue *)
  de_Publish : QueueJob -> ST W (result unit);
}.

(** ** Payload (handler/handler.go) *)

Record NewProxyPayload := mkNewProxyPayload {
  np_Protocol : string;
  np_IP : string;
  np_Port : Z;
  np_Country : option string;
  np_Anonymity : option string;
  np_Source : string;
  np_UptimePercent : option Z;
}.
Definition zeroNewProxyPayload : NewProxyPayload := mkNewProxyPayload "" "" 0 None None "" None.

(** An [int] field; [null] leaves it alone. *)
Definition set_int (old : Z) (v : json) : result Z :=
  match v with
  | JInt z => if (min_int64 <=? z) && (z <=? max_int64) then Ok z else Err (ErrorString "json: cannot unmarshal number")
  | JNull => Ok old
  | _ => Err (ErrorString "json: cannot unmarshal")
  end.
(** A [*string] field; [null] sets the pointer to nil. *)
Definition set_string_ptr (v : json) : result (option string) :=
  match v with
  | JStr s => Ok (Some s)
  | JNull => Ok None
  | _ => Err (ErrorString "json: cannot unmarshal")
  end.

Section Ingestion.
(** [strconv.ParseFloat] on a number literal: the bits of the nearest
    [float64], none when it is out of range.  The code stores the value and
    never looks at it. *)
Context (ParseFloat : json -> option Z).
Context {W : Type} `{E : DiscoveryEnv W}.

Definition set_float_ptr (v : json) : result (option Z) :=
  match v with
  | JInt _ | JFloat _ =>
      match ParseFloat v with Some x => Ok (Some x) | None => Err (ErrorString "json: cannot unmarshal number") end
  | JNull => Ok None
  | _ => Err (ErrorString "json: cannot unmarshal")
  end.

Definition NewProxyPayload_field (key : string) : option (NewProxyPayload -> json -> result NewProxyPayload) :=
  if bool_decide (key = "protocol") then Some (fun p v => x ← set_string (np_Protocol p) v; mret (p{{ np_Protocol := x }}))
  else if bool_decide (key = "ip") then Some (fun p v => x ← set_string (np_IP p) v; mret (p{{ np_IP := x }}))
  else if bool_decide (key = "port") then Some (fun p v => x ← set_int (np_Port p) v; mret (p{{ np_Port := x }}))
  else if bool_decide (key = "country") then Some (fun p v => x ← set_string_ptr v; mret (p{{ np_Country := x }}))
  else if bool_decide (key = "anonymity") then Some (fun p v => x ← set_string_ptr v; mret (p{{ np_Anonymity := x }}))
  else if bool_decide (key = "source") then Some (fun p v => x ← set_string (np_Source p) v; mret (p{{ np_Source := x }}))
  else if bool_decide (key = "uptime_percent") then Some (fun p v => x ← set_float_ptr v; mret (p{{ np_UptimePercent := x }}))
  else None.
Definition unmarshal_NewProxy (v : json) : result NewProxyPayload :=
  unmarshal_struct NewProxyPayload_field zeroNewProxyPayload v.

(** ** Service.ProcessNewProxy *)
Definition ProcessNewProxy (p : NewProxyPayload) : ST W (result unit) :=
  checked ← de_Exists (np_Protocol p) (np_IP p) (np_Port p);
  match checked with
  | Err e => mret (Err e)
  | Ok true => mret (Ok tt)
  | Ok false =>
      let rec := zeroProxyRecord{{ pr_Protocol := np_Protocol p; pr_IP := np_IP p; pr_Port := np_Port p;
                   pr_Country := np_Country p; pr_Anonymity := np_Anonymity p; pr_Source := np_Source p;
                   pr_UptimePercent := np_UptimePercent p }} in
      inserted ← de_InsertIfAbsent rec;
      match inserted with
      | Err e => mret (Err e)
      | Ok _ => mret (Ok tt)
      end
  end.

(** ** NewProxy.Handle *)
Definition NewProxy_Handle (payload : json) : ST W (result (list QueueJob)) :=
  match unmarshal_NewProxy payload with
  | Err e => mret (Err (ErrWrap "new-proxy payload" e))
  | Ok p =>
      r ← ProcessNewProxy p;
      match r with Err e => mret (Err e) | Ok _ => mret (Ok []) end
  end.

(** ** Worker: the registry, [processJob] and [RunEvents] *)

Definition Registry := gmap string (json -> ST W handler_answer).
Definition proxyRegistry : Registry :=
  {[ EventNewProxy := fun payload => r ← NewProxy_Handle payload; mret (Returned r) ]}.

Fixpoint worker_publishNext (next : list QueueJob) : ST W (result unit) :=
  match next with
  | [] => mret (Ok tt)
  | job :: next => r ← de_Publish job; match r with Err e => mret (Err e) | Ok _ => worker_publishNext next end
  end.

Definition worker_processJob (handlers : Registry) (job : QueueJob) : ST W (result unit) :=
  match handlers !! qj_Type job with
  | None => mret (Err (ErrorString ("no handler registered for event " +:+ qj_Type job)))
  | Some h =>
      a ← h (qj_Payload job);
      match (match a with Returned r => r | HandlerPanicked => Err (ErrorString "worker panic") end) with
      | Err e => mret (Err e)
      | Ok next => worker_publishNext next
      end
  end.

(** [RunEvents] on the deliveries [Consume] makes; [settle] is told each
    delivery's error. *)
Definition worker_RunEvents (handlers : Registry) (settle : QueueJob -> result unit -> ST W unit)
    (eventTypes : list string) (jobs : list QueueJob) : ST W (result unit) :=
  let eventTypes := match eventTypes with [] => [EventNewProxy] | _ => eventTypes end in
  match list_find (fun t => handlers !! t = None) eventTypes with
  | Some (_, t) => mret (Err (ErrorString ("no handler registered for event " +:+ t)))
  | None =>
      (fix consume (jobs : list QueueJob) : ST W (result unit) :=
         match jobs with
         | [] => mret (Ok tt)
         | job :: jobs => r ← worker_processJob handlers job; _ ← settle job r; consume jobs
         end) jobs
  end.
End Ingestion.

(** ** The store as the repository *)

(** Other processes run [sw_others n] before this worker's [n]th call. *)
Record StoreWorld := mkStoreWorld {
  sw_policy : ProxyScanPolicy;
  sw_db : ProxyDB;
  sw_calls : nat;
  sw_others : nat -> list store_op;
  sw_time : nat -> Z;
  sw_fault : nat -> fault;
  sw_answer : nat -> result unit;
}.
Definition store_now (w : StoreWorld) : ProxyDB := run_ops (sw_policy w) (sw_db w) (sw_others w (sw_calls w)).
Definition store_next (w : StoreWorld) (db : ProxyDB) : StoreWorld := w{{ sw_db := db; sw_calls := S (sw_calls w) }}.

#[export] Instance StoreWorld_env : DiscoveryEnv StoreWorld := {|
  de_Exists protocol ip port := fun w =>
    (store_next w (store_now w), Exists (store_now w) (sw_fault w (sw_calls w)) protocol ip port);
  de_InsertIfAbsent rec := fun w =>
    let '(db, r) := InsertIfAbsent (store_now w) (sw_fault w (sw_calls w)) (sw_time w (sw_calls w)) rec in
    (store_next w db, r);
  de_Publish job := fun w => (store_next w (store_now w), sw_answer w (sw_calls w));
|}.

(** The unique key [(protocol, ip, port)]. *)
Definition tuple (r : ProxyRecord) : string * string * Z := (pr_Protocol r, pr_IP r, pr_Port r).
Definition payload_tuple (p : NewProxyPayload) : string * string * Z := (np_Protocol p, np_IP p, np_Port p).
Definition tuples_unique (db : ProxyDB) : Prop :=
  forall i j r s, db_rows db !! i = Some r -> db_rows db !! j = Some s -> tuple r = tuple s -> i = j.
Definition known (db : ProxyDB) (t : string * string * Z) : Prop :=
  exists j r, db_rows db !! j = Some r /\ tuple r = t.

(** A row as discovery leaves it: no health evidence, lock or lease. *)
Definition unverified (r : ProxyRecord) : Prop :=
  pr_GeneralHealthy r = false /\ pr_Status r = ProxyStatusInactive /\ pr_LastVerifiedAt r = None
  /\ pr_LastAliveAt r = None /\ pr_ScanToken r = None /\ pr_LockedBy r = None /\ pr_FailCount r = 0.

Lemma row_change_tuple pol op j r r' : row_change pol op j r r' -> tuple r' = tuple r.
Proof.
  intros Hc. destruct Hc as [r|r|r|r|r|r|r f now lease u set _ _ _ ->|r|r]; try done.
  - destruct (su_Outcome u); try done. by destruct (failureStatus r now u).
  - by destruct (failureStatus r now u).
Qed.

Lemma known_rows db t : table_ok db -> known db t <->
  existsb (fun p => bool_decide (pr_Protocol p = t.1.1) && bool_decide (pr_IP p = t.1.2) && (pr_Port p =? t.2)) (rows_list db) = true.
Proof.
  intros Hok. destruct t as [[protocol ip] port]. cbn [fst snd]. rewrite existsb_exists. split.
  - intros (j & r & Hr & Ht). exists r. unfold tuple in Ht. simplify_eq. split.
    + apply list_elem_of_In, rows_list_lookup; [done|]. by destruct (Hok _ _ Hr) as [[-> _] _].
    + rewrite !bool_decide_true, Z.eqb_refl by done. done.
  - intros (r & Hin & Ht). bsplit. apply list_elem_of_In, rows_list_lookup in Hin; [|done].
    exists (pr_ID r), r. split; [done|]. unfold tuple. by simplify_eq.
Qed.

Lemma InsertIfAbsent_inserts db now rec : table_ok db -> known (InsertIfAbsent db NoFault now rec).1 (tuple rec).
Proof.
  intros Hok. unfold InsertIfAbsent. cbn. destruct (existsb _ _) eqn:Hex.
  - apply (known_rows db (tuple rec) Hok) in Hex as (j & r & Hr & Ht). exists j, r. by destruct db.
  - exists (db_seq db). eexists. split; [cbn; apply lookup_insert_eq|]. done.
Qed.

(** The insert's own row. *)
Lemma InsertIfAbsent_row db f now rec j r' :
  table_ok db -> db_rows (InsertIfAbsent db f now rec).1 !! j = Some r' -> db_rows db !! j = None ->
  tuple r' = tuple rec /\ ~ known db (tuple rec) /\ unverified r'.
Proof.
  intros Hok Hr' Hj. rewrite (known_rows db (tuple rec) Hok). cbn [tuple fst snd].
  unfold InsertIfAbsent in Hr'. destruct db as [m n]. destruct f; cbn in *; [|congruence|];
    (destruct (existsb _ _); cbn in *; [congruence|]; rewrite lookup_insert in Hr'; case_decide; [|congruence];
     simplify_eq; unfold unverified, tuple; cbn; naive_solver).
Qed.

Lemma InsertIfAbsent_keeps db f now rec j r :
  table_ok db -> db_rows db !! j = Some r -> db_rows (InsertIfAbsent db f now rec).1 !! j = Some r.
Proof.
  intros Hok Hr. destruct (apply_op_row demo_policy db (OpInsert f now rec) j r Hok Hr) as (r' & Hr' & Hc).
  cbn [apply_op] in Hr'. rewrite Hr'. f_equal.
  by inversion Hc; subst; try done; destruct_or?; naive_solver.
Qed.

Lemma apply_op_unique pol db op : table_ok db -> tuples_unique db -> tuples_unique (apply_op pol db op).
Proof.
  intros Hok Hu.
  (* a row of the new table is an old row, or the fresh row of an insert *)
  assert (Hrow : forall j r', db_rows (apply_op pol db op) !! j = Some r' ->
    (exists r, db_rows db !! j = Some r /\ tuple r' = tuple r) \/
    (j = db_seq db /\ ~ known db (tuple r'))).
  { intros j r' Hr'. destruct (db_rows db !! j) as [r|] eqn:Hj.
    - left. exists r. split; [done|]. destruct (apply_op_row pol db op j r Hok Hj) as (r2 & Hr2 & Hc). simplify_eq.
      by eapply row_change_tuple.
    - right. destruct (is_insert op) eqn:Hi; [|by rewrite apply_op_absent in Hr'].
      destruct op as [f now rec| | | | | | | |]; try done. cbn [apply_op] in Hr'.
      destruct (InsertIfAbsent_new _ _ _ _ _ _ Hr' Hj) as (-> & _). split; [done|].
      destruct (InsertIfAbsent_row _ _ _ _ _ _ Hok Hr' Hj) as (-> & Hn & _). done. }
  intros i j r s Hr Hs Ht.
  destruct (Hrow i r Hr) as [(r0 & Hr0 & Hr0t)|[-> Hn]], (Hrow j s Hs) as [(s0 & Hs0 & Hs0t)|[-> Hn']]; [|..|done].
  - apply (Hu i j r0 s0); congruence.
  - destruct Hn'. exists i, r0. split; [done|congruence].
  - destruct Hn. exists j, s0. split; [done|congruence].
Qed.

Lemma run_ops_unique pol ops : forall db, table_ok db -> tuples_unique db ->
  table_ok (run_ops pol db ops) /\ tuples_unique (run_ops pol db ops).
Proof.
  induction ops as [|op ops IH]; intros db Hok Hu; [by split|].
  apply IH; [by apply apply_op_ok|by apply apply_op_unique].
Qed.

(** ** Deliveries *)

(** The table the other processes alone have made after [k] more calls. *)
Definition others_db (w : StoreWorld) (k : nat) : ProxyDB :=
  run_ops (sw_policy w) (sw_db w) (concat (sw_others w <$> seq (sw_calls w) k)).
Lemma others_db_1 w : others_db w 1 = store_now w.
Proof. unfold others_db, store_now. cbn. by rewrite app_nil_r. Qed.
Lemma others_db_2 w : others_db w 2 = store_now (store_next w (store_now w)).
Proof. destruct w. unfold others_db, store_now, store_next, run_ops. cbn. by rewrite app_nil_r, fold_left_app. Qed.

Definition discovered (p : NewProxyPayload) : ProxyRecord :=
  zeroProxyRecord{{ pr_Protocol := np_Protocol p; pr_IP := np_IP p; pr_Port := np_Port p;
    pr_Country := np_Country p; pr_Anonymity := np_Anonymity p; pr_Source := np_Source p;
    pr_UptimePercent := np_UptimePercent p }}.

Lemma others_db_ok w k : table_ok (sw_db w) -> tuples_unique (sw_db w) ->
  table_ok (others_db w k) /\ tuples_unique (others_db w k).
Proof. intros Hok Hu. by apply run_ops_unique. Qed.

Lemma store_next_db w db : sw_db (store_next w db) = db.
Proof. by destruct w. Qed.

(** [ProcessNewProxy] leaves the table alone, or makes one insert. *)
Lemma ProcessNewProxy_store w p w' r : ProcessNewProxy p w = (w', r) ->
  (sw_db w' = others_db w 1 /\ (r = Ok tt ->
     exists f, Exists (others_db w 1) f (np_Protocol p) (np_IP p) (np_Port p) = Ok true))
  \/ (exists f now, sw_db w' = (InsertIfAbsent (others_db w 2) f now (discovered p)).1 /\
       (r = Ok tt -> f = NoFault)).
Proof.
  rewrite others_db_1, others_db_2. unfold ProcessNewProxy. rewrite ST_bind_eq. cbn [de_Exists StoreWorld_env fst snd].
  destruct (Exists (store_now w) _ _ _ _) as [[|]|e] eqn:He; cbn [mret]; intros Hrun.
  - left. apply (f_equal fst) in Hrun as Hw. cbn in Hw. subst w'. split; [apply store_next_db|]. intros _. by exists (sw_fault w (sw_calls w)).
  - right. rewrite ST_bind_eq in Hrun. cbn [de_InsertIfAbsent StoreWorld_env] in Hrun.
    set (w1 := store_next w (store_now w)) in *. fold (discovered p) in Hrun.
    destruct (InsertIfAbsent (store_now w1) _ _ (discovered p)) as [db ri] eqn:Hi. cbn [fst snd] in Hrun.
    exists (sw_fault w1 (sw_calls w1)), (sw_time w1 (sw_calls w1)). rewrite Hi.
    split; [apply (f_equal fst) in Hrun; destruct ri; cbn [fst mret ST_ret] in Hrun; subst w'; apply store_next_db|].
    intros ->. destruct ri as [a|e]; [|done]. by apply with_fault_Ok in Hi as [-> _].
  - left. apply (f_equal fst) in Hrun as Hw. apply (f_equal snd) in Hrun as Hr. cbn in Hw, Hr. subst.
    split; [apply store_next_db|done].
Qed.

Lemma proxyRegistry_new {W} `{DiscoveryEnv W} PF :
  (proxyRegistry PF : Registry (W := W)) !! EventNewProxy = Some (fun payload => r ← NewProxy_Handle PF payload; mret (Returned r)).
Proof. exact (lookup_singleton_eq (M := gmap string) _ _). Qed.

(** What a decoded delivery guarantees. *)
Lemma ProcessNewProxy_delivery w p w' r : table_ok (sw_db w) -> tuples_unique (sw_db w) ->
  ProcessNewProxy p w = (w', r) ->
  table_ok (sw_db w') /\ tuples_unique (sw_db w') /\ (r = Ok tt -> known (sw_db w') (payload_tuple p))
  /\ exists k,
       (forall j row, db_rows (others_db w k) !! j = Some row -> db_rows (sw_db w') !! j = Some row)
       /\ (forall j row, db_rows (sw_db w') !! j = Some row -> db_rows (others_db w k) !! j = None ->
            tuple row = payload_tuple p /\ unverified row).
Proof.
  intros Hok Hu Hrun. destruct (ProcessNewProxy_store w p w' r Hrun) as [[Hdb Hex]|(f & now & Hdb & Hf)].
  - destruct (others_db_ok w 1 Hok Hu) as [Hok' Hu']. rewrite Hdb. split; [done|]. split; [done|]. split.
    + intros Hr. destruct (Hex Hr) as [f Hf]. apply (known_rows _ (payload_tuple p) Hok'). cbn [payload_tuple fst snd].
      unfold Exists, read_fault in Hf. by destruct f; simplify_eq/=.
    + exists 1%nat. split; [done|congruence].
  - destruct (others_db_ok w 2 Hok Hu) as [Hok' Hu']. rewrite Hdb.
    split; [apply (apply_op_ok demo_policy _ (OpInsert f now (discovered p)) Hok')|].
    split; [apply (apply_op_unique demo_policy _ (OpInsert f now (discovered p)) Hok' Hu')|]. split.
    + intros Hr. rewrite (Hf Hr). by apply (InsertIfAbsent_inserts (others_db w 2) now (discovered p)).
    + exists 2%nat. split; [by intros; apply InsertIfAbsent_keeps|]. intros j row Hrow Hj.
      by destruct (InsertIfAbsent_row _ _ _ _ _ _ Hok' Hrow Hj) as (? & _ & ?).
Qed.

(** A payload the decoder refuses is not marked as poison. *)
Lemma unmarshal_NewProxy_plain PF payload e s : unmarshal_NewProxy PF payload = Err e -> errors_Is e s = false.
Proof.
  unfold unmarshal_NewProxy, unmarshal_struct. destruct payload; try (intros; by simplify_eq).
  assert (Hset : forall key set p v e, NewProxyPayload_field PF key = Some set -> set p v = Err e -> errors_Is e s = false).
  { intros key set p v e0 Hf He. unfold NewProxyPayload_field in Hf.
    repeat case_bool_decide; simplify_eq; destruct v; cbn in He; repeat case_match; cbn in *; by simplify_eq. }
  generalize zeroNewProxyPayload as p. induction l as [|[key v] l IH]; intros p; cbn [fold_left]; [done|].
  cbn [fst snd]. destruct (NewProxyPayload_field PF (ToLower key)) as [set|] eqn:Hf; [|apply IH].
  destruct (set p v) as [p'|e'] eqn:Hs; [apply IH|]. intros Hl. apply (Hset _ _ _ _ _ Hf) in Hs.
  revert Hl. clear -Hs. induction l as [|kv l IH]; cbn [fold_left]; [by intros; simplify_eq|]. apply IH.
Qed.

(** A [new-proxy] delivery inserts a discovered proxy at most once
    and gives it no health.  Whatever other processes do before the existence
    check and between it and the insert, and whichever of the two statements
    the database refuses or answers too late: the (protocol, ip, port) tuples
    stay unique; the delivery is acknowledged only with the payload's tuple in
    the table; it changes no row the other processes left, and a row it adds
    carries the tuple and no evidence, lock or lease, so that only a scan can
    make it usable.  A payload that does not decode changes nothing and its
    error is not classified as poison, so the queue retries it for ever. *)
Theorem discovery_inserts_once (ParseFloat : json -> option Z) (payload : json) (w : StoreWorld)
    (Hok : table_ok (sw_db w)) (Hu : tuples_unique (sw_db w)) :
  let '(w', r) := worker_processJob (proxyRegistry ParseFloat) (mkQueueJob EventNewProxy payload) w in
  table_ok (sw_db w') /\ tuples_unique (sw_db w')
  /\ match unmarshal_NewProxy ParseFloat payload with
     | Err _ => sw_db w' = sw_db w
         /\ exists err, r = Err err /\ forall n, failureDecision err n = mkFailureOutcome false (retryBackoffSec n)
     | Ok p => (r = Ok tt -> known (sw_db w') (payload_tuple p))
         /\ exists k,
              (forall j row, db_rows (others_db w k) !! j = Some row -> db_rows (sw_db w') !! j = Some row)
              /\ (forall j row, db_rows (sw_db w') !! j = Some row -> db_rows (others_db w k) !! j = None ->
                   tuple row = payload_tuple p /\ unverified row)
     end.
Proof.
  unfold worker_processJob. cbn [qj_Type qj_Payload]. rewrite proxyRegistry_new.
  rewrite !ST_bind_eq. unfold NewProxy_Handle. destruct (unmarshal_NewProxy ParseFloat payload) as [p|e] eqn:Hp.
  - rewrite ST_bind_eq. destruct (ProcessNewProxy p w) as [w' r] eqn:Hrun.
    enough (Hg : table_ok (sw_db w') /\ tuples_unique (sw_db w') /\ (r = Ok tt -> known (sw_db w') (payload_tuple p))
         /\ exists k,
              (forall j row, db_rows (others_db w k) !! j = Some row -> db_rows (sw_db w') !! j = Some row)
              /\ (forall j row, db_rows (sw_db w') !! j = Some row -> db_rows (others_db w k) !! j = None ->
                   tuple row = payload_tuple p /\ unverified row)) by (by destruct r as [[]|]).
    by apply ProcessNewProxy_delivery.
  - cbn. split; [done|]. split; [done|]. split; [done|]. eexists. split; [done|]. intros n.
    unfold failureDecision. rewrite !errors_Is_wrap, !(unmarshal_NewProxy_plain _ _ _ _ Hp). done.
Qed.

(** ** Two processes racing for one tuple *)

Definition demo_payload : json :=
  JObj [("protocol", JStr "http"); ("ip", JStr "10.0.0.9"); ("port", JInt 3128); ("source", JStr "list")].
Definition no_floats (v : json) : option Z := None.
(** The other process inserts the same tuple after this one's existence
    check. *)
Definition race_world : StoreWorld := {|
  sw_policy := demo_policy; sw_db := demo_db; sw_calls := 0;
  sw_others := fun n => match n with
    | 1%nat => [OpInsert NoFault 7 (zeroProxyRecord{{ pr_Protocol := "http"; pr_IP := "10.0.0.9"; pr_Port := 3128 }})]
    | _ => []
    end;
  sw_time := fun _ => 8; sw_fault := fun _ => NoFault; sw_answer := fun _ => Ok tt |}.

Lemma discovery_inserts_once_witness :
  let '(w', r) := worker_processJob (proxyRegistry no_floats) (mkQueueJob EventNewProxy demo_payload) race_world in
  r = Ok tt /\ size (db_rows (sw_db w')) = 3%nat /\ tuples_unique (sw_db w').
Proof.
  assert (Hu : tuples_unique demo_db).
  { apply (run_ops_unique demo_policy); [apply empty_db_ok|]. intros i j r s Hr. discriminate Hr. }
  pose proof (discovery_inserts_once no_floats demo_payload race_world demo_db_ok Hu) as H.
  destruct (worker_processJob _ _ _) as [w' r] eqn:E. destruct H as (_ & H & _).
  split; [|split; [|exact H]].
  - apply (f_equal snd) in E. vm_compute in E. subst r. reflexivity.
  - apply (f_equal (fun x => size (db_rows (sw_db x.1)))) in E. vm_compute in E. cbn [fst] in E. symmetry. exact E.
Defined.

(** An undecodable payload is retried, not parked. *)
Example malformed_payload_retried :
  (worker_processJob (proxyRegistry no_floats) (mkQueueJob EventNewProxy (JMalformed "{")) race_world).2
    = Err (ErrWrap "new-proxy payload" (ErrorString "json: cannot unmarshal")).
Proof. reflexivity. Qed.
