(* ===== verification/Snapshot.v ===== *)
(** * The UI statistics snapshot ([port/contract/ui_stats_repository.go],
      [domain/census/ui_stats.go])

    The read model behind the aggregate pages: scoped group counts, expansion
    counts and the daily series of new characters, with the validation every
    snapshot passes before it is published or served, and the selections the
    pages make from it. *)
From S2P Require Import Prelude GoErrors GoStrings Contract Dates Payloads Worlds.

(** ** Data *)

Definition UIStatsSchemaVersion : Z := 2.

Record StatsScope := mkStatsScope { sc_Region : string; sc_Datacenter : string; sc_World : string }.
Global Instance StatsScope_eq_dec : EqDecision StatsScope.
Proof. solve_decision. Defined.
Definition zeroScope : StatsScope := mkStatsScope "" "" "".

Record StatsSummary := mkStatsSummary { su_Total : Z; su_Active : Z; su_MaxLevel : Z }.
Record ScopedGroupCount := mkScopedGroup {
  sg_Scope : StatsScope; sg_Dimension : string; sg_Key : string; sg_Total : Z; sg_Active : Z;
}.
Record ScopedExpansionCount := mkScopedExpansion { se_Scope : StatsScope; se_Expansion : string; se_Count : Z }.
Record ScopedDailyCount := mkScopedDaily { sd_Scope : StatsScope; sd_Day : string; sd_Count : Z }.

Record UIStatsSnapshot := mkSnapshot {
  ss_SchemaVersion : Z;
  ss_GeneratedAt : Z;
  ss_ActivitySince : Z;
  ss_MaxLevel : Z;
  ss_SourceCharacters : Z;
  ss_RefreshDuration : Z;
  ss_Groups : list ScopedGroupCount;
  ss_Expansions : list ScopedExpansionCount;
  ss_NewCharacters : list ScopedDailyCount;
  ss_Summary : StatsSummary;
}.

Record UIStatsRefreshOptions := mkRefreshOptions { ro_ActivitySince : Z; ro_MaxLevel : Z; ro_Timeout : Z }.
(** [*UIStatsRefreshResult]; the payload length is only measured. *)
Record UIStatsRefreshResult := mkRefreshResult { rr_Snapshot : option UIStatsSnapshot; rr_Skipped : bool }.

Definition ErrUIStatsUnavailable : gerror := ErrSentinel GoErrors.ErrUIStatsUnavailable.

(** ** Validation *)

Definition nul : string := bytes [0%nat].
Definition scopeKey (scope : StatsScope) : string := sc_Region scope +:+ nul +:+ sc_Datacenter scope +:+ nul +:+ sc_World scope.
Definition group_key (g : ScopedGroupCount) : string := scopeKey (sg_Scope g) +:+ nul +:+ sg_Dimension g +:+ nul +:+ sg_Key g.
Definition expansion_key (e : ScopedExpansionCount) : string := scopeKey (se_Scope e) +:+ nul +:+ se_Expansion e.
Definition day_key (d : ScopedDailyCount) : string := scopeKey (sd_Scope d) +:+ nul +:+ sd_Day d.

(** A validation loop: each element passes its own test and has a key no
    earlier element had. *)
Fixpoint validate_loop {A} (invalid : A -> option gerror) (key : A -> string) (duplicate : string)
    (seen : gset string) (l : list A) : result unit :=
  match l with
  | [] => Ok tt
  | x :: l =>
      match invalid x with
      | Some e => Err e
      | None => if bool_decide (key x ∈ seen) then Err (ErrorString duplicate)
                else validate_loop invalid key duplicate ({[ key x ]} ∪ seen) l
      end
  end.

Definition invalid_group (g : ScopedGroupCount) : option gerror :=
  if bool_decide (sg_Dimension g = "") || (sg_Total g <? 0) || (sg_Active g <? 0) || (sg_Total g <? sg_Active g)
  then Some (ErrorString "invalid UI statistics group") else None.
Definition invalid_expansion (e : ScopedExpansionCount) : option gerror :=
  if bool_decide (se_Expansion e = "") || (se_Count e <? 0) then Some (ErrorString "invalid UI statistics expansion") else None.
Definition invalid_day (d : ScopedDailyCount) : option gerror :=
  if sd_Count d <? 0 then Some (ErrorString "invalid UI statistics daily count")
  else match parse_day (sd_Day d) with
       | None => Some (ErrorString "invalid UI statistics day")
       | Some _ => None
       end.

Definition ValidateUIStatsSnapshot (snapshot : option UIStatsSnapshot) : result unit :=
  match snapshot with
  | None => Err ErrUIStatsUnavailable
  | Some s =>
      if negb (ss_SchemaVersion s =? UIStatsSchemaVersion) then Err (ErrorString "unsupported UI statistics schema version")
      else if is_zero_time (ss_GeneratedAt s) || is_zero_time (ss_ActivitySince s) then
        Err (ErrorString "UI statistics timestamps must be set")
      else if (ss_SourceCharacters s <? 0) || (su_Total (ss_Summary s) <? 0) || (su_Active (ss_Summary s) <? 0)
              || (su_MaxLevel (ss_Summary s) <? 0) then
        Err (ErrorString "UI statistics summary counts cannot be negative")
      else if (su_Total (ss_Summary s) <? su_Active (ss_Summary s)) || (su_Total (ss_Summary s) <? su_MaxLevel (ss_Summary s)) then
        Err (ErrorString "UI statistics summary subset exceeds total")
      else
        _ ← validate_loop invalid_group group_key "duplicate UI statistics group" ∅ (ss_Groups s);
        _ ← validate_loop invalid_expansion expansion_key "duplicate UI statistics expansion" ∅ (ss_Expansions s);
        validate_loop invalid_day day_key "duplicate UI statistics day" ∅ (ss_NewCharacters s)
  end.

(** ** Selections *)

(** The comparisons given to [sort.Slice], as total preorders. *)
Definition group_before (a b : GroupCount) : Prop :=
  gc_Total b < gc_Total a \/ (gc_Total a = gc_Total b /\ String.le (gc_Key a) (gc_Key b)).
Definition expansion_before (a b : ExpansionCount) : Prop := String.le (ec_Expansion a) (ec_Expansion b).
Definition day_before (a b : DailyCount) : Prop := String.le (dc_Day a) (dc_Day b).
Global Instance group_before_dec : RelDecision group_before.
Proof. intros a b. unfold group_before. apply _. Defined.
Global Instance expansion_before_dec : RelDecision expansion_before.
Proof. intros a b. unfold expansion_before. apply _. Defined.
Global Instance day_before_dec : RelDecision day_before.
Proof. intros a b. unfold day_before. apply _. Defined.

Definition SnapshotGroups (snapshot : option UIStatsSnapshot) (dimension : string) (scope : StatsScope) : list GroupCount :=
  match snapshot with
  | None => []
  | Some s => merge_sort group_before ((fun g => mkGroupCount (sg_Key g) (sg_Total g) (sg_Active g)) <$>
                filter (fun g => sg_Dimension g = dimension /\ sg_Scope g = scope) (ss_Groups s))
  end.
Definition SnapshotExpansions (snapshot : option UIStatsSnapshot) (scope : StatsScope) : list ExpansionCount :=
  match snapshot with
  | None => []
  | Some s => merge_sort expansion_before ((fun e => mkExpansionCount (se_Expansion e) (se_Count e)) <$>
                filter (fun e => se_Scope e = scope) (ss_Expansions s))
  end.
Definition SnapshotDaily (snapshot : option UIStatsSnapshot) (scope : StatsScope) : list DailyCount :=
  match snapshot with
  | None => []
  | Some s => merge_sort day_before ((fun d => mkDailyCount (sd_Day d) (sd_Count d)) <$>
                filter (fun d => sd_Scope d = scope) (ss_NewCharacters s))
  end.

(** ** The new-character windows *)

Record NewCharacterTotals := mkTotals { nt_Current : Z; nt_Previous : Z; nt_StartDay : string }.

Definition worldSet (scope : StatsScope) : gset string :=
  if negb (bool_decide (sc_World scope = "")) then {[ canonicalWorld (sc_World scope) ]}
  else if negb (bool_decide (sc_Datacenter scope = "")) then list_to_set (WorldsForDatacenter (sc_Datacenter scope))
  else if negb (bool_decide (sc_Region scope = "")) then list_to_set (WorldsForRegion (sc_Region scope))
  else ∅.

(** Whether a row of the series counts for the scope. *)
Definition day_selected (scope : StatsScope) (d : ScopedDailyCount) : bool :=
  if bool_decide (scope = zeroScope) then bool_decide (sd_Scope d = zeroScope)
  else negb (bool_decide (sc_World (sd_Scope d) = "")) && bool_decide (sc_World (sd_Scope d) ∈ worldSet scope).

Definition add_day (scope : StatsScope) (end_ : Z) (totals : NewCharacterTotals) (d : ScopedDailyCount) : NewCharacterTotals :=
  if negb (day_selected scope d) then totals
  else match parse_day (sd_Day d) with
       | None => totals
       | Some parsed =>
           if (end_ - 29 <=? parsed) && (parsed <=? end_) then totals{{ nt_Current := i64 (nt_Current totals + sd_Count d) }}
           else if (end_ - 59 <=? parsed) && (parsed <? end_ - 29) then totals{{ nt_Previous := i64 (nt_Previous totals + sd_Count d) }}
           else totals
       end.

(** Days are whole numbers here: the window ends on the day of generation. *)
Definition NewCharactersWindow (snapshot : option UIStatsSnapshot) (scope : StatsScope) : NewCharacterTotals :=
  match snapshot with
  | None => mkTotals 0 0 ""
  | Some s =>
      let end_ := day_of (ss_GeneratedAt s) in
      fold_left (add_day scope end_) (ss_NewCharacters s) (mkTotals 0 0 (format_day (end_ - 29)))
  end.

(** ** Facts about validation *)

Lemma validate_loop_ok {A} (invalid : A -> option gerror) key dup seen l :
  validate_loop invalid key dup seen l = Ok tt <->
  (forall x, x ∈ l -> invalid x = None) /\ NoDup (key <$> l) /\ (forall x, x ∈ l -> key x ∉ seen).
Proof.
  revert seen. induction l as [|x l IH]; intros seen; cbn [validate_loop fmap list_fmap].
  - split; [|done]. intros _. split; [|split; [constructor|]]; intros y Hy; by apply elem_of_nil in Hy.
  - rewrite list.NoDup_cons. setoid_rewrite elem_of_cons. split.
    + intros H. destruct (invalid x) eqn:Hx; [done|]. case_bool_decide as Hs; [done|].
      apply IH in H as (H1 & H2 & H3). split_and!; [naive_solver| |done|].
      * rewrite list_elem_of_fmap. intros (y & Hk & Hy). apply (H3 y Hy). set_solver.
      * intros y [->|Hy]; [done|]. specialize (H3 y Hy). set_solver.
    + intros (H1 & [Hx H2] & H3). rewrite (H1 x) by auto. rewrite bool_decide_false by auto. apply IH. split_and!; [auto|done|].
      intros y Hy Hin. apply elem_of_union in Hin as [Hin|Hin]; [|by apply (H3 y); auto].
      apply Hx. apply list_elem_of_fmap. exists y. set_solver.
Qed.

(** What a valid snapshot satisfies. *)
Record snapshot_ok (s : UIStatsSnapshot) : Prop := {
  so_version : ss_SchemaVersion s = UIStatsSchemaVersion;
  so_times : ss_GeneratedAt s <> zero_time /\ ss_ActivitySince s <> zero_time;
  so_source : 0 <= ss_SourceCharacters s;
  so_summary : 0 <= su_Active (ss_Summary s) <= su_Total (ss_Summary s) /\ 0 <= su_MaxLevel (ss_Summary s) <= su_Total (ss_Summary s);
  so_groups : forall g, g ∈ ss_Groups s -> sg_Dimension g <> "" /\ 0 <= sg_Active g <= sg_Total g;
  so_group_keys : NoDup (group_key <$> ss_Groups s);
  so_expansions : forall e, e ∈ ss_Expansions s -> se_Expansion e <> "" /\ 0 <= se_Count e;
  so_expansion_keys : NoDup (expansion_key <$> ss_Expansions s);
  so_days : forall d, d ∈ ss_NewCharacters s -> 0 <= sd_Count d /\ is_Some (parse_day (sd_Day d));
  so_day_keys : NoDup (day_key <$> ss_NewCharacters s);
}.

Lemma invalid_group_None g : invalid_group g = None <-> sg_Dimension g <> "" /\ 0 <= sg_Active g <= sg_Total g.
Proof.
  unfold invalid_group. destruct (bool_decide (sg_Dimension g = "") || _ || _ || _) eqn:Hb; split; try done.
  - intros (Hd & ?). rewrite bool_decide_false in Hb by done. cbn in Hb. zbool; try done; lia.
  - intros _. bsplit. split; [done|lia].
Qed.
Lemma invalid_expansion_None e : invalid_expansion e = None <-> se_Expansion e <> "" /\ 0 <= se_Count e.
Proof.
  unfold invalid_expansion. destruct (bool_decide (se_Expansion e = "") || _) eqn:Hb; split; try done.
  - intros (Hd & ?). rewrite bool_decide_false in Hb by done. cbn in Hb. zbool; try done; lia.
  - intros _. bsplit. split; [done|lia].
Qed.
Lemma invalid_day_None d : invalid_day d = None <-> 0 <= sd_Count d /\ is_Some (parse_day (sd_Day d)).
Proof.
  unfold invalid_day. destruct (Z.ltb_spec (sd_Count d) 0); [split; [done|lia]|].
  destruct (parse_day (sd_Day d)); split; intros H'; try done; by destruct H' as [_ []].
Qed.

Lemma ValidateUIStatsSnapshot_ok s : ValidateUIStatsSnapshot (Some s) = Ok tt <-> snapshot_ok s.
Proof.
  unfold ValidateUIStatsSnapshot, is_zero_time. cbn [mbind result_bind]. split.
  - intros H. destruct (ss_SchemaVersion s =? _) eqn:H1 in H; [|done]. cbn in H.
    destruct ((ss_GeneratedAt s =? _) || _) eqn:H2 in H; [done|].
    destruct ((ss_SourceCharacters s <? 0) || _ || _ || _) eqn:H3 in H; [done|].
    destruct ((_ <? _) || (_ <? _)) eqn:H4 in H; [done|].
    destruct (validate_loop invalid_group _ _ _ _) as [[]|] eqn:H5 in H; [|done].
    destruct (validate_loop invalid_expansion _ _ _ _) as [[]|] eqn:H6 in H; [|done].
    apply validate_loop_ok in H5 as (H5 & H5' & _), H6 as (H6 & H6' & _), H as (H7 & H7' & _). bsplit.
    constructor; try done; try lia; intros x Hx; [by apply invalid_group_None, H5|by apply invalid_expansion_None, H6|by apply invalid_day_None, H7].
  - intros [Hv [Hg Ha] Hs Hsu H5 H5' H6 H6' H7 H7']. rewrite Hv, Z.eqb_refl. cbn [negb].
    rewrite (proj2 (Z.eqb_neq _ _) Hg), (proj2 (Z.eqb_neq _ _) Ha). cbn [orb].
    rewrite !(proj2 (Z.ltb_ge _ _)) by lia. cbn [orb].
    rewrite (proj2 (validate_loop_ok invalid_group _ _ _ _)), (proj2 (validate_loop_ok invalid_expansion _ _ _ _));
      [apply validate_loop_ok| |]; (split_and!; [intros x Hx|done|set_solver]);
      [by apply invalid_day_None, H7|by apply invalid_expansion_None, H6|by apply invalid_group_None, H5].
Qed.
