(* ===== verification/CharacterStore.v ===== *)
(** * The census tables ([infrastructure/postgres/repository/character.go],
      [achievement.go])

    Characters with their jobs, gear and milestones, the milestone registry
    and the two sweep cursors.  Statements are functions of the tables; a
    driver [fault] is handled as for the proxy table. *)
From S2P Require Import Prelude GoErrors GoStrings Contract.

(** ** Tables *)

(** [contract.CharacterGearRecord]. *)
Record CharacterGearRecord := mkGear {
  ge_CharacterID : Z; ge_Slot : string; ge_ItemID : Z; ge_Name : string; ge_ItemLevel : Z;
  ge_Dye : option string; ge_Materia : list string; ge_UpdatedAt : Z;
}.

(** A row of [character_gear]; materia is one comma-separated text. *)
Record gearRow := mkGearRow {
  gw_ItemID : Z; gw_Name : string; gw_ItemLevel : Z; gw_Dye : option string; gw_Materia : string; gw_UpdatedAt : Z;
}.

(** A row of [characters]: the record plus the denormalised job level. *)
Record charRow := mkCharRow { row_rec : CharacterRecord; row_MaxJobLevel : Z }.

Record CensusDB := mkCensusDB {
  cdb_chars : gmap Z charRow;
  cdb_jobs : gmap (Z * Z) ClassJobRecord;
  cdb_gear : gmap (Z * string) gearRow;
  cdb_registry : gmap Z MilestoneAchievement;
  cdb_milestones : gmap (Z * Z) Z;
  cdb_id_sweep : option Z;
  cdb_fill_gaps : option Z;
}.

Definition empty_census : CensusDB := mkCensusDB ∅ ∅ ∅ ∅ ∅ None None.

(** ** Character writes *)

(** Go's [uint8] levels. *)
Definition maxJobLevel (jobs : list ClassJobRecord) : Z :=
  fold_left (fun maxLevel job => if maxLevel <? cj_Level job then cj_Level job else maxLevel) jobs 0.

(** The row after [INSERT ... ON CONFLICT (id) DO UPDATE]. *)
Definition upsert_row (old : option charRow) (rec : CharacterRecord) (maxLevel : Z) : charRow :=
  match old with
  | None => mkCharRow rec maxLevel
  | Some o =>
      let o := row_rec o in
      mkCharRow (rec{{ cr_AchievementsPrivate := if cr_AchievementsPrivate rec then true else cr_AchievementsPrivate o;
                       cr_LatestAchievementID := match cr_LatestAchievementID rec with Some x => Some x | None => cr_LatestAchievementID o end;
                       cr_LatestAchievementAt := match cr_LatestAchievementAt rec with Some x => Some x | None => cr_LatestAchievementAt o end;
                       cr_FirstSeenAt := cr_FirstSeenAt o;
                       cr_DeletedAt := None }}) maxLevel
  end.

Definition insert_job (m : gmap (Z * Z) ClassJobRecord) (j : ClassJobRecord) : gmap (Z * Z) ClassJobRecord :=
  <[(cj_CharacterID j, cj_ClassJobID j) := j]> m.

Definition Upsert (db : CensusDB) (f : fault) (rec : CharacterRecord) (jobs : list ClassJobRecord)
    : CensusDB * result unit :=
  with_fault f db (
    let row := upsert_row (cdb_chars db !! cr_ID rec) rec (maxJobLevel jobs) in
    let kept := filter (fun kv => kv.1.1 <> cr_ID rec) (cdb_jobs db) in
    (db{{ cdb_chars := <[cr_ID rec := row]> (cdb_chars db); cdb_jobs := fold_left insert_job jobs kept }}, Ok tt)).

Fixpoint join_comma (l : list string) : string :=
  match l with
  | [] => ""
  | [x] => x
  | x :: l => x +:+ "," +:+ join_comma l
  end.
(** [strings.Split(s, ",")]. *)
Fixpoint split_comma (s : string) : list string :=
  match s with
  | EmptyString => [""]
  | String a s =>
      if bool_decide (a = Ascii.ascii_of_nat 44) then "" :: split_comma s
      else match split_comma s with
           | [] => [String a ""]
           | x :: l => String a x :: l
           end
  end.

Definition insert_gear (charID now : Z) (m : gmap (Z * string) gearRow) (g : CharacterGearRecord) : gmap (Z * string) gearRow :=
  let upAt := if is_zero_time (ge_UpdatedAt g) then now else ge_UpdatedAt g in
  <[(charID, ge_Slot g) := mkGearRow (ge_ItemID g) (ge_Name g) (ge_ItemLevel g) (ge_Dye g) (join_comma (ge_Materia g)) upAt]> m.

(** The foreign key refuses gear of an unknown character. *)
Definition UpsertGear (db : CensusDB) (f : fault) (now charID : Z) (gear : list CharacterGearRecord)
    : CensusDB * result unit :=
  with_fault f db (
    match gear, cdb_chars db !! charID with
    | _ :: _, None => (db, Err (ErrorString "gear upsert insert: foreign key violation"))
    | _, _ =>
        let kept := filter (fun kv => kv.1.1 <> charID) (cdb_gear db) in
        (db{{ cdb_gear := fold_left (insert_gear charID now) gear kept }}, Ok tt)
    end).

Definition gear_of_row (id : Z) (slot : string) (r : gearRow) : CharacterGearRecord :=
  mkGear id slot (gw_ItemID r) (gw_Name r) (gw_ItemLevel r) (gw_Dye r)
    (if bool_decide (gw_Materia r = "") then [] else split_comma (gw_Materia r)) (gw_UpdatedAt r).

(** The gear of one character; the order by slot is the server's collation. *)
Definition GetGear (db : CensusDB) (f : fault) (id : Z) : result (list CharacterGearRecord) :=
  read_fault f (Ok ((fun kv => gear_of_row id kv.1.2 kv.2) <$>
    filter (fun kv => kv.1.1 = id) (map_to_list (cdb_gear db)))).

Definition update_char (db : CensusDB) (id : Z) (set : CharacterRecord -> CharacterRecord) : CensusDB :=
  match cdb_chars db !! id with
  | Some r => db{{ cdb_chars := <[id := r{{ row_rec := set (row_rec r) }}]> (cdb_chars db) }}
  | None => db
  end.

Definition MarkDeleted (db : CensusDB) (f : fault) (id at_ : Z) : CensusDB * result unit :=
  with_fault f db (update_char db id (fun c => c{{ cr_DeletedAt := Some at_ }}), Ok tt).
Definition UpdateAchievementSummary (db : CensusDB) (f : fault) (id : Z) (private : bool)
    (latestID latestAt : option Z) : CensusDB * result unit :=
  with_fault f db (update_char db id (fun c => c{{ cr_AchievementsPrivate := private;
    cr_LatestAchievementID := latestID; cr_LatestAchievementAt := latestAt }}), Ok tt).
Definition SetAchievementsPrivate (db : CensusDB) (f : fault) (id : Z) (private : bool) : CensusDB * result unit :=
  with_fault f db (update_char db id (fun c => c{{ cr_AchievementsPrivate := private }}), Ok tt).

(** ** Character reads *)

Definition Get (db : CensusDB) (f : fault) (id : Z) : result (option CharacterRecord) :=
  read_fault f (Ok (row_rec <$> cdb_chars db !! id)).

Definition job_le (a b : ClassJobRecord) : Prop := cj_ClassJobID a <= cj_ClassJobID b.
Global Instance job_le_dec : RelDecision job_le.
Proof. intros a b. unfold job_le. apply _. Defined.
Definition GetJobs (db : CensusDB) (f : fault) (id : Z) : result (list ClassJobRecord) :=
  read_fault f (Ok (merge_sort job_le (snd <$> filter (fun kv => kv.1.1 = id) (map_to_list (cdb_jobs db))))).

Definition chars_list (db : CensusDB) : list charRow := (map_to_list (cdb_chars db)).*2.

(** [ORDER BY last_census_at ASC NULLS FIRST, id ASC]. *)
Definition stale_le (a b : CharacterRecord) : Prop :=
  match cr_LastCensusAt a, cr_LastCensusAt b with
  | None, None => cr_ID a <= cr_ID b
  | None, Some _ => True
  | Some _, None => False
  | Some x, Some y => x < y \/ (x = y /\ cr_ID a <= cr_ID b)
  end.
Global Instance stale_le_dec : RelDecision stale_le.
Proof. intros a b. unfold stale_le. repeat case_match; apply _. Defined.

(** [last_census_at < cutoff OR last_census_at IS NULL]; a zero cutoff drops
    the predicate. *)
Definition stale_before (cutoff : Z) (c : CharacterRecord) : bool :=
  is_zero_time cutoff || match cr_LastCensusAt c with Some t => t <? cutoff | None => true end.

Definition ListStale (db : CensusDB) (f : fault) (cutoff limit : Z) : result (list CharacterRecord) :=
  let limit := if limit <=? 0 then 100 else limit in
  read_fault f (Ok (take (Z.to_nat limit) (merge_sort stale_le
    (filter (fun c => stale_before cutoff c = true) (row_rec <$> chars_list db))))).

(** ** Filters *)

Record CharacterFilter := mkCharacterFilter {
  cf_World : string; cf_Datacenter : string; cf_Region : string; cf_Race : string; cf_Name : string;
  cf_GrandCompany : string; cf_FreeCompanyID : string; cf_ActiveOnly : bool; cf_Since : option Z; cf_MinLevel : Z;
  cf_SortBy : string; cf_SortOrder : string;
}.
Definition zeroFilter : CharacterFilter := mkCharacterFilter "" "" "" "" "" "" "" false None 0 "" "".

(** SQL [LIKE]: ["%"] any text, ["_"] one character, a backslash takes the next
    character literally. *)
Definition percent : Ascii.ascii := Ascii.ascii_of_nat 37.
Definition underscore : Ascii.ascii := Ascii.ascii_of_nat 95.
Definition backslash : Ascii.ascii := Ascii.ascii_of_nat 92.
Fixpoint like (p s : string) {struct p} : bool :=
  match p with
  | EmptyString => bool_decide (s = "")
  | String c p' =>
      if bool_decide (c = percent) then
        (fix any (s : string) : bool :=
           like p' s || match s with EmptyString => false | String _ s => any s end) s
      else if bool_decide (c = underscore) then
        match s with EmptyString => false | String _ s => like p' s end
      else if bool_decide (c = backslash) then
        match p', s with
        | String d p'', String a s => bool_decide (a = d) && like p'' s
        | _, _ => false
        end
      else match s with EmptyString => false | String a s => bool_decide (a = c) && like p' s end
  end.

Section Filters.
(** Case folding of [ILIKE] in the database's locale. *)
Context (fold_case : string -> string).

Definition ilike (s p : string) : bool := like (fold_case p) (fold_case s).

Definition unless_empty (v col : string) : bool := bool_decide (v = "") || bool_decide (col = v).

(** [characterFilterWhere]: the conjunction of the clauses it emits. *)
Definition characterFilterWhere (db : CensusDB) (f : CharacterFilter) (r : charRow) : bool :=
  let c := row_rec r in
  unless_empty (cf_World f) (cr_World c) && unless_empty (cf_Datacenter f) (cr_Datacenter c)
  && unless_empty (cf_Region f) (cr_Region c) && unless_empty (cf_Race f) (cr_Race c)
  && unless_empty (cf_GrandCompany f) (cr_GrandCompany c)
  && (bool_decide (cf_FreeCompanyID f = "") || bool_decide (cr_FreeCompanyID c = Some (cf_FreeCompanyID f)))
  && (bool_decide (cf_Name f = "") || ilike (cr_Name c) ("%" +:+ cf_Name f +:+ "%"))
  && match cf_Since f with
     | None => true
     | Some since => match cr_LatestAchievementAt c with Some t => since <=? t | None => false end
     end
  && (negb (cf_ActiveOnly f) || bool_decide (cr_DeletedAt c = None))
  && ((cf_MinLevel f <=? 0)
      || existsb (fun kv => (kv.1.1 =? cr_ID c) && (cf_MinLevel f <=? cj_Level kv.2)) (map_to_list (cdb_jobs db))).

Definition not_deleted (r : charRow) : bool := bool_decide (cr_DeletedAt (row_rec r) = None).
Definition matching (db : CensusDB) (f : CharacterFilter) : list charRow :=
  filter (fun r => not_deleted r = true /\ characterFilterWhere db f r = true) (chars_list db).

Definition Count (db : CensusDB) (fl : fault) (f : CharacterFilter) : result Z :=
  read_fault fl (Ok (Z.of_nat (length (matching db f)))).

Definition active_since (since : Z) (r : charRow) : bool :=
  match cr_LatestAchievementAt (row_rec r) with Some t => since <=? t | None => false end.

Definition CountActive (db : CensusDB) (fl : fault) (since : Z) : result Z :=
  read_fault fl (Ok (Z.of_nat (length (filter (fun r => not_deleted r = true /\ active_since since r = true) (chars_list db))))).

Definition SummaryCounts (db : CensusDB) (fl : fault) (since maxLevel : Z) : result (Z * Z * Z) :=
  let live := filter (fun r => not_deleted r = true) (chars_list db) in
  read_fault fl (Ok (Z.of_nat (length live),
    Z.of_nat (length (filter (fun r => active_since since r = true) live)),
    Z.of_nat (length (filter (fun r => maxLevel <= row_MaxJobLevel r) live)))).

(** The [GROUP BY] of the breakdowns. *)
Definition group_by (key : charRow -> string) (since : Z) (rows : list charRow) : list GroupCount :=
  (fun k => mkGroupCount k (Z.of_nat (length (filter (fun r => key r = k) rows)))
              (Z.of_nat (length (filter (fun r => key r = k /\ active_since since r = true) rows))))
  <$> remove_dups (key <$> rows).

Definition breakdownColumn (column : string) : option (charRow -> string) :=
  if bool_decide (column = "race") then Some (fun r => cr_Race (row_rec r))
  else if bool_decide (column = "world") then Some (fun r => cr_World (row_rec r))
  else if bool_decide (column = "datacenter") then Some (fun r => cr_Datacenter (row_rec r))
  else if bool_decide (column = "region") then Some (fun r => cr_Region (row_rec r))
  else None.

(** [ORDER BY total DESC]. *)
Definition total_ge (a b : GroupCount) : Prop := gc_Total b <= gc_Total a.
Global Instance total_ge_dec : RelDecision total_ge.
Proof. intros a b. unfold total_ge. apply _. Defined.

Definition Breakdown (db : CensusDB) (fl : fault) (column : string) (since : Z) (f : CharacterFilter)
    : result (list GroupCount) :=
  match breakdownColumn column with
  | None => Err (ErrorString "invalid breakdown column")
  | Some key => read_fault fl (Ok (merge_sort total_ge (group_by key since (matching db f))))
  end.

(** One [UNION ALL] query: every column is validated first. *)
Fixpoint validate_columns (columns : list string) : result (list (string * (charRow -> string))) :=
  match columns with
  | [] => Ok []
  | col :: columns =>
      match breakdownColumn col with
      | None => Err (ErrorString "invalid breakdown column")
      | Some key => rest ← validate_columns columns; mret ((col, key) :: rest)
      end
  end.
Definition MultiBreakdown (db : CensusDB) (fl : fault) (columns : list string) (since : Z) (f : CharacterFilter)
    : result (gmap string (list GroupCount)) :=
  match columns with
  | [] => Ok ∅
  | _ =>
      keys ← validate_columns columns;
      read_fault fl (Ok (foldr (fun ck m =>
        match group_by ck.2 since (matching db f) with
        | [] => m
        | groups => <[ck.1 := groups ++ default [] (m !! ck.1)]> m
        end) ∅ keys))
  end.
End Filters.

(** ** Ids, gaps and cursors *)

Definition char_ids (db : CensusDB) : gset Z := dom (cdb_chars db).
Definition max_char_id (db : CensusDB) : Z := foldr Z.max 0 (elements (char_ids db)).
Definition MaxID (db : CensusDB) (f : fault) : result Z := read_fault f (Ok (u32 (max_char_id db))).

(** The stored ids up to [maxID], anchored at 0, in order. *)
Definition anchored (db : CensusDB) (maxID : Z) : list Z :=
  merge_sort Z.le (elements ({[ 0 ]} ∪ filter (fun id => id <= maxID) (char_ids db))).
(** [id + 1, LEAST(COALESCE(LEAD(id) - 1, maxID), maxID)] for each anchored id. *)
Fixpoint gap_rows (ids : list Z) (maxID : Z) : list (Z * Z) :=
  match ids with
  | [] => []
  | id :: rest =>
      (id + 1, match rest with next :: _ => Z.min (next - 1) maxID | [] => maxID end) :: gap_rows rest maxID
  end.
(** The loop over the rows; [limit] gaps are still wanted. *)
Fixpoint collect_gaps (rows : list (Z * Z)) (minStart : Z) (limit : nat) : list (Z * Z) :=
  match rows with
  | [] => []
  | (start, end_) :: rows =>
      let s := if start <? minStart then minStart else start in
      if end_ <? s then collect_gaps rows minStart limit
      else match limit with
           | O => []
           | S O => [(u32 s, u32 end_)]
           | S limit => (u32 s, u32 end_) :: collect_gaps rows minStart limit
           end
  end.
Definition FindIDGapsAfter (db : CensusDB) (f : fault) (afterID maxID limit : Z) : result (list (Z * Z)) :=
  if maxID =? 0 then Ok []
  else
    let limit := if limit <=? 0 then 100 else limit in
    read_fault f (Ok (collect_gaps (gap_rows (anchored db maxID) maxID) (afterID + 1) (Z.to_nat limit))).

(** A cursor table holds one row, created on first use.  The [CHECK] on
    [next_id] is evaluated on the proposed row before the conflict is looked
    up, so the initialising INSERT also fails when the row exists. *)
Definition sweep_cursor_ok (next : Z) : bool := (1 <=? next) && (next <=? max_uint32).
Definition IDSweepCursor (db : CensusDB) (f : fault) : CensusDB * result Z :=
  with_fault f db (
    let first := max_char_id db + 1 in
    if negb (sweep_cursor_ok first)
    then (db, Err (ErrorString "initialize id sweep cursor: check constraint violated"))
    else
      let next := default first (cdb_id_sweep db) in
      let db := db{{ cdb_id_sweep := Some next }} in
      if sweep_cursor_ok next then (db, Ok next)
      else (db, Err (ErrorString "id sweep cursor out of range"))).

Definition AdvanceIDSweepCursor (db : CensusDB) (f : fault) (expected next : Z) : CensusDB * result unit :=
  if (expected =? 0) || (next <=? expected) then (db, Err (ErrorString "invalid id sweep cursor advance"))
  else with_fault f db (
    if bool_decide (cdb_id_sweep db = Some expected) then (db{{ cdb_id_sweep := Some next }}, Ok tt)
    else
      match IDSweepCursor db NoFault with
      | (db, Err e) => (db, Err e)
      | (db, Ok current) =>
          if next <=? current then (db, Ok tt)
          else (db, Err (ErrorString "id sweep cursor changed concurrently"))
      end).

Definition FillGapsCursor (db : CensusDB) (f : fault) : CensusDB * result Z :=
  with_fault f db (
    let last := default 0 (cdb_fill_gaps db) in
    let db := db{{ cdb_fill_gaps := Some last }} in
    if (last <? 0) || (max_uint32 <? last) then (db, Err (ErrorString "fill gaps cursor out of range"))
    else (db, Ok last)).

Definition AdvanceFillGapsCursor (db : CensusDB) (f : fault) (expected next : Z) : CensusDB * result unit :=
  with_fault f db (
    if bool_decide (cdb_fill_gaps db = Some expected) then (db{{ cdb_fill_gaps := Some next }}, Ok tt)
    else
      match FillGapsCursor db NoFault with
      | (db, Err e) => (db, Err e)
      | (db, Ok current) =>
          if (current =? expected) || (next <=? current) then (db, Ok tt)
          else (db, Err (ErrorString "fill gaps cursor changed concurrently"))
      end).

(** ** Milestones (achievement.go) *)

Definition SyncMilestones (db : CensusDB) (f : fault) (registry : list MilestoneAchievement) : CensusDB * result unit :=
  with_fault f db
    (db{{ cdb_registry := fold_left (fun m x => <[ma_AchievementID x := x]> m) registry (cdb_registry db) }}, Ok tt).

Definition registry_le (a b : MilestoneAchievement) : Prop := ma_AchievementID a <= ma_AchievementID b.
Global Instance registry_le_dec : RelDecision registry_le.
Proof. intros a b. unfold registry_le. apply _. Defined.
Definition ListMilestones (db : CensusDB) (f : fault) : result (list MilestoneAchievement) :=
  read_fault f (Ok (merge_sort registry_le (map_to_list (cdb_registry db)).*2)).

Definition milestone_key (m : CharacterMilestone) : Z * Z := (cm_CharacterID m, cm_AchievementID m).
(** One multi-row [INSERT ... ON CONFLICT DO UPDATE]: the server refuses a
    batch that names the same key twice. *)
Definition UpsertCharacterMilestones (db : CensusDB) (f : fault) (milestones : list CharacterMilestone)
    : CensusDB * result unit :=
  match milestones with
  | [] => (db, Ok tt)
  | _ =>
      with_fault f db (
        if decide (NoDup (milestone_key <$> milestones)) then
          (db{{ cdb_milestones := fold_left (fun m x => <[milestone_key x := cm_AchievedAt x]> m) milestones (cdb_milestones db) }},
           Ok tt)
        else (db, Err (ErrorString "ON CONFLICT DO UPDATE command cannot affect row a second time")))
  end.

(** [ORDER BY achieved_at DESC]. *)
Definition achieved_ge (a b : CharacterMilestone) : Prop := cm_AchievedAt b <= cm_AchievedAt a.
Global Instance achieved_ge_dec : RelDecision achieved_ge.
Proof. intros a b. unfold achieved_ge. apply _. Defined.
Definition ListCharacterMilestones (db : CensusDB) (f : fault) (characterID : Z) : result (list CharacterMilestone) :=
  read_fault f (Ok (merge_sort achieved_ge
    ((fun kv => mkCharacterMilestone kv.1.1 kv.1.2 kv.2) <$>
       filter (fun kv => kv.1.1 = characterID) (map_to_list (cdb_milestones db))))).
