(* ===== verification/CharacterStoreFacts.v ===== *)
(** * Facts about the census tables

    The invariant of the character and job tables under every write of the
    repositories, the round trip of a profile through [Upsert], and the
    agreement of the aggregate queries with one another. *)
From S2P Require Import Prelude GoErrors Contract CharacterStore.

(** ** The writes of the repositories as one type *)
Inductive census_op :=
  | CUpsert (f : fault) (rec : CharacterRecord) (jobs : list ClassJobRecord)
  | CGear (f : fault) (now charID : Z) (gear : list CharacterGearRecord)
  | CDeleted (f : fault) (id at_ : Z)
  | CSummary (f : fault) (id : Z) (private : bool) (latestID latestAt : option Z)
  | CPrivate (f : fault) (id : Z) (private : bool)
  | CSync (f : fault) (registry : list MilestoneAchievement)
  | CMilestones (f : fault) (milestones : list CharacterMilestone)
  | CSweepCursor (f : fault)
  | CAdvanceSweep (f : fault) (expected next : Z)
  | CGapsCursor (f : fault)
  | CAdvanceGaps (f : fault) (expected next : Z).

Definition apply_census (db : CensusDB) (op : census_op) : CensusDB :=
  match op with
  | CUpsert f rec jobs => (Upsert db f rec jobs).1
  | CGear f now id gear => (UpsertGear db f now id gear).1
  | CDeleted f id at_ => (MarkDeleted db f id at_).1
  | CSummary f id private latestID latestAt => (UpdateAchievementSummary db f id private latestID latestAt).1
  | CPrivate f id private => (SetAchievementsPrivate db f id private).1
  | CSync f registry => (SyncMilestones db f registry).1
  | CMilestones f milestones => (UpsertCharacterMilestones db f milestones).1
  | CSweepCursor f => (IDSweepCursor db f).1
  | CAdvanceSweep f expected next => (AdvanceIDSweepCursor db f expected next).1
  | CGapsCursor f => (FillGapsCursor db f).1
  | CAdvanceGaps f expected next => (AdvanceFillGapsCursor db f expected next).1
  end.
Definition run_census (db : CensusDB) (ops : list census_op) : CensusDB := fold_left apply_census ops db.

(** What the census service passes to [Upsert] ([profileToJobs]): the jobs
    belong to the character, each class once, with unsigned levels. *)
Definition jobs_wf (id : Z) (jobs : list ClassJobRecord) : Prop :=
  Forall (fun j => cj_CharacterID j = id /\ 0 <= cj_Level j) jobs /\ NoDup (cj_ClassJobID <$> jobs).
Definition op_wf (op : census_op) : Prop :=
  match op with CUpsert _ rec jobs => jobs_wf (cr_ID rec) jobs | _ => True end.

(** ** The invariant *)

(** [m] is the largest level among the stored jobs of [id], 0 without jobs. *)
Definition best_level (jobs : gmap (Z * Z) ClassJobRecord) (id m : Z) : Prop :=
  0 <= m /\ (forall c j, jobs !! (id, c) = Some j -> cj_Level j <= m)
  /\ (m = 0 \/ exists c j, jobs !! (id, c) = Some j /\ cj_Level j = m).

Record tables_ok (chars : gmap Z charRow) (jobs : gmap (Z * Z) ClassJobRecord) : Prop := {
  ok_id : forall id r, chars !! id = Some r -> cr_ID (row_rec r) = id;
  ok_level : forall id r, chars !! id = Some r -> best_level jobs id (row_MaxJobLevel r);
  ok_job : forall k j, jobs !! k = Some j -> k = (cj_CharacterID j, cj_ClassJobID j) /\ 0 <= cj_Level j;
}.
Definition census_ok (db : CensusDB) : Prop := tables_ok (cdb_chars db) (cdb_jobs db).

(** *** Levels *)

Lemma maxJobLevel_max jobs : maxJobLevel jobs = fold_left Z.max (cj_Level <$> jobs) 0.
Proof.
  unfold maxJobLevel. generalize 0. induction jobs as [|j jobs IH]; intros m; [done|].
  cbn [fold_left fmap list_fmap]. rewrite <- IH. f_equal. zbool; lia.
Qed.

Lemma fold_max_spec (l : list Z) : forall m,
  (m <= fold_left Z.max l m) /\ (forall x, x ∈ l -> x <= fold_left Z.max l m)
  /\ (fold_left Z.max l m = m \/ fold_left Z.max l m ∈ l).
Proof.
  induction l as [|y l IH]; intros m; cbn [fold_left].
  - split; [lia|]. split; [intros x []%elem_of_nil|by left].
  - destruct (IH (Z.max m y)) as (H1 & H2 & H3). split; [lia|]. split.
    + intros x [->|Hx]%elem_of_cons; [lia|auto].
    + destruct H3 as [->|H3]; [|right; by right].
      destruct (Z.max_spec m y) as [[_ ->]|[_ ->]]; [right; left|by left].
Qed.

(** *** The job table after an upsert *)

Lemma fold_insert_job_lookup jobs : forall m k j,
  NoDup (cj_ClassJobID <$> jobs) -> (forall x, x ∈ jobs -> m !! (cj_CharacterID x, cj_ClassJobID x) = None) ->
  fold_left insert_job jobs m !! k = Some j <->
    m !! k = Some j \/ (j ∈ jobs /\ k = (cj_CharacterID j, cj_ClassJobID j)).
Proof.
  induction jobs as [|x jobs IH]; intros m k j Hnd Hfresh; cbn [fold_left].
  - split; [by left|]. intros [?|[[]%elem_of_nil _]]; done.
  - cbn in Hnd. apply list.NoDup_cons in Hnd as [Hx Hnd].
    rewrite IH; [|done|].
    + unfold insert_job at 1. rewrite lookup_insert. split.
      * intros [Hm|[Hj ->]]; [|right; split; [by right|done]].
        case_decide; simplify_eq; [right; split; [left|done]|by left].
      * intros [Hm|[[->|Hj]%elem_of_cons ->]].
        -- left. case_decide as Hk; [|done]. subst k. rewrite (Hfresh x) in Hm; [done|left].
        -- left. by rewrite decide_True.
        -- right. done.
    + intros y Hy. unfold insert_job. rewrite lookup_insert_ne; [apply Hfresh; by right|].
      intros [= _ Heq]. apply Hx. rewrite Heq. apply list_elem_of_fmap. by exists y.
Qed.

Lemma upsert_jobs_lookup (m : gmap (Z * Z) ClassJobRecord) id jobs k j :
  jobs_wf id jobs ->
  fold_left insert_job jobs (filter (fun kv => kv.1.1 <> id) m) !! k = Some j <->
    (k.1 <> id /\ m !! k = Some j) \/ (j ∈ jobs /\ k = (id, cj_ClassJobID j)).
Proof.
  intros [Hall Hnd]. rewrite list.Forall_forall in Hall.
  rewrite fold_insert_job_lookup; [|done|].
  - rewrite map_lookup_filter_Some. cbn. split.
    + intros [[? ?]|[Hj ->]]; [by left|]. destruct (Hall j Hj) as [-> _]. by right.
    + intros [[? ?]|[Hj ->]]; [by left|]. destruct (Hall j Hj) as [-> _]. by right.
  - intros x Hx. apply map_lookup_filter_None. right. intros ? _. cbn. destruct (Hall x Hx) as [-> _]. naive_solver.
Qed.

Lemma best_level_upsert (m : gmap (Z * Z) ClassJobRecord) id jobs :
  jobs_wf id jobs ->
  best_level (fold_left insert_job jobs (filter (fun kv => kv.1.1 <> id) m)) id (maxJobLevel jobs).
Proof.
  intros Hwf. pose proof Hwf as [Hall _]. rewrite maxJobLevel_max.
  destruct (fold_max_spec (cj_Level <$> jobs) 0) as (H0 & Hle & Hin). split; [done|]. split.
  - intros c j Hj. apply upsert_jobs_lookup in Hj as [[? _]|[Hj _]]; [done| |done].
    apply Hle, list_elem_of_fmap. by exists j.
  - destruct Hin as [->|Hin]; [by left|right]. apply list_elem_of_fmap in Hin as (j & Heq & Hj).
    exists (cj_ClassJobID j), j. split; [|done]. apply upsert_jobs_lookup; auto.
Qed.

Lemma best_level_other (m : gmap (Z * Z) ClassJobRecord) id id' jobs l :
  jobs_wf id jobs -> id' <> id -> best_level m id' l ->
  best_level (fold_left insert_job jobs (filter (fun kv => kv.1.1 <> id) m)) id' l.
Proof.
  intros Hwf Hne (H0 & Hle & Hin). split; [done|]. split.
  - intros c j Hj. apply upsert_jobs_lookup in Hj as [[_ ?]|[_ [=]]]; [eauto|done|done].
  - destruct Hin as [->|(c & j & Hj & <-)]; [by left|right]. exists c, j. split; [|done].
    apply upsert_jobs_lookup; auto.
Qed.

(** *** Preservation *)

Lemma upsert_row_id old rec l : cr_ID (row_rec (upsert_row old rec l)) = cr_ID rec.
Proof. destruct old; [|done]. by destruct rec. Qed.
Lemma upsert_row_level old rec l : row_MaxJobLevel (upsert_row old rec l) = l.
Proof. by destruct old. Qed.

Lemma Upsert_ok db f rec jobs : jobs_wf (cr_ID rec) jobs -> census_ok db -> census_ok (Upsert db f rec jobs).1.
Proof.
  intros Hwf [Hid Hlv Hjob]. unfold Upsert. apply with_fault_pres; [by constructor|].
  destruct db; cbn in *. split; cbn.
  - intros id r [[<- <-]|[_ Hr]]%lookup_insert_Some; [apply upsert_row_id|eauto].
  - intros id r [[<- <-]|[Hne Hr]]%lookup_insert_Some.
    + rewrite upsert_row_level. by apply best_level_upsert.
    + apply best_level_other; eauto.
  - intros k j Hj. apply upsert_jobs_lookup in Hj as [[_ Hj]|[Hj ->]]; [eauto| |done].
    destruct Hwf as [Hall _]. rewrite list.Forall_forall in Hall. by destruct (Hall j Hj) as [-> ?].
Qed.

Lemma update_char_ok db id set :
  (forall c, cr_ID (set c) = cr_ID c) -> census_ok db -> census_ok (update_char db id set).
Proof.
  intros Hset [Hid Hlv Hjob]. unfold update_char. destruct (cdb_chars db !! id) as [r|] eqn:Hr; [|by constructor].
  destruct db; cbn in *. split; cbn; [| |done].
  - intros id' r' [[<- <-]|[_ ?]]%lookup_insert_Some; [destruct r; cbn; rewrite Hset; by eapply Hid in Hr|eauto].
  - intros id' r' [[<- <-]|[_ ?]]%lookup_insert_Some; [destruct r; by eapply Hlv in Hr|eauto].
Qed.

(** The other writes leave both tables alone. *)
Definition same_tables (db db' : CensusDB) : Prop := cdb_chars db' = cdb_chars db /\ cdb_jobs db' = cdb_jobs db.
Lemma same_tables_ok db db' : same_tables db db' -> census_ok db -> census_ok db'.
Proof. intros [H1 H2]. unfold census_ok. by rewrite H1, H2. Qed.
Lemma same_tables_fault {A} f db (x : CensusDB * result A) : same_tables db x.1 -> same_tables db (with_fault f db x).1.
Proof. by destruct f. Qed.

Ltac same_tables :=
  match goal with db : CensusDB |- _ =>
    apply same_tables_fault; destruct db; cbn -[max_char_id sweep_cursor_ok max_uint32]; repeat case_match; done end.

Lemma IDSweepCursor_tables db f : same_tables db (IDSweepCursor db f).1.
Proof. unfold IDSweepCursor. same_tables. Qed.
Lemma FillGapsCursor_tables db f : same_tables db (FillGapsCursor db f).1.
Proof. unfold FillGapsCursor. same_tables. Qed.
Lemma AdvanceIDSweepCursor_tables db f e n : same_tables db (AdvanceIDSweepCursor db f e n).1.
Proof.
  unfold AdvanceIDSweepCursor. case_match; [done|]. apply same_tables_fault.
  case_match; [by destruct db|]. pose proof (IDSweepCursor_tables db NoFault).
  destruct (IDSweepCursor db NoFault) as [db' [c|err]]; [case_match|]; done.
Qed.
Lemma AdvanceFillGapsCursor_tables db f e n : same_tables db (AdvanceFillGapsCursor db f e n).1.
Proof.
  unfold AdvanceFillGapsCursor. apply same_tables_fault.
  case_match; [by destruct db|]. pose proof (FillGapsCursor_tables db NoFault).
  destruct (FillGapsCursor db NoFault) as [db' [c|err]]; [case_match|]; done.
Qed.

Lemma apply_census_ok db op : op_wf op -> census_ok db -> census_ok (apply_census db op).
Proof.
  intros Hwf Hok. destruct op; cbn [apply_census op_wf] in *.
  - by apply Upsert_ok.
  - eapply same_tables_ok, Hok. unfold UpsertGear. same_tables.
  - unfold MarkDeleted. apply with_fault_pres; [done|]. apply update_char_ok; [by intros []|done].
  - unfold UpdateAchievementSummary. apply with_fault_pres; [done|]. apply update_char_ok; [by intros []|done].
  - unfold SetAchievementsPrivate. apply with_fault_pres; [done|]. apply update_char_ok; [by intros []|done].
  - eapply same_tables_ok, Hok. unfold SyncMilestones. same_tables.
  - eapply same_tables_ok, Hok. destruct milestones; [done|]. cbn [UpsertCharacterMilestones]. same_tables.
  - eapply same_tables_ok, Hok. apply IDSweepCursor_tables.
  - eapply same_tables_ok, Hok. apply AdvanceIDSweepCursor_tables.
  - eapply same_tables_ok, Hok. apply FillGapsCursor_tables.
  - eapply same_tables_ok, Hok. apply AdvanceFillGapsCursor_tables.
Qed.

Lemma run_census_ok ops : forall db, Forall op_wf ops -> census_ok db -> census_ok (run_census db ops).
Proof.
  induction ops as [|op ops IH]; intros db Hwf Hok; [done|]. apply list.Forall_cons_1 in Hwf as [H1 H2].
  cbn. apply IH; [done|]. by apply apply_census_ok.
Qed.

Lemma empty_census_ok : census_ok empty_census.
Proof. split; cbn; intros ? ? H; by rewrite lookup_empty in H. Qed.

(** ** Reading back what was written *)

Definition job_lt (a b : ClassJobRecord) : Prop := cj_ClassJobID a < cj_ClassJobID b.
Global Instance job_lt_antisymm : AntiSymm (=) job_lt.
Proof. intros a b. unfold job_lt. lia. Qed.
Global Instance job_le_trans : Transitive job_le.
Proof. intros a b c. unfold job_le. lia. Qed.
Global Instance job_le_total : Total job_le.
Proof. intros a b. unfold job_le. lia. Qed.

Lemma sorted_strict js :
  StronglySorted job_le js -> NoDup (cj_ClassJobID <$> js) -> StronglySorted job_lt js.
Proof.
  induction 1 as [|j js Hs IH Hall]; [constructor|]. cbn. intros [Hj Hnd]%list.NoDup_cons.
  constructor; [by apply IH|]. rewrite list.Forall_forall in Hall |- *. intros x Hx. specialize (Hall x Hx).
  unfold job_le, job_lt in *. assert (cj_ClassJobID j <> cj_ClassJobID x); [|lia].
  intros Heq. apply Hj. rewrite Heq. apply list_elem_of_fmap. by exists x.
Qed.

(** The jobs of one character come back in strictly increasing class order. *)
Lemma GetJobs_spec db id : census_ok db ->
  exists js, GetJobs db NoFault id = Ok js /\ StronglySorted job_lt js
    /\ forall j, j ∈ js <-> cdb_jobs db !! (id, cj_ClassJobID j) = Some j.
Proof.
  intros [_ _ Hjob]. eexists. split; [reflexivity|].
  match goal with |- context [merge_sort job_le (snd <$> ?x)] => set (l := x) end.
  assert (Hl : forall k j, (k, j) ∈ l <-> k = (id, cj_ClassJobID j) /\ cdb_jobs db !! k = Some j).
  { intros k j. unfold l. rewrite list_elem_of_filter, elem_of_map_to_list. cbn. split.
    - intros [Hk Hj]. destruct (Hjob k j Hj) as [-> _]. cbn in *. by subst.
    - intros [-> Hj]. done. }
  assert (Hin : forall j, j ∈ snd <$> l <-> cdb_jobs db !! (id, cj_ClassJobID j) = Some j).
  { intros j. rewrite list_elem_of_fmap. split.
    - intros ([k j'] & -> & Hkj). apply Hl in Hkj as [-> ?]. done.
    - intros Hj. exists ((id, cj_ClassJobID j), j). split; [done|]. by apply Hl. }
  split.
  - apply sorted_strict; [apply (StronglySorted_merge_sort job_le)|].
    rewrite merge_sort_Permutation, <- list_fmap_compose.
    apply NoDup_fmap_2_strong; [|apply list.NoDup_filter, NoDup_map_to_list].
    intros [k j] [k' j'] [-> H1]%Hl [-> H2]%Hl Heq. cbn in Heq. rewrite Heq in H1 |- *. congruence.
  - intros j. rewrite merge_sort_Permutation. apply Hin.
Qed.

Lemma job_lt_unique js js' :
  StronglySorted job_lt js -> StronglySorted job_lt js' -> (forall j, j ∈ js <-> j ∈ js') -> js = js'.
Proof.
  intros H1 H2 Hin. apply (StronglySorted_unique job_lt); [done..|].
  apply NoDup_Permutation; [| |done].
  - clear -H1. induction H1 as [|j js Hs IH Hall]; constructor; [|done].
    intros Hj. rewrite list.Forall_forall in Hall. specialize (Hall j Hj). unfold job_lt in Hall. lia.
  - clear -H2. induction H2 as [|j js Hs IH Hall]; constructor; [|done].
    intros Hj. rewrite list.Forall_forall in Hall. specialize (Hall j Hj). unfold job_lt in Hall. lia.
Qed.

(** [COALESCE(a, b)]. *)
Lemma coalesce_union {A} (a b : option A) : match a with Some x => Some x | None => b end = a ∪ b.
Proof. by destruct a, b. Qed.

(** A stored profile reads back.  After [Upsert] the character
    reads as the record that was written, except that an existing row keeps
    its first-seen time, keeps a latest achievement and a private flag the
    profile page does not carry, and is no longer marked deleted; its jobs
    are exactly the written ones, in class order, replacing the old ones; no
    other character or job changes. *)
Theorem Upsert_roundtrip db rec jobs (Hok : census_ok db) (Hwf : jobs_wf (cr_ID rec) jobs) :
  let db' := (Upsert db NoFault rec jobs).1 in
  Get db' NoFault (cr_ID rec) = Ok (Some (
    match Get db NoFault (cr_ID rec) with
    | Ok (Some old) =>
        rec{{ cr_FirstSeenAt := cr_FirstSeenAt old; cr_DeletedAt := None;
              cr_AchievementsPrivate := cr_AchievementsPrivate rec || cr_AchievementsPrivate old;
              cr_LatestAchievementID := union (cr_LatestAchievementID rec) (cr_LatestAchievementID old);
              cr_LatestAchievementAt := union (cr_LatestAchievementAt rec) (cr_LatestAchievementAt old) }}
    | _ => rec
    end))
  /\ (exists js, GetJobs db' NoFault (cr_ID rec) = Ok js /\ js ≡ₚ jobs /\ StronglySorted job_lt js)
  /\ forall id, id <> cr_ID rec ->
       Get db' NoFault id = Get db NoFault id /\ GetJobs db' NoFault id = GetJobs db NoFault id.
Proof.
  intros db'. assert (Hok' : census_ok db') by (by apply Upsert_ok).
  assert (Hc : cdb_chars db' = <[cr_ID rec := upsert_row (cdb_chars db !! cr_ID rec) rec (maxJobLevel jobs)]> (cdb_chars db))
    by (unfold db'; by destruct db).
  assert (Hj : cdb_jobs db' = fold_left insert_job jobs (filter (fun kv => kv.1.1 <> cr_ID rec) (cdb_jobs db)))
    by (unfold db'; by destruct db).
  split; [|split].
  - unfold Get. rewrite Hc, lookup_insert_eq. cbn. do 2 f_equal. destruct (cdb_chars db !! cr_ID rec) as [[old lvl]|]; [|done].
    cbn. destruct rec, old. cbn. f_equal; apply coalesce_union.
  - destruct (GetJobs_spec db' (cr_ID rec) Hok') as (js & Hjs & Hs & Hin). exists js. split; [done|]. split; [|done].
    apply NoDup_Permutation.
    + clear -Hs. induction Hs as [|j js Hs IH Hall]; constructor; [|done].
      intros H. rewrite list.Forall_forall in Hall. specialize (Hall j H). unfold job_lt in Hall. lia.
    + destruct Hwf as [_ Hnd]. by eapply NoDup_fmap_1.
    + intros j. rewrite Hin, Hj, upsert_jobs_lookup by done. cbn. naive_solver.
  - intros id Hne. split; [unfold Get; by rewrite Hc, lookup_insert_ne|].
    destruct (GetJobs_spec db' id Hok') as (js & -> & Hs & Hin), (GetJobs_spec db id Hok) as (js0 & -> & Hs0 & Hin0).
    f_equal. apply job_lt_unique; [done..|]. intros j. rewrite Hin, Hin0, Hj, upsert_jobs_lookup by done. cbn. naive_solver.
Qed.

Definition sample_char (id at_ : Z) : CharacterRecord :=
  mkCharacterRecord id "Aya" "Omega" "Chaos" "Europe" "Hyur" "Midlander" 1 "" None None "" "" 0 false None None at_ (Some at_) None.
Definition sample_job (id class level : Z) : ClassJobRecord := mkClassJobRecord id class "job" level level.

Lemma sample_jobs_wf id : jobs_wf id [sample_job id 30 90; sample_job id 19 100].
Proof. split; [repeat constructor; cbn; lia|]. apply (bool_decide_unpack _). reflexivity. Qed.

(** A second census of a character already stored once, with one job less. *)
Lemma Upsert_roundtrip_witness :
  exists db js, db = run_census empty_census [CUpsert NoFault (sample_char 7 1) [sample_job 7 30 90; sample_job 7 19 100]]
    /\ GetJobs (Upsert db NoFault (sample_char 7 2) [sample_job 7 30 91]).1 NoFault 7 = Ok js
    /\ js ≡ₚ [sample_job 7 30 91]
    /\ Get (Upsert db NoFault (sample_char 7 2) [sample_job 7 30 91]).1 NoFault 7
       = Ok (Some ((sample_char 7 2){{ cr_FirstSeenAt := 1 }})).
Proof.
  set (db := run_census empty_census [CUpsert NoFault (sample_char 7 1) [sample_job 7 30 90; sample_job 7 19 100]]).
  assert (Hok : census_ok db).
  { apply run_census_ok; [|exact empty_census_ok]. constructor; [apply sample_jobs_wf|constructor]. }
  destruct (Upsert_roundtrip db (sample_char 7 2) [sample_job 7 30 91] Hok) as (Hg & (js & Hjs & Hp & _) & _).
  { split; [repeat constructor; cbn; lia|]. apply (bool_decide_unpack _). reflexivity. }
  exists db, js. split; [reflexivity|]. split; [exact Hjs|]. split; [exact Hp|]. refine (eq_trans Hg _). reflexivity.
Defined.

(** ** Breakdowns *)


Global Instance total_ge_trans : Transitive total_ge.
Proof. intros a b c. unfold total_ge. lia. Qed.
Global Instance total_ge_total : Total total_ge.
Proof. intros a b. unfold total_ge. lia. Qed.


Section Breakdowns.
Context (fold_case : string -> string).

Lemma group_by_totals key since rows :
  sumZ (gc_Total <$> group_by key since rows) = Z.of_nat (length rows).
Proof.
  unfold group_by. rewrite <- list_fmap_compose.
  transitivity (Z.of_nat (length (filter (fun _ => True) rows))); [|by rewrite filter_all].
  rewrite <- (partition_count key (fun _ => True) (remove_dups (key <$> rows)));
    [|apply NoDup_remove_dups|intros r Hr; apply elem_of_remove_dups, list_elem_of_fmap; by exists r].
  f_equal. apply list_fmap_ext. intros i k _. cbn. do 2 f_equal. apply filter_ext_in. tauto.
Qed.

Lemma group_by_actives key since rows :
  sumZ (gc_Active <$> group_by key since rows) = Z.of_nat (length (filter (fun r => active_since since r = true) rows)).
Proof.
  unfold group_by. rewrite <- list_fmap_compose.
  rewrite <- (partition_count key (fun r => active_since since r = true) (remove_dups (key <$> rows)));
    [done|apply NoDup_remove_dups|intros r Hr; apply elem_of_remove_dups, list_elem_of_fmap; by exists r].
Qed.

Lemma filter_length_le {A} (P Q : A -> Prop) `{forall x, Decision (P x)} `{forall x, Decision (Q x)} l :
  (forall x, P x -> Q x) -> (length (filter P l) <= length (filter Q l))%nat.
Proof.
  intros HPQ. induction l as [|x l IH]; [done|]. rewrite !filter_cons. repeat case_decide; cbn; [lia|naive_solver|lia|done].
Qed.

Lemma group_by_groups key since rows :
  NoDup (gc_Key <$> group_by key since rows)
  /\ Forall (fun g => 1 <= gc_Total g /\ 0 <= gc_Active g <= gc_Total g) (group_by key since rows).
Proof.
  unfold group_by. split.
  - rewrite <- list_fmap_compose. rewrite (list_fmap_ext _ id), list_fmap_id by done. apply NoDup_remove_dups.
  - apply list.Forall_forall. intros g (k & -> & Hk)%list_elem_of_fmap. cbn.
    apply elem_of_remove_dups, list_elem_of_fmap in Hk as (r & -> & Hr). split.
    + assert (r ∈ filter (fun r' => key r' = key r) rows) by (by apply list_elem_of_filter).
      destruct (filter _ rows); [by apply elem_of_nil in H|cbn; lia].
    + split; [lia|]. apply inj_le, filter_length_le. tauto.
Qed.

(** A breakdown is a partition.  For every accepted column and
    filter, the groups have distinct keys and at least one member each, are
    ordered by size, their totals add up to [Count] with the same filter and
    their active counts to the number of matching characters active since the
    cutoff; a column outside the allow-list is an error. *)
Theorem Breakdown_partitions db column since f :
  match Breakdown fold_case db NoFault column since f with
  | Ok groups =>
      Count fold_case db NoFault f = Ok (sumZ (gc_Total <$> groups))
      /\ Z.of_nat (length (filter (fun r => active_since since r = true) (matching fold_case db f)))
         = sumZ (gc_Active <$> groups)
      /\ NoDup (gc_Key <$> groups)
      /\ Forall (fun g => 1 <= gc_Total g /\ 0 <= gc_Active g <= gc_Total g) groups
      /\ StronglySorted total_ge groups
  | Err _ => column ∉ ["race"; "world"; "datacenter"; "region"]
  end.
Proof.
  unfold Breakdown. destruct (breakdownColumn column) as [key|] eqn:Hcol; cbn [read_fault].
  - pose proof (merge_sort_Permutation total_ge (group_by key since (matching fold_case db f))) as Hp.
    rewrite (sumZ_perm _ _ (fmap_Permutation gc_Total _ _ Hp)), (sumZ_perm _ _ (fmap_Permutation gc_Active _ _ Hp)).
    rewrite group_by_totals, group_by_actives.
    destruct (group_by_groups key since (matching fold_case db f)) as [Hnd Hall].
    split; [done|]. split; [done|]. split; [|split].
    + by rewrite (fmap_Permutation gc_Key _ _ Hp).
    + rewrite list.Forall_forall in Hall |- *. intros g Hg. apply Hall. by rewrite <- Hp.
    + apply (StronglySorted_merge_sort total_ge).
  - unfold breakdownColumn in Hcol. repeat case_match; try done. bsplit. set_solver.
Qed.
End Breakdowns.
