(* ===== verification/EventWorker.v ===== *)
(** * The worker without proxies ([domain/census/worker/worker.go], [handler.go],
      [cmd/cli/consume.go])

    [RunEvents] consumes event queues and dispatches every job to a registered
    handler, and the commands choose the events.  The queue adapter is the one
    of [Queue] and [QueueConsumers]; handlers and the rate limiter are
    parameters.  Log records are left out, except the identity of a job that
    they carry. *)
From stdpp Require Import pretty.
From S2P Require Import Prelude GoErrors GoStrings Payloads Hub Queue QueueFacts QueueConsumers CharacterStore.

(** ** Log identity *)

Record jobIdentity := mkJobIdentity { jid_From : Z; jid_To : Z; jid_CharacterID : Z }.
Definition jobIdentity_field (key : string) : option (jobIdentity -> json -> result jobIdentity) :=
  if bool_decide (key = "from") then Some (fun p v => x ← set_u32 (jid_From p) v; mret (p{{ jid_From := x }}))
  else if bool_decide (key = "to") then Some (fun p v => x ← set_u32 (jid_To p) v; mret (p{{ jid_To := x }}))
  else if bool_decide (key = "character_id") then Some (fun p v => x ← set_u32 (jid_CharacterID p) v; mret (p{{ jid_CharacterID := x }}))
  else None.
Definition jobAttrs (payload : json) : list (string * Z) :=
  match unmarshal_struct jobIdentity_field (mkJobIdentity 0 0 0) payload with
  | Err _ => []
  | Ok id =>
      (if negb (jid_From id =? 0) || negb (jid_To id =? 0) then [("from", jid_From id); ("to", jid_To id)] else []) ++
      (if negb (jid_CharacterID id =? 0) then [("character_id", jid_CharacterID id)] else [])
  end.

(** ** Choosing events *)

Definition all_events : list string := [EventIDSweep; EventCharacterCensus; EventAchievementCensus].
Definition listed_events (eventsFlag : string) : list string :=
  filter (fun p => p <> "") (TrimSpace <$> split_comma eventsFlag).
(** The events of [consume]; [arg] is its positional argument. *)
Definition consume_events (arg : option string) (eventsFlag : string) : list string :=
  match arg with
  | Some a => if bool_decide (a <> "") && bool_decide (a <> "all") then [a]
              else if bool_decide (eventsFlag <> "") && bool_decide (eventsFlag <> "all") then listed_events eventsFlag else all_events
  | None => if bool_decide (eventsFlag <> "") && bool_decide (eventsFlag <> "all") then listed_events eventsFlag else all_events
  end.
(** The events of [consume failed]; none means all failed queues. *)
Definition consume_failed_events (eventsFlag : string) : list string :=
  if bool_decide (eventsFlag <> "") && bool_decide (eventsFlag <> "all") then listed_events eventsFlag else [].
Definition run_events (eventTypes : list string) : list string := match eventTypes with [] => all_events | _ => eventTypes end.

(** ** Registry *)

Section Worker.
Context {B : Type} `{Broker B}.

Definition Handler : Type := json -> ST B handler_answer.
Definition Registry : Type := gmap string Handler.
Definition NewRegistry : Registry := ∅.
Definition Register (r : Registry) (eventType : string) (h : Handler) : Registry := <[eventType := h]> r.
Definition Registry_Get (r : Registry) (eventType : string) : option Handler := r !! eventType.

(** [ProviderRateLimiter] asked about the Lodestone. *)
Record limiter := mkLimiter { li_IsAvailable : ST B bool; li_WaitUntilAvailable : ST B (option gerror) }.

Record Worker := mkCensusWorker { wr_handlers : Registry; wr_rateLimiter : option limiter }.
Definition worker_New (h : Registry) (rateLimiter : list limiter) : Worker := mkCensusWorker h (head rateLimiter).

Definition waitForProviders (l : limiter) (eventType : string) : ST B (option gerror) :=
  if HasSuffix eventType ".failed" then mret None
  else
    available ← li_IsAvailable l;
    if (available : bool) then mret None else li_WaitUntilAvailable l.

Fixpoint publish_next (next : list QueueJob) : ST B (option gerror) :=
  match next with
  | [] => mret None
  | job :: next => r ← Publish job; match r with Err e => mret (Some e) | Ok _ => publish_next next end
  end.

(** [processJob] of [RunEvents].  The pause after a rate-limit error returns
    the same error on both of its branches. *)
Definition direct_processJob (w : Worker) (job : QueueJob) : ST B (option gerror) :=
  match Registry_Get (wr_handlers w) (qj_Type job) with
  | None => mret (Some (missingHandlerError (qj_Type job)))
  | Some h =>
      waited ← match wr_rateLimiter w with Some l => waitForProviders l (qj_Type job) | None => mret None end;
      match waited with
      | Some e => mret (Some e)
      | None =>
          a ← h (qj_Payload job);
          match a with
          | HandlerPanicked => mret (Some (ErrorString "worker panic"))
          | Hub.Returned (Err e) => mret (Some e)
          | Hub.Returned (Ok next) => publish_next next
          end
      end
  end.

(** The first event type without a handler refuses to start. *)
Fixpoint check_handlers (r : Registry) (eventTypes : list string) : option gerror :=
  match eventTypes with
  | [] => None
  | et :: eventTypes =>
      if HasSuffix et ".failed" then check_handlers r eventTypes
      else match Registry_Get r et with
           | None => Some (ErrorString ("no handler registered for event " +:+ et))
           | Some _ => check_handlers r eventTypes
           end
  end.

(** [consume] is [Queue.Consume] of the adapter. *)
Definition RunEvents (w : Worker) (consume : list string -> Z -> (QueueJob -> ST B (option gerror)) -> ST B (option gerror))
    (eventTypes : list string) (concurrency : Z) : ST B (option gerror) :=
  let concurrency := if concurrency <=? 0 then 4 else concurrency in
  let eventTypes := run_events eventTypes in
  match check_handlers (wr_handlers w) eventTypes with
  | Some e => mret (Some e)
  | None =>
      err ← consume eventTypes concurrency (direct_processJob w);
      mret (match err with Some e => if errors_Is e ContextCanceled then None else Some e | None => None end)
  end.
Definition Run (w : Worker) (consume : list string -> Z -> (QueueJob -> ST B (option gerror)) -> ST B (option gerror))
    (eventType : string) (concurrency : Z) : ST B (option gerror) := RunEvents w consume [eventType] concurrency.
End Worker.
Arguments Handler : clear implicits. Arguments Registry : clear implicits.
Arguments limiter : clear implicits. Arguments Worker : clear implicits.

(** ** Proxy mode *)

(** The owner of worker [wid]'s proxy claims. *)
Definition proxy_owner (ownerPrefix : string) (wid : Z) : string := ownerPrefix +:+ "-w" +:+ pretty wid.
Definition ownerPrefix_of (hostname : string) (pid : Z) : string := "census-consume-" +:+ hostname +:+ "-p" +:+ pretty pid.
Definition pool_owners (ownerPrefix : string) (concurrency : Z) : list string :=
  proxy_owner ownerPrefix <$> seqZ 0 (if concurrency <=? 0 then 4 else concurrency).
(** [RunEventsWithProxy] joins the errors of its loops, cancellations aside;
    [outcomes] are their results in the order they were reported. *)
Definition RunEventsWithProxy_result (outcomes : list (option gerror)) : option gerror :=
  match omap (fun o => match o with Some e => if errors_Is e ContextCanceled then None else Some e | None => None end) outcomes with
  | [] => None
  | errs => Some (ErrJoin errs)
  end.

(** ** Properties *)

Section Facts.
Context {B : Type} `{L : BrokerLaws B}.

(** A mandatory publish that succeeded reached every queue it routes to, and
    there is one. *)
Lemma publishConfirmed_routed ex key pub (b b' : B) : publishConfirmed ex key pub b = (b', Ok tt) ->
  exists b0, br_routes b0 ex key <> [] /\ forall q, q ∈ br_routes b0 ex key -> (q, pub) ∈ br_accepted b'.
Proof.
  unfold publishConfirmed. destruct (if br_IsClosed b then _ else _) as [b1 [u|e]]; [|done]. destruct (br_drain_return b1) as [b2 x].
  destruct (br_publish ex key true pub b2) as [b3 ans] eqn:Hp. destruct ans as [e| |e|[]]; try done.
  pose proof (accepted_drain b3) as Hd. pose proof (mandatory_returned b2 ex key pub b3 Hp) as Hret.
  destruct (br_drain_return b3) as [b4 []]; [done|]. cbn in *. intros [= <-]. exists b2. split.
  - intros Hr. by specialize (Hret Hr).
  - intros q Hq. rewrite Hd. by eapply confirmed_accepted.
Qed.

Hypothesis main_bound : forall (b : B) et, knownEventType et = true -> mainQueueFor et ∈ br_routes b exchangeMain et.

(** A job is durably queued. *)
Definition queued (b : B) (job : QueueJob) : Prop :=
  exists q pub, (q, pub) ∈ br_accepted b /\ pb_Body pub = qj_Payload job /\ pb_Persistent pub = true /\
    getAttempts (Some (pb_Headers pub)) = 0 /\ (knownEventType (qj_Type job) = true -> q = mainQueueFor (qj_Type job)).
Lemma queued_lasts (b b' : B) job : br_accepted b ⊆ br_accepted b' -> queued b job -> queued b' job.
Proof. intros Hb (q & pub & Hin & Hr). exists q, pub. split; [by apply Hb|done]. Qed.

Lemma Publish_queues job (b b' : B) r : Publish job b = (b', r) -> br_accepted b ⊆ br_accepted b' /\ (r = Ok tt -> queued b' job).
Proof.
  unfold Publish. intros Hrun. split; [by eapply publishConfirmed_grows|]. intros ->. apply publishConfirmed_routed in Hrun as (b0 & Hne & Hall).
  destruct (knownEventType (qj_Type job)) eqn:Hk.
  - exists (mainQueueFor (qj_Type job)). eexists. split; [by apply Hall, main_bound|]. done.
  - destruct (br_routes b0 exchangeMain (qj_Type job)) as [|q qs] eqn:Hr; [done|]. exists q. eexists. split; [apply Hall; left|]. by rewrite Hk.
Qed.

Lemma publish_next_queues next : forall b b' r, publish_next next b = (b', r) ->
  br_accepted b ⊆ br_accepted b' /\ (r = None -> Forall (queued b') next).
Proof.
  induction next as [|job next IH]; intros b b' r; cbn [publish_next]; [by intros [= <- <-]|].
  rewrite ST_bind_eq. destruct (Publish job b) as [b1 [[]|e]] eqn:Hp; cbn [fst snd]; apply Publish_queues in Hp as [Hg Hq].
  - intros Hrun. apply IH in Hrun as [Hg2 Hall]. split; [by etrans|]. intros Hr. constructor; [eapply queued_lasts, Hq; done|by apply Hall].
  - intros [= <- <-]. by split.
Qed.

Variable w : Worker B.
Hypothesis handlers_grow : forall et h payload b, wr_handlers w !! et = Some h -> br_accepted b ⊆ br_accepted (h payload b).1.
Hypothesis limiter_grows : forall l b, wr_rateLimiter w = Some l ->
  br_accepted b ⊆ br_accepted (li_IsAvailable l b).1 /\ br_accepted b ⊆ br_accepted (li_WaitUntilAvailable l b).1.

(** What the worker does before it calls the handler of a job. *)
Definition wait_first (et : string) : ST B (option gerror) :=
  match wr_rateLimiter w with Some l => waitForProviders l et | None => mret None end.
(** The follow-up jobs the handler of [job] returns when the worker starts on the
    job in the state [b0]; none when it does not get that far or fails. *)
Definition asked_for (b0 : B) (job : QueueJob) : option (list QueueJob) :=
  match wr_handlers w !! qj_Type job with
  | None => None
  | Some h =>
      match wait_first (qj_Type job) b0 with
      | (_, Some _) => None
      | (b1, None) => match (h (qj_Payload job) b1).2 with Hub.Returned (Ok next) => Some next | _ => None end
      end
  end.
(** Started in the state [b0], the handler succeeded, and every job it returned
    then is queued. *)
Definition chained (b0 b : B) (job : QueueJob) : Prop := exists next, asked_for b0 job = Some next /\ Forall (queued b) next.
Lemma chained_lasts job (b0 b b' : B) : br_accepted b ⊆ br_accepted b' -> chained b0 b job -> chained b0 b' job.
Proof.
  intros Hb (next & Hn & Hq). exists next. split; [done|]. eapply Forall_impl; [|exact Hq]. intros j. by apply queued_lasts.
Qed.

Lemma wait_grows et b : br_accepted b ⊆ br_accepted (wait_first et b).1.
Proof.
  unfold wait_first. destruct (wr_rateLimiter w) as [l|] eqn:Hl; [|done]. unfold waitForProviders. destruct (HasSuffix et ".failed"); [done|]. rewrite ST_bind_eq.
  destruct (limiter_grows l b eq_refl) as [Ha _]. destruct (li_IsAvailable l b) as [b1 []]; cbn [fst snd] in *; [done|].
  etrans; [exact Ha|]. by apply limiter_grows.
Qed.

Lemma direct_processJob_spec job b : let '(b', r) := direct_processJob w job b in
  br_accepted b ⊆ br_accepted b' /\ (r = None -> chained b b' job).
Proof.
  unfold direct_processJob, chained, asked_for, Registry_Get. destruct (wr_handlers w !! qj_Type job) as [h|] eqn:Hh; [|by split].
  fold (wait_first (qj_Type job)). rewrite ST_bind_eq. pose proof (wait_grows (qj_Type job) b) as Hw.
  destruct (wait_first (qj_Type job) b) as [b1 [e|]]; cbn [fst snd] in *; [by split|].
  rewrite ST_bind_eq. pose proof (handlers_grow _ h (qj_Payload job) b1 Hh) as Hg. destruct (h (qj_Payload job) b1) as [b2 a] eqn:Ha. cbn [fst snd] in *.
  assert (Hb2 : br_accepted b ⊆ br_accepted b2) by by etrans. destruct a as [[next|e]|]; [|by split..].
  destruct (publish_next next b2) as [b3 r] eqn:Hp. apply publish_next_queues in Hp as [Hg3 Hq]. split; [by etrans|]. intros Hr.
  exists next. split; [done|by apply Hq].
Qed.
End Facts.

(** C11: the worker never loses a follow-up.  Whatever the interleaving of
    its consumers, the broker's deliveries, lost channels and the shutdown: a
    job the worker acknowledged was started in some state of this run, and if
    it succeeded then every job its handler returned on that start is durably
    on the main queue of its event type, while if it failed its own copy is on
    the failed or dead queue its error leads to; every job that was not
    acknowledged is still ready or unacknowledged. *)
Theorem worker_keeps_follow_ups {B : Type} `{L : BrokerLaws B} (w : Worker B) n eventTypes waiting (b : B) s
    (Hbound : forall (b : B) et, knownEventType et = true -> mainQueueFor et ∈ br_routes b exchangeMain et)
    (Hhandlers : forall et h payload b, wr_handlers w !! et = Some h -> br_accepted b ⊆ br_accepted (h payload b).1)
    (Hlimiter : forall l b, wr_rateLimiter w = Some l ->
       br_accepted b ⊆ br_accepted (li_IsAvailable l b).1 /\ br_accepted b ⊆ br_accepted (li_WaitUntilAvailable l b).1)
    (Hrun : rtc (sstep (LB := consume_body (direct_processJob w) (chained w))) (start n (run_events eventTypes) waiting b) s) :
  Forall (fun msg => exists b0,
      started_in_run (LB := consume_body (direct_processJob w) (chained w)) (start n (run_events eventTypes) waiting b) s msg b0 /\
      handled (direct_processJob w) (chained w) b0 (sh_broker (sy_shared s)) msg) (sh_done (sy_shared s)) /\
  sh_ready (sy_shared s) ++ all_unacked (sy_workers s) ++ sh_done (sy_shared s) ≡ₚ sy_published s.
Proof.
  apply (consumers_keep_everything (direct_processJob w)) in Hrun as [Hc _ Hr _]; [done|..].
  - intros job b0. pose proof (direct_processJob_spec Hbound w Hhandlers Hlimiter job b0) as Hs. by destruct (direct_processJob w job b0), Hs.
  - intros job b0. pose proof (direct_processJob_spec Hbound w Hhandlers Hlimiter job b0) as Hs.
    destruct (direct_processJob w job b0). intros Hn. by apply Hs.
  - intros job b0 b1 b2. by apply chained_lasts.
Qed.

(** A sweep that finds one character. *)
Definition sweep_worker : Worker MemBroker :=
  worker_New (Register NewRegistry EventIDSweep (fun _ => mret (Hub.Returned (Ok [AchievementCensusJob 7])))) [].
Lemma sweep_handlers_grow et h payload (b : MemBroker) : wr_handlers sweep_worker !! et = Some h -> br_accepted b ⊆ br_accepted (h payload b).1.
Proof. cbn. unfold Register, NewRegistry. intros Hh. apply (lookup_insert_Some (M := gmap string)) in Hh as [[_ <-]|[_ Hh]]; [done|discriminate Hh]. Qed.

Lemma worker_keeps_follow_ups_witness :
  let msg := demo_delivery None in
  exists s, sh_done (sy_shared s) = [msg] /\
    Forall (fun m => exists b0, chained sweep_worker b0 (sh_broker (sy_shared s)) (delivered_job m)) (sh_done (sy_shared s)) /\
    queued (sh_broker (sy_shared s)) (AchievementCensusJob 7).
Proof.
  cbv zeta. destruct (consume_delivery false (direct_processJob sweep_worker) (demo_delivery None) demo_broker) as [b' r] eqn:Hrun.
  assert (Hr : r = Ack) by (apply (f_equal snd) in Hrun; vm_compute in Hrun; symmetry; exact Hrun).
  assert (Hproc : lb_process (LoopBody := consume_body (direct_processJob sweep_worker) (chained sweep_worker)) false false (demo_delivery None) demo_broker
                  = (b', (Ack, false))).
  { transitivity ((s ← consume_delivery false (direct_processJob sweep_worker) (demo_delivery None); mret (s, false)) demo_broker); [reflexivity|].
    by rewrite ST_bind_eq, Hrun, Hr. }
  pose proof (one_delivery (LB := consume_body (direct_processJob sweep_worker) (chained sweep_worker)) (demo_delivery None) demo_broker b' Hproc) as Hs.
  match type of Hs with rtc _ _ ?s => exists s end. split; [reflexivity|].
  destruct (worker_keeps_follow_ups sweep_worker 1 [EventIDSweep] [demo_delivery None] demo_broker _ mem_bound sweep_handlers_grow
              ltac:(intros l b Hl; discriminate Hl) Hs) as [Hall _].
  cbn [sy_shared sh_done sh_broker] in *. inversion_clear Hall as [|? ? (b0 & _ & Hh) _].
  assert (Hok : (direct_processJob sweep_worker (delivered_job (demo_delivery None)) b0).2 = None -> chained sweep_worker b0 b' (delivered_job (demo_delivery None))).
  { unfold handled in Hh. destruct (direct_processJob _ _ b0).2; [done|]. by intros _. }
  assert (Hn : (direct_processJob sweep_worker (delivered_job (demo_delivery None)) b0).2 = None) by reflexivity.
  specialize (Hok Hn). split; [constructor; [by exists b0|constructor]|]. destruct Hok as (next & Hnext & Hq).
  assert (Hn7 : next = [AchievementCensusJob 7]) by (vm_compute in Hnext; by injection Hnext as <-). subst next. by inversion_clear Hq.
Defined.

(** ** Smaller facts *)

(** The workers of a pool claim proxies under different names. *)
Lemma pool_owners_distinct ownerPrefix concurrency : NoDup (pool_owners ownerPrefix concurrency).
Proof.
  unfold pool_owners. apply NoDup_fmap_2_strong; [|apply NoDup_seqZ]. intros x y _ _ Heq. unfold proxy_owner in Heq.
  by apply string_app_inj_l, string_app_inj_l, (inj pretty) in Heq.
Qed.

(** Events come trimmed and never empty, and every event that is consumed has a
    handler or names a failed queue. *)
Lemma listed_events_named eventsFlag et : et ∈ listed_events eventsFlag -> et <> "" /\ exists part, et = TrimSpace part.
Proof. unfold listed_events. intros [Hne Hin]%list_elem_of_filter. split; [done|]. apply list_elem_of_fmap in Hin as (part & -> & _). by exists part. Qed.
Lemma check_handlers_ok {B : Type} `{Broker B} (r : Registry B) eventTypes : check_handlers r eventTypes = None ->
  Forall (fun et => HasSuffix et ".failed" = true \/ is_Some (r !! et)) eventTypes.
Proof.
  induction eventTypes as [|et ets IH]; cbn [check_handlers]; [constructor|]. unfold Registry_Get. destruct (HasSuffix et ".failed") eqn:Hs.
  - constructor; [by left|by apply IH].
  - destruct (r !! et) eqn:Hr; [|done]. constructor; [right; by rewrite Hr|by apply IH].
Qed.
