(* ===== verification/StatsStore.v ===== *)
(** * The UI statistics repository
      ([infrastructure/postgres/repository/ui_stats.go])

    [Refresh] aggregates the census tables under an advisory lock and
    publishes one validated snapshot row; [LoadCurrent] reads it back.  A
    grouping column of the result is [Some] when it is grouped ([GROUPING] is
    0) and [None] (SQL's NULL) otherwise: the grouped columns themselves are
    never NULL. *)
From S2P Require Import Prelude GoErrors GoStrings Contract Dates Payloads Worlds Snapshot CharacterStore.

(** ** Character statistics *)

Inductive column := CRegion | CDatacenter | CWorld | CRace | CTribe | CGender.
Definition column_eqb (a b : column) : bool :=
  match a, b with
  | CRegion, CRegion | CDatacenter, CDatacenter | CWorld, CWorld | CRace, CRace | CTribe, CTribe | CGender, CGender => true
  | _, _ => false
  end.

Definition grouping_sets : list (list column) :=
  [[]; [CRegion]; [CDatacenter]; [CWorld];
   [CRace]; [CRegion; CRace]; [CDatacenter; CRace]; [CWorld; CRace];
   [CTribe]; [CRegion; CTribe]; [CDatacenter; CTribe]; [CWorld; CTribe];
   [CGender]; [CRegion; CGender]; [CDatacenter; CGender]; [CWorld; CGender];
   [CRace; CGender]; [CRegion; CRace; CGender]; [CDatacenter; CRace; CGender]; [CWorld; CRace; CGender]].

Record statKey := mkStatKey {
  k_region : option string; k_dc : option string; k_world : option string;
  k_race : option string; k_tribe : option string; k_gender : option Z;
}.
Global Instance statKey_eq_dec : EqDecision statKey.
Proof. solve_decision. Defined.

Record statRow := mkStatRow { st_key : statKey; st_total : Z; st_active : Z; st_maxLevel : Z }.

Definition grouped {A} (set : list column) (c : column) (v : A) : option A := if existsb (column_eqb c) set then Some v else None.
Definition project (set : list column) (r : charRow) : statKey :=
  let c := row_rec r in
  mkStatKey (grouped set CRegion (cr_Region c)) (grouped set CDatacenter (cr_Datacenter c)) (grouped set CWorld (cr_World c))
    (grouped set CRace (cr_Race c)) (grouped set CTribe (cr_Tribe c)) (grouped set CGender (cr_Gender c)).

Definition live_rows (db : CensusDB) : list charRow := filter (fun r => not_deleted r = true) (chars_list db).
Definition count_rows (P : charRow -> bool) (rows : list charRow) : Z := Z.of_nat (length (filter (fun r => P r = true) rows)).

Definition group_row (since maxLevel : Z) (rows : list charRow) (set : list column) (k : statKey) : statRow :=
  mkStatRow k (count_rows (fun r => bool_decide (project set r = k)) rows)
    (count_rows (fun r => bool_decide (project set r = k) && active_since since r) rows)
    (count_rows (fun r => bool_decide (project set r = k) && (maxLevel <=? row_MaxJobLevel r)) rows).
(** The empty grouping set has its row even over an empty table. *)
Definition group_rows (since maxLevel : Z) (rows : list charRow) (set : list column) : list statRow :=
  group_row since maxLevel rows set <$>
    match set with
    | [] => [mkStatKey None None None None None None]
    | _ => remove_dups (project set <$> rows)
    end.
Definition character_stats_query (db : CensusDB) (since maxLevel : Z) : list statRow :=
  grouping_sets ≫= group_rows since maxLevel (live_rows db).

Definition genderName (value : Z) : string :=
  if value =? 1 then "Male" else if value =? 2 then "Female" else "Unknown".

(** [sql.NullString.String] and [sql.NullInt64.Int64]. *)
Definition str (o : option string) : string := default "" o.
Definition int (o : option Z) : Z := default 0 o.
Definition GROUPING {A} (o : option A) : Z := match o with None => 1 | Some _ => 0 end.

Definition no_dimension (k : statKey) : bool :=
  (GROUPING (k_race k) =? 1) && (GROUPING (k_tribe k) =? 1) && (GROUPING (k_gender k) =? 1).
Definition row_scope (k : statKey) : StatsScope :=
  if GROUPING (k_world k) =? 0 then mkStatsScope "" "" (str (k_world k))
  else if GROUPING (k_dc k) =? 0 then mkStatsScope "" (str (k_dc k)) ""
  else if GROUPING (k_region k) =? 0 then mkStatsScope (str (k_region k)) "" ""
  else zeroScope.
Definition row_dimension (k : statKey) : string * string :=
  if (GROUPING (k_race k) =? 0) && (GROUPING (k_gender k) =? 0) then
    ("race_gender", str (k_race k) +:+ "|" +:+ genderName (int (k_gender k)))
  else if GROUPING (k_race k) =? 0 then ("race", str (k_race k))
  else if GROUPING (k_tribe k) =? 0 then ("tribe", str (k_tribe k))
  else if GROUPING (k_gender k) =? 0 then ("gender", genderName (int (k_gender k)))
  else ("", "").
Definition is_summary_row (k : statKey) : bool :=
  no_dimension k && (GROUPING (k_region k) =? 1) && (GROUPING (k_dc k) =? 1) && (GROUPING (k_world k) =? 1).
(** The group a row appends, if any. *)
Definition row_group (row : statRow) : option ScopedGroupCount :=
  let k := st_key row in
  if is_summary_row k then None
  else if no_dimension k then
    if GROUPING (k_region k) =? 0 then Some (mkScopedGroup zeroScope "region" (str (k_region k)) (st_total row) (st_active row))
    else if GROUPING (k_dc k) =? 0 then Some (mkScopedGroup zeroScope "datacenter" (str (k_dc k)) (st_total row) (st_active row))
    else if (GROUPING (k_world k) =? 0) && negb (bool_decide (str (k_world k) = "")) then
      Some (mkScopedGroup zeroScope "world" (str (k_world k)) (st_total row) (st_active row))
    else None
  else
    let scope := row_scope k in
    let '(dimension, key) := row_dimension k in
    if negb (bool_decide (dimension = "")) && (negb (bool_decide (scope = zeroScope)) || (GROUPING (k_world k) =? 1)) then
      Some (mkScopedGroup scope dimension key (st_total row) (st_active row))
    else None.

(** One iteration of the row loop. *)
Definition add_stat_row (s : UIStatsSnapshot) (row : statRow) : UIStatsSnapshot :=
  if is_summary_row (st_key row) then
    s{{ ss_Summary := mkStatsSummary (st_total row) (st_active row) (st_maxLevel row); ss_SourceCharacters := st_total row }}
  else match row_group row with
       | Some g => s{{ ss_Groups := ss_Groups s ++ [g] }}
       | None => s
       end.
Definition readCharacterStats (rows : list statRow) (s : UIStatsSnapshot) : UIStatsSnapshot := fold_left add_stat_row rows s.

(** ** Milestone statistics *)

Record trackedRow := mkTracked { tr_character : Z; tr_achievement : Z; tr_at : Z; tr_expansion : option string; tr_world : string }.

Definition tracked_kind (m : MilestoneAchievement) : bool :=
  (bool_decide (ma_Kind m = "expansion_msq") || bool_decide (ma_Kind m = "expansion"))
  && match ma_Expansion m with Some _ => true | None => false end.
Definition track (db : CensusDB) (kv : Z * Z * Z) : option trackedRow :=
  let '(ch, ach, at_) := kv in
  m ← cdb_registry db !! ach;
  c ← cdb_chars db !! ch;
  if not_deleted c && ((ach =? 590) || tracked_kind m)
  then Some (mkTracked ch ach at_ (ma_Expansion m) (cr_World (row_rec c))) else None.
Definition tracked (db : CensusDB) : list trackedRow := omap (track db) (map_to_list (cdb_milestones db)).

(** A row of the [UNION ALL]; [mr_world] is [None] in the global grouping set. *)
Record milestoneRow := mkMilestoneRow { mr_kind : string; mr_world : option string; mr_value : string; mr_count : Z }.

Definition distinct_characters (rows : list trackedRow) : Z := Z.of_nat (length (remove_dups (tr_character <$> rows))).
(** Both grouping sets, for rows that carry a value. *)
Definition value_stats (kind : string) (rows : list (string * trackedRow)) : list milestoneRow :=
  ((fun v => mkMilestoneRow kind None v (distinct_characters (filter (fun x => x.1 = v) rows).*2)) <$> remove_dups rows.*1)
  ++ ((fun wv => mkMilestoneRow kind (Some wv.1) wv.2
         (distinct_characters (filter (fun x => tr_world x.2 = wv.1 /\ x.1 = wv.2) rows).*2))
      <$> remove_dups ((fun x => (tr_world x.2, x.1)) <$> rows)).
Definition expansion_rows (db : CensusDB) : list (string * trackedRow) :=
  omap (fun t => e ← tr_expansion t; Some (e, t)) (tracked db).
Definition daily_rows (db : CensusDB) (since : Z) : list (string * trackedRow) :=
  (fun t => (format_day (day_of (tr_at t)), t)) <$> filter (fun t => tr_achievement t = 590 /\ since <= tr_at t) (tracked db).
Definition milestone_stats_query (db : CensusDB) (since : Z) : list milestoneRow :=
  value_stats "expansion" (expansion_rows db) ++ value_stats "daily" (daily_rows db since).

Definition newCharactersLookbackDays : Z := 60.
Definition lookback_start (generatedAt : Z) : Z := time_of_day (day_of generatedAt - (newCharactersLookbackDays - 1)).

(** The scope of a row; a row of the world grouping without a world is
    skipped. *)
Definition milestone_scope (row : milestoneRow) : option StatsScope :=
  if GROUPING (mr_world row) =? 0 then
    if bool_decide (str (mr_world row) = "") then None else Some (mkStatsScope "" "" (str (mr_world row)))
  else Some zeroScope.
Definition add_milestone_row (s : UIStatsSnapshot) (row : milestoneRow) : UIStatsSnapshot :=
  match milestone_scope row with
  | None => s
  | Some scope =>
      if bool_decide (mr_kind row = "expansion") then
        s{{ ss_Expansions := ss_Expansions s ++ [mkScopedExpansion scope (mr_value row) (mr_count row)] }}
      else if bool_decide (mr_kind row = "daily") then
        s{{ ss_NewCharacters := ss_NewCharacters s ++ [mkScopedDaily scope (mr_value row) (mr_count row)] }}
      else s
  end.
Definition readMilestoneStats (rows : list milestoneRow) (s : UIStatsSnapshot) : UIStatsSnapshot := fold_left add_milestone_row rows s.

(** ** The snapshot as JSON *)

Definition set_i64 (old : Z) (v : json) : result Z :=
  match v with
  | JInt z => if (min_int64 <=? z) && (z <=? max_int64) then Ok z else Err (ErrorString "json: cannot unmarshal number")
  | JNull => Ok old
  | _ => Err (ErrorString "json: cannot unmarshal")
  end.
Definition set_time (old : Z) (v : json) : result Z :=
  match v with
  | JStr s => match parse_rfc3339 s with Some t => Ok t | None => Err (ErrorString "parsing time") end
  | JNull => Ok old
  | _ => Err (ErrorString "Time.UnmarshalJSON: input is not a JSON string")
  end.
Definition set_slice {A} (decode : json -> result A) (v : json) : result (list A) :=
  match v with
  | JArr l => mapM decode l
  | JNull => Ok []
  | _ => Err (ErrorString "json: cannot unmarshal")
  end.
Definition marshal_slice {A} (encode : A -> json) (l : list A) : json :=
  match l with [] => JNull | _ => JArr (encode <$> l) end.
(** [json:"...,omitempty"] on a string. *)
Definition omitempty (key value : string) : list (string * json) :=
  if bool_decide (value = "") then [] else [(key, JStr value)].

Definition marshal_scope (s : StatsScope) : json :=
  JObj (omitempty "region" (sc_Region s) ++ omitempty "datacenter" (sc_Datacenter s) ++ omitempty "world" (sc_World s)).
Definition marshal_summary (s : StatsSummary) : json :=
  JObj [("total", JInt (su_Total s)); ("active", JInt (su_Active s)); ("max_level", JInt (su_MaxLevel s))].
Definition marshal_group (g : ScopedGroupCount) : json :=
  JObj [("scope", marshal_scope (sg_Scope g)); ("dimension", JStr (sg_Dimension g)); ("key", JStr (sg_Key g));
        ("total", JInt (sg_Total g)); ("active", JInt (sg_Active g))].
Definition marshal_expansion (e : ScopedExpansionCount) : json :=
  JObj [("scope", marshal_scope (se_Scope e)); ("expansion", JStr (se_Expansion e)); ("count", JInt (se_Count e))].
Definition marshal_daily (d : ScopedDailyCount) : json :=
  JObj [("scope", marshal_scope (sd_Scope d)); ("day", JStr (sd_Day d)); ("count", JInt (sd_Count d))].

(** [Time.MarshalJSON] refuses years outside four digits. *)
Definition marshal_time_ok (t : Z) : bool :=
  let '(y, _, _) := civil_of_days (day_of t) in (0 <=? y) && (y <=? 9999).
Definition marshal_snapshot (s : UIStatsSnapshot) : result json :=
  if marshal_time_ok (ss_GeneratedAt s) && marshal_time_ok (ss_ActivitySince s) then
    Ok (JObj [("schema_version", JInt (ss_SchemaVersion s)); ("generated_at", JStr (format_rfc3339 (ss_GeneratedAt s)));
      ("activity_since", JStr (format_rfc3339 (ss_ActivitySince s))); ("max_level", JInt (ss_MaxLevel s));
      ("source_characters", JInt (ss_SourceCharacters s)); ("refresh_duration", JInt (ss_RefreshDuration s));
      ("groups", marshal_slice marshal_group (ss_Groups s)); ("expansions", marshal_slice marshal_expansion (ss_Expansions s));
      ("new_characters", marshal_slice marshal_daily (ss_NewCharacters s)); ("summary", marshal_summary (ss_Summary s))])
  else Err (ErrorString "Time.MarshalJSON: year outside of range [0,9999]").

(** A struct field: its name, and how a value is read into it. *)
Definition field {A B} (name : string) (read : A -> json -> result B) (write : B -> A -> A)
    (rest : string -> option (A -> json -> result A)) (key : string) : option (A -> json -> result A) :=
  if bool_decide (key = name) then Some (fun a v => x ← read a v; mret (write x a)) else rest key.
Definition no_field {A} (key : string) : option (A -> json -> result A) := None.

Definition unmarshal_scope : json -> result StatsScope :=
  unmarshal_struct
    (field "region" (fun a => set_string (sc_Region a)) (fun x a => a{{ sc_Region := x }})
    (field "datacenter" (fun a => set_string (sc_Datacenter a)) (fun x a => a{{ sc_Datacenter := x }})
    (field "world" (fun a => set_string (sc_World a)) (fun x a => a{{ sc_World := x }}) no_field))) zeroScope.
Definition unmarshal_summary : json -> result StatsSummary :=
  unmarshal_struct
    (field "total" (fun a => set_i64 (su_Total a)) (fun x a => a{{ su_Total := x }})
    (field "active" (fun a => set_i64 (su_Active a)) (fun x a => a{{ su_Active := x }})
    (field "max_level" (fun a => set_i64 (su_MaxLevel a)) (fun x a => a{{ su_MaxLevel := x }}) no_field))) (mkStatsSummary 0 0 0).
Definition unmarshal_group : json -> result ScopedGroupCount :=
  unmarshal_struct
    (field "scope" (fun _ => unmarshal_scope) (fun x a => a{{ sg_Scope := x }})
    (field "dimension" (fun a => set_string (sg_Dimension a)) (fun x a => a{{ sg_Dimension := x }})
    (field "key" (fun a => set_string (sg_Key a)) (fun x a => a{{ sg_Key := x }})
    (field "total" (fun a => set_i64 (sg_Total a)) (fun x a => a{{ sg_Total := x }})
    (field "active" (fun a => set_i64 (sg_Active a)) (fun x a => a{{ sg_Active := x }}) no_field)))))
    (mkScopedGroup zeroScope "" "" 0 0).
Definition unmarshal_expansion : json -> result ScopedExpansionCount :=
  unmarshal_struct
    (field "scope" (fun _ => unmarshal_scope) (fun x a => a{{ se_Scope := x }})
    (field "expansion" (fun a => set_string (se_Expansion a)) (fun x a => a{{ se_Expansion := x }})
    (field "count" (fun a => set_i64 (se_Count a)) (fun x a => a{{ se_Count := x }}) no_field)))
    (mkScopedExpansion zeroScope "" 0).
Definition unmarshal_daily : json -> result ScopedDailyCount :=
  unmarshal_struct
    (field "scope" (fun _ => unmarshal_scope) (fun x a => a{{ sd_Scope := x }})
    (field "day" (fun a => set_string (sd_Day a)) (fun x a => a{{ sd_Day := x }})
    (field "count" (fun a => set_i64 (sd_Count a)) (fun x a => a{{ sd_Count := x }}) no_field)))
    (mkScopedDaily zeroScope "" 0).
Definition zeroSnapshot : UIStatsSnapshot := mkSnapshot 0 zero_time zero_time 0 0 0 [] [] [] (mkStatsSummary 0 0 0).
Definition unmarshal_snapshot : json -> result UIStatsSnapshot :=
  unmarshal_struct
    (field "schema_version" (fun a => set_i64 (ss_SchemaVersion a)) (fun x a => a{{ ss_SchemaVersion := x }})
    (field "generated_at" (fun a => set_time (ss_GeneratedAt a)) (fun x a => a{{ ss_GeneratedAt := x }})
    (field "activity_since" (fun a => set_time (ss_ActivitySince a)) (fun x a => a{{ ss_ActivitySince := x }})
    (field "max_level" (fun a => set_u32 (ss_MaxLevel a)) (fun x a => a{{ ss_MaxLevel := x }})
    (field "source_characters" (fun a => set_i64 (ss_SourceCharacters a)) (fun x a => a{{ ss_SourceCharacters := x }})
    (field "refresh_duration" (fun a => set_i64 (ss_RefreshDuration a)) (fun x a => a{{ ss_RefreshDuration := x }})
    (field "groups" (fun _ => set_slice unmarshal_group) (fun x a => a{{ ss_Groups := x }})
    (field "expansions" (fun _ => set_slice unmarshal_expansion) (fun x a => a{{ ss_Expansions := x }})
    (field "new_characters" (fun _ => set_slice unmarshal_daily) (fun x a => a{{ ss_NewCharacters := x }})
    (field "summary" (fun _ => unmarshal_summary) (fun x a => a{{ ss_Summary := x }}) no_field)))))))))) zeroSnapshot.

(** ** The snapshot table *)

(** The row ['current'] of [ui_stats_snapshots]. *)
Record snapshotRow := mkSnapshotRow {
  sr_schema_version : Z; sr_generated_at : Z; sr_activity_since : Z; sr_max_level : Z;
  sr_source_character_count : Z; sr_refresh_duration_ms : Z; sr_payload : json;
}.

Definition LoadCurrent (table : option snapshotRow) (f : fault) : result UIStatsSnapshot :=
  read_fault f (
    match table with
    | None => Err ErrUIStatsUnavailable
    | Some row =>
        match unmarshal_snapshot (sr_payload row) with
        | Err e => Err (ErrWrap "decode UI statistics snapshot" e)
        | Ok snapshot =>
            let snapshot := snapshot{{ ss_SchemaVersion := sr_schema_version row; ss_GeneratedAt := sr_generated_at row;
              ss_ActivitySince := sr_activity_since row; ss_MaxLevel := sr_max_level row;
              ss_SourceCharacters := sr_source_character_count row;
              ss_RefreshDuration := i64 (sr_refresh_duration_ms row * millisecond) }} in
            _ ← ValidateUIStatsSnapshot (Some snapshot);
            Ok snapshot
        end
    end).

(** What a refresh meets: faults of each statement, whether another session
    holds the advisory lock, the order in which the server returns rows, and
    three readings of the clock. *)
Record refreshEnv := mkRefreshEnv {
  re_connect : option gerror;
  re_lock : result bool;
  re_begin : option gerror;
  re_characters : option gerror;
  re_character_order : list statRow -> list statRow;
  re_milestones : option gerror;
  re_milestone_order : list milestoneRow -> list milestoneRow;
  re_commit : option gerror;
  re_started : Z; re_now : Z; re_finished : Z;
  re_publish : fault;
}.

Definition fail_if (msg : string) (e : option gerror) : result unit :=
  match e with None => Ok tt | Some e => Err (ErrWrap msg e) end.

(** The read side: both queries see one repeatable-read snapshot of the
    tables. *)
Definition build_snapshot (db : CensusDB) (env : refreshEnv) (opts : UIStatsRefreshOptions) : result UIStatsSnapshot :=
  _ ← fail_if "begin UI statistics refresh" (re_begin env);
  let snapshot := mkSnapshot UIStatsSchemaVersion (re_now env) (ro_ActivitySince opts) (ro_MaxLevel opts) 0 0 [] [] [] (mkStatsSummary 0 0 0) in
  _ ← fail_if "query UI character statistics" (re_characters env);
  let snapshot := readCharacterStats (re_character_order env (character_stats_query db (ss_ActivitySince snapshot) (ss_MaxLevel snapshot))) snapshot in
  _ ← fail_if "query UI milestone statistics" (re_milestones env);
  let snapshot := readMilestoneStats (re_milestone_order env (milestone_stats_query db (lookback_start (ss_GeneratedAt snapshot)))) snapshot in
  _ ← fail_if "commit UI statistics read snapshot" (re_commit env);
  let snapshot := snapshot{{ ss_RefreshDuration := time_sub (re_finished env) (re_started env) }} in
  _ ← ValidateUIStatsSnapshot (Some snapshot);
  Ok snapshot.

(** [max_level] is an [INTEGER] column and the times are [TIMESTAMPTZ]. *)
Definition publish_row (table : option snapshotRow) (f : fault) (row : snapshotRow) : option snapshotRow * result unit :=
  with_fault f table (
    if 2147483647 <? sr_max_level row then (table, Err (ErrorString "integer out of range"))
    else (Some (row{{ sr_generated_at := timestamptz (sr_generated_at row); sr_activity_since := timestamptz (sr_activity_since row) }}), Ok tt)).

Definition Refresh (db : CensusDB) (table : option snapshotRow) (env : refreshEnv) (opts : UIStatsRefreshOptions)
    : option snapshotRow * result UIStatsRefreshResult :=
  if is_zero_time (ro_ActivitySince opts) then (table, Err (ErrorString "UI statistics activity cutoff is required"))
  else if ro_MaxLevel opts =? 0 then (table, Err (ErrorString "UI statistics max level is required"))
  else match re_connect env with
  | Some e => (table, Err e)
  | None =>
  match re_lock env with
  | Err e => (table, Err (ErrWrap "acquire UI statistics refresh lock" e))
  | Ok false => (table, Ok (mkRefreshResult None true))
  | Ok true =>
      match (snapshot ← build_snapshot db env opts; payload ← wrap_err "encode UI statistics snapshot" (marshal_snapshot snapshot); Ok (snapshot, payload)) with
      | Err e => (table, Err e)
      | Ok (snapshot, payload) =>
          let row := mkSnapshotRow (ss_SchemaVersion snapshot) (ss_GeneratedAt snapshot) (ss_ActivitySince snapshot) (ss_MaxLevel snapshot)
                       (ss_SourceCharacters snapshot) (Z.quot (ss_RefreshDuration snapshot) millisecond) payload in
          let '(table, r) := publish_row table (re_publish env) row in
          (table, match r with
                  | Err e => Err (ErrWrap "publish UI statistics snapshot" e)
                  | Ok _ => Ok (mkRefreshResult (Some snapshot) false)
                  end)
      end
  end
  end.
