(* ===== verification/StatsStoreFacts.v ===== *)
(** * The UI statistics repository: theorems

    A refresh publishes a snapshot with the exact counts of the live
    characters, which reads back and always validates; characters without a
    region or a datacenter make every refresh fail. *)
From S2P Require Import Prelude GoErrors GoStrings Contract Dates Payloads Worlds Snapshot CharacterStore StatsStore.

(** ** JSON round trip *)

(** Reading the members of an object one after the other. *)
Definition decode_members {A} (fld : string -> option (A -> json -> result A)) (members : list (string * json)) (r : result A) : result A :=
  fold_left (fun r kv => match r, fld (ToLower kv.1) with Ok a, Some set => set a kv.2 | _, _ => r end) members r.

Lemma unmarshal_object {A} fld (zero : A) l : unmarshal_struct fld zero (JObj l) = decode_members fld l (Ok zero).
Proof. reflexivity. Qed.
Lemma decode_cons {A} (fld : string -> option (A -> json -> result A)) k v l a a' set :
  fld (ToLower k) = Some set -> set a v = Ok a' -> decode_members fld ((k, v) :: l) (Ok a) = decode_members fld l (Ok a').
Proof. intros Hf Hs. unfold decode_members. cbn [fold_left fst snd]. by rewrite Hf, Hs. Qed.
Lemma decode_omitempty {A} (fld : string -> option (A -> json -> result A)) k v l a a' set :
  fld (ToLower k) = Some set -> (v <> "" -> set a (JStr v) = Ok a') -> (v = "" -> a' = a) ->
  decode_members fld (omitempty k v ++ l) (Ok a) = decode_members fld l (Ok a').
Proof.
  intros Hf Hs Ha. unfold omitempty. case_bool_decide as Hv; [by rewrite (Ha Hv)|]. cbn [app]. by eapply decode_cons; eauto.
Qed.

Lemma set_i64_ok old z : is_i64 z -> set_i64 old (JInt z) = Ok z.
Proof. intros [H1 H2]. unfold set_i64. by rewrite (proj2 (Z.leb_le _ _) H1), (proj2 (Z.leb_le _ _) H2). Qed.
Lemma set_u32_ok old z : is_u32 z -> set_u32 old (JInt z) = Ok z.
Proof. intros [H1 H2]. unfold set_u32. by rewrite (proj2 (Z.leb_le _ _) H1), (proj2 (Z.leb_le _ _) H2). Qed.
Lemma set_time_ok old t : four_digit_day (day_of t) -> set_time old (JStr (format_rfc3339 t)) = Ok t.
Proof. intros H. unfold set_time. by rewrite parse_format_rfc3339. Qed.
Lemma set_slice_ok {A} (enc : A -> json) (dec : json -> result A) l :
  (forall x, x ∈ l -> dec (enc x) = Ok x) -> set_slice dec (marshal_slice enc l) = Ok l.
Proof.
  intros H. assert (Hm : mapM dec (enc <$> l) = Ok l).
  { induction l as [|x l IH]; [done|]. cbn. rewrite H by apply list_elem_of_here. cbn [mbind result_bind].
    change (list_fmap A json enc l) with (enc <$> l). rewrite IH by (intros; apply H; by apply list_elem_of_further). done. }
  destruct l; [done|]. exact Hm.
Qed.

(** One known member: compute its setter, then read the value. *)
Ltac member := erewrite decode_cons; [|reflexivity|cbv beta; first [rewrite set_i64_ok by done|rewrite set_u32_ok by done|rewrite set_time_ok by done|idtac]; reflexivity].

Lemma unmarshal_marshal_scope s : unmarshal_scope (marshal_scope s) = Ok s.
Proof.
  destruct s as [a b c]. unfold unmarshal_scope, marshal_scope. rewrite unmarshal_object. cbn [sc_Region sc_Datacenter sc_World].
  rewrite (decode_omitempty _ "region" a _ _ (mkStatsScope a "" "") _ eq_refl) by (by intros; subst).
  rewrite (decode_omitempty _ "datacenter" b _ _ (mkStatsScope a b "") _ eq_refl) by (by intros; subst).
  rewrite <-(app_nil_r (omitempty "world" c)).
  by rewrite (decode_omitempty _ "world" c _ _ (mkStatsScope a b c) _ eq_refl) by (by intros; subst).
Qed.

(** Counts that fit their 64-bit fields. *)
Record group_fits (g : ScopedGroupCount) : Prop := { gf_total : is_i64 (sg_Total g); gf_active : is_i64 (sg_Active g) }.
Record snapshot_fits (s : UIStatsSnapshot) : Prop := {
  sf_version : is_i64 (ss_SchemaVersion s);
  sf_generated : four_digit_day (day_of (ss_GeneratedAt s));
  sf_since : four_digit_day (day_of (ss_ActivitySince s));
  sf_level : is_u32 (ss_MaxLevel s);
  sf_source : is_i64 (ss_SourceCharacters s);
  sf_duration : is_i64 (ss_RefreshDuration s);
  sf_groups : forall g, g ∈ ss_Groups s -> group_fits g;
  sf_expansions : forall e, e ∈ ss_Expansions s -> is_i64 (se_Count e);
  sf_days : forall d, d ∈ ss_NewCharacters s -> is_i64 (sd_Count d);
  sf_summary : is_i64 (su_Total (ss_Summary s)) /\ is_i64 (su_Active (ss_Summary s)) /\ is_i64 (su_MaxLevel (ss_Summary s));
}.

Ltac decode ty := unfold ty; rewrite unmarshal_object; repeat member; reflexivity.

Lemma unmarshal_marshal_summary s : is_i64 (su_Total s) -> is_i64 (su_Active s) -> is_i64 (su_MaxLevel s) ->
  unmarshal_summary (marshal_summary s) = Ok s.
Proof. destruct s as [a b c]. cbn [su_Total su_Active su_MaxLevel]. intros. unfold marshal_summary. decode unmarshal_summary. Qed.
Lemma unmarshal_marshal_group g : group_fits g -> unmarshal_group (marshal_group g) = Ok g.
Proof.
  destruct g as [sc dim key t a]. intros [Ht Ha]. cbn [sg_Total sg_Active] in *. unfold marshal_group, unmarshal_group.
  rewrite unmarshal_object. erewrite decode_cons; [|reflexivity|cbv beta; cbn [sg_Scope]; rewrite unmarshal_marshal_scope; reflexivity].
  repeat member. reflexivity.
Qed.
Lemma unmarshal_marshal_expansion e : is_i64 (se_Count e) -> unmarshal_expansion (marshal_expansion e) = Ok e.
Proof.
  destruct e as [sc ex n]. cbn [se_Count]. intros Hn. unfold marshal_expansion, unmarshal_expansion.
  rewrite unmarshal_object. erewrite decode_cons; [|reflexivity|cbv beta; cbn [se_Scope]; rewrite unmarshal_marshal_scope; reflexivity].
  repeat member. reflexivity.
Qed.
Lemma unmarshal_marshal_daily d : is_i64 (sd_Count d) -> unmarshal_daily (marshal_daily d) = Ok d.
Proof.
  destruct d as [sc dy n]. cbn [sd_Count]. intros Hn. unfold marshal_daily, unmarshal_daily.
  rewrite unmarshal_object. erewrite decode_cons; [|reflexivity|cbv beta; cbn [sd_Scope]; rewrite unmarshal_marshal_scope; reflexivity].
  repeat member. reflexivity.
Qed.

Lemma marshal_time_four t : four_digit_day (day_of t) -> marshal_time_ok t = true.
Proof.
  intros H. unfold marshal_time_ok. pose proof (civil_of_days_spec _ H) as Hc. destruct (civil_of_days (day_of t)) as [[y m] d].
  destruct Hc as ([Hy1 Hy2] & _). by rewrite (proj2 (Z.leb_le _ _) Hy1), (proj2 (Z.leb_le _ _) Hy2).
Qed.

Lemma unmarshal_marshal_snapshot s : snapshot_fits s ->
  exists v, marshal_snapshot s = Ok v /\ unmarshal_snapshot v = Ok s.
Proof.
  intros [H1 H2 H3 H4 H5 H6 H7 H8 H9 (H10 & H11 & H12)]. destruct s as [ver gen since lvl src dur grp exps days summ].
  cbn [ss_SchemaVersion ss_GeneratedAt ss_ActivitySince ss_MaxLevel ss_SourceCharacters ss_RefreshDuration ss_Groups ss_Expansions ss_NewCharacters ss_Summary] in *.
  unfold marshal_snapshot.
  cbn [ss_SchemaVersion ss_GeneratedAt ss_ActivitySince ss_MaxLevel ss_SourceCharacters ss_RefreshDuration ss_Groups ss_Expansions ss_NewCharacters ss_Summary].
  rewrite !marshal_time_four by done. eexists. split; [reflexivity|]. unfold unmarshal_snapshot.
  rewrite unmarshal_object. do 6 member.
  erewrite decode_cons; [|reflexivity|cbv beta; rewrite (set_slice_ok marshal_group) by (intros; by apply unmarshal_marshal_group, H7); reflexivity].
  erewrite decode_cons; [|reflexivity|cbv beta; rewrite (set_slice_ok marshal_expansion) by (intros; by apply unmarshal_marshal_expansion, H8); reflexivity].
  erewrite decode_cons; [|reflexivity|cbv beta; rewrite (set_slice_ok marshal_daily) by (intros; by apply unmarshal_marshal_daily, H9); reflexivity].
  erewrite decode_cons; [|reflexivity|cbv beta; rewrite unmarshal_marshal_summary by done; reflexivity].
  reflexivity.
Qed.

(** ** Keys *)

Definition nul_free (s : string) : Prop := free_of (Ascii.ascii_of_nat 0) s = true.

Lemma split_unique c a b a' b' : free_of c a = true -> free_of c a' = true ->
  a +:+ String c b = a' +:+ String c b' -> a = a' /\ b = b'.
Proof.
  revert a'. induction a as [|x a IH]; intros [|x' a'] Ha Ha' H; rewrite ?string_cons_app in H; cbn in Ha, Ha'; bsplit.
  - by injection H.
  - change ("" +:+ String c b) with (String c b) in H. injection H as H _. congruence.
  - change ("" +:+ String c b') with (String c b') in H. injection H as H _. congruence.
  - injection H as <- H. destruct (IH a') as [<- <-]; auto.
Qed.
Lemma nul_split a b a' b' : nul_free a -> nul_free a' -> a +:+ nul +:+ b = a' +:+ nul +:+ b' -> a = a' /\ b = b'.
Proof. intros Ha Ha' H. exact (split_unique _ _ _ _ _ Ha Ha' H). Qed.

Definition scope_nul_free (s : StatsScope) : Prop := nul_free (sc_Region s) /\ nul_free (sc_Datacenter s) /\ nul_free (sc_World s).

Lemma scopeKey_split s s' b b' : scope_nul_free s -> scope_nul_free s' ->
  scopeKey s +:+ nul +:+ b = scopeKey s' +:+ nul +:+ b' -> s = s' /\ b = b'.
Proof.
  destruct s as [r d w], s' as [r' d' w']. intros (H1 & H2 & H3) (H1' & H2' & H3'). unfold scopeKey. cbn in *.
  rewrite !string_app_assoc. intros H.
  apply nul_split in H as [<- H]; [|done..]. apply nul_split in H as [<- H]; [|done..].
  apply nul_split in H as [<- H]; [|done..]. done.
Qed.
Lemma group_key_inj g g' : scope_nul_free (sg_Scope g) -> scope_nul_free (sg_Scope g') ->
  nul_free (sg_Dimension g) -> nul_free (sg_Dimension g') -> group_key g = group_key g' ->
  sg_Scope g = sg_Scope g' /\ sg_Dimension g = sg_Dimension g' /\ sg_Key g = sg_Key g'.
Proof.
  unfold group_key. intros Hs Hs' Hd Hd' H. apply scopeKey_split in H as [-> H]; [|done..].
  by apply nul_split in H as [-> ->].
Qed.

Lemma app_suffix a b a' b' : a +:+ b = a' +:+ b' -> (String.length b' <= String.length b)%nat -> exists x, b = x +:+ b'.
Proof.
  revert a'. induction a as [|c a IH]; intros a' H Hl; [by exists a'|].
  destruct a' as [|c' a'].
  - apply (f_equal String.length) in H. change ("" +:+ b') with b' in H. rewrite string_length_app in H. cbn in H. lia.
  - rewrite !string_cons_app in H. injection H as _ H. by apply (IH a').
Qed.
Lemma strip_suffix_other suf other r : (String.length suf <= String.length other)%nat -> strip_suffix suf other = None ->
  strip_suffix suf (r +:+ other) = None.
Proof.
  intros Hl Hn. destruct (strip_suffix suf (r +:+ other)) as [x|] eqn:Hx; [|done].
  apply strip_suffix_Some in Hx. destruct (app_suffix _ _ _ _ Hx Hl) as [y ->]. by rewrite strip_suffix_app in Hn.
Qed.

(** Recovering the grouped columns from a published group. *)
Definition ungender (s : string) : Z := if bool_decide (s = "Male") then 1 else if bool_decide (s = "Female") then 2 else 0.
Definition split_race_gender (key : string) : string * Z :=
  match strip_suffix "|Male" key with
  | Some r => (r, 1)
  | None => match strip_suffix "|Female" key with
            | Some r => (r, 2)
            | None => (str (strip_suffix "|Unknown" key), 0)
            end
  end.
Definition known_gender (g : Z) : Prop := g = 0 \/ g = 1 \/ g = 2.
Lemma ungender_name g : known_gender g -> ungender (genderName g) = g.
Proof. by intros [->|[->| ->]]. Qed.
Lemma split_race_gender_key race g : known_gender g -> split_race_gender (race +:+ "|" +:+ genderName g) = (race, g).
Proof.
  unfold split_race_gender. intros [->|[->| ->]].
  - change ("|" +:+ genderName 0) with "|Unknown". rewrite !strip_suffix_other by (done || (cbn; lia)). by rewrite strip_suffix_app.
  - change ("|" +:+ genderName 1) with "|Male". by rewrite strip_suffix_app.
  - change ("|" +:+ genderName 2) with "|Female". rewrite (strip_suffix_other "|Male") by (done || (cbn; lia)). by rewrite strip_suffix_app.
Qed.

Definition key_of_group (g : ScopedGroupCount) : statKey :=
  let sc := sg_Scope g in
  let keep (v : string) := if bool_decide (v = "") then None else Some v in
  let scoped := mkStatKey (keep (sc_Region sc)) (keep (sc_Datacenter sc)) (keep (sc_World sc)) in
  if bool_decide (sg_Dimension g = "region") then mkStatKey (Some (sg_Key g)) None None None None None
  else if bool_decide (sg_Dimension g = "datacenter") then mkStatKey None (Some (sg_Key g)) None None None None
  else if bool_decide (sg_Dimension g = "world") then mkStatKey None None (Some (sg_Key g)) None None None
  else if bool_decide (sg_Dimension g = "race") then scoped (Some (sg_Key g)) None None
  else if bool_decide (sg_Dimension g = "tribe") then scoped None (Some (sg_Key g)) None
  else if bool_decide (sg_Dimension g = "gender") then scoped None None (Some (ungender (sg_Key g)))
  else scoped (Some (split_race_gender (sg_Key g)).1) None (Some (split_race_gender (sg_Key g)).2).

(** ** Rows and groups *)

(** A live row the statistics can place: PostgreSQL text has no NUL. *)
Record placed (r : charRow) : Prop := {
  pl_region : cr_Region (row_rec r) <> "";
  pl_dc : cr_Datacenter (row_rec r) <> "";
  pl_gender : known_gender (cr_Gender (row_rec r));
  pl_nul : nul_free (cr_Region (row_rec r)) /\ nul_free (cr_Datacenter (row_rec r)) /\ nul_free (cr_World (row_rec r));
}.

(** The value of a dimension for a character, and whether it is in a scope. *)
Definition dimension_value (dimension : string) (c : CharacterRecord) : string :=
  if bool_decide (dimension = "region") then cr_Region c
  else if bool_decide (dimension = "datacenter") then cr_Datacenter c
  else if bool_decide (dimension = "world") then cr_World c
  else if bool_decide (dimension = "race") then cr_Race c
  else if bool_decide (dimension = "tribe") then cr_Tribe c
  else if bool_decide (dimension = "gender") then genderName (cr_Gender c)
  else cr_Race c +:+ "|" +:+ genderName (cr_Gender c).
Definition in_scope (s : StatsScope) (c : CharacterRecord) : bool :=
  (bool_decide (sc_Region s = "") || bool_decide (sc_Region s = cr_Region c))
  && (bool_decide (sc_Datacenter s = "") || bool_decide (sc_Datacenter s = cr_Datacenter c))
  && (bool_decide (sc_World s = "") || bool_decide (sc_World s = cr_World c)).
Definition counted (g : ScopedGroupCount) (r : charRow) : bool :=
  bool_decide (dimension_value (sg_Dimension g) (row_rec r) = sg_Key g) && in_scope (sg_Scope g) (row_rec r).

Lemma genderName_inj g g' : known_gender g -> known_gender g' -> genderName g = genderName g' -> g = g'.
Proof. intros H H' E. rewrite <-(ungender_name g H), <-(ungender_name g' H'). by rewrite E. Qed.
Lemma race_gender_inj r g r' g' : known_gender g -> known_gender g' ->
  r +:+ "|" +:+ genderName g = r' +:+ "|" +:+ genderName g' -> r = r' /\ g = g'.
Proof.
  intros H H' E. pose proof (split_race_gender_key r g H) as Hs. rewrite E, split_race_gender_key in Hs by done. by injection Hs.
Qed.

Ltac each_set H := repeat (apply elem_of_cons in H as [->|H]); [..|by apply elem_of_nil in H].
(** Evaluate the comparisons of literals. *)
Ltac literal_decide :=
  repeat match goal with
  | |- context [@bool_decide (@eq string ?a ?b) ?d] =>
      let v := eval vm_compute in (@bool_decide (@eq string a b) d) in
      match v with
      | true => change (@bool_decide (@eq string a b) d) with true
      | false => change (@bool_decide (@eq string a b) d) with false
      end
  end; cbv beta iota.
(** Case analysis on every comparison, dropping the closed ones. *)
Ltac decide_all := repeat (case_bool_decide; cbn [orb andb negb] in *; try congruence).

Section GroupRows.
Context (since maxLevel : Z) (rows : list charRow).
Context (Hplaced : forall r, r ∈ rows -> placed r).

(** What a published group says of the row it comes from. *)
Lemma row_group_spec set r g : set ∈ grouping_sets -> r ∈ rows ->
  row_group (group_row since maxLevel rows set (project set r)) = Some g ->
  key_of_group g = project set r /\ scope_nul_free (sg_Scope g) /\ nul_free (sg_Dimension g) /\ sg_Dimension g <> "" /\
  (forall r', r' ∈ rows -> counted g r' = bool_decide (project set r' = project set r)).
Proof using Hplaced.
  intros Hset Hr Hg. destruct (Hplaced r Hr) as [Hreg Hdc Hgen (Hn1 & Hn2 & Hn3)].
  unfold grouping_sets in Hset. unfold group_row in Hg.
  set (total := count_rows _ rows) in Hg. clearbody total. set (active := count_rows _ rows) in Hg. clearbody active.
  each_set Hset; cbv [project grouped existsb column_eqb orb row_group st_key is_summary_row no_dimension row_scope row_dimension k_region k_dc k_world k_race k_tribe k_gender GROUPING Z.eqb Pos.eqb andb negb str int default from_option id st_total st_active] in Hg |- *.
  all: try discriminate Hg.
  all: unfold zeroScope in Hg; repeat (case_bool_decide; try discriminate Hg); injection Hg as <-.
  all: cbv [key_of_group scope_nul_free sg_Scope sg_Dimension sg_Key zeroScope sc_Region sc_Datacenter sc_World].
  all: rewrite ?split_race_gender_key, ?ungender_name by done.
  all: (split; [decide_all; reflexivity|]); split; [done|]; split; [done|]; split; [done|].
  all: intros r' Hr'; destruct (Hplaced r' Hr') as [Hreg' Hdc' Hgen' _]; clear Hplaced Hr Hr'.
  all: cbv [counted dimension_value in_scope sg_Scope sg_Dimension sg_Key zeroScope sc_Region sc_Datacenter sc_World].
  all: literal_decide; cbn [orb andb]; rewrite ?andb_true_r; decide_all.
  all: exfalso; match goal with
    | H : genderName _ = genderName _ |- _ => apply genderName_inj in H; [congruence|done..]
    | H : _ +:+ _ = _ +:+ _ |- _ => apply race_gender_inj in H as [? ?]; [congruence|done..]
    end.
Qed.

(** Every character is counted under each dimension, globally and in each of
    its scopes. *)
Definition scopes_of (c : CharacterRecord) : list StatsScope :=
  [zeroScope; mkStatsScope (cr_Region c) "" ""; mkStatsScope "" (cr_Datacenter c) ""]
  ++ (if bool_decide (cr_World c = "") then [] else [mkStatsScope "" "" (cr_World c)]).
Definition scoped_dimensions : list string := ["race"; "tribe"; "gender"; "race_gender"].

Definition set_of (scope : StatsScope) (dimension : string) : list column :=
  (if bool_decide (sc_World scope = "") then [] else [CWorld])
  ++ (if bool_decide (sc_Datacenter scope = "") then [] else [CDatacenter])
  ++ (if bool_decide (sc_Region scope = "") then [] else [CRegion])
  ++ (if bool_decide (dimension = "race") then [CRace]
      else if bool_decide (dimension = "tribe") then [CTribe]
      else if bool_decide (dimension = "gender") then [CGender]
      else [CRace; CGender]).

Lemma row_group_complete r scope dimension : r ∈ rows -> scope ∈ scopes_of (row_rec r) -> dimension ∈ scoped_dimensions ->
  set_of scope dimension ∈ grouping_sets /\ set_of scope dimension <> [] /\
  exists g, row_group (group_row since maxLevel rows (set_of scope dimension) (project (set_of scope dimension) r)) = Some g /\
    sg_Scope g = scope /\ sg_Dimension g = dimension /\ sg_Key g = dimension_value dimension (row_rec r).
Proof using Hplaced.
  intros Hr Hs Hd. destruct (Hplaced r Hr) as [Hreg Hdc Hgen _]. unfold scopes_of in Hs.
  apply elem_of_app in Hs as [Hs|Hs]; [each_set Hs|case_bool_decide as Hw; [by apply elem_of_nil in Hs|each_set Hs]];
    unfold scoped_dimensions in Hd; each_set Hd; unfold set_of, dimension_value, zeroScope; cbn [sc_World sc_Datacenter sc_Region];
    literal_decide; rewrite ?(bool_decide_false (cr_Region _ = "")), ?(bool_decide_false (cr_Datacenter _ = "")), ?(bool_decide_false (cr_World _ = "")) by done;
    cbn [app].
  all: split; [by (unfold grouping_sets; set_solver)|split; [done|]].
  all: unfold group_row; cbv [project grouped existsb column_eqb orb row_group st_key is_summary_row no_dimension row_scope row_dimension k_region k_dc k_world k_race k_tribe k_gender GROUPING Z.eqb Pos.eqb andb negb str int default from_option id st_total st_active zeroScope].
  all: literal_decide; decide_all; eexists; (split; [reflexivity|split; [reflexivity|split; reflexivity]]).
Qed.
End GroupRows.

(** ** The query *)

Definition empty_key : statKey := mkStatKey None None None None None None.

Lemma elem_of_group_rows since ml rows set row : row ∈ group_rows since ml rows set <->
  exists k, row = group_row since ml rows set k /\ ((set = [] /\ k = empty_key) \/ (set <> [] /\ exists r, r ∈ rows /\ k = project set r)).
Proof.
  unfold group_rows. rewrite list_elem_of_fmap. split; intros (k & -> & Hk); exists k; split; try done.
  - destruct set as [|c set]; [left; by apply list_elem_of_singleton in Hk|right]. split; [done|].
    apply elem_of_remove_dups, list_elem_of_fmap in Hk as (r & -> & Hr). eauto.
  - destruct Hk as [[-> ->]|[Hne (r & Hr & ->)]]; [by apply list_elem_of_singleton|].
    destruct set as [|c set]; [done|]. apply elem_of_remove_dups, list_elem_of_fmap. eauto.
Qed.

(** Which columns a key groups by. *)
Definition key_shape (k : statKey) : list bool :=
  let some {A} (o : option A) := match o with Some _ => true | None => false end in
  [some (k_region k); some (k_dc k); some (k_world k); some (k_race k); some (k_tribe k); some (k_gender k)].
Definition set_shape (set : list column) : list bool :=
  (fun c => existsb (column_eqb c) set) <$> [CRegion; CDatacenter; CWorld; CRace; CTribe; CGender].
Lemma project_shape set r : key_shape (project set r) = set_shape set.
Proof.
  unfold key_shape, project, grouped, set_shape. cbn [fmap list_fmap k_region k_dc k_world k_race k_tribe k_gender].
  by repeat (destruct (existsb _ set)).
Qed.
Lemma group_rows_shape since ml rows set row : row ∈ group_rows since ml rows set -> key_shape (st_key row) = set_shape set.
Proof.
  intros H. apply elem_of_group_rows in H as (k & -> & [[-> ->]|[_ (r & _ & ->)]]); [done|]. apply project_shape.
Qed.
Lemma grouping_shapes_distinct : NoDup (set_shape <$> grouping_sets).
Proof. apply (bool_decide_eq_true_1 _). vm_compute. reflexivity. Qed.
Lemma shape_inj set set' : set ∈ grouping_sets -> set' ∈ grouping_sets -> set_shape set = set_shape set' -> set = set'.
Proof.
  intros H H' E. apply list_elem_of_lookup in H as [i Hi], H' as [j Hj].
  assert (i = j) as ->; [|congruence].
  eapply (NoDup_lookup _ _ _ (set_shape set) grouping_shapes_distinct); rewrite list_lookup_fmap; [by rewrite Hi|].
  rewrite Hj, E. reflexivity.
Qed.

Lemma query_keys_NoDup db since ml : NoDup (st_key <$> character_stats_query db since ml).
Proof.
  unfold character_stats_query. rewrite fmap_bind_list. apply NoDup_bind.
  - intros s1 s2 k H1 H2 Hk1 Hk2. apply list_elem_of_fmap in Hk1 as (r1 & -> & Hr1), Hk2 as (r2 & He & Hr2).
    apply shape_inj; [done..|]. rewrite <-(group_rows_shape _ _ _ _ _ Hr1), <-(group_rows_shape _ _ _ _ _ Hr2). by rewrite He.
  - intros set Hset. unfold group_rows. rewrite <-list_fmap_compose. change (st_key ∘ _) with (fun k : statKey => k).
    rewrite list_fmap_id. destruct set; [apply NoDup_singleton|apply NoDup_remove_dups].
  - eapply NoDup_fmap_1, grouping_shapes_distinct.
Qed.

(** ** The row loops *)

Lemma readCharacterStats_groups rows s : ss_Groups (readCharacterStats rows s) = ss_Groups s ++ omap row_group rows.
Proof.
  unfold readCharacterStats. revert s. induction rows as [|row rows IH]; intros s; cbn [fold_left]; [by rewrite app_nil_r|].
  rewrite IH. unfold add_stat_row. cbn [omap list_omap]. destruct (is_summary_row (st_key row)) eqn:Hs.
  - unfold row_group at 2. rewrite Hs. by destruct s.
  - destruct (row_group row); destruct s; cbn; [by rewrite <-app_assoc|done].
Qed.
(** The loop changes nothing but the groups, the summary and the source count. *)
Definition same_header (s s' : UIStatsSnapshot) : Prop :=
  ss_SchemaVersion s = ss_SchemaVersion s' /\ ss_GeneratedAt s = ss_GeneratedAt s' /\ ss_ActivitySince s = ss_ActivitySince s' /\ ss_MaxLevel s = ss_MaxLevel s'.
Lemma readCharacterStats_frame rows s : let s' := readCharacterStats rows s in
  same_header s' s /\ ss_Expansions s' = ss_Expansions s /\ ss_NewCharacters s' = ss_NewCharacters s.
Proof.
  unfold readCharacterStats, same_header. revert s. induction rows as [|row rows IH]; intros s; cbn [fold_left]; [done|].
  cbv zeta in IH. destruct (IH (add_stat_row s row)) as ((-> & -> & -> & ->) & -> & ->). unfold add_stat_row.
  destruct (is_summary_row _), (row_group row), s; done.
Qed.
Lemma readCharacterStats_summary rows s row0 : row0 ∈ rows -> is_summary_row (st_key row0) = true ->
  (forall row, row ∈ rows -> is_summary_row (st_key row) = true -> row = row0) ->
  ss_Summary (readCharacterStats rows s) = mkStatsSummary (st_total row0) (st_active row0) (st_maxLevel row0) /\
  ss_SourceCharacters (readCharacterStats rows s) = st_total row0.
Proof.
  intros Hin H0 Huniq. unfold readCharacterStats.
  assert (Hfix : forall l s, (forall row, row ∈ l -> is_summary_row (st_key row) = true -> row = row0) ->
    ss_Summary s = mkStatsSummary (st_total row0) (st_active row0) (st_maxLevel row0) /\ ss_SourceCharacters s = st_total row0 ->
    ss_Summary (fold_left add_stat_row l s) = mkStatsSummary (st_total row0) (st_active row0) (st_maxLevel row0) /\
    ss_SourceCharacters (fold_left add_stat_row l s) = st_total row0).
  { induction l as [|row l IH]; intros s' Hu Hs; [done|]. cbn [fold_left]. apply IH; [intros; apply Hu; [by apply list_elem_of_further|done]|].
    unfold add_stat_row. destruct (is_summary_row (st_key row)) eqn:Hrow.
    - rewrite (Hu row) by (done || apply list_elem_of_here). by destruct s'.
    - destruct (row_group row); by destruct s'. }
  revert s. induction rows as [|row rows IH]; intros s; [by apply elem_of_nil in Hin|]. cbn [fold_left].
  apply elem_of_cons in Hin as [<-|Hin].
  - apply Hfix; [intros; apply Huniq; [by apply list_elem_of_further|done]|]. unfold add_stat_row. rewrite H0. by destruct s.
  - apply IH; [done|]. intros; apply Huniq; [by apply list_elem_of_further|done].
Qed.
