(* ===== verification/StatsRefresh.v ===== *)
(** * What a refresh publishes

    A refresh over tables whose live characters are all placed publishes a
    snapshot that validates, reads back and has the exact counts; one live
    character without a region or a datacenter makes it fail. *)
From S2P Require Import Prelude GoErrors GoStrings Contract Dates Payloads Worlds Snapshot CharacterStore StatsStore StatsStoreFacts.

(** ** Milestone rows *)

Definition row_expansion (row : milestoneRow) : option ScopedExpansionCount :=
  if bool_decide (mr_kind row = "expansion") then sc ← milestone_scope row; Some (mkScopedExpansion sc (mr_value row) (mr_count row)) else None.
Definition row_daily (row : milestoneRow) : option ScopedDailyCount :=
  if bool_decide (mr_kind row = "daily") then sc ← milestone_scope row; Some (mkScopedDaily sc (mr_value row) (mr_count row)) else None.

Lemma readMilestoneStats_eq rows s : let s' := readMilestoneStats rows s in
  ss_Expansions s' = ss_Expansions s ++ omap row_expansion rows /\
  ss_NewCharacters s' = ss_NewCharacters s ++ omap row_daily rows /\
  same_header s' s /\ ss_Groups s' = ss_Groups s /\ ss_Summary s' = ss_Summary s /\ ss_SourceCharacters s' = ss_SourceCharacters s.
Proof.
  unfold readMilestoneStats, same_header. revert s. induction rows as [|row rows IH]; intros s; cbn [fold_left]; [by rewrite !app_nil_r|].
  cbv zeta in IH. destruct (IH (add_milestone_row s row)) as (-> & -> & (-> & -> & -> & ->) & -> & -> & ->). clear IH.
  unfold add_milestone_row, row_expansion, row_daily. cbn [omap list_omap].
  destruct (milestone_scope row) as [sc|]; cbn [mbind option_bind]; [|by repeat case_bool_decide; destruct s].
  case_bool_decide as H1; [rewrite H1; case_bool_decide; [done|]|case_bool_decide]; destruct s; cbn; rewrite <-?app_assoc; done.
Qed.

Definition milestone_row_key (row : milestoneRow) : string * option string * string := (mr_kind row, mr_world row, mr_value row).

Lemma elem_of_value_stats kind rows row : row ∈ value_stats kind rows -> mr_kind row = kind /\
  exists v t, (v, t) ∈ rows /\ mr_value row = v /\
    ((mr_world row = None /\ mr_count row = distinct_characters (filter (fun x => x.1 = v) rows).*2) \/
     (mr_world row = Some (tr_world t) /\ mr_count row = distinct_characters (filter (fun x => tr_world x.2 = tr_world t /\ x.1 = v) rows).*2)).
Proof.
  unfold value_stats. rewrite elem_of_app, !list_elem_of_fmap. intros [(v & -> & Hv)|([w v] & -> & Hv)]; (split; [done|]).
  - apply elem_of_remove_dups, list_elem_of_fmap in Hv as ([v' t] & -> & Hv). exists v', t. auto.
  - apply elem_of_remove_dups, list_elem_of_fmap in Hv as ([v' t] & [= -> ->] & Hv). exists v', t. auto.
Qed.
Lemma value_stats_keys kind rows : NoDup (milestone_row_key <$> value_stats kind rows).
Proof.
  unfold value_stats. rewrite fmap_app, <-!list_fmap_compose. apply list.NoDup_app. split_and!.
  - apply NoDup_fmap_2_strong; [|apply NoDup_remove_dups]. intros x y _ _ [= ->]. done.
  - intros k H1 H2. apply list_elem_of_fmap in H1 as (? & -> & _), H2 as (? & [=] & _).
  - apply NoDup_fmap_2_strong; [|apply NoDup_remove_dups]. intros [x1 x2] [y1 y2] _ _ [= -> ->]. done.
Qed.
Lemma milestone_query_keys db since : NoDup (milestone_row_key <$> milestone_stats_query db since).
Proof.
  unfold milestone_stats_query. rewrite fmap_app. apply list.NoDup_app. split_and!; [apply value_stats_keys| |apply value_stats_keys].
  intros k H1 H2. apply list_elem_of_fmap in H1 as (r1 & -> & H1), H2 as (r2 & He & H2).
  apply elem_of_value_stats in H1 as [H1 _], H2 as [H2 _]. unfold milestone_row_key in He. congruence.
Qed.

Lemma elem_of_tracked db t : t ∈ tracked db -> exists m c, cdb_milestones db !! (tr_character t, tr_achievement t) = Some (tr_at t) /\
  cdb_registry db !! tr_achievement t = Some m /\ tr_expansion t = ma_Expansion m /\
  cdb_chars db !! tr_character t = Some c /\ not_deleted c = true /\ tr_world t = cr_World (row_rec c).
Proof.
  unfold tracked. rewrite list_elem_of_omap. intros ([[ch ach] at_] & Hin & Ht). apply elem_of_map_to_list in Hin. unfold track in Ht.
  destruct (cdb_registry db !! ach) as [m|] eqn:Hm; [|done]. cbn in Ht. destruct (cdb_chars db !! ch) as [c|] eqn:Hc; [|done]. cbn in Ht.
  destruct (not_deleted c) eqn:Hd; [|done]. destruct ((ach =? 590) || tracked_kind m); [|done]. injection Ht as <-. cbn. eauto 10.
Qed.
Lemma elem_of_live db id c : cdb_chars db !! id = Some c -> not_deleted c = true -> c ∈ live_rows db.
Proof.
  intros Hc Hd. unfold live_rows, chars_list. apply list_elem_of_filter. split; [done|]. apply list_elem_of_fmap.
  exists (id, c). split; [done|]. by apply elem_of_map_to_list.
Qed.

(** ** Counts fit *)

Lemma count_rows_bound P db : 0 <= count_rows P (live_rows db) <= Z.of_nat (size (cdb_chars db)).
Proof.
  unfold count_rows, live_rows, chars_list. split; [lia|]. apply Nat2Z.inj_le.
  etrans; [apply length_filter|]. etrans; [apply length_filter|]. by rewrite length_fmap, length_map_to_list.
Qed.
Lemma count_rows_le (P Q : charRow -> bool) rows : (forall r, P r = true -> Q r = true) -> count_rows P rows <= count_rows Q rows.
Proof.
  intros H. unfold count_rows. apply Nat2Z.inj_le. induction rows as [|r rows IH]; [done|]. rewrite !filter_cons.
  repeat case_decide; cbn [length]; auto with lia. exfalso. auto.
Qed.
Lemma distinct_bound db rows : (forall t, t ∈ rows -> is_Some (cdb_chars db !! tr_character t)) ->
  0 <= distinct_characters rows <= Z.of_nat (size (cdb_chars db)).
Proof.
  intros H. unfold distinct_characters. split; [lia|]. apply Nat2Z.inj_le.
  rewrite <-(size_list_to_set (C := gset Z)), <-(size_dom (cdb_chars db)) by apply NoDup_remove_dups.
  apply subseteq_size. intros x Hx. apply elem_of_list_to_set, elem_of_remove_dups, list_elem_of_fmap in Hx as (t & -> & Ht).
  by apply elem_of_dom, H.
Qed.

(** ** Hypotheses of a refresh *)

(** The tables can be summarised: live characters are placed, registered
    expansions are named, first-steps dates have four-digit years. *)
Record stats_ready (db : CensusDB) : Prop := {
  rd_placed : forall r, r ∈ live_rows db -> placed r;
  rd_expansion : forall id m, cdb_registry db !! id = Some m -> ma_Expansion m <> Some "";
  rd_dates : forall ch at_, cdb_milestones db !! (ch, 590) = Some at_ -> four_digit_day (day_of at_);
  rd_size : Z.of_nat (size (cdb_chars db)) <= max_int64;
}.
(** Nothing fails, this session takes the lock, and the server returns the
    rows of the queries in some order. *)
Record refresh_runs (env : refreshEnv) : Prop := {
  rn_faults : re_connect env = None /\ re_begin env = None /\ re_characters env = None /\ re_milestones env = None /\ re_commit env = None;
  rn_lock : re_lock env = Ok true;
  rn_publish : re_publish env = NoFault;
  rn_characters : forall l, re_character_order env l ≡ₚ l;
  rn_milestones : forall l, re_milestone_order env l ≡ₚ l;
  rn_now : four_digit_day (day_of (re_now env)) /\ zero_time + 1000 <= re_now env;
}.
Record options_ok (opts : UIStatsRefreshOptions) : Prop := {
  oo_since : zero_time + 1000 <= ro_ActivitySince opts /\ four_digit_day (day_of (ro_ActivitySince opts));
  oo_level : 0 < ro_MaxLevel opts <= 2147483647;
}.

(** The snapshot of the tables, in the order the rows came. *)
Definition published (db : CensusDB) (env : refreshEnv) (opts : UIStatsRefreshOptions) : UIStatsSnapshot :=
  let s := mkSnapshot UIStatsSchemaVersion (re_now env) (ro_ActivitySince opts) (ro_MaxLevel opts) 0 0 [] [] [] (mkStatsSummary 0 0 0) in
  let s := readCharacterStats (re_character_order env (character_stats_query db (ro_ActivitySince opts) (ro_MaxLevel opts))) s in
  let s := readMilestoneStats (re_milestone_order env (milestone_stats_query db (lookback_start (re_now env)))) s in
  s{{ ss_RefreshDuration := time_sub (re_finished env) (re_started env) }}.

Lemma row_group_counts row g : row_group row = Some g -> sg_Total g = st_total row /\ sg_Active g = st_active row.
Proof.
  unfold row_group. destruct (row_dimension (st_key row)). repeat case_match; intros [=]; by subst.
Qed.
Lemma milestone_scope_spec row sc : milestone_scope row = Some sc ->
  (mr_world row = None /\ sc = zeroScope) \/ (exists w, w <> "" /\ mr_world row = Some w /\ sc = mkStatsScope "" "" w).
Proof.
  unfold milestone_scope. destruct (mr_world row) as [w|]; cbn; [|intros [= <-]; by left].
  case_bool_decide; intros [=]; subst. right. eauto.
Qed.
Lemma row_expansion_spec row e : row_expansion row = Some e -> mr_kind row = "expansion" /\ se_Expansion e = mr_value row /\
  se_Count e = mr_count row /\ milestone_scope row = Some (se_Scope e).
Proof. unfold row_expansion. case_bool_decide; [|done]. destruct (milestone_scope row); [|done]. cbn. by intros [= <-]. Qed.
Lemma row_daily_spec row d : row_daily row = Some d -> mr_kind row = "daily" /\ sd_Day d = mr_value row /\
  sd_Count d = mr_count row /\ milestone_scope row = Some (sd_Scope d).
Proof. unfold row_daily. case_bool_decide; [|done]. destruct (milestone_scope row); [|done]. cbn. by intros [= <-]. Qed.

Section Published.
Context (db : CensusDB) (env : refreshEnv) (opts : UIStatsRefreshOptions).
Context (Hready : stats_ready db) (Hruns : refresh_runs env) (Hopts : options_ok opts).
Let since := ro_ActivitySince opts.
Let maxLevel := ro_MaxLevel opts.
Let s := published db env opts.

Lemma published_fields : ss_SchemaVersion s = UIStatsSchemaVersion /\ ss_GeneratedAt s = re_now env /\ ss_ActivitySince s = since /\
  ss_MaxLevel s = maxLevel /\ ss_RefreshDuration s = time_sub (re_finished env) (re_started env) /\
  ss_Groups s = omap row_group (re_character_order env (character_stats_query db since maxLevel)) /\
  ss_Expansions s = omap row_expansion (re_milestone_order env (milestone_stats_query db (lookback_start (re_now env)))) /\
  ss_NewCharacters s = omap row_daily (re_milestone_order env (milestone_stats_query db (lookback_start (re_now env)))).
Proof.
  unfold s, published. cbv zeta. fold since maxLevel.
  set (s0 := mkSnapshot _ _ _ _ _ _ _ _ _ _). set (rows := re_character_order env _). set (mrows := re_milestone_order env _).
  destruct (readMilestoneStats_eq mrows (readCharacterStats rows s0)) as (He & Hd & (H1 & H2 & H3 & H4) & Hg & _ & _).
  destruct (readCharacterStats_frame rows s0) as ((H1' & H2' & H3' & H4') & He' & Hd').
  pose proof (readCharacterStats_groups rows s0) as Hg'. rewrite He', Hg', H1', H2', H3', H4', Hd' in *.
  destruct (readMilestoneStats _ _). cbn in *. by subst.
Qed.

(** The summary row. *)
Lemma published_summary : SummaryCounts db NoFault since maxLevel =
    Ok (su_Total (ss_Summary s), su_Active (ss_Summary s), su_MaxLevel (ss_Summary s)) /\
  ss_SourceCharacters s = su_Total (ss_Summary s).
Proof using Hruns.
  unfold s, published. cbv zeta. fold since maxLevel.
  set (s0 := mkSnapshot _ _ _ _ _ _ _ _ _ _). set (rows := re_character_order env _). set (mrows := re_milestone_order env _).
  destruct (readMilestoneStats_eq mrows (readCharacterStats rows s0)) as (_ & _ & _ & _ & Hs & Hn).
  set (row0 := group_row since maxLevel (live_rows db) [] empty_key).
  assert (Hrows : rows ≡ₚ character_stats_query db since maxLevel) by apply Hruns.
  assert (Hin : row0 ∈ rows).
  { rewrite Hrows. unfold character_stats_query. apply list_elem_of_bind. exists []. split; [|unfold grouping_sets; apply list_elem_of_here].
    apply elem_of_group_rows. exists empty_key. split; [done|]. by left. }
  assert (Huniq : forall row, row ∈ rows -> is_summary_row (st_key row) = true -> row = row0).
  { intros row Hrow Hsum. rewrite Hrows in Hrow. unfold character_stats_query in Hrow. apply list_elem_of_bind in Hrow as (set & Hrow & Hset).
    pose proof (group_rows_shape _ _ _ _ _ Hrow) as Hshape. apply elem_of_group_rows in Hrow as (k & -> & [[-> ->]|[Hne _]]); [done|].
    exfalso. apply Hne. apply shape_inj; [done|unfold grouping_sets; apply list_elem_of_here|]. rewrite <-Hshape.
    cbn in Hsum. destruct k as [[] [] [] [] [] []]; by try discriminate Hsum. }
  destruct (readCharacterStats_summary rows s0 row0 Hin eq_refl Huniq) as [Hsum Hsrc].
  rewrite Hsum in Hs. rewrite Hsrc in Hn. destruct (readMilestoneStats _ _). cbn in Hs, Hn |- *. subst. cbn.
  split; [|done]. unfold SummaryCounts. cbn [read_fault]. unfold row0, group_row, count_rows, project. cbn [st_total st_active st_maxLevel grouped existsb].
  fold (live_rows db). apply f_equal, (f_equal2 pair); [apply (f_equal2 pair)|]; apply (f_equal Z.of_nat), (f_equal length).
  - symmetry. apply filter_all. intros. by apply bool_decide_true.
  - apply filter_ext_in. intros r _. rewrite (bool_decide_true _ eq_refl). done.
  - apply filter_ext_in. intros r _. rewrite (bool_decide_true _ eq_refl). cbn. split; lia.
Qed.

(** The row behind a published group. *)
Lemma published_group_row g : g ∈ ss_Groups s -> exists set r, set ∈ grouping_sets /\ r ∈ live_rows db /\
  row_group (group_row since maxLevel (live_rows db) set (project set r)) = Some g.
Proof using Hruns.
  destruct published_fields as (_ & _ & _ & _ & _ & -> & _). rewrite list_elem_of_omap. intros (row & Hrow & Hg).
  rewrite (rn_characters _ Hruns) in Hrow. unfold character_stats_query in Hrow. apply list_elem_of_bind in Hrow as (set & Hrow & Hset).
  apply elem_of_group_rows in Hrow as (k & -> & [[-> ->]|[_ (r & Hr & ->)]]); [discriminate Hg|]. eauto.
Qed.

(** Its counts are those of the live characters it stands for. *)
Lemma published_group_counts g : g ∈ ss_Groups s ->
  sg_Total g = count_rows (counted g) (live_rows db) /\
  sg_Active g = count_rows (fun r => counted g r && active_since since r) (live_rows db).
Proof using Hready Hruns.
  intros Hin. destruct (published_group_row g Hin) as (set & r & Hset & Hr & Hg).
  destruct (row_group_spec since maxLevel (live_rows db) (rd_placed _ Hready) set r g Hset Hr Hg) as (_ & _ & _ & _ & Hc).
  destruct (row_group_counts _ _ Hg) as [-> ->]. unfold group_row, count_rows. cbn [st_total st_active].
  split; apply (f_equal Z.of_nat), (f_equal length), filter_ext_in; intros r' Hr'; by rewrite (Hc r' Hr').
Qed.

Lemma published_group_complete r scope dimension : r ∈ live_rows db -> scope ∈ scopes_of (row_rec r) -> dimension ∈ scoped_dimensions ->
  exists g, g ∈ ss_Groups s /\ sg_Scope g = scope /\ sg_Dimension g = dimension /\ sg_Key g = dimension_value dimension (row_rec r).
Proof using Hready Hruns.
  intros Hr Hs Hd.
  destruct (row_group_complete since maxLevel (live_rows db) (rd_placed _ Hready) r scope dimension Hr Hs Hd) as (Hset & Hne & g & Hg & Hrest).
  exists g. split; [|done]. destruct published_fields as (_ & _ & _ & _ & _ & -> & _). apply list_elem_of_omap.
  eexists. split; [|exact Hg]. rewrite (rn_characters _ Hruns). unfold character_stats_query. apply list_elem_of_bind.
  eexists. split; [|exact Hset]. apply elem_of_group_rows.
  eexists. split; [reflexivity|]. right. split; [exact Hne|by exists r].
Qed.

Lemma published_group_keys : NoDup (group_key <$> ss_Groups s).
Proof using Hready Hruns.
  pose proof published_group_row as Hrow. destruct published_fields as (_ & _ & _ & _ & _ & He & _). rewrite He in *. clear He.
  set (rows := re_character_order env _) in *. assert (Hrows : rows ≡ₚ character_stats_query db since maxLevel) by apply Hruns.
  apply (NoDup_omap_keys row_group st_key); [|rewrite Hrows; apply query_keys_NoDup].
  intros x y a b Hx Hy Ha Hb Hk.
  assert (Hspec : forall z g, z ∈ rows -> row_group z = Some g ->
    key_of_group g = st_key z /\ scope_nul_free (sg_Scope g) /\ nul_free (sg_Dimension g)).
  { intros z g Hz Hg. rewrite Hrows in Hz. unfold character_stats_query in Hz. apply list_elem_of_bind in Hz as (set & Hz & Hset).
    apply elem_of_group_rows in Hz as (k & -> & [[-> ->]|[_ (r & Hr & ->)]]); [discriminate Hg|].
    destruct (row_group_spec since maxLevel (live_rows db) (rd_placed _ Hready) set r g Hset Hr Hg) as (? & ? & ? & _). done. }
  destruct (Hspec x a Hx Ha) as (<- & Hs1 & Hd1), (Hspec y b Hy Hb) as (<- & Hs2 & Hd2).
  destruct (group_key_inj a b Hs1 Hs2 Hd1 Hd2 Hk) as (E1 & E2 & E3). unfold key_of_group. by rewrite E1, E2, E3.
Qed.

(** The milestone rows behind the expansion counts and the daily series. *)
Lemma published_milestone_row row : row ∈ re_milestone_order env (milestone_stats_query db (lookback_start (re_now env))) ->
  (mr_kind row = "expansion" -> mr_value row <> "") /\
  (mr_kind row = "daily" -> exists z, four_digit_day z /\ mr_value row = format_day z) /\
  0 <= mr_count row <= max_int64 /\ (forall w, mr_world row = Some w -> nul_free w).
Proof using Hready Hruns since maxLevel.
  intros Hrow. rewrite (rn_milestones _ Hruns) in Hrow.
  assert (Hrows : exists kind rows, row ∈ value_stats kind rows /\ (forall x, x ∈ rows -> x.2 ∈ tracked db) /\
    ((kind = "expansion" /\ forall x, x ∈ rows -> tr_expansion x.2 = Some x.1) \/
     (kind = "daily" /\ forall x, x ∈ rows -> tr_achievement x.2 = 590 /\ x.1 = format_day (day_of (tr_at x.2))))).
  { unfold milestone_stats_query in Hrow. apply elem_of_app in Hrow as [Hrow|Hrow]; do 2 eexists; (split; [exact Hrow|]).
    - assert (H : forall x, x ∈ expansion_rows db -> x.2 ∈ tracked db /\ tr_expansion x.2 = Some x.1).
      { intros x Hx. apply list_elem_of_omap in Hx as (t & Ht & Hx). destruct (tr_expansion t) eqn:Hte; [|done]. cbn in Hx. by injection Hx as <-. }
      split; [apply H|]. left. split; [done|]. apply H.
    - assert (H : forall x, x ∈ daily_rows db (lookback_start (re_now env)) -> x.2 ∈ tracked db /\ tr_achievement x.2 = 590 /\ x.1 = format_day (day_of (tr_at x.2))).
      { intros x Hx. apply list_elem_of_fmap in Hx as (t & -> & Ht). by apply list_elem_of_filter in Ht as [[? _] ?]. }
      split; [apply H|]. right. split; [done|]. apply H. }
  destruct Hrows as (kind & rows & Hr & Htr & Hkind). apply elem_of_value_stats in Hr as (Hk & v & t & Hv & Hval & Hw).
  destruct (elem_of_tracked db t (Htr _ Hv)) as (m & c & Hat & Hm & Hx & Hc & Hdel & Hworld).
  split; [|split; [|split]].
  - rewrite Hk. intros ->. destruct Hkind as [[_ Hx']|[[=] _]]. specialize (Hx' _ Hv). cbn in Hx'. intros Hempty.
    apply (rd_expansion _ Hready _ _ Hm). congruence.
  - rewrite Hk. intros ->. destruct Hkind as [[[=] _]|[_ Hx']]. destruct (Hx' _ Hv) as [H590 Hday]. cbn in *. exists (day_of (tr_at t)).
    split; [|congruence]. rewrite H590 in Hat. exact (rd_dates _ Hready _ _ Hat).
  - assert (Hb : forall l, (forall x, x ∈ l -> x ∈ rows) -> 0 <= distinct_characters l.*2 <= max_int64).
    { intros l Hl. pose proof (rd_size _ Hready). assert (0 <= distinct_characters l.*2 <= Z.of_nat (size (cdb_chars db))); [|lia].
      apply distinct_bound. intros t' Ht'. apply list_elem_of_fmap in Ht' as (x & -> & Hx'').
      destruct (elem_of_tracked db x.2 (Htr _ (Hl _ Hx''))) as (? & ? & _ & _ & _ & -> & _). done. }
    destruct Hw as [[_ ->]|[_ ->]]; apply Hb; intros x Hx'; by apply list_elem_of_filter in Hx' as [_ ?].
  - intros w Hsome. destruct Hw as [[Hnone _]|[Hsome' _]]; [congruence|].
    assert (w = cr_World (row_rec c)) as -> by congruence. apply (rd_placed _ Hready), (elem_of_live db _ _ Hc Hdel).
Qed.

Lemma milestone_scope_nul row sc : milestone_scope row = Some sc -> (forall w, mr_world row = Some w -> nul_free w) -> scope_nul_free sc.
Proof.
  intros Hs Hw. destruct (milestone_scope_spec _ _ Hs) as [[_ ->]|(w & _ & Hsome & ->)]; [done|]. repeat split. by apply Hw.
Qed.
Lemma milestone_scope_inj row row' sc : milestone_scope row = Some sc -> milestone_scope row' = Some sc -> mr_world row = mr_world row'.
Proof.
  intros H H'. apply milestone_scope_spec in H as [[-> ->]|(w & Hw & -> & ->)], H' as [[-> E]|(w' & Hw' & -> & E)]; unfold zeroScope in *; congruence.
Qed.

Lemma published_milestone_keys : NoDup (expansion_key <$> ss_Expansions s) /\ NoDup (day_key <$> ss_NewCharacters s).
Proof using Hready Hruns since maxLevel.
  destruct published_fields as (_ & _ & _ & _ & _ & _ & -> & ->). pose proof published_milestone_row as Hrow.
  set (rows := re_milestone_order env _) in *. assert (Hrows : rows ≡ₚ milestone_stats_query db (lookback_start (re_now env))) by apply Hruns.
  split; (eapply (NoDup_omap_keys _ milestone_row_key); [|rewrite Hrows; apply milestone_query_keys]); intros x y a b Hx Hy Ha Hb Hk.
  - apply row_expansion_spec in Ha as (Hk1 & Hv1 & _ & Hs1), Hb as (Hk2 & Hv2 & _ & Hs2).
    destruct (Hrow x Hx) as (_ & _ & _ & Hn1), (Hrow y Hy) as (_ & _ & _ & Hn2).
    apply scopeKey_split in Hk as [Es Ev]; [|eauto using milestone_scope_nul..]. rewrite Es in Hs1.
    unfold milestone_row_key. rewrite Hk1, Hk2, (milestone_scope_inj x y _ Hs1 Hs2). congruence.
  - apply row_daily_spec in Ha as (Hk1 & Hv1 & _ & Hs1), Hb as (Hk2 & Hv2 & _ & Hs2).
    destruct (Hrow x Hx) as (_ & _ & _ & Hn1), (Hrow y Hy) as (_ & _ & _ & Hn2).
    apply scopeKey_split in Hk as [Es Ev]; [|eauto using milestone_scope_nul..]. rewrite Es in Hs1.
    unfold milestone_row_key. rewrite Hk1, Hk2, (milestone_scope_inj x y _ Hs1 Hs2). congruence.
Qed.

Lemma published_group_dim g : g ∈ ss_Groups s -> sg_Dimension g <> "".
Proof using Hready Hruns.
  intros Hg. destruct (published_group_row g Hg) as (set & r & Hset & Hr & He).
  by destruct (row_group_spec since maxLevel (live_rows db) (rd_placed _ Hready) set r g Hset Hr He) as (_ & _ & _ & Hd & _).
Qed.
Lemma published_summary_bounds : 0 <= su_Active (ss_Summary s) <= su_Total (ss_Summary s) /\
  0 <= su_MaxLevel (ss_Summary s) <= su_Total (ss_Summary s) /\ su_Total (ss_Summary s) <= max_int64.
Proof using Hready Hruns.
  destruct published_summary as [H _]. unfold SummaryCounts in H. cbn [read_fault] in H. fold (live_rows db) in H. clearbody s. injection H as H1 H2 H3.
  pose proof (rd_size _ Hready). pose proof (length_filter (fun r => active_since since r = true) (live_rows db)).
  pose proof (length_filter (fun r => maxLevel <= row_MaxJobLevel r) (live_rows db)).
  pose proof (count_rows_bound (fun _ => true) db) as Hb. unfold count_rows in Hb.
  rewrite (filter_all (fun _ => true = true)) in Hb by done. lia.
Qed.

Lemma published_ok : snapshot_ok s.
Proof using Hready Hruns Hopts.
  destruct published_fields as (Hv & Hg & Ha & _ & _ & _ & He & Hd). destruct published_summary as [_ Hsrc].
  pose proof published_summary_bounds as Hsb. destruct published_milestone_keys as [Hke Hkd]. constructor; try done.
  - rewrite Hg, Ha. unfold since. destruct (rn_now _ Hruns), (oo_since _ Hopts). lia.
  - lia.
  - lia.
  - intros g Hgin. split; [by apply published_group_dim|]. destruct (published_group_counts g Hgin) as [-> ->].
    split; [apply count_rows_bound|]. apply count_rows_le. intros r Hr. by bsplit.
  - apply published_group_keys.
  - rewrite He. intros e Hin. apply list_elem_of_omap in Hin as (row & Hrow & Hr). destruct (published_milestone_row row Hrow) as (H1 & _ & Hb & _).
    apply row_expansion_spec in Hr as (Hk & -> & -> & _). split; [by apply H1|lia].
  - rewrite Hd. intros d Hin. apply list_elem_of_omap in Hin as (row & Hrow & Hr). destruct (published_milestone_row row Hrow) as (_ & H1 & Hb & _).
    apply row_daily_spec in Hr as (Hk & -> & -> & _). split; [lia|]. destruct (H1 Hk) as (z & Hz & ->). rewrite parse_format_day by done. by eexists.
Qed.

Lemma time_sub_range a b : is_i64 (time_sub a b).
Proof. unfold is_i64, time_sub, min_int64, max_int64. lia. Qed.

Lemma published_fits : snapshot_fits s.
Proof using Hready Hruns Hopts.
  destruct published_fields as (Hv & Hg & Ha & Hl & Hdur & _ & He & Hd). destruct published_summary as [_ Hsrc].
  pose proof published_summary_bounds as Hb. pose proof (rd_size _ Hready). unfold is_i64, is_u32 in *.
  assert (min_int64 <= 0) by done. constructor; unfold is_i64, is_u32; try lia.
  - rewrite Hv. done.
  - rewrite Hg. apply Hruns.
  - rewrite Ha. apply Hopts.
  - rewrite Hl. pose proof (oo_level _ Hopts). unfold max_uint32. subst maxLevel. lia.
  - rewrite Hdur. apply time_sub_range.
  - intros g Hgin. destruct (published_group_counts g Hgin) as [Ht Hac].
    pose proof (count_rows_bound (counted g) db). pose proof (count_rows_bound (fun r => counted g r && active_since since r) db).
    constructor; unfold is_i64; rewrite ?Ht, ?Hac; lia.
  - rewrite He. intros e Hin. apply list_elem_of_omap in Hin as (row & Hrow & Hr). destruct (published_milestone_row row Hrow) as (_ & _ & Hbr & _).
    apply row_expansion_spec in Hr as (_ & _ & -> & _). lia.
  - rewrite Hd. intros d Hin. apply list_elem_of_omap in Hin as (row & Hrow & Hr). destruct (published_milestone_row row Hrow) as (_ & _ & Hbr & _).
    apply row_daily_spec in Hr as (_ & _ & -> & _). lia.
Qed.

(** A read side that succeeds returns that snapshot, validated. *)
Lemma build_snapshot_unfold : build_snapshot db env opts =
  (_ ← fail_if "begin UI statistics refresh" (re_begin env);
   _ ← fail_if "query UI character statistics" (re_characters env);
   _ ← fail_if "query UI milestone statistics" (re_milestones env);
   _ ← fail_if "commit UI statistics read snapshot" (re_commit env);
   _ ← ValidateUIStatsSnapshot (Some s); Ok s).
Proof.
  unfold build_snapshot.
  assert (Hgen : forall rows, ss_GeneratedAt (readCharacterStats rows (mkSnapshot UIStatsSchemaVersion (re_now env) since maxLevel 0 0 [] [] [] (mkStatsSummary 0 0 0))) = re_now env).
  { intros rows. by destruct (readCharacterStats_frame rows (mkSnapshot UIStatsSchemaVersion (re_now env) since maxLevel 0 0 [] [] [] (mkStatsSummary 0 0 0))) as ((_ & H & _) & _). }
  cbn [ss_ActivitySince ss_MaxLevel]. fold since maxLevel. rewrite Hgen. reflexivity.
Qed.
End Published.

(** What [LoadCurrent] reads back: times are stored in microseconds and the
    duration in milliseconds. *)
Definition loaded_snapshot (s : UIStatsSnapshot) : UIStatsSnapshot :=
  s{{ ss_GeneratedAt := timestamptz (ss_GeneratedAt s); ss_ActivitySince := timestamptz (ss_ActivitySince s);
      ss_RefreshDuration := i64 (Z.quot (ss_RefreshDuration s) millisecond * millisecond) }}.

(** C19: a refresh of tables whose live characters all have a region, a
    datacenter and a known gender, whose registered expansions are named and
    whose first-steps dates have four-digit years, with dates after year 1 and
    a maximum level that fits its column, with nothing failing and this session
    holding the lock, publishes a snapshot whatever the order in which the
    server returns the rows.  [LoadCurrent] then returns that snapshot, its
    two times cut to the microseconds and its duration to the milliseconds
    that the table keeps.  The snapshot carries the refresh's clock reading and
    options; the summary is what [SummaryCounts]
    computes; each group counts exactly the live and the active characters
    with its key in its scope; and every live character is counted under its
    race, tribe, gender and race with gender, globally and in its region,
    datacenter and world. *)
Theorem refresh_publishes db table env opts :
  stats_ready db -> refresh_runs env -> options_ok opts ->
  exists row s, Refresh db table env opts = (Some row, Ok (mkRefreshResult (Some s) false)) /\
    LoadCurrent (Some row) NoFault = Ok (loaded_snapshot s) /\
    (ss_GeneratedAt s = re_now env /\ ss_ActivitySince s = ro_ActivitySince opts /\ ss_MaxLevel s = ro_MaxLevel opts) /\
    SummaryCounts db NoFault (ro_ActivitySince opts) (ro_MaxLevel opts)
      = Ok (su_Total (ss_Summary s), su_Active (ss_Summary s), su_MaxLevel (ss_Summary s)) /\
    NoDup (group_key <$> ss_Groups s) /\
    (forall g, g ∈ ss_Groups s -> sg_Total g = count_rows (counted g) (live_rows db) /\
      sg_Active g = count_rows (fun r => counted g r && active_since (ro_ActivitySince opts) r) (live_rows db)) /\
    (forall r scope dimension, r ∈ live_rows db -> scope ∈ scopes_of (row_rec r) -> dimension ∈ scoped_dimensions ->
      exists g, g ∈ ss_Groups s /\ sg_Scope g = scope /\ sg_Dimension g = dimension /\
        sg_Key g = dimension_value dimension (row_rec r)).
Proof.
  intros Hready Hruns Hopts. pose proof (published_ok db env opts Hready Hruns Hopts) as Hok.
  pose proof (published_fits db env opts Hready Hruns Hopts) as Hfits.
  destruct (unmarshal_marshal_snapshot _ Hfits) as (v & Hm & Hu).
  pose proof (build_snapshot_unfold db env opts) as Hb. destruct (rn_faults _ Hruns) as (H1 & H2 & H3 & H4 & H5).
  rewrite H2, H3, H4, H5, (proj2 (ValidateUIStatsSnapshot_ok _) Hok) in Hb. cbn [fail_if mbind result_bind] in Hb.
  destruct (published_fields db env opts) as (_ & Hgen & Hsince & Hl & _).
  destruct (oo_since _ Hopts) as [Hz0 _]. assert (Hz : ro_ActivitySince opts <> zero_time) by lia. pose proof (oo_level _ Hopts) as Hlev.
  set (s := published db env opts) in *.
  exists (mkSnapshotRow (ss_SchemaVersion s) (timestamptz (ss_GeneratedAt s)) (timestamptz (ss_ActivitySince s)) (ss_MaxLevel s)
    (ss_SourceCharacters s) (Z.quot (ss_RefreshDuration s) millisecond) v), s. split.
  { unfold Refresh, is_zero_time. rewrite (proj2 (Z.eqb_neq _ _) Hz), (proj2 (Z.eqb_neq (ro_MaxLevel opts) 0)), H1, (rn_lock _ Hruns), Hb by lia.
    cbn [mbind result_bind]. rewrite Hm. cbn [wrap_err mbind result_bind]. unfold publish_row. rewrite (rn_publish _ Hruns). cbn [with_fault sr_max_level].
    rewrite (proj2 (Z.ltb_ge 2147483647 (ss_MaxLevel s))) by lia. reflexivity. }
  split; [|split; [by rewrite Hgen, Hsince, Hl|split; [apply published_summary; done|split; [by apply published_group_keys|split; [by apply published_group_counts|by apply published_group_complete]]]]].
  unfold LoadCurrent. cbn [read_fault sr_payload sr_schema_version sr_generated_at sr_activity_since sr_max_level sr_source_character_count sr_refresh_duration_ms].
  rewrite Hu. match goal with |- context [ValidateUIStatsSnapshot (Some ?x)] => assert (x = loaded_snapshot s) as -> end.
  { clearbody s. clear. unfold loaded_snapshot. by destruct s. }
  assert (Htimes : timestamptz (ss_GeneratedAt s) <> zero_time /\ timestamptz (ss_ActivitySince s) <> zero_time).
  { rewrite Hgen, Hsince. split; apply timestamptz_nonzero; [apply (rn_now _ Hruns)|done]. }
  assert (Hok' : snapshot_ok (loaded_snapshot s)) by (clear - Hok Htimes; clearbody s; unfold loaded_snapshot; destruct s, Hok; by constructor).
  by rewrite (proj2 (ValidateUIStatsSnapshot_ok _) Hok').
Qed.

(** ** A sample *)

Definition sample_char (id : Z) (world dc region race : string) (gender : Z) : charRow :=
  mkCharRow (mkCharacterRecord id "Name" world dc region race "Tribe" gender "" None None "" "" 0 false None (Some (100 * day)) 0 (Some 0) None) 90.
Definition sample_census (rows : list charRow) : CensusDB :=
  mkCensusDB (list_to_map ((fun r => (cr_ID (row_rec r), r)) <$> rows)) ∅ ∅
    (list_to_map [(590, mkMilestoneAchievement 590 "chocobo" None "My Little Chocobo");
                  (1139, mkMilestoneAchievement 1139 "expansion_msq" (Some "Heavensward") "Looking Up")])
    (list_to_map [((1, 590), 150 * day); ((2, 590), 190 * day + 5); ((1, 1139), 160 * day)]) None None.
Definition sample_db : CensusDB :=
  sample_census [sample_char 1 "Siren" "Aether" "NA" "Hyur" 1; sample_char 2 "Odin" "Light" "EU" "Miqo'te" 2; sample_char 3 "" "Light" "EU" "Hyur" 0].
Definition sample_env : refreshEnv :=
  mkRefreshEnv None (Ok true) None None (fun l => reverse l) None (fun l => l) None 0 (200 * day + 7) 1500000 NoFault.
Definition sample_opts : UIStatsRefreshOptions := mkRefreshOptions (90 * day) 90 0.

Lemma sample_ready : stats_ready sample_db.
Proof.
  constructor.
  - intros r Hr. assert (Hl : r ∈ [sample_char 1 "Siren" "Aether" "NA" "Hyur" 1; sample_char 2 "Odin" "Light" "EU" "Miqo'te" 2; sample_char 3 "" "Light" "EU" "Hyur" 0]).
    { vm_compute in Hr. set_solver. }
    repeat (apply elem_of_cons in Hl as [->|Hl]); [..|by apply elem_of_nil in Hl];
      (constructor; [done|done|unfold known_gender; cbn; lia|done]).
  - intros id m Hm. apply elem_of_list_to_map_2 in Hm. set_solver.
  - intros ch at_ Hm. apply elem_of_list_to_map_2 in Hm. unfold four_digit_day, day_of, day, hour, minute, second.
    repeat (apply elem_of_cons in Hm as [[= -> ->]|Hm]); [..|by apply elem_of_nil in Hm]; vm_compute; split; congruence.
  - vm_compute. congruence.
Qed.
Lemma sample_runs : refresh_runs sample_env.
Proof.
  constructor; [done|done|done|intros l; apply reverse_Permutation|done|]. split; vm_compute; try split; congruence.
Qed.
Lemma sample_options : options_ok sample_opts.
Proof. constructor; [split; [done|vm_compute; split; congruence]|cbn; lia]. Qed.

Lemma refresh_publishes_witness :
  exists row s, Refresh sample_db None sample_env sample_opts = (Some row, Ok (mkRefreshResult (Some s) false)) /\
    LoadCurrent (Some row) NoFault = Ok (loaded_snapshot s).
Proof.
  destruct (refresh_publishes sample_db None sample_env sample_opts sample_ready sample_runs sample_options) as (row & s & H1 & H2 & _).
  exists row, s. split; [exact H1|exact H2].
Defined.

(** ** Characters that cannot be placed *)

Lemma build_snapshot_inv db env opts s : build_snapshot db env opts = Ok s ->
  snapshot_ok s /\ ss_Groups s = omap row_group (re_character_order env (character_stats_query db (ro_ActivitySince opts) (ro_MaxLevel opts))).
Proof.
  rewrite build_snapshot_unfold. destruct (published_fields db env opts) as (_ & _ & _ & _ & _ & Hg & _).
  set (s' := published db env opts) in *. unfold mbind, result_bind. intros H.
  destruct (fail_if _ (re_begin env)); [|done]. destruct (fail_if _ (re_characters env)); [|done].
  destruct (fail_if _ (re_milestones env)); [|done]. destruct (fail_if _ (re_commit env)); [|done].
  destruct (ValidateUIStatsSnapshot _) as [[]|] eqn:Hv; [|done]. injection H as <-. apply ValidateUIStatsSnapshot_ok in Hv. done.
Qed.

Lemma query_elem db since ml set r : set ∈ grouping_sets -> set <> [] -> r ∈ live_rows db ->
  group_row since ml (live_rows db) set (project set r) ∈ character_stats_query db since ml.
Proof.
  intros Hset Hne Hr. apply list_elem_of_bind. exists set. split; [|done]. apply elem_of_group_rows.
  eexists. split; [reflexivity|]. right. split; [done|by exists r].
Qed.

(** Two rows of the query whose groups have one key. *)
Lemma unplaced_clash db since ml r rows : rows ≡ₚ character_stats_query db since ml -> r ∈ live_rows db ->
  (cr_Region (row_rec r) = "" \/ cr_Datacenter (row_rec r) = "") -> ~ NoDup (group_key <$> omap row_group rows).
Proof.
  intros Hrows Hr Hempty.
  assert (Hset : exists set, set ∈ grouping_sets /\ set <> [] /\ set <> [CRace] /\ exists total active,
    row_group (group_row since ml (live_rows db) set (project set r)) = Some (mkScopedGroup zeroScope "race" (cr_Race (row_rec r)) total active) /\
    st_key (group_row since ml (live_rows db) set (project set r)) <> project [CRace] r).
  { destruct Hempty as [He|He]; [exists [CRegion; CRace]|exists [CDatacenter; CRace]]; (split; [unfold grouping_sets; set_solver|]);
      (split; [done|]); (split; [done|]); do 2 eexists; (split; [|done]); unfold group_row;
      cbv [project grouped existsb column_eqb orb row_group st_key is_summary_row no_dimension row_scope row_dimension k_region k_dc k_world k_race k_tribe k_gender GROUPING Z.eqb Pos.eqb andb negb str int default from_option id st_total st_active];
      rewrite He; literal_decide; case_bool_decide; reflexivity. }
  destruct Hset as (set & Hset & Hne & _ & total & active & Hg & Hkey).
  eapply (NoDup_omap_clash row_group group_key rows (group_row since ml (live_rows db) set (project set r))
            (group_row since ml (live_rows db) [CRace] (project [CRace] r))).
  - rewrite Hrows. by apply query_elem.
  - rewrite Hrows. apply query_elem; [unfold grouping_sets; set_solver|done|done].
  - intros E. apply Hkey. by rewrite E.
  - exact Hg.
  - unfold group_row. cbv [project grouped existsb column_eqb orb row_group st_key is_summary_row no_dimension row_scope row_dimension k_region k_dc k_world k_race k_tribe k_gender GROUPING Z.eqb Pos.eqb andb negb str int default from_option id st_total st_active].
    literal_decide. case_bool_decide; reflexivity.
  - reflexivity.
Qed.

(** One live character stored with an empty region or an empty
    datacenter keeps every refresh from publishing, for any options, clock,
    faults and row order: its group for the empty scope has the key of the
    global group, so validation reports a duplicate, the snapshot row stays as
    it was and the result is an error or a skip. *)
Theorem unplaced_blocks_refresh db table env opts r :
  (forall l, re_character_order env l ≡ₚ l) -> r ∈ live_rows db ->
  cr_Region (row_rec r) = "" \/ cr_Datacenter (row_rec r) = "" ->
  (Refresh db table env opts).1 = table /\
  forall s, (Refresh db table env opts).2 <> Ok (mkRefreshResult (Some s) false).
Proof.
  intros Horder Hr Hempty. assert (Hb : exists e, build_snapshot db env opts = Err e).
  { destruct (build_snapshot db env opts) as [s|e] eqn:Hs; [exfalso|by exists e]. apply build_snapshot_inv in Hs as [Hok Hg].
    eapply (unplaced_clash _ _ _ r _ (Horder _) Hr Hempty). rewrite <-Hg. by apply Hok. }
  destruct Hb as [e Hb]. unfold Refresh. rewrite Hb. cbn [mbind result_bind]. repeat case_match; done.
Qed.

Lemma unplaced_blocks_refresh_witness :
  let db := sample_census [sample_char 1 "Siren" "Aether" "NA" "Hyur" 1; sample_char 2 "Somewhere" "Shadow" "" "Hyur" 1] in
  (Refresh db None sample_env sample_opts).1 = None /\
  forall s, (Refresh db None sample_env sample_opts).2 <> Ok (mkRefreshResult (Some s) false).
Proof.
  apply (unplaced_blocks_refresh _ _ _ _ (sample_char 2 "Somewhere" "Shadow" "" "Hyur" 1)).
  - intros l. apply reverse_Permutation.
  - vm_compute. set_solver.
  - left. reflexivity.
Defined.
