(* ===== verification/StatsWindow.v ===== *)
(** * New characters in a window

    The totals the pages show for a scope are the numbers of live characters
    of the scope that took their first steps in the window. *)
From S2P Require Import Prelude GoErrors GoStrings Contract Dates Payloads Worlds Snapshot CharacterStore StatsStore StatsStoreFacts StatsRefresh.

(** ** The sums *)

Definition in_days (lo hi : Z) (text : string) : bool :=
  match parse_day text with Some p => (lo <=? p) && (p <=? hi) | None => false end.
Definition day_value (scope : StatsScope) (lo hi : Z) (d : ScopedDailyCount) : Z :=
  if day_selected scope d && in_days lo hi (sd_Day d) then sd_Count d else 0.
Definition window_sum (scope : StatsScope) (lo hi : Z) (ds : list ScopedDailyCount) : Z := sumZ (day_value scope lo hi <$> ds).

Lemma window_sum_nonneg scope lo hi ds : (forall d, d ∈ ds -> 0 <= sd_Count d) -> 0 <= window_sum scope lo hi ds.
Proof.
  unfold window_sum. induction ds as [|d ds IH]; intros Hd; [done|]. rewrite fmap_cons, sumZ_cons.
  pose proof (Hd d (list_elem_of_here _ _)). specialize (IH (fun x Hx => Hd x (list_elem_of_further _ _ _ Hx))). unfold day_value at 1. case_match; lia.
Qed.

Lemma add_day_eq scope e d c p st : 0 <= sd_Count d -> 0 <= c -> 0 <= p ->
  c + day_value scope (e - 29) e d <= max_int64 -> p + day_value scope (e - 59) (e - 30) d <= max_int64 ->
  add_day scope e (mkTotals c p st) d = mkTotals (c + day_value scope (e - 29) e d) (p + day_value scope (e - 59) (e - 30) d) st.
Proof.
  intros Hd Hc Hp. unfold add_day, day_value, in_days. destruct (day_selected scope d); cbn [andb negb]; [|intros; f_equal; lia].
  destruct (parse_day (sd_Day d)) as [q|]; [|intros; f_equal; lia].
  assert (Hlt : (q <? e - 29) = (q <=? e - 30)) by (apply eq_true_iff_eq; rewrite Z.ltb_lt, Z.leb_le; lia). rewrite Hlt.
  destruct ((e - 29 <=? q) && (q <=? e)) eqn:H1.
  - assert (((e - 59 <=? q) && (q <=? e - 30)) = false) as -> by (bsplit; apply andb_false_iff; right; apply Z.leb_gt; lia).
    intros. cbn. rewrite i64_id by (unfold is_i64, min_int64; lia). f_equal; lia.
  - destruct ((e - 59 <=? q) && (q <=? e - 30)); intros; cbn; [rewrite i64_id by (unfold is_i64, min_int64; lia)|]; f_equal; lia.
Qed.
(** Without overflow the loop computes both sums. *)
Lemma fold_add_day scope e ds c p st : (forall d, d ∈ ds -> 0 <= sd_Count d) -> 0 <= c -> 0 <= p ->
  c + window_sum scope (e - 29) e ds <= max_int64 -> p + window_sum scope (e - 59) (e - 30) ds <= max_int64 ->
  fold_left (add_day scope e) ds (mkTotals c p st) =
    mkTotals (c + window_sum scope (e - 29) e ds) (p + window_sum scope (e - 59) (e - 30) ds) st.
Proof.
  revert c p. induction ds as [|d ds IH]; intros c p Hd Hc Hp Hcm Hpm.
  - unfold window_sum. cbn. f_equal; lia.
  - assert (Hrest : forall x, x ∈ ds -> 0 <= sd_Count x) by (intros; apply Hd; by apply list_elem_of_further).
    pose proof (Hd d (list_elem_of_here _ _)) as Hd0. cbn [fold_left].
    unfold window_sum in Hcm, Hpm |- *. rewrite !fmap_cons, !sumZ_cons in *.
    fold (window_sum scope (e - 29) e ds) (window_sum scope (e - 59) (e - 30) ds) in *.
    pose proof (window_sum_nonneg scope (e - 29) e ds Hrest). pose proof (window_sum_nonneg scope (e - 59) (e - 30) ds Hrest).
    assert (Hv : forall a b, 0 <= day_value scope a b d) by (intros; unfold day_value; case_match; lia).
    pose proof (Hv (e - 29) e). pose proof (Hv (e - 59) (e - 30)).
    rewrite add_day_eq by (done || lia). rewrite IH by (done || lia). f_equal; lia.
Qed.

Lemma sumZ_omap {A B} (f : A -> option B) (g : B -> Z) l :
  sumZ (g <$> omap f l) = sumZ ((fun x => match f x with Some y => g y | None => 0 end) <$> l).
Proof. induction l as [|x l IH]; [done|]. rewrite fmap_cons, sumZ_cons, <-IH. cbn [omap list_omap]. by destruct (f x). Qed.
Lemma sumZ_zero {A} (f : A -> Z) l : (forall x, x ∈ l -> f x = 0) -> sumZ (f <$> l) = 0.
Proof.
  induction l as [|x l IH]; intros H; [done|]. rewrite fmap_cons, sumZ_cons, (H x) by apply list_elem_of_here.
  rewrite IH; [done|]. intros; apply H; by apply list_elem_of_further.
Qed.
Lemma sumZ_ext {A} (f g : A -> Z) l : (forall x, x ∈ l -> f x = g x) -> sumZ (f <$> l) = sumZ (g <$> l).
Proof.
  induction l as [|x l IH]; intros H; [done|]. rewrite !fmap_cons, !sumZ_cons, (H x) by apply list_elem_of_here.
  rewrite IH; [done|]. intros; apply H; by apply list_elem_of_further.
Qed.
Lemma filter_fmap_list {A B} (f : A -> B) (P : B -> Prop) `{forall x, Decision (P x)} (l : list A) :
  filter P (f <$> l) = f <$> filter (fun x => P (f x)) l.
Proof. induction l as [|x l IH]; [done|]. rewrite fmap_cons, !filter_cons, IH. by case_decide. Qed.
Lemma remove_dups_NoDup {A} `{!EqDecision A} (l : list A) : NoDup l -> remove_dups l = l.
Proof. induction 1 as [|x l Hx Hnd IH]; [done|]. cbn. destruct (decide_rel _ _ _); [done|]. by rewrite IH. Qed.

(** ** First steps *)

(** The first-steps records of live characters on selected worlds, by day. *)
Definition new_characters (db : CensusDB) (select : string -> bool) (lo hi : Z) : Z :=
  Z.of_nat (length (filter (fun t => tr_achievement t = 590 /\ select (tr_world t) = true /\ lo <= day_of (tr_at t) <= hi) (tracked db))).
Definition scope_selects (scope : StatsScope) (world : string) : bool :=
  bool_decide (scope = zeroScope) || (negb (bool_decide (world = "")) && bool_decide (world ∈ worldSet scope)).

Lemma tracked_keys db : NoDup ((fun t => (tr_character t, tr_achievement t)) <$> tracked db).
Proof.
  unfold tracked. apply (NoDup_omap_keys (track db) fst); [|apply NoDup_fst_map_to_list].
  intros [[c1 a1] t1] [[c2 a2] t2] x y _ _ Hx Hy Hk. unfold track in Hx, Hy.
  destruct (cdb_registry db !! a1); [|done]. destruct (cdb_registry db !! a2); [|done]. cbn in Hx, Hy.
  destruct (cdb_chars db !! c1); [|done]. destruct (cdb_chars db !! c2); [|done]. cbn in Hx, Hy.
  destruct (_ && _) in Hx; [|done]. destruct (_ && _) in Hy; [|done]. injection Hx as <-. injection Hy as <-. done.
Qed.

(** Among first-steps records a character occurs once, so counting distinct
    characters counts records. *)
Lemma distinct_daily db since (P : string * trackedRow -> Prop) `{forall x, Decision (P x)} :
  distinct_characters (filter P (daily_rows db since)).*2 = Z.of_nat (length (filter P (daily_rows db since))).
Proof.
  unfold distinct_characters. rewrite remove_dups_NoDup; [by rewrite !length_fmap|].
  rewrite <-list_fmap_compose. eapply sublist_NoDup; [|apply fmap_sublist, sublist_filter].
  unfold daily_rows. rewrite <-list_fmap_compose. pose proof (tracked_keys db) as Hk.
  apply NoDup_fmap_2_strong.
  - intros x y Hx Hy E. apply list_elem_of_filter in Hx as [[Hx _] Hx'], Hy as [[Hy _] Hy'].
    cbn in E. apply list_elem_of_lookup in Hx' as [i Hi], Hy' as [j Hj].
    assert (i = j) as ->; [|congruence].
    eapply (NoDup_lookup _ _ _ (tr_character x, tr_achievement x) Hk); rewrite list_lookup_fmap; [by rewrite Hi|]. rewrite Hj. cbn. congruence.
  - apply list.NoDup_filter. by eapply NoDup_fmap_1.
Qed.

Section Window.
Context (db : CensusDB) (since : Z) (scope : StatsScope) (lo hi : Z).

Definition contribution (row : milestoneRow) : Z := match row_daily row with Some d => day_value scope lo hi d | None => 0 end.

Lemma row_daily_global v n : row_daily (mkMilestoneRow "daily" None v n) = Some (mkScopedDaily zeroScope v n).
Proof. reflexivity. Qed.
Lemma row_daily_world w v n : row_daily (mkMilestoneRow "daily" (Some w) v n) =
  if bool_decide (w = "") then None else Some (mkScopedDaily (mkStatsScope "" "" w) v n).
Proof.
  unfold row_daily. cbn [mr_kind mr_value mr_count]. rewrite (bool_decide_true ("daily" = "daily")) by done.
  unfold milestone_scope. cbn [mr_world GROUPING Z.eqb]. change (str (Some w)) with w. case_bool_decide; reflexivity.
Qed.

Lemma daily_contributions : sumZ (contribution <$> value_stats "daily" (daily_rows db since)) =
  Z.of_nat (length (filter (fun x => scope_selects scope (tr_world x.2) && in_days lo hi x.1 = true) (daily_rows db since))).
Proof.
  unfold value_stats. rewrite fmap_app, sumZ_app, <-!list_fmap_compose. unfold compose, contribution.
  unfold scope_selects. destruct (decide (scope = zeroScope)) as [Hz|Hz].
  - rewrite (sumZ_zero _ (remove_dups ((fun x => (tr_world x.2, x.1)) <$> _))).
    2:{ intros [w v] _. rewrite row_daily_world. cbn [fst snd]. case_bool_decide as Hw; [done|]. unfold day_value, day_selected. cbn [sd_Scope].
        rewrite (bool_decide_true (scope = _)) by done. rewrite bool_decide_false by (unfold zeroScope; congruence). done. }
    rewrite Z.add_0_r, (bool_decide_true (scope = zeroScope)) by done. cbn [orb andb]. rewrite <-(partition_sum fst (in_days lo hi)).
    apply sumZ_ext. intros v _. rewrite row_daily_global. unfold day_value, day_selected. cbn [sd_Scope sd_Day sd_Count].
    rewrite (bool_decide_true (scope = _)), bool_decide_true by done. cbn [andb]. by rewrite distinct_daily.
  - rewrite (sumZ_zero _ (remove_dups (daily_rows db since).*1)).
    2:{ intros v _. rewrite row_daily_global. unfold day_value, day_selected. cbn [sd_Scope]. rewrite bool_decide_false by done. done. }
    rewrite Z.add_0_l, (bool_decide_false (scope = zeroScope)) by done. cbn [orb].
    etrans; [|exact (partition_sum (fun x => (tr_world x.2, x.1)) (fun wv => negb (bool_decide (wv.1 = "")) && bool_decide (wv.1 ∈ worldSet scope) && in_days lo hi wv.2) (daily_rows db since))].
    apply sumZ_ext. intros [w v] _. cbn [fst snd]. rewrite row_daily_world. case_bool_decide as Hw; [done|].
    unfold day_value, day_selected. cbn [sd_Scope sd_Day sd_Count sc_World negb andb]. rewrite (bool_decide_false (scope = _)), (bool_decide_false (w = "")) by done.
    cbn [negb andb]. rewrite distinct_daily. case_match; [|done]. do 2 f_equal. apply filter_ext_in. intros x _. split; [by intros [-> ->]|by intros [= -> ->]].
Qed.
End Window.

(** The daily series of a snapshot, summed over a window. *)
Lemma window_sum_published db env opts scope lo hi : stats_ready db -> refresh_runs env ->
  day_of (re_now env) - 59 <= lo ->
  window_sum scope lo hi (ss_NewCharacters (published db env opts)) = new_characters db (scope_selects scope) lo hi.
Proof.
  intros Hready Hruns Hlo. destruct (published_fields db env opts) as (_ & _ & _ & _ & _ & _ & _ & ->). unfold window_sum.
  rewrite (sumZ_perm _ _ (fmap_Permutation _ _ _ (omap_Permutation row_daily _ _ (rn_milestones _ Hruns _)))).
  rewrite sumZ_omap. change (fun x => match row_daily x with Some y => day_value scope lo hi y | None => 0 end) with (contribution scope lo hi).
  unfold milestone_stats_query. rewrite fmap_app, sumZ_app, daily_contributions, sumZ_zero, Z.add_0_l.
  2:{ intros row Hrow. apply elem_of_value_stats in Hrow as [Hk _]. unfold contribution, row_daily. by rewrite Hk. }
  unfold new_characters, daily_rows. f_equal. rewrite filter_fmap_list, length_fmap, list_filter_filter.
  f_equal. apply filter_ext_in. intros t Ht. cbn [fst snd].
  destruct (elem_of_tracked db t Ht) as (m & c & Hat & _).
  unfold lookback_start, time_of_day, newCharactersLookbackDays, in_days. split.
  - intros [Hsel [H590 _]]. rewrite H590 in Hat. rewrite parse_format_day in Hsel by exact (rd_dates _ Hready _ _ Hat). bsplit. done.
  - intros (H590 & Hsel & Hd). rewrite H590 in Hat. rewrite parse_format_day by exact (rd_dates _ Hready _ _ Hat). rewrite Hsel. split.
    + cbn. apply andb_true_iff. split; apply Z.leb_le; lia.
    + split; [done|]. pose proof (Z.div_mod (tr_at t) day ltac:(done)). pose proof (Z.mod_pos_bound (tr_at t) day ltac:(done)).
      assert ((day_of (re_now env) - (60 - 1)) * day <= day_of (tr_at t) * day) by (apply Z.mul_le_mono_nonneg_r; [done|lia]).
      unfold day_of at 2 in H1. lia.
Qed.

Lemma newcomers_NoDup db select lo hi :
  NoDup (tr_character <$> filter (fun t => tr_achievement t = 590 /\ select (tr_world t) = true /\ lo <= day_of (tr_at t) <= hi) (tracked db)).
Proof.
  apply NoDup_fmap_2_strong; [|apply list.NoDup_filter; eapply NoDup_fmap_1, tracked_keys].
  intros x y [[Hx2 _] Hx1]%list_elem_of_filter [[Hy2 _] Hy1]%list_elem_of_filter E.
  apply list_elem_of_lookup in Hx1 as [i Hi], Hy1 as [j Hj]. assert (i = j) as ->; [|congruence].
  eapply (NoDup_lookup _ _ _ (tr_character x, tr_achievement x) (tracked_keys db)); rewrite list_lookup_fmap; [by rewrite Hi|].
  rewrite Hj. cbn. congruence.
Qed.
Lemma new_characters_bound db select lo hi : 0 <= new_characters db select lo hi <= Z.of_nat (size (cdb_chars db)).
Proof.
  unfold new_characters. split; [lia|]. pose proof (newcomers_NoDup db select lo hi) as Hnd. set (l := filter _ _) in *.
  replace (length l) with (length (remove_dups (tr_character <$> l))) by (by rewrite remove_dups_NoDup, length_fmap).
  apply (distinct_bound db l). intros t [_ Ht]%list_elem_of_filter. destruct (elem_of_tracked db t Ht) as (? & ? & _ & _ & _ & -> & _). done.
Qed.

(** ** The characters a window counts *)

(** Two spellings of one name. *)
Definition same_name (a b : string) : Prop := fold_name a = fold_name b.
(** The worlds of a scope, read off the two tables: every world for the global
    scope; the world of that name, or the name itself when no world is known by
    it; the worlds of the datacenter; the worlds whose datacenter lies in the
    region.  The narrowest name of the scope decides. *)
Definition in_scope (scope : StatsScope) (world : string) : Prop :=
  match scope with
  | mkStatsScope "" "" "" => True
  | mkStatsScope region "" "" => exists dc r, worldDatacenters !! world = Some dc /\ datacenterRegion !! dc = Some r /\ same_name r region
  | mkStatsScope _ dc "" => exists dc', worldDatacenters !! world = Some dc' /\ same_name dc' dc
  | mkStatsScope _ _ name =>
      is_Some (worldDatacenters !! world) /\ same_name world name \/
      world = name /\ forall w, is_Some (worldDatacenters !! w) -> ~ same_name w name
  end.
(** A live character of the scope that took its first steps in the days from
    [lo] to [hi]: achievement 590, once it is registered. *)
Definition newcomer (db : CensusDB) (scope : StatsScope) (lo hi id : Z) : Prop :=
  exists c at_, cdb_chars db !! id = Some c /\ cr_DeletedAt (row_rec c) = None /\ in_scope scope (cr_World (row_rec c)) /\
    is_Some (cdb_registry db !! 590) /\ cdb_milestones db !! (id, 590) = Some at_ /\ lo <= day_of at_ <= hi.

Lemma EqualFold_iff a b : EqualFold a b = true <-> same_name a b.
Proof. unfold EqualFold, same_name. apply bool_decide_eq_true. Qed.
Lemma known_nonempty w dc : worldDatacenters !! w = Some dc -> w <> "".
Proof. intros Hw. exact (proj1 (world_datacenter_known _ _ Hw)). Qed.
Lemma canonicalWorld_iff w name : name <> "" -> w = canonicalWorld name <->
  is_Some (worldDatacenters !! w) /\ same_name w name \/ w = name /\ forall w, is_Some (worldDatacenters !! w) -> ~ same_name w name.
Proof.
  intros Hn. unfold canonicalWorld. pose proof (find_fold_Some worldDatacenters world_folds_distinct name) as Hf.
  destruct (worldDatacenters !! name) as [dc|] eqn:Hdc.
  - split; [intros ->; left; split; [by eexists|done]|]. intros [[[dc' Hw] Hs]|[-> _]]; [|done].
    by eapply (fold_unique worldDatacenters world_folds_distinct).
  - destruct (find_fold worldDatacenters name) as [[known dc]|].
    + destruct (proj1 (Hf known dc) eq_refl) as [Hk He%EqualFold_iff]. split; [intros ->; left; eauto|].
      intros [[[dc' Hw] Hs]|[-> H]]; [|exfalso; by apply (H known); eauto].
      eapply (fold_unique worldDatacenters world_folds_distinct); [done..|]. unfold same_name in *. congruence.
    + assert (Hnone : forall w, is_Some (worldDatacenters !! w) -> ~ same_name w name).
      { intros w' [dc' Hw'] Hs%EqualFold_iff. by assert (None = Some (w', dc')) by (apply Hf; done). }
      split; [auto|]. intros [[Hw Hs]|[-> _]]; [by exfalso; eapply Hnone|done].
Qed.
Lemma elem_of_region w region : region <> "" -> w ∈ WorldsForRegion region <->
  exists dc r, worldDatacenters !! w = Some dc /\ datacenterRegion !! dc = Some r /\ same_name r region.
Proof.
  intros Hr. rewrite elem_of_WorldsForRegion by done. split.
  - intros (dc & Hw & He%EqualFold_iff). destruct (proj2 (world_datacenter_known _ _ Hw)) as [r Hdc].
    exists dc, r. unfold RegionForDatacenter in He. rewrite Hdc in He. done.
  - intros (dc & r & Hw & Hdc & Hs). exists dc. split; [done|]. apply EqualFold_iff. unfold RegionForDatacenter. by rewrite Hdc.
Qed.
Lemma scope_selects_iff scope world : scope_selects scope world = true <-> in_scope scope world.
Proof.
  unfold scope_selects. rewrite orb_true_iff, andb_true_iff, negb_true_iff, bool_decide_eq_true, bool_decide_eq_false, bool_decide_eq_true.
  destruct scope as [region dc name]. unfold worldSet. cbn [sc_World sc_Datacenter sc_Region].
  destruct (decide (name = "")) as [->|Hname].
  - rewrite (bool_decide_true ("" = "")) by done. cbn [negb]. destruct (decide (dc = "")) as [->|Hdc].
    + rewrite (bool_decide_true ("" = "")) by done. cbn [negb]. destruct (decide (region = "")) as [->|Hr]; [split; [done|by left]|].
      rewrite bool_decide_false by done. cbn [negb]. rewrite elem_of_list_to_set, elem_of_region by done. unfold zeroScope.
      destruct region as [|c region]; [done|]. cbn [in_scope]. split; [naive_solver|].
      intros (d & r & Hw & H). right. split; [by eapply known_nonempty|eauto].
    + rewrite bool_decide_false by done. cbn [negb]. rewrite elem_of_list_to_set, elem_of_WorldsForDatacenter by done. unfold zeroScope.
      setoid_rewrite EqualFold_iff. assert (Hin : in_scope (mkStatsScope region dc "") world = exists dc', worldDatacenters !! world = Some dc' /\ same_name dc' dc)
        by (by destruct dc, region). rewrite Hin. split; [naive_solver|]. intros (d & Hw & H). right. split; [by eapply known_nonempty|eauto].
  - rewrite bool_decide_false by done. cbn [negb]. rewrite elem_of_singleton, canonicalWorld_iff by done. unfold zeroScope.
    assert (Hin : in_scope (mkStatsScope region dc name) world = (is_Some (worldDatacenters !! world) /\ same_name world name \/
      world = name /\ forall w, is_Some (worldDatacenters !! w) -> ~ same_name w name)) by (by destruct name, dc, region).
    rewrite Hin. split; [naive_solver|]. intros H. right. split; [|done]. destruct H as [[[d Hw] _]|[-> _]]; [by eapply known_nonempty|done].
Qed.

(** The number of first-steps records is the number of those characters. *)
Lemma new_characters_set db scope lo hi : exists ids : gset Z,
  (forall id, id ∈ ids <-> newcomer db scope lo hi id) /\ new_characters db (scope_selects scope) lo hi = Z.of_nat (size ids).
Proof.
  unfold new_characters. set (l := filter _ _). exists (list_to_set (tr_character <$> l)). split.
  - intros id. rewrite elem_of_list_to_set, list_elem_of_fmap. unfold l. setoid_rewrite list_elem_of_filter. split.
    + intros (t & -> & (H590 & Hsel & Hd) & Ht). destruct (elem_of_tracked db t Ht) as (m & c & Hat & Hreg & _ & Hc & Hlive & Hw).
      rewrite H590 in *. exists c, (tr_at t). unfold not_deleted in Hlive. rewrite <-Hw, <-scope_selects_iff.
      apply bool_decide_eq_true in Hlive. split_and!; done || (by eexists) || lia.
    + intros (c & at_ & Hc & Hlive & Hs & [m Hm] & Hat & Hd). apply scope_selects_iff in Hs.
      exists (mkTracked id 590 at_ (ma_Expansion m) (cr_World (row_rec c))). split; [done|]. split; [done|].
      unfold tracked. apply list_elem_of_omap. exists (id, 590, at_). split; [by apply elem_of_map_to_list|].
      unfold track. rewrite Hm. cbn [mbind option_bind]. rewrite Hc. cbn [mbind option_bind]. unfold not_deleted. by rewrite Hlive, bool_decide_true.
  - rewrite size_list_to_set; [by rewrite length_fmap|]. apply newcomers_NoDup.
Qed.

(** C24: the totals a page shows for a scope after a refresh are exact.
    The current total is the number of live characters of the scope whose
    first-steps achievement is registered and dated in the thirty days that end
    on the day of generation, the previous total the same for the thirty days
    before; the 64-bit sums do not overflow.  The scope may be global, a world,
    a datacenter or a region; names match in any spelling, up to case folding,
    and a world belongs to a datacenter or region by the program's tables.  The
    refresh ran with nothing failing and the lock held, over tables whose live
    characters have a region, a datacenter and a known gender, whose registered
    expansions are named and whose first-steps dates have four-digit years. *)
Theorem window_counts_characters db table env opts scope table' s :
  stats_ready db -> refresh_runs env -> options_ok opts ->
  Refresh db table env opts = (table', Ok (mkRefreshResult (Some s) false)) ->
  let e := day_of (re_now env) in
  exists current previous : gset Z,
    (forall id, id ∈ current <-> newcomer db scope (e - 29) e id) /\
    (forall id, id ∈ previous <-> newcomer db scope (e - 59) (e - 30) id) /\
    NewCharactersWindow (Some s) scope = mkTotals (Z.of_nat (size current)) (Z.of_nat (size previous)) (format_day (e - 29)).
Proof.
  intros Hready Hruns Hopts HR e. assert (Hs : s = published db env opts).
  { unfold Refresh in HR. rewrite (rn_lock _ Hruns), (build_snapshot_unfold db env opts) in HR.
    destruct (rn_faults _ Hruns) as (H1 & H2 & H3 & H4 & H5). rewrite H1, H2, H3, H4, H5 in HR.
    pose proof (published_ok db env opts Hready Hruns Hopts) as Hok. rewrite (proj2 (ValidateUIStatsSnapshot_ok _) Hok) in HR.
    set (p := published db env opts) in *. cbn [fail_if mbind result_bind] in HR. destruct (marshal_snapshot p); cbn [wrap_err mbind result_bind] in HR;
    repeat case_match; try done; by simplify_eq. }
  destruct (new_characters_set db scope (e - 29) e) as (current & Hcur & Ncur).
  destruct (new_characters_set db scope (e - 59) (e - 30)) as (previous & Hprev & Nprev).
  exists current, previous. split; [done|]. split; [done|]. rewrite <-Ncur, <-Nprev.
  subst s. pose proof (published_ok db env opts Hready Hruns Hopts) as Hok. pose proof (rd_size _ Hready).
  unfold NewCharactersWindow. destruct (published_fields db env opts) as (_ & -> & _). fold e.
  pose proof (window_sum_published db env opts scope (e - 29) e Hready Hruns ltac:(lia)) as H1.
  pose proof (window_sum_published db env opts scope (e - 59) (e - 30) Hready Hruns ltac:(lia)) as H2.
  pose proof (new_characters_bound db (scope_selects scope) (e - 29) e). pose proof (new_characters_bound db (scope_selects scope) (e - 59) (e - 30)).
  rewrite fold_add_day by (done || (rewrite ?H1, ?H2; lia) || (intros d Hd; by apply Hok)). by rewrite H1, H2.
Qed.

(** In Europe, in lower case: the second character, of Odin, took its first
    steps in the current window; the first, of Siren, is no European. *)
Lemma window_counts_characters_witness : exists t s (current : gset Z),
  Refresh sample_db None sample_env sample_opts = (t, Ok (mkRefreshResult (Some s) false)) /\
  nt_Current (NewCharactersWindow (Some s) (mkStatsScope "eu" "" "")) = Z.of_nat (size current) /\ 2 ∈ current /\ 1 ∉ current.
Proof.
  destruct (Refresh sample_db None sample_env sample_opts) as [t [[[s|] []]|e]] eqn:H; try (vm_compute in H; discriminate H).
  exists t, s.
  destruct (window_counts_characters _ _ _ _ (mkStatsScope "eu" "" "") _ _ sample_ready sample_runs sample_options H) as (cur & prev & Hcur & _ & HW).
  exists cur. split; [reflexivity|]. split; [by rewrite HW|]. split.
  - apply Hcur. exists (sample_char 2 "Odin" "Light" "EU" "Miqo'te" 2), (190 * day + 5).
    split; [vm_compute; reflexivity|]. split; [reflexivity|]. split; [exists "Light", "EU"; split_and!; vm_compute; reflexivity|].
    split; [eexists; vm_compute; reflexivity|]. split; [vm_compute; reflexivity|]. vm_compute. split; discriminate.
  - intros (c & at_ & Hc & _ & (dc & r & Hw & Hdc & Hs) & _)%Hcur. vm_compute in Hc. injection Hc as <-.
    vm_compute in Hw. injection Hw as <-. vm_compute in Hdc. injection Hdc as <-. discriminate Hs.
Defined.
