(* ===== verification/StatsService.v ===== *)
(** * The UI statistics service ([domain/census/ui_stats_service.go])

    The in-process cache of the current snapshot.  [Current] serves it while
    it is young, keeps serving it while one goroutine reloads it, and lets the
    requests that find nothing wait for that one load.  Critical sections of
    the mutex are single steps; requests, background reloads and refreshes
    interleave between them. *)
From Stdlib Require Import Relations.
From S2P Require Import Prelude GoErrors GoStrings Contract Dates Payloads Worlds Snapshot.

(** ** State *)

Record UIStatsState := mkUIStatsState { us_GeneratedAt : Z; us_Age : Z; us_Stale : bool }.
Definition zeroUIStatsState : UIStatsState := mkUIStatsState zero_time 0 false.

(** The fields set by [NewUIStatsService]. *)
Record statsConfig := mkStatsConfig { sv_repo : bool; sv_cacheTTL : Z; sv_staleWarning : Z }.
(** The fields under the mutex.  A channel is a number; [sv_closed] holds the
    closed ones and [sv_fresh] is the next to be made. *)
Record statsCache := mkStatsCache {
  sv_observer : bool; sv_events : list string;
  sv_snapshot : option UIStatsSnapshot; sv_loadedAt : Z; sv_loading : bool; sv_wait : option nat;
  sv_closed : gset nat; sv_fresh : nat;
}.

Definition NewUIStatsService (repo : bool) (cacheTTL staleWarning : Z) : statsConfig * statsCache :=
  (mkStatsConfig repo (if cacheTTL <=? 0 then minute else cacheTTL) (if staleWarning <=? 0 then 12 * hour else staleWarning),
   mkStatsCache false [] None zero_time false None ∅ 0).

Definition SetObserver (s : statsCache) (observer : bool) : statsCache := s{{ sv_observer := observer }}.
Definition observeCache (result : string) (s : statsCache) : statsCache :=
  if sv_observer s then s{{ sv_events := sv_events s ++ [result] }} else s.

Definition cloneUIStatsSnapshot (snapshot : option UIStatsSnapshot) : option UIStatsSnapshot := snapshot.

Definition state (cfg : statsConfig) (snapshot : UIStatsSnapshot) (now : Z) (forcedStale : bool) : UIStatsState :=
  let age := time_sub now (ss_GeneratedAt snapshot) in
  let age := if age <? 0 then 0 else age in
  mkUIStatsState (ss_GeneratedAt snapshot) age (forcedStale || (sv_staleWarning cfg <=? age)).

(** ** Critical sections *)

(** How [Current] leaves its first critical section. *)
Inductive lookup_outcome :=
  | CacheHit (snapshot : UIStatsSnapshot)
  | StaleServed (snapshot : UIStatsSnapshot)  (* another goroutine is loading *)
  | WaitFor (ch : option nat)
  | StartReload (previous : UIStatsSnapshot)  (* in the background *)
  | StartLoad.                                (* by the request itself *)

Definition current_lookup (cfg : statsConfig) (s : statsCache) (now : Z) : statsCache * lookup_outcome :=
  match sv_snapshot s with
  | Some snapshot =>
      if time_sub now (sv_loadedAt s) <? sv_cacheTTL cfg then (s, CacheHit snapshot)
      else if sv_loading s then (s, StaleServed snapshot)
      else (s{{ sv_loading := true; sv_wait := Some (sv_fresh s); sv_fresh := S (sv_fresh s) }}, StartReload snapshot)
  | None =>
      if sv_loading s then (s, WaitFor (sv_wait s))
      else (s{{ sv_loading := true; sv_wait := Some (sv_fresh s); sv_fresh := S (sv_fresh s) }}, StartLoad)
  end.

(** [None] is the panic of closing a nil or a closed channel. *)
Definition finishReload (s : statsCache) (now : Z) (loaded : option UIStatsSnapshot) (err : option gerror)
    : option (statsCache * option UIStatsSnapshot) :=
  let s := match err with None => s{{ sv_snapshot := cloneUIStatsSnapshot loaded }} | Some _ => s end in
  let s := match err, sv_snapshot s with
           | None, _ | _, Some _ => s{{ sv_loadedAt := now }}
           | _, _ => s
           end in
  let s := s{{ sv_loading := false }} in
  match sv_wait s with
  | None => None
  | Some ch => if bool_decide (ch ∈ sv_closed s) then None
               else let s := s{{ sv_closed := {[ ch ]} ∪ sv_closed s; sv_wait := None }} in
                    Some (s, cloneUIStatsSnapshot (sv_snapshot s))
  end.

(** The error of a load: the repository's, or the validation's. *)
Definition load_error (r : result (option UIStatsSnapshot)) : option gerror :=
  match r with
  | Err e => Some e
  | Ok loaded => match ValidateUIStatsSnapshot loaded with Err e => Some e | Ok _ => None end
  end.
Definition load_value (r : result (option UIStatsSnapshot)) : option UIStatsSnapshot :=
  match r with Ok loaded => loaded | Err _ => None end.

(** The end of [reload]: the repository answered [r]. *)
Definition reload (s : statsCache) (now : Z) (r : result (option UIStatsSnapshot)) : option statsCache :=
  '(s, _) ← finishReload s now (load_value r) (load_error r);
  Some (observeCache (match load_error r with Some _ => "error" | None => "reload" end) s).

(** What a request gets. *)
Definition served : Type := result (UIStatsSnapshot * UIStatsState).

(** The end of [Current] for the request that loads by itself; it read the
    clock at [started]. *)
Definition finish_load (cfg : statsConfig) (s : statsCache) (started now : Z) (r : result (option UIStatsSnapshot))
    : option (statsCache * served) :=
  '(s, current) ← finishReload s now (load_value r) (load_error r);
  match load_error r with
  | Some e => Some (observeCache "error" s, Err (ErrWrap "UI statistics unavailable" ErrUIStatsUnavailable))
  | None =>
      match current with
      | Some snapshot => Some (observeCache "reload" s, Ok (snapshot, state cfg snapshot started false))
      | None => None (* dereference of a nil snapshot *)
      end
  end.

(** The end of [Refresh]: the repository answered [r]. *)
Definition Refresh_end (s : statsCache) (now : Z) (r : result (option UIStatsRefreshResult))
    : statsCache * result (option UIStatsRefreshResult) :=
  match r with
  | Err e => (s, Err e)
  | Ok None => (s, Ok None)
  | Ok (Some result) =>
      if rr_Skipped result then (s, Ok (Some result))
      else match ValidateUIStatsSnapshot (rr_Snapshot result) with
           | Err e => (s, Err e)
           | Ok _ => (s{{ sv_snapshot := cloneUIStatsSnapshot (rr_Snapshot result); sv_loadedAt := now }}, Ok (Some result))
           end
  end.

(** ** Interleavings *)

(** The goroutines: a request about to look up the cache, waiting on a
    channel, or loading since an instant; a background reload; a refresh whose
    repository call is running; a request with its answer; a finished
    goroutine. *)
Inductive task :=
  | Looking
  | Waiting (ch : nat)
  | Loading (started : Z)
  | Reloading
  | Refreshing
  | Served (r : served)
  | Finished.

Record world := mkWorld { wd_cache : statsCache; wd_tasks : gmap nat task }.

Definition set_task (w : world) (c : statsCache) (i : nat) (t : task) : world := mkWorld c (<[i := t]> (wd_tasks w)).

Section Steps.
Context (cfg : statsConfig).

(** A task panics when no rule for its completion applies; [cache_invariant]
    below shows that a load always completes. *)
Inductive cache_step : world -> world -> Prop :=
  | step_request w i : wd_tasks w !! i = None -> cache_step w (set_task w (wd_cache w) i Looking)
  | step_no_repo w i : wd_tasks w !! i = Some Looking -> sv_repo cfg = false ->
      cache_step w (set_task w (wd_cache w) i (Served (Err ErrUIStatsUnavailable)))
  | step_hit w i now c snapshot : wd_tasks w !! i = Some Looking -> sv_repo cfg = true ->
      current_lookup cfg (wd_cache w) now = (c, CacheHit snapshot) ->
      cache_step w (set_task w (observeCache "hit" c) i (Served (Ok (snapshot, state cfg snapshot now false))))
  | step_stale w i now c snapshot : wd_tasks w !! i = Some Looking -> sv_repo cfg = true ->
      current_lookup cfg (wd_cache w) now = (c, StaleServed snapshot) ->
      cache_step w (set_task w (observeCache "stale_served" c) i (Served (Ok (snapshot, state cfg snapshot now true))))
  | step_wait w i now c ch : wd_tasks w !! i = Some Looking -> sv_repo cfg = true ->
      current_lookup cfg (wd_cache w) now = (c, WaitFor (Some ch)) ->
      cache_step w (set_task w c i (Waiting ch))
  | step_spawn w i j now c snapshot : wd_tasks w !! i = Some Looking -> sv_repo cfg = true ->
      wd_tasks w !! j = None ->
      current_lookup cfg (wd_cache w) now = (c, StartReload snapshot) ->
      cache_step w (mkWorld (observeCache "stale_served" c)
        (<[j := Reloading]> (<[i := Served (Ok (snapshot, state cfg snapshot now true))]> (wd_tasks w))))
  | step_load w i now c : wd_tasks w !! i = Some Looking -> sv_repo cfg = true ->
      current_lookup cfg (wd_cache w) now = (c, StartLoad) ->
      cache_step w (set_task w c i (Loading now))
  | step_woken w i ch : wd_tasks w !! i = Some (Waiting ch) -> ch ∈ sv_closed (wd_cache w) ->
      cache_step w (set_task w (wd_cache w) i Looking)
  | step_cancelled w i ch : wd_tasks w !! i = Some (Waiting ch) ->
      cache_step w (set_task w (wd_cache w) i (Served (Err (ErrWrap "UI statistics unavailable" ErrUIStatsUnavailable))))
  | step_loaded w i started now r c answer : wd_tasks w !! i = Some (Loading started) ->
      finish_load cfg (wd_cache w) started now r = Some (c, answer) ->
      cache_step w (set_task w c i (Served answer))
  | step_reloaded w i now r c : wd_tasks w !! i = Some Reloading ->
      reload (wd_cache w) now r = Some c ->
      cache_step w (set_task w c i Finished)
  | step_refresh w i : wd_tasks w !! i = None -> sv_repo cfg = true -> cache_step w (set_task w (wd_cache w) i Refreshing)
  | step_refreshed w i now r : wd_tasks w !! i = Some Refreshing ->
      cache_step w (set_task w (Refresh_end (wd_cache w) now r).1 i Finished)
  | step_observer w b : cache_step w (mkWorld (SetObserver (wd_cache w) b) (wd_tasks w)).

Definition reachable (w : world) : Prop :=
  exists repo ttl stale, cfg = (NewUIStatsService repo ttl stale).1 /\
    clos_refl_trans_1n _ cache_step (mkWorld (NewUIStatsService repo ttl stale).2 ∅) w.
End Steps.
