(* ===== verification/StatsServiceFacts.v ===== *)
(** * The UI statistics service: theorems

    In every interleaving at most one load runs, no request waits on a channel
    that nobody closes, no channel is closed twice, and only validated
    snapshots are served. *)
From Stdlib Require Import Relations.
From S2P Require Import Prelude GoErrors GoStrings Contract Dates Payloads Worlds Snapshot StatsService.

Definition loader (t : task) : bool := match t with Loading _ | Reloading => true | _ => false end.

(** ** The invariant *)

(** A load in flight has its channel and exactly one goroutine. *)
Definition sync_ok (c : statsCache) (tasks : gmap nat task) : Prop :=
  if sv_loading c then
    exists ch i t, sv_wait c = Some ch /\ (ch ∉ sv_closed c) /\ tasks !! i = Some t /\ loader t = true /\
      (forall j t', tasks !! j = Some t' -> loader t' = true -> j = i)
  else sv_wait c = None /\ forall i t, tasks !! i = Some t -> loader t = false.

Record cache_inv (w : world) : Prop := {
  ci_snapshot : forall s, sv_snapshot (wd_cache w) = Some s -> snapshot_ok s;
  ci_served : forall i s st, wd_tasks w !! i = Some (Served (Ok (s, st))) -> snapshot_ok s;
  ci_sync : sync_ok (wd_cache w) (wd_tasks w);
  ci_waiters : forall i ch, wd_tasks w !! i = Some (Waiting ch) -> ch ∈ sv_closed (wd_cache w) \/ sv_wait (wd_cache w) = Some ch;
  ci_fresh : forall ch, ch ∈ sv_closed (wd_cache w) \/ sv_wait (wd_cache w) = Some ch -> (ch < sv_fresh (wd_cache w))%nat;
}.

(** Two caches that agree on the synchronisation fields. *)
Definition same_sync (c c' : statsCache) : Prop :=
  sv_loading c = sv_loading c' /\ sv_wait c = sv_wait c' /\ sv_closed c = sv_closed c' /\ sv_fresh c = sv_fresh c'.

Lemma observe_sync r c : same_sync (observeCache r c) c /\ sv_snapshot (observeCache r c) = sv_snapshot c.
Proof. unfold observeCache, same_sync. destruct (sv_observer c); destruct c; done. Qed.

Lemma sync_swap c tasks i t : sync_ok c tasks -> loader t = false ->
  (forall t0, tasks !! i = Some t0 -> loader t0 = false) -> sync_ok c (<[i := t]> tasks).
Proof.
  unfold sync_ok. intros Hs Ht Hold. destruct (sv_loading c).
  - destruct Hs as (ch & k & tk & Hw & Hc & Hk & Hl & Hu). exists ch, k, tk.
    assert (i <> k) by (intros ->; rewrite (Hold tk Hk) in Hl; done).
    split; [done|]. split; [done|]. split; [by rewrite lookup_insert_ne|]. split; [done|].
    intros j t' Hj Hlt. destruct (decide (i = j)) as [->|]; [rewrite lookup_insert_eq in Hj; congruence|].
    rewrite lookup_insert_ne in Hj by done. by apply (Hu j t').
  - destruct Hs as [Hw Hn]. split; [done|]. intros j t' Hj. destruct (decide (i = j)) as [->|]; [rewrite lookup_insert_eq in Hj; congruence|].
    rewrite lookup_insert_ne in Hj by done. by apply (Hn j).
Qed.

(** What the task that takes the place of another must satisfy. *)
Definition task_ok (c : statsCache) (t : task) : Prop :=
  match t with
  | Served (Ok (s, _)) => snapshot_ok s
  | Waiting ch => ch ∈ sv_closed c \/ sv_wait c = Some ch
  | _ => True
  end.

Lemma inv_swap w c i t : cache_inv w -> same_sync c (wd_cache w) -> (forall s, sv_snapshot c = Some s -> snapshot_ok s) ->
  (forall t0, wd_tasks w !! i = Some t0 -> loader t0 = false) -> loader t = false -> task_ok c t -> cache_inv (set_task w c i t).
Proof.
  intros [H1 H2 H3 H4 H5] (Hl & Hw & Hc & Hf) Hs Hold Ht Hok. constructor; cbn [wd_cache wd_tasks set_task].
  - done.
  - intros j s st Hj. destruct (decide (i = j)) as [->|]; [rewrite lookup_insert_eq in Hj; injection Hj as ->; done|].
    rewrite lookup_insert_ne in Hj by done. by eapply H2.
  - apply sync_swap; [|done..]. unfold sync_ok in *. by rewrite Hl, Hw, Hc.
  - intros j ch Hj. destruct (decide (i = j)) as [->|]; [rewrite lookup_insert_eq in Hj; injection Hj as ->; done|].
    rewrite lookup_insert_ne in Hj by done. rewrite Hw, Hc. by eapply H4.
  - rewrite Hw, Hc, Hf. done.
Qed.

(** A load starts. *)
Definition start_load (c : statsCache) : statsCache :=
  c{{ sv_loading := true; sv_wait := Some (sv_fresh c); sv_fresh := S (sv_fresh c) }}.
Lemma inv_start w i t : cache_inv w -> sv_loading (wd_cache w) = false -> loader t = true ->
  (forall ch, wd_tasks w !! i <> Some (Waiting ch)) -> cache_inv (set_task w (start_load (wd_cache w)) i t).
Proof.
  intros [H1 H2 H3 H4 H5] Hl Ht Hold. destruct w as [c tasks]. cbn [wd_cache wd_tasks] in *. unfold sync_ok in H3. rewrite Hl in H3. destruct H3 as [Hw Hn].
  assert (Hfields : sv_loading (start_load c) = true /\ sv_wait (start_load c) = Some (sv_fresh c) /\ sv_closed (start_load c) = sv_closed c /\
    sv_fresh (start_load c) = S (sv_fresh c) /\ sv_snapshot (start_load c) = sv_snapshot c) by (by destruct c).
  destruct Hfields as (E1 & E2 & E3 & E4 & E5). constructor; cbn [wd_cache wd_tasks set_task].
  - by rewrite E5.
  - intros j s st Hj. destruct (decide (i = j)) as [->|]; [rewrite lookup_insert_eq in Hj; injection Hj as ->; done|].
    rewrite lookup_insert_ne in Hj by done. by eapply H2.
  - unfold sync_ok. rewrite E1, E2, E3. exists (sv_fresh c), i, t. split; [done|]. split; [intros Hin; specialize (H5 (sv_fresh c) (or_introl Hin)); lia|].
    split; [apply lookup_insert_eq|]. split; [done|]. intros j t' Hj Hlt. destruct (decide (i = j)) as [->|]; [done|].
    rewrite lookup_insert_ne in Hj by done. rewrite (Hn j t' Hj) in Hlt. done.
  - intros j ch Hj. destruct (decide (i = j)) as [->|]; [rewrite lookup_insert_eq in Hj; injection Hj as ->; done|].
    rewrite lookup_insert_ne in Hj by done. rewrite E3. left. destruct (H4 j ch Hj) as [?|Hwc]; [done|congruence].
  - rewrite E2, E3, E4. intros ch [Hin|[= <-]]; [|lia]. specialize (H5 ch (or_introl Hin)). lia.
Qed.

(** ** The end of a load *)

Lemma load_error_None r : load_error r = None -> exists s, load_value r = Some s /\ snapshot_ok s.
Proof.
  unfold load_error, load_value. destruct r as [[s|]|e]; [|done|done]. destruct (ValidateUIStatsSnapshot (Some s)) as [[]|] eqn:Hv; [|done].
  intros _. exists s. split; [done|]. by apply ValidateUIStatsSnapshot_ok.
Qed.

(** In a state where a load is in flight its end does not panic. *)
Lemma finishReload_spec c ch now r : sv_wait c = Some ch -> ch ∉ sv_closed c ->
  exists c' current, finishReload c now (load_value r) (load_error r) = Some (c', current) /\
    current = sv_snapshot c' /\ sv_loading c' = false /\ sv_wait c' = None /\ sv_closed c' = {[ ch ]} ∪ sv_closed c /\ sv_fresh c' = sv_fresh c /\
    sv_snapshot c' = (match load_error r with None => load_value r | Some _ => sv_snapshot c end) /\
    (sv_snapshot c' <> None -> sv_loadedAt c' = now).
Proof.
  intros Hw Hc. unfold finishReload, cloneUIStatsSnapshot. destruct (load_error r) as [e|]; destruct c as [o ev sn la lo wt cl fr]; cbn in Hw, Hc |- *; subst wt.
  - destruct sn; cbn; rewrite bool_decide_false by done; do 2 eexists; (split; [reflexivity|]); cbn; split_and!; try done; intros Hn; by destruct Hn.
  - destruct (load_value r); cbn; rewrite bool_decide_false by done; do 2 eexists; (split; [reflexivity|]); cbn; split_and!; try done; intros Hn; by destruct Hn.
Qed.

(** The state after the loading goroutine [i] ended as a task [t]. *)
Lemma inv_finish w i t0 c c' t ch : cache_inv w -> wd_tasks w !! i = Some t0 -> loader t0 = true ->
  sv_wait (wd_cache w) = Some ch -> same_sync c' c -> sv_loading c = false -> sv_wait c = None ->
  sv_closed c = {[ ch ]} ∪ sv_closed (wd_cache w) -> sv_fresh c = sv_fresh (wd_cache w) ->
  (forall s, sv_snapshot c' = Some s -> snapshot_ok s) -> loader t = false -> (forall ch, t <> Waiting ch) -> task_ok c' t ->
  cache_inv (set_task w c' i t).
Proof.
  intros [H1 H2 H3 H4 H5] Hi Hl0 Hw (E1 & E2 & E3 & E4) F1 F2 F3 F4 Hs Ht Hnw Hok.
  assert (Huniq : forall j t', j <> i -> wd_tasks w !! j = Some t' -> loader t' = false).
  { intros j t' Hj Hjt. unfold sync_ok in H3. destruct (sv_loading (wd_cache w)); [|by destruct H3 as [_ H3]; eapply H3].
    destruct H3 as (_ & k & _ & _ & _ & _ & _ & Hu). destruct (loader t') eqn:Hl; [|done]. exfalso. apply Hj. by rewrite (Hu i t0), (Hu j t'). }
  constructor; cbn [wd_cache wd_tasks set_task].
  - done.
  - intros j s st Hj. destruct (decide (i = j)) as [->|]; [rewrite lookup_insert_eq in Hj; injection Hj as ->; done|].
    rewrite lookup_insert_ne in Hj by done. by eapply H2.
  - unfold sync_ok. rewrite E1, F1, E2. split; [done|]. intros j t' Hj. destruct (decide (i = j)) as [->|]; [rewrite lookup_insert_eq in Hj; congruence|].
    rewrite lookup_insert_ne in Hj by done. by eapply Huniq.
  - intros j ch' Hj. destruct (decide (i = j)) as [->|]; [rewrite lookup_insert_eq in Hj; injection Hj as ->; by destruct (Hnw ch')|].
    rewrite lookup_insert_ne in Hj by done. left. rewrite E3, F3. destruct (H4 j ch' Hj); [set_solver|]. assert (ch' = ch) as -> by congruence. set_solver.
  - rewrite E2, F2, E3, F3, E4, F4. intros ch' [Hin|[=]]. apply H5. apply elem_of_union in Hin as [Hin|Hin]; [right|by left].
    assert (ch' = ch) as -> by set_solver. done.
Qed.

(** ** The invariant is kept *)

Lemma current_lookup_spec cfg c now c' o : current_lookup cfg c now = (c', o) ->
  match o with
  | CacheHit s | StaleServed s => c' = c /\ sv_snapshot c = Some s
  | WaitFor ch => c' = c /\ sv_loading c = true /\ ch = sv_wait c
  | StartReload s => c' = start_load c /\ sv_snapshot c = Some s /\ sv_loading c = false
  | StartLoad => c' = start_load c /\ sv_snapshot c = None /\ sv_loading c = false
  end.
Proof.
  unfold current_lookup. destruct (sv_snapshot c) eqn:Hs; [destruct (_ <? _)|]; destruct (sv_loading c) eqn:Hl; intros [= <- <-]; done.
Qed.

Lemma same_sync_refl c : same_sync c c.
Proof. done. Qed.
#[local] Hint Resolve same_sync_refl : core.

Lemma loading_channel w i t : cache_inv w -> wd_tasks w !! i = Some t -> loader t = true ->
  exists ch, sv_wait (wd_cache w) = Some ch /\ ch ∉ sv_closed (wd_cache w).
Proof.
  intros [_ _ H3 _ _] Hi Hl. unfold sync_ok in H3. destruct (sv_loading (wd_cache w)).
  - destruct H3 as (ch & _ & _ & Hw & Hc & _). eauto.
  - destruct H3 as [_ H3]. rewrite (H3 i t Hi) in Hl. done.
Qed.

Lemma loaded_ok w r s : cache_inv w -> match load_error r with None => load_value r | Some _ => sv_snapshot (wd_cache w) end = Some s -> snapshot_ok s.
Proof.
  intros Hinv. destruct (load_error r) eqn:He; [apply (ci_snapshot _ Hinv)|].
  destruct (load_error_None r He) as (s' & -> & Hok). by intros [= <-].
Qed.

Lemma cache_step_inv cfg w w' : cache_step cfg w w' -> cache_inv w -> cache_inv w'.
Proof.
  intros Hstep Hinv.
  assert (Hsame : forall i t0 t, wd_tasks w !! i = t0 -> (forall x, t0 = Some x -> loader x = false) -> loader t = false ->
    task_ok (wd_cache w) t -> cache_inv (set_task w (wd_cache w) i t)).
  { intros i t0 t Hi H0 Ht Hok. apply inv_swap; try done; [apply Hinv|]. intros x Hx. apply H0. congruence. }
  destruct Hstep as [w i Hi|w i Hi Hr|w i now c s Hi Hr Hc|w i now c s Hi Hr Hc|w i now c ch Hi Hr Hc|w i j now c s Hi Hr Hj Hc
    |w i now c Hi Hr Hc|w i ch Hi Hch|w i ch Hi|w i started now r c answer Hi Hf|w i now r c Hi Hf|w i Hi Hr|w i now r Hi|w b].
  - by apply (Hsame i None Looking Hi).
  - apply (Hsame i _ _ Hi); [by intros x [= <-]|done|done].
  - apply current_lookup_spec in Hc as [-> Hs]. destruct (observe_sync "hit" (wd_cache w)) as [Ho1 Ho2].
    apply inv_swap; [done|done|rewrite Ho2; apply Hinv|intros t0; rewrite Hi; by intros [= <-]|done|by apply (ci_snapshot _ Hinv)].
  - apply current_lookup_spec in Hc as [-> Hs]. destruct (observe_sync "stale_served" (wd_cache w)) as [Ho1 Ho2].
    apply inv_swap; [done|done|rewrite Ho2; apply Hinv|intros t0; rewrite Hi; by intros [= <-]|done|by apply (ci_snapshot _ Hinv)].
  - apply current_lookup_spec in Hc as (-> & Hl & Hw). apply (Hsame i _ _ Hi); [by intros x [= <-]|done|]. right. done.
  - apply current_lookup_spec in Hc as (-> & Hs & Hl). set (w1 := set_task w (wd_cache w) i (Served (Ok (s, state cfg s now true)))).
    assert (Hinv1 : cache_inv w1) by (apply (Hsame i _ _ Hi); [by intros x [= <-]|done|by apply (ci_snapshot _ Hinv)]).
    assert (Hij : i <> j) by (intros ->; congruence).
    assert (Hinv2 : cache_inv (set_task w1 (start_load (wd_cache w)) j Reloading)).
    { apply (inv_start w1 j Reloading); [done|done|done|]. intros ch. unfold w1. cbn. rewrite lookup_insert_ne by done. congruence. }
    destruct Hinv2 as [G1 G2 G3 G4 G5]. cbn [wd_cache wd_tasks set_task w1] in *. destruct (observe_sync "stale_served" (start_load (wd_cache w))) as [(O1 & O2 & O3 & O4) O5].
    constructor; cbn [wd_cache wd_tasks]; unfold sync_ok; rewrite ?O1, ?O2, ?O3, ?O4, ?O5; done.
  - apply current_lookup_spec in Hc as (-> & Hs & Hl). apply inv_start; [done|done|done|]. intros ch. congruence.
  - apply (Hsame i _ _ Hi); [by intros x [= <-]|done|done].
  - apply (Hsame i _ _ Hi); [by intros x [= <-]|done|done].
  - destruct (loading_channel w i _ Hinv Hi eq_refl) as (ch & Hw & Hc). unfold finish_load in Hf.
    destruct (finishReload_spec (wd_cache w) ch now r Hw Hc) as (c1 & cur & He & Hcur & F1 & F2 & F3 & F4 & F5 & _). rewrite He in Hf. cbn in Hf.
    destruct (load_error r) as [e|] eqn:Herr.
    + injection Hf as <- <-. destruct (observe_sync "error" c1) as [Ho1 Ho2].
      apply (inv_finish w i (Loading started) c1 _ _ ch); try done. rewrite Ho2, F5. apply Hinv.
    + destruct cur as [s|]; [|done]. injection Hf as <- <-. destruct (observe_sync "reload" c1) as [Ho1 Ho2].
      assert (Hok : snapshot_ok s) by (apply (loaded_ok w r); [done|]; rewrite Herr; congruence).
      apply (inv_finish w i (Loading started) c1 _ _ ch); try done. rewrite Ho2, <-Hcur. by intros s' [= <-].
  - destruct (loading_channel w i _ Hinv Hi eq_refl) as (ch & Hw & Hc). unfold reload in Hf.
    destruct (finishReload_spec (wd_cache w) ch now r Hw Hc) as (c1 & cur & He & Hcur & F1 & F2 & F3 & F4 & F5 & _). rewrite He in Hf. cbn in Hf.
    injection Hf as <-. destruct (observe_sync (match load_error r with Some _ => "error" | None => "reload" end) c1) as [Ho1 Ho2].
    apply (inv_finish w i Reloading c1 _ _ ch); try done. rewrite Ho2, F5. intros s Hs. by apply (loaded_ok w r).
  - by apply (Hsame i None Refreshing Hi).
  - apply inv_swap; [done| | |intros t0; rewrite Hi; by intros [= <-]|done|done]; unfold Refresh_end; destruct r as [[[sn sk]|]|e]; try done; try apply Hinv; cbn [rr_Skipped rr_Snapshot];
      (destruct sk; [try done; apply Hinv|]); destruct (ValidateUIStatsSnapshot sn) as [[]|] eqn:Hv; try done; try apply Hinv; destruct (wd_cache w); try done.
    intros s Hs. change (sn = Some s) in Hs. subst sn. by apply ValidateUIStatsSnapshot_ok.
  - destruct w as [c tasks]. destruct Hinv as [G1 G2 G3 G4 G5]. by destruct c.
Qed.

Lemma NewUIStatsService_inv repo ttl stale : cache_inv (mkWorld (NewUIStatsService repo ttl stale).2 ∅).
Proof.
  constructor; cbn; try done; [intros ch [Hin|[=]]; set_solver].
Qed.
Lemma reachable_inv cfg w : reachable cfg w -> cache_inv w.
Proof.
  intros (repo & ttl & stale & _ & Hr). revert Hr. generalize (NewUIStatsService_inv repo ttl stale).
  set (w0 := mkWorld _ _). intros H0 Hr. induction Hr as [|x y z Hxy _ IH]; [done|]. apply IH. by eapply cache_step_inv.
Qed.

(** C20: in every interleaving of requests, reloads and refreshes of the
    statistics service, from its construction on: at most one load is in
    flight; when the goroutine that runs it gets the repository's answer,
    whatever it is, it completes without closing a nil or a closed channel; a
    waiting request waits on a closed channel or on the channel that the
    running load will close, so no wake-up is lost; a request that must wait
    finds a channel; and every snapshot in the cache or in an answer has passed
    validation. *)
Theorem stats_cache_invariant cfg w :
  reachable cfg w ->
  (forall i j t t', wd_tasks w !! i = Some t -> wd_tasks w !! j = Some t' -> loader t = true -> loader t' = true -> i = j) /\
  (forall i t now r, wd_tasks w !! i = Some t -> loader t = true ->
     is_Some (reload (wd_cache w) now r) /\ forall started, is_Some (finish_load cfg (wd_cache w) started now r)) /\
  (forall i ch, wd_tasks w !! i = Some (Waiting ch) -> ch ∈ sv_closed (wd_cache w) \/
     exists k t, wd_tasks w !! k = Some t /\ loader t = true /\
       forall now r c, reload (wd_cache w) now r = Some c -> ch ∈ sv_closed c) /\
  (forall now, (current_lookup cfg (wd_cache w) now).2 <> WaitFor None) /\
  (forall s, sv_snapshot (wd_cache w) = Some s -> ValidateUIStatsSnapshot (Some s) = Ok tt) /\
  (forall i s st, wd_tasks w !! i = Some (Served (Ok (s, st))) -> ValidateUIStatsSnapshot (Some s) = Ok tt).
Proof.
  intros Hr. pose proof (reachable_inv cfg w Hr) as Hinv. split; [|split; [|split; [|split; [|split]]]].
  - intros i j t t' Hi Hj Ht Ht'. pose proof (ci_sync _ Hinv) as Hs. unfold sync_ok in Hs. destruct (sv_loading (wd_cache w)).
    + destruct Hs as (_ & k & _ & _ & _ & _ & _ & Hu). by rewrite (Hu i t), (Hu j t').
    + destruct Hs as [_ Hs]. rewrite (Hs i t Hi) in Ht. done.
  - intros i t now r Hi Ht. destruct (loading_channel w i t Hinv Hi Ht) as (ch & Hw & Hc).
    destruct (finishReload_spec (wd_cache w) ch now r Hw Hc) as (c1 & cur & He & Hcur & _ & _ & _ & _ & F5 & _).
    unfold reload, finish_load. rewrite He. cbn. split; [by eexists|]. intros started. destruct (load_error r) eqn:Herr; [by eexists|].
    destruct (load_error_None r Herr) as (s & Hs & _). rewrite Hcur, F5, Hs. by eexists.
  - intros i ch Hi. destruct (ci_waiters _ Hinv i ch Hi) as [Hc|Hw]; [by left|right]. pose proof (ci_sync _ Hinv) as Hs. unfold sync_ok in Hs.
    destruct (sv_loading (wd_cache w)); [|destruct Hs as [Hs _]; congruence]. destruct Hs as (ch' & k & t & Hw' & Hc & Hk & Ht & _).
    exists k, t. split; [done|]. split; [done|]. intros now r c Hrl. assert (ch' = ch) as -> by congruence.
    destruct (finishReload_spec (wd_cache w) ch now r Hw Hc) as (c1 & cur & He & _ & _ & _ & F3 & _). unfold reload in Hrl. rewrite He in Hrl. cbn in Hrl.
    injection Hrl as <-. destruct (observe_sync (match load_error r with Some _ => "error" | None => "reload" end) c1) as [(_ & _ & -> & _) _]. set_solver.
  - intros now Hn. destruct (current_lookup cfg (wd_cache w) now) as [c o] eqn:Hc. cbn in Hn. subst o.
    apply current_lookup_spec in Hc as (_ & Hl & Hw). pose proof (ci_sync _ Hinv) as Hs. unfold sync_ok in Hs. rewrite Hl in Hs.
    destruct Hs as (ch & _ & _ & Hw' & _). congruence.
  - intros s Hs. by apply ValidateUIStatsSnapshot_ok, (ci_snapshot _ Hinv).
  - intros i s st Hs. by eapply ValidateUIStatsSnapshot_ok, (ci_served _ Hinv).
Qed.

(** A first request loads, a second one waits for it. *)
Lemma stats_cache_invariant_witness : exists w,
  reachable (NewUIStatsService true minute hour).1 w /\ wd_tasks w !! 0%nat = Some (Loading 5) /\ wd_tasks w !! 1%nat = Some (Waiting 0) /\
  (forall now r, is_Some (reload (wd_cache w) now r)).
Proof.
  set (cfg := (NewUIStatsService true minute hour).1). set (c0 := (NewUIStatsService true minute hour).2).
  set (w1 := set_task (mkWorld c0 ∅) c0 0 Looking). set (w2 := set_task w1 (start_load c0) 0 (Loading 5)).
  set (w3 := set_task w2 (start_load c0) 1 Looking). set (w4 := set_task w3 (start_load c0) 1 (Waiting 0)).
  assert (Hr : reachable cfg w4).
  { exists true, minute, hour. split; [reflexivity|].
    apply (Relation_Operators.rt1n_trans _ _ _ w1); [exact (step_request cfg (mkWorld c0 ∅) 0 eq_refl)|].
    apply (Relation_Operators.rt1n_trans _ _ _ w2); [exact (step_load cfg w1 0 5 (start_load c0) eq_refl eq_refl eq_refl)|].
    apply (Relation_Operators.rt1n_trans _ _ _ w3); [exact (step_request cfg w2 1 eq_refl)|].
    apply (Relation_Operators.rt1n_trans _ _ _ w4); [exact (step_wait cfg w3 1 6 (start_load c0) 0 eq_refl eq_refl eq_refl)|].
    apply Relation_Operators.rt1n_refl. }
  exists w4. split; [exact Hr|]. split; [reflexivity|]. split; [reflexivity|]. intros now r.
  destruct (stats_cache_invariant cfg w4 Hr) as (_ & H & _). exact (proj1 (H 0%nat (Loading 5) now r eq_refl eq_refl)).
Defined.

(** The cache TTL limits the loads, whether they succeed or fail.
    Once a load of the running goroutine has ended at [now] with a snapshot in
    the cache, whatever the repository answered, every lookup less than the TTL
    later is a hit on that snapshot and starts no load. *)
Theorem reload_rate_limited cfg w i t now r c later s :
  reachable cfg w -> wd_tasks w !! i = Some t -> loader t = true ->
  reload (wd_cache w) now r = Some c -> sv_snapshot c = Some s -> time_sub later now < sv_cacheTTL cfg ->
  current_lookup cfg c later = (c, CacheHit s).
Proof.
  intros Hreach Hi Ht Hrl Hs Hlt. pose proof (reachable_inv cfg w Hreach) as Hinv. destruct (loading_channel w i t Hinv Hi Ht) as (ch & Hw & Hc).
  destruct (finishReload_spec (wd_cache w) ch now r Hw Hc) as (c1 & cur & He & _ & _ & _ & _ & _ & _ & Hat). unfold reload in Hrl. rewrite He in Hrl. cbn in Hrl.
  injection Hrl as <-. assert (Hl : sv_loadedAt (observeCache (match load_error r with Some _ => "error" | None => "reload" end) c1) = sv_loadedAt c1)
    by (unfold observeCache; by destruct (sv_observer c1), c1).
  destruct (observe_sync (match load_error r with Some _ => "error" | None => "reload" end) c1) as [_ Ho]. rewrite Ho in Hs.
  unfold current_lookup. rewrite Ho, Hs, Hl, Hat by congruence. by rewrite (proj2 (Z.ltb_lt _ _) Hlt).
Qed.
