(* ===== verification/Publish.v ===== *)
(** * The publisher ([cmd/cli/publish.go])

    Sweep ranges and their chunking at 32-bit width, the auto sweep and the
    gap-filling sweep with their persistent cursors.  The queue is any
    publishing computation; repository calls carry their driver [fault]. *)
From S2P Require Import Prelude GoErrors GoStrings Contract Payloads CharacterStore.

(** ** Ranges and chunks *)

Definition computeIDSweepRange (from to count : Z) (auto : bool) (maxIDFunc : option (result Z)) : result (Z * Z) :=
  if count =? 0 then Err (ErrorString "--count / --batch-size must be > 0")
  else
    range ←
      (if auto || ((from =? 0) && (to =? 0)) then
         match maxIDFunc with
         | None => Err (ErrorString "maxIDFunc required when auto-discovering ID sweep range")
         | Some (Err e) => Err (ErrWrap "lookup max character id" e)
         | Some (Ok maxID) => Ok (u32 (maxID + 1), u32 (maxID + count))
         end
       else if (0 <? from) && (to =? 0) then Ok (from, u32 (u32 (from + count) - 1))
       else if (0 <? to) && (from =? 0) then Ok (1, to)
       else Ok (from, to));
    let '(from, to) := range in
    if to <? from then Err (ErrorString "--to must be >= --from") else Ok (from, to).

(** The chunk loop; [None] when the fuel runs out (never, see
    [sweep_loop_covers]). *)
Fixpoint sweep_loop (fuel : nat) (start to chunkSize : Z) (source : string) : option (list IDSweepPayload) :=
  match fuel with
  | O => None
  | S fuel =>
      if to <? start then Some []
      else
        let end_ := u32 (u32 (start + chunkSize) - 1) in
        let end_ := if (to <? end_) || (end_ <? start) then to else end_ in
        let p := mkIDSweepPayload start end_ source in
        if end_ =? to then Some [p]
        else match sweep_loop fuel (u32 (end_ + 1)) to chunkSize source with
             | Some rest => Some (p :: rest)
             | None => None
             end
  end.

Definition sweep_fuel (from to chunkSize : Z) : nat := S (Z.to_nat ((to - from) / chunkSize + 1)).

Definition sweep_payloads (from to chunkSize : Z) (source : string) : option (list IDSweepPayload) :=
  let chunkSize := if chunkSize =? 0 then 100 else chunkSize in
  sweep_loop (sweep_fuel from to chunkSize) from to chunkSize source.

Definition sweep_job (p : IDSweepPayload) : QueueJob := mkQueueJob EventIDSweep (marshal_IDSweep p).

Definition buildIDSweepJobs (from to chunkSize : Z) (source : string) : option (list QueueJob) :=
  match sweep_payloads from to chunkSize source with Some ps => Some (sweep_job <$> ps) | None => None end.

Fixpoint buildGapSweepJobs (gaps : list (Z * Z)) (chunkSize : Z) (source : string) : option (list QueueJob) :=
  match gaps with
  | [] => Some []
  | g :: gaps =>
      match buildIDSweepJobs g.1 g.2 chunkSize source, buildGapSweepJobs gaps chunkSize source with
      | Some jobs, Some rest => Some (jobs ++ rest)
      | _, _ => None
      end
  end.

(** ** Publishing *)
Section Publish.
Context {Q : Type} (publish : QueueJob -> ST Q (result unit)).

(** [publishAll]: how many jobs were published, and the error that stopped
    it. *)
Fixpoint publishAll (jobs : list QueueJob) (i : Z) : ST Q (Z * option gerror) :=
  match jobs with
  | [] => mret (i, None)
  | job :: jobs =>
      r ← publish job;
      match r with
      | Err e => mret (i, Some (ErrWrap "publish job" e))
      | Ok _ => publishAll jobs (i + 1)
      end
  end.

(** [f_cursor] and [f_advance]: the driver's answers to the two cursor
    calls. *)
Definition publishAutoIDSweep (f_cursor f_advance : fault) (count chunkSize : Z) (source : string)
    (db : CensusDB) : ST Q (option (CensusDB * result unit)) :=
  if count =? 0 then mret (Some (db, Err (ErrorString "--count / --batch-size must be > 0")))
  else
    match IDSweepCursor db f_cursor with
    | (db, Err e) => mret (Some (db, Err (ErrWrap "lookup id sweep cursor" e)))
    | (db, Ok from) =>
        if (from =? 0) || (max_uint32 - from <? count)
        then mret (Some (db, Err (ErrorString "id sweep range overflows uint32")))
        else
          let to := u32 (u32 (from + count) - 1) in
          let next := u32 (to + 1) in
          match buildIDSweepJobs from to chunkSize source with
          | None => mret None
          | Some jobs =>
              r ← publishAll jobs 0;
              match r.2 with
              | Some e => mret (Some (db, Err e))
              | None =>
                  let '(db, adv) := AdvanceIDSweepCursor db f_advance from next in
                  mret (Some (db, wrap_err "advance id sweep cursor" adv))
              end
          end
    end.

Definition publishFillGapsIDSweep (f_max f_cursor f_wrap f_gaps f_advance : fault)
    (count chunkSize : Z) (source : string) (minID : Z) (db : CensusDB) : ST Q (option (CensusDB * result unit)) :=
  if count =? 0 then mret (Some (db, Err (ErrorString "--count must be > 0 in --fill-gaps mode")))
  else
    match MaxID db f_max with
    | Err e => mret (Some (db, Err (ErrWrap "lookup max character id for gap fill" e)))
    | Ok maxID =>
        if maxID =? 0 then mret (Some (db, Ok tt))
        else
          let cursorMode := minID =? 0 in
          let '(db, start) :=
            if cursorMode then
              match FillGapsCursor db f_cursor with
              | (db, Err e) => (db, Err (ErrWrap "lookup fill gaps cursor" e))
              | (db, Ok c) =>
                  if maxID <=? c then
                    match AdvanceFillGapsCursor db f_wrap c 0 with
                    | (db, Err e) => (db, Err (ErrWrap "wrap fill gaps cursor" e))
                    | (db, Ok _) => (db, Ok 0)
                    end
                  else (db, Ok c)
              end
            else (db, Ok minID) in
          match start with
          | Err e => mret (Some (db, Err e))
          | Ok after =>
              match FindIDGapsAfter db f_gaps after maxID count with
              | Err e => mret (Some (db, Err (ErrWrap "find id gaps" e)))
              | Ok [] => mret (Some (db, Ok tt))
              | Ok gaps =>
                  match buildGapSweepJobs gaps chunkSize source with
                  | None => mret None
                  | Some jobs =>
                      let jobs := if count <? u32 (Z.of_nat (length jobs)) then take (Z.to_nat count) jobs else jobs in
                      r ← publishAll jobs 0;
                      let '(published, pubErr) := r in
                      let pubRes := match pubErr with Some e => Err e | None => Ok tt end in
                      if cursorMode && (0 <? published) then
                        match jobs !! Z.to_nat (published - 1) with
                        | None => mret None
                        | Some job =>
                            match unmarshal_IDSweep (qj_Payload job) with
                            | Err e => mret (Some (db, Err (ErrWrap "decode last published fill-gaps job" e)))
                            | Ok last =>
                                match AdvanceFillGapsCursor db f_advance after (is_To last) with
                                | (db, Err e) => mret (Some (db, Err (ErrWrap "advance fill gaps cursor" e)))
                                | (db, Ok _) => mret (Some (db, pubRes))
                                end
                            end
                        end
                      else mret (Some (db, pubRes))
                  end
              end
          end
    end.
End Publish.

(** A zero or negative age disables the age predicate. *)
Definition characterCensusCutoff (now olderThan : Z) : Z :=
  if olderThan <=? 0 then zero_time else now - olderThan.
