(* ===== verification/PublishFacts.v ===== *)
(** * Properties of the publisher

    The chunks of a sweep cover its range exactly once at 32-bit width; the
    auto sweep never loses or repeats a range; the gap sweep covers exactly
    the missing ids, in order, and resumes where it stopped. *)
From S2P Require Import Prelude GoErrors GoStrings Contract Payloads CharacterStore Publish.

(** ** Chunks *)

Definition payload_ids (ps : list IDSweepPayload) : list Z := ps ≫= (fun p => zrange (is_From p) (is_To p)).

Definition chunk_ok (chunkSize : Z) (p : IDSweepPayload) : Prop :=
  is_From p <= is_To p < is_From p + chunkSize /\ is_u32 (is_From p) /\ is_u32 (is_To p).

(** The end the 32-bit arithmetic computes is the exact one. *)
Lemma chunk_end start to chunkSize :
  1 <= chunkSize <= max_uint32 -> 0 <= start <= to -> to <= max_uint32 ->
  let e := u32 (u32 (start + chunkSize) - 1) in
  (if (to <? e) || (e <? start) then to else e) = Z.min to (start + chunkSize - 1).
Proof.
  intros Hc Hs Ht e. subst e. unfold u32. rewrite Zminus_mod_idemp_l.
  destruct (Z.le_gt_cases (start + chunkSize - 1) max_uint32) as [Hle|Hgt].
  - rewrite Z.mod_small by (unfold max_uint32 in *; lia).
    destruct (Z.ltb_spec to (start + chunkSize - 1)), (Z.ltb_spec (start + chunkSize - 1) start); cbn; lia.
  - assert (Hm : (start + chunkSize - 1) mod 4294967296 = start + chunkSize - 1 - 4294967296).
    { symmetry. apply Z.mod_unique with (q := 1); unfold max_uint32 in *; lia. }
    rewrite Hm. destruct (Z.ltb_spec to (start + chunkSize - 1 - 4294967296)) as [Hx|Hx],
      (Z.ltb_spec (start + chunkSize - 1 - 4294967296) start) as [Hy|Hy]; cbn; unfold max_uint32 in *; lia.
Qed.

Lemma sweep_loop_covers chunkSize source to : 1 <= chunkSize <= max_uint32 -> to <= max_uint32 ->
  forall fuel start, 0 <= start <= max_uint32 -> (Z.to_nat ((to - start) / chunkSize + 1) < fuel)%nat ->
  exists ps, sweep_loop fuel start to chunkSize source = Some ps
    /\ payload_ids ps = zrange start to /\ Forall (chunk_ok chunkSize) ps /\ Forall (fun p => is_Source p = source) ps.
Proof.
  intros Hc Ht. induction fuel as [|fuel IH]; intros start Hs Hf; [lia|]. cbn [sweep_loop].
  destruct (Z.ltb_spec to start) as [Hlt|Hge].
  { exists []. rewrite zrange_empty by lia. repeat split; constructor. }
  cbv zeta. rewrite chunk_end by lia.
  set (e := Z.min to (start + chunkSize - 1)).
  assert (He : chunk_ok chunkSize (mkIDSweepPayload start e source)).
  { unfold chunk_ok, is_u32, e. cbn. lia. }
  destruct (Z.eqb_spec e to) as [Heq|Hne].
  { exists [mkIDSweepPayload start e source]. unfold payload_ids. cbn. rewrite app_nil_r, Heq.
    repeat split; repeat constructor; try done; rewrite <- Heq; apply He. }
  assert (Hee : e = start + chunkSize - 1) by lia. rewrite u32_id by (unfold is_u32; lia).
  destruct (IH (e + 1)) as (ps & Hps & Hids & Hok & Hsrc); [lia| |].
  { rewrite Hee. replace (to - (start + chunkSize - 1 + 1)) with (to - start + (-1) * chunkSize) by lia.
    rewrite Z.div_add by lia. assert (1 <= (to - start) / chunkSize) by (apply Z.div_le_lower_bound; lia). lia. }
  rewrite Hps. exists (mkIDSweepPayload start e source :: ps). repeat split; [|by constructor..].
  unfold payload_ids in *. cbn. rewrite Hids. symmetry. apply zrange_split; lia.
Qed.

Lemma sweep_payloads_spec from to chunkSize source :
  is_u32 from -> is_u32 to -> is_u32 chunkSize ->
  exists ps, sweep_payloads from to chunkSize source = Some ps
    /\ payload_ids ps = zrange from to
    /\ Forall (chunk_ok (if chunkSize =? 0 then 100 else chunkSize)) ps.
Proof.
  intros Hfrom Hto Hchunk. unfold sweep_payloads.
  set (c := if chunkSize =? 0 then 100 else chunkSize).
  assert (Hc : 1 <= c <= max_uint32) by (unfold c, is_u32, max_uint32 in *; zbool; lia).
  unfold is_u32 in *.
  destruct (sweep_loop_covers c source to Hc ltac:(lia) (sweep_fuel from to c) from) as (ps & Hps & Hids & Hok & _);
    [lia|unfold sweep_fuel; lia|].
  exists ps. done.
Qed.

(** The job [job] carries the payload [p]. *)
Definition carries (job : QueueJob) (p : IDSweepPayload) : Prop :=
  qj_Type job = EventIDSweep /\ unmarshal_IDSweep (qj_Payload job) = Ok p.

Lemma sweep_job_carries c p : chunk_ok c p -> carries (sweep_job p) p.
Proof. intros (_ & Hf & Ht). split; [done|]. by apply unmarshal_marshal_IDSweep. Qed.

Lemma carries_all c ps : Forall (chunk_ok c) ps -> Forall2 carries (sweep_job <$> ps) ps.
Proof.
  intros Hok. apply Forall2_fmap_l, Forall_Forall2_diag.
  eapply Forall_impl; [intros p; apply sweep_job_carries|exact Hok].
Qed.

(** the id-sweep jobs built for a range decode to payloads that
    cover every id of it exactly once and in order, each with at most the
    chunk size (100 when unset); the loop terminates; this up to and including
    ranges that end at the largest 32-bit id, where the chunk arithmetic
    wraps. *)
Theorem buildIDSweepJobs_cover from to chunkSize source
    (Hfrom : is_u32 from) (Hto : is_u32 to) (Hchunk : is_u32 chunkSize) :
  exists jobs ps, buildIDSweepJobs from to chunkSize source = Some jobs
    /\ Forall2 carries jobs ps
    /\ payload_ids ps = zrange from to
    /\ Forall (chunk_ok (if chunkSize =? 0 then 100 else chunkSize)) ps.
Proof.
  destruct (sweep_payloads_spec from to chunkSize source Hfrom Hto Hchunk) as (ps & Hps & Hids & Hok).
  unfold buildIDSweepJobs. rewrite Hps. exists (sweep_job <$> ps), ps. repeat split; [|done..].
  by eapply carries_all.
Qed.

Lemma buildIDSweepJobs_cover_witness :
  exists jobs ps, buildIDSweepJobs 4294967200 4294967295 40 "auto" = Some jobs
    /\ payload_ids ps = zrange 4294967200 4294967295.
Proof.
  destruct (buildIDSweepJobs_cover 4294967200 4294967295 40 "auto") as (jobs & ps & Hj & _ & Hids & _);
    try (unfold is_u32, max_uint32; lia).
  exists jobs, ps. split; [exact Hj|exact Hids].
Defined.

(** ** Publishing in order *)

Lemma max_char_id_nonneg db : 0 <= max_char_id db.
Proof. unfold max_char_id. induction (elements (char_ids db)); cbn [foldr]; [done|]. etransitivity; [eassumption|]. apply Z.le_max_r. Qed.

Lemma sweep_cursor_ok_true n : 1 <= n <= max_uint32 -> sweep_cursor_ok n = true.
Proof. intros [H1 H2]. unfold sweep_cursor_ok. by rewrite (proj2 (Z.leb_le _ _) H1), (proj2 (Z.leb_le _ _) H2). Qed.

Lemma IDSweepCursor_stored db from :
  cdb_id_sweep db = Some from -> 1 <= from <= max_uint32 -> max_char_id db < max_uint32 ->
  IDSweepCursor db NoFault = (db, Ok from).
Proof.
  intros Hc Hf Hm. pose proof (max_char_id_nonneg db). unfold IDSweepCursor. rewrite Hc. cbn [with_fault default from_option]. cbv zeta.
  rewrite (sweep_cursor_ok_true (max_char_id db + 1)) by lia. cbn -[sweep_cursor_ok]. rewrite (sweep_cursor_ok_true from) by lia.
  destruct db. cbn in Hc |- *. by rewrite Hc.
Qed.

Lemma AdvanceIDSweepCursor_stored db from next :
  cdb_id_sweep db = Some from -> 1 <= from < next ->
  AdvanceIDSweepCursor db NoFault from next = (db{{ cdb_id_sweep := Some next }}, Ok tt).
Proof.
  intros Hc Hf. destruct db. cbn in Hc. subst. unfold AdvanceIDSweepCursor.
  rewrite (proj2 (Z.eqb_neq from 0)), (proj2 (Z.leb_gt next from)) by lia. cbn. by rewrite bool_decide_eq_true_2.
Qed.

Section PublishAll.
Context {Q : Type} (publish : QueueJob -> ST Q (result unit)).

Lemma publishAll_bounds jobs : forall i q q' n e,
  publishAll publish jobs i q = (q', (n, e)) ->
  i <= n <= i + Z.of_nat (length jobs) /\ (e = None -> n = i + Z.of_nat (length jobs)).
Proof.
  induction jobs as [|job jobs IH]; intros i q q' n e; cbn [publishAll length].
  - intros [= <- <- <-]. lia.
  - rewrite ST_bind_eq. destruct (publish job q) as [q1 [u|err]]; cbn [fst snd].
    + intros H. apply IH in H as [Hb Hn]. split; [lia|]. intros He. specialize (Hn He). lia.
    + intros [= <- <- <-]. split; [lia|done].
Qed.

Lemma auto_sweep_run (db : CensusDB) (q : Q) from count chunkSize source
    (Hcur : cdb_id_sweep db = Some from) (Hfrom : 1 <= from <= max_uint32) (Hmax : max_char_id db < max_uint32)
    (Hcount : 1 <= count <= max_uint32 - from) (Hchunk : is_u32 chunkSize) :
  exists jobs ps q' n e,
    buildIDSweepJobs from (from + count - 1) chunkSize source = Some jobs
    /\ Forall2 carries jobs ps /\ payload_ids ps = zrange from (from + count - 1)
    /\ publishAll publish jobs 0 q = (q', (n, e))
    /\ publishAutoIDSweep publish NoFault NoFault count chunkSize source db q
       = (q', Some (db{{ cdb_id_sweep := Some (match e with None => from + count | Some _ => from end) }},
                    match e with None => Ok tt | Some e => Err e end)).
Proof.
  destruct (sweep_payloads_spec from (from + count - 1) chunkSize source) as (ps & Hps & Hids & Hok);
    try (unfold is_u32; lia); [done|].
  assert (Hb : buildIDSweepJobs from (from + count - 1) chunkSize source = Some (sweep_job <$> ps)).
  { unfold buildIDSweepJobs. by rewrite Hps. }
  destruct (publishAll publish (sweep_job <$> ps) 0 q) as [q' [n e]] eqn:Hpub.
  exists (sweep_job <$> ps), ps, q', n, e. repeat split; try done.
  { by eapply carries_all. }
  unfold publishAutoIDSweep. rewrite (proj2 (Z.eqb_neq count 0)) by lia.
  rewrite (IDSweepCursor_stored db from) by (done || lia).
  rewrite (proj2 (Z.eqb_neq from 0)), (proj2 (Z.ltb_ge (max_uint32 - from) count)) by lia. cbn [orb].
  rewrite !(u32_id (from + count)) by (unfold is_u32; lia).
  rewrite !(u32_id (from + count - 1)) by (unfold is_u32; lia). rewrite Hb. rewrite ST_bind_eq, Hpub. cbn [fst snd].
  destruct e as [e|]; [destruct db; cbn in *; by subst|].
  replace (u32 (from + count - 1 + 1)) with (from + count) by (rewrite u32_id by (unfold is_u32; lia); lia).
  by rewrite AdvanceIDSweepCursor_stored by (done || lia).
Qed.

(** The auto sweep publishes the ids from the stored cursor on,
    exactly [count] of them, and moves the cursor past them only when every
    job was accepted by the queue; if any publish fails the cursor keeps its
    place and the next run covers the same ids again.  So successive runs
    leave no id out. *)
Theorem auto_sweep_advances (db : CensusDB) (q : Q) from count chunkSize source
    (Hcur : cdb_id_sweep db = Some from) (Hfrom : 1 <= from <= max_uint32) (Hmax : max_char_id db < max_uint32)
    (Hcount : 1 <= count <= max_uint32 - from) (Hchunk : is_u32 chunkSize) :
  exists jobs ps q' n e,
    buildIDSweepJobs from (from + count - 1) chunkSize source = Some jobs
    /\ Forall2 carries jobs ps /\ payload_ids ps = zrange from (from + count - 1)
    /\ publishAll publish jobs 0 q = (q', (n, e))
    /\ publishAutoIDSweep publish NoFault NoFault count chunkSize source db q
       = (q', Some (db{{ cdb_id_sweep := Some (match e with None => from + count | Some _ => from end) }},
                    match e with None => Ok tt | Some e => Err e end)).
Proof. by apply auto_sweep_run. Qed.
End PublishAll.

(** A queue that records what it accepted and refuses the [n]th publish. *)
Record DemoQueue := mkDemoQueue { dq_jobs : list QueueJob; dq_fail_at : option nat }.
Definition demo_publish (job : QueueJob) : ST DemoQueue (result unit) := fun q =>
  if bool_decide (dq_fail_at q = Some (length (dq_jobs q))) then (q, Err (ErrorString "connection closed"))
  else (q{{ dq_jobs := dq_jobs q ++ [job] }}, Ok tt).

Lemma auto_sweep_advances_witness :
  exists q' r, publishAutoIDSweep demo_publish NoFault NoFault 250 100 "auto"
      (empty_census{{ cdb_id_sweep := Some 1001 }}) (mkDemoQueue [] (Some 1%nat))
    = (q', Some (empty_census{{ cdb_id_sweep := Some 1001 }}, Err r)).
Proof.
  destruct (auto_sweep_advances demo_publish (empty_census{{ cdb_id_sweep := Some 1001 }}) (mkDemoQueue [] (Some 1%nat))
    1001 250 100 "auto") as (jobs & ps & q' & n & e & Hj & _ & _ & Hp & Hr);
    [reflexivity|unfold max_uint32; lia|reflexivity|unfold max_uint32; lia|unfold is_u32, max_uint32; lia|].
  destruct e as [e|].
  - exists q', e. exact Hr.
  - exfalso. vm_compute in Hj. injection Hj as <-. vm_compute in Hp. discriminate.
Defined.

(** ** Gaps *)

Definition gap_ids (gaps : list (Z * Z)) : list Z := gaps ≫= (fun g => zrange g.1 g.2).

(** The ids above [after] and up to [maxID] that are not stored. *)
Definition missing (db : CensusDB) (after maxID : Z) : list Z :=
  filter (fun i => i ∉ char_ids db) (zrange (after + 1) maxID).

Lemma gap_rows_ids maxID ids : forall x,
  StronglySorted Z.lt (x :: ids) -> (forall i, i ∈ x :: ids -> i <= maxID) ->
  gap_ids (gap_rows (x :: ids) maxID) = filter (fun i => i ∉ x :: ids) (zrange (x + 1) maxID).
Proof.
  induction ids as [|y ids IH]; intros x Hs Hle; unfold gap_ids in *.
  - cbn. rewrite app_nil_r. symmetry. apply filter_all. intros i Hi. apply elem_of_zrange in Hi.
    rewrite list_elem_of_singleton. lia.
  - apply StronglySorted_inv in Hs as [Hs Hx]. assert (Hxy : x < y) by (by apply Forall_inv in Hx).
    assert (Hy : y <= maxID) by (apply Hle; set_solver).
    cbn [gap_rows]. change ((?a :: ?l) ≫= ?f) with (f a ++ (l ≫= f)). cbn [fst snd].
    change ((y + 1, match ids with [] => maxID | next :: _ => Z.min (next - 1) maxID end) :: gap_rows ids maxID)
      with (gap_rows (y :: ids) maxID).
    rewrite IH; [|done|intros; apply Hle; by apply list_elem_of_further].
    rewrite Z.min_l by lia.
    rewrite (zrange_split (x + 1) (y - 1) maxID), (zrange_cons (y - 1 + 1)) by lia.
    replace (y - 1 + 1) with y by lia. rewrite list.filter_app, filter_cons, decide_False by set_solver. f_equal.
    + symmetry. apply filter_all. intros i Hi. apply elem_of_zrange in Hi.
      apply StronglySorted_inv in Hs as [_ Hall]. rewrite Forall_forall in Hall.
      rewrite !elem_of_cons. intros [->|[->|Hin]]; [lia|lia|]. apply list_elem_of_In in Hin. specialize (Hall _ Hin). lia.
    + apply filter_ext_in. intros i Hi. apply elem_of_zrange in Hi. rewrite !elem_of_cons. naive_solver lia.
Qed.

Lemma anchored_sorted db maxID : 0 <= maxID -> (forall id, id ∈ char_ids db -> 0 < id) ->
  exists ids, anchored db maxID = 0 :: ids /\ StronglySorted Z.lt (0 :: ids)
    /\ (forall i, i ∈ 0 :: ids -> i <= maxID)
    /\ (forall i, 0 < i <= maxID -> i ∈ 0 :: ids <-> i ∈ char_ids db).
Proof.
  intros Hm Hpos. unfold anchored.
  set (s := {[0]} ∪ filter (fun id => id <= maxID) (char_ids db)).
  assert (Hin : forall i, i ∈ merge_sort Z.le (elements s) <-> i = 0 \/ (i <= maxID /\ i ∈ char_ids db)).
  { intros i. rewrite merge_sort_Permutation, elem_of_elements. unfold s. set_solver. }
  assert (Hnd : NoDup (merge_sort Z.le (elements s))) by (rewrite merge_sort_Permutation; apply NoDup_elements).
  assert (Hs : StronglySorted Z.lt (merge_sort Z.le (elements s))).
  { pose proof (StronglySorted_merge_sort Z.le (elements s)) as Hle.
    revert Hle Hnd. generalize (merge_sort Z.le (elements s)). intros l.
    induction l as [|x l IH]; intros Hle Hnd; constructor.
    - apply StronglySorted_inv in Hle as [? _]. apply list.NoDup_cons in Hnd as [_ ?]. auto.
    - apply StronglySorted_inv in Hle as [_ Hall]. apply list.NoDup_cons in Hnd as [Hx _].
      rewrite Forall_forall in *. intros y Hy. specialize (Hall y Hy).
      assert (y <> x) by (intros ->; apply Hx; by apply list_elem_of_In). lia. }
  destruct (merge_sort Z.le (elements s)) as [|x ids].
  { exfalso. assert (0 ∈ @nil Z) as H0 by (apply Hin; by left). by apply elem_of_nil in H0. }
  assert (x = 0) as ->.
  { assert (H0 : 0 ∈ x :: ids) by (apply Hin; by left). apply elem_of_cons in H0 as [?|H0]; [done|].
    apply StronglySorted_inv in Hs as [_ Hall]. rewrite Forall_forall in Hall.
    apply list_elem_of_In in H0. specialize (Hall _ H0).
    destruct (proj1 (Hin x) (list_elem_of_here _ _)) as [?|[_ Hx]]; [done|]. specialize (Hpos _ Hx). lia. }
  exists ids. repeat split; try done.
  - intros i Hi. apply Hin in Hi. lia.
  - intros Hi'. apply Hin in Hi'. destruct Hi' as [->|[_ ?]]; [lia|done].
  - intros Hi'. apply Hin. right. split; [lia|done].
Qed.

(** [collect_gaps] is the trimming of every row, cut at the limit. *)
Definition trim (minStart : Z) (r : Z * Z) : option (Z * Z) :=
  let s := if r.1 <? minStart then minStart else r.1 in
  if r.2 <? s then None else Some (u32 s, u32 r.2).

Lemma collect_gaps_take rows minStart : forall limit,
  collect_gaps rows minStart (S limit) = take (S limit) (omap (trim minStart) rows).
Proof.
  induction rows as [|[a b] rows IH]; intros limit; [done|].
  cbn [collect_gaps omap list_omap]. unfold trim at 1. cbn [fst snd].
  destruct (b <? _); [apply IH|]. destruct limit; [done|]. cbn [take]. f_equal. apply IH.
Qed.

Lemma zrange_filter_ge m lo hi : filter (fun i => m <= i) (zrange lo hi) = zrange (Z.max m lo) hi.
Proof.
  destruct (Z.le_gt_cases m lo) as [Hle|Hgt].
  - rewrite Z.max_r by lia. apply filter_all. intros i Hi. apply elem_of_zrange in Hi. lia.
  - destruct (Z.le_gt_cases m hi) as [Hmh|Hmh].
    + rewrite (zrange_split lo (m - 1) hi) by lia. rewrite list.filter_app, filter_none, filter_all;
        [|intros i Hi; apply elem_of_zrange in Hi; lia..]. cbn. f_equal. lia.
    + rewrite (zrange_empty (Z.max m lo)) by lia. apply filter_none. intros i Hi. apply elem_of_zrange in Hi. lia.
Qed.

Lemma trim_ids minStart rows :
  Forall (fun r => 0 <= r.1 /\ r.2 <= max_uint32) rows -> 0 <= minStart ->
  gap_ids (omap (trim minStart) rows) = filter (fun i => minStart <= i) (gap_ids rows).
Proof.
  intros Hr Hm. induction rows as [|[a b] rows IH]; [done|]. apply list.Forall_cons_1 in Hr as [[Ha Hb] Hr].
  cbn [fst snd] in Ha, Hb. unfold gap_ids in *. change (((a, b) :: rows) ≫= ?f) with (f (a, b) ++ (rows ≫= f)).
  rewrite list.filter_app, <- IH by done. cbn [fst snd]. rewrite zrange_filter_ge.
  cbn [omap list_omap]. unfold trim at 1. cbn [fst snd].
  replace (if a <? minStart then minStart else a) with (Z.max minStart a) by (destruct (Z.ltb_spec a minStart); lia).
  destruct (Z.ltb_spec b (Z.max minStart a)) as [Hlt|Hge]; [by rewrite zrange_empty|].
  change ((?g :: ?l) ≫= ?f) with (f g ++ (l ≫= f)). cbn [fst snd].
  rewrite !u32_id by (unfold is_u32; lia). done.
Qed.

Lemma gap_rows_bounds maxID ids : Forall (fun i => 0 <= i <= maxID) ids ->
  Forall (fun r => 0 <= r.1 /\ r.2 <= maxID) (gap_rows ids maxID).
Proof.
  induction ids as [|x ids IH]; intros Hb; [constructor|]. apply list.Forall_cons_1 in Hb as [Hx Hb].
  cbn [gap_rows]. constructor; [|by apply IH]. cbn. destruct ids; lia.
Qed.

(** The stored ids are Lodestone ids: positive 32-bit numbers. *)
Definition ids_ok (db : CensusDB) : Prop := forall id, id ∈ char_ids db -> 0 < id <= max_uint32.

Definition gap_ok (after maxID : Z) (g : Z * Z) : Prop := after < g.1 <= g.2 /\ g.2 <= maxID.

Lemma take_gap_ids gaps n : gap_ids (take n gaps) `prefix_of` gap_ids gaps.
Proof. rewrite <- (take_drop n gaps) at 2. unfold gap_ids. rewrite bind_app. by apply prefix_app_r. Qed.

Lemma FindIDGapsAfter_spec db after maxID limit :
  ids_ok db -> 0 < maxID <= max_uint32 -> 0 <= after -> 0 < limit ->
  exists gaps, FindIDGapsAfter db NoFault after maxID limit = Ok gaps
    /\ gap_ids gaps `prefix_of` missing db after maxID
    /\ (gaps = [] -> missing db after maxID = [])
    /\ (Z.of_nat (length gaps) < limit -> gap_ids gaps = missing db after maxID)
    /\ Forall (gap_ok after maxID) gaps.
Proof.
  intros Hids Hm Ha Hl. unfold FindIDGapsAfter.
  rewrite (proj2 (Z.eqb_neq maxID 0)), (proj2 (Z.leb_gt limit 0)) by lia. cbn [read_fault].
  destruct (Z.to_nat limit) as [|n] eqn:Hn; [lia|]. rewrite collect_gaps_take.
  destruct (anchored_sorted db maxID) as (ids & -> & Hs & Hle & Hiff); [lia|intros; by apply Hids|].
  set (rows := gap_rows (0 :: ids) maxID). set (all := omap (trim (after + 1)) rows).
  assert (Hpos : Forall (fun i => 0 <= i <= maxID) (0 :: ids)).
  { apply list.Forall_forall. intros i Hi. pose proof (Hle i Hi). split; [|done].
    apply elem_of_cons in Hi as [->|Hi]; [lia|]. apply StronglySorted_inv in Hs as [_ Hall].
    rewrite Forall_forall in Hall. apply list_elem_of_In in Hi. specialize (Hall _ Hi). lia. }
  assert (Hall : gap_ids all = missing db after maxID).
  { unfold all. rewrite trim_ids; [|eapply Forall_impl; [|by apply gap_rows_bounds]; cbn; lia|lia].
    unfold rows. rewrite gap_rows_ids by done. unfold missing.
    rewrite (filter_ext_in (fun i => i ∉ 0 :: ids) (fun i => i ∉ char_ids db)).
    2:{ intros i Hi. apply elem_of_zrange in Hi. rewrite Hiff by lia. done. }
    rewrite list_filter_filter.
    replace (zrange (after + 1) maxID) with (filter (fun i => after + 1 <= i) (zrange (0 + 1) maxID))
      by (rewrite zrange_filter_ge; f_equal; lia).
    rewrite list_filter_filter. apply filter_ext_in. tauto. }
  exists (take (S n) all). split; [done|]. split; [rewrite <- Hall; apply take_gap_ids|].
  assert (Hok : Forall (gap_ok after maxID) all).
  { apply list.Forall_forall. intros g Hg. unfold all in Hg. apply list_elem_of_omap in Hg as (r & Hr & Ht).
    pose proof (gap_rows_bounds maxID (0 :: ids) Hpos) as Hb. rewrite Forall_forall in Hb.
    apply list_elem_of_In in Hr. specialize (Hb _ Hr). unfold trim in Ht.
    destruct (Z.ltb_spec r.2 (if r.1 <? after + 1 then after + 1 else r.1)) as [|Hge]; [done|]. injection Ht as <-.
    unfold gap_ok. cbn [fst snd]. destruct (Z.ltb_spec r.1 (after + 1)); rewrite !u32_id by (unfold is_u32; lia); lia. }
  split; [|split].
  - intros He. assert (all = []) as Ha0 by (destruct all; done). by rewrite <- Hall, Ha0.
  - intros Hlen. rewrite length_take in Hlen. rewrite take_ge by lia. done.
  - by apply Forall_take.
Qed.

(** The jobs for a list of gaps. *)
Lemma buildGapSweepJobs_spec chunkSize source after maxID gaps :
  is_u32 chunkSize -> 0 <= after -> maxID <= max_uint32 -> Forall (gap_ok after maxID) gaps ->
  exists ps, buildGapSweepJobs gaps chunkSize source = Some (sweep_job <$> ps)
    /\ payload_ids ps = gap_ids gaps
    /\ Forall (chunk_ok (if chunkSize =? 0 then 100 else chunkSize)) ps
    /\ (length gaps <= length ps)%nat.
Proof.
  intros Hc Ha Hm. induction gaps as [|[s e] gaps IH]; intros Hg; cbn [buildGapSweepJobs]; [by exists []|].
  apply list.Forall_cons_1 in Hg as [Hse Hg]. unfold gap_ok in Hse. cbn [fst snd] in *.
  destruct (sweep_payloads_spec s e chunkSize source) as (ps1 & H1 & Hi1 & Ho1); try (unfold is_u32; lia); [done|].
  destruct (IH Hg) as (ps2 & -> & Hi2 & Ho2 & Hl2). unfold buildIDSweepJobs. rewrite H1.
  exists (ps1 ++ ps2). rewrite fmap_app. split; [done|]. unfold payload_ids, gap_ids in *. rewrite bind_app, Hi1, Hi2.
  split; [done|]. split; [by apply Forall_app|]. destruct ps1; [|rewrite length_app; cbn in *; lia].
  cbn in Hi1. rewrite (zrange_cons s e) in Hi1 by lia. done.
Qed.

Lemma payload_ids_length c ps : Forall (chunk_ok c) ps -> (length ps <= length (payload_ids ps))%nat.
Proof.
  induction ps as [|p ps IH]; intros Ho; [done|]. apply list.Forall_cons_1 in Ho as [Hp Ho].
  unfold payload_ids in *. cbn. rewrite length_app. specialize (IH Ho).
  pose proof (length_zrange (is_From p) (is_To p)). unfold chunk_ok in Hp. lia.
Qed.

(** ** Resuming after the last published id *)

Lemma nodup_split_eq {A} (x : A) l1 : forall l2 r1 r2,
  NoDup (l1 ++ x :: r1) -> l1 ++ x :: r1 = l2 ++ x :: r2 -> l1 = l2 /\ r1 = r2.
Proof.
  induction l1 as [|a l1 IH]; intros [|b l2] r1 r2 Hnd Heq; cbn in *; simplify_eq; [done| | |].
  - apply list.NoDup_cons in Hnd as [Hx _]. exfalso. apply Hx. set_solver.
  - apply list.NoDup_cons in Hnd as [Hx _]. exfalso. apply Hx. set_solver.
  - apply list.NoDup_cons in Hnd as [_ Hnd]. destruct (IH l2 r1 r2 Hnd) as [-> ->]; done.
Qed.

Lemma missing_resume db after maxID P x R :
  missing db after maxID = P ++ [x] ++ R -> missing db x maxID = R /\ after < x <= maxID /\ x ∉ char_ids db.
Proof.
  intros Heq. assert (Hx : x ∈ missing db after maxID) by (rewrite Heq; set_solver).
  unfold missing in Hx. apply list_elem_of_filter in Hx as [Hn Hx]. apply elem_of_zrange in Hx.
  split; [|split; [lia|done]].
  assert (Hnd : NoDup (missing db after maxID)) by (apply list.NoDup_filter, NoDup_zrange).
  assert (Heq2 : missing db after maxID = filter (fun i => i ∉ char_ids db) (zrange (after + 1) (x - 1)) ++ x :: missing db x maxID).
  { unfold missing. rewrite (zrange_split (after + 1) (x - 1) maxID), (zrange_cons (x - 1 + 1)) by lia.
    replace (x - 1 + 1) with x by lia. by rewrite list.filter_app, filter_cons, decide_True. }
  rewrite Heq in Hnd, Heq2. cbn in Hnd, Heq2.
  by destruct (nodup_split_eq _ _ _ _ _ Hnd Heq2) as [_ ->].
Qed.

Lemma max_char_id_in db : ids_ok db -> 0 < max_char_id db -> max_char_id db ∈ char_ids db.
Proof.
  intros _ Hm. unfold max_char_id in *. rewrite <- elem_of_elements. revert Hm.
  induction (elements (char_ids db)) as [|x l IH]; cbn; [lia|]. intros Hm.
  destruct (Z.max_spec x (foldr Z.max 0 l)) as [[? Heq]|[? Heq]]; rewrite Heq in *;
    [apply list_elem_of_further, IH; lia|apply list_elem_of_here].
Qed.

Lemma max_char_id_range db : ids_ok db -> 0 <= max_char_id db <= max_uint32.
Proof.
  intros Hok. unfold max_char_id.
  assert (Hall : forall x, x ∈ elements (char_ids db) -> 0 < x <= max_uint32) by (intros x Hx; apply Hok; by apply elem_of_elements in Hx).
  revert Hall. induction (elements (char_ids db)) as [|x l IH]; cbn; intros Hall; [unfold max_uint32; lia|].
  assert (0 < x <= max_uint32) by (apply Hall, list_elem_of_here).
  assert (0 <= foldr Z.max 0 l <= max_uint32) by (apply IH; intros; apply Hall; by apply list_elem_of_further). lia.
Qed.

Lemma FillGapsCursor_stored db c :
  cdb_fill_gaps db = Some c -> 0 <= c <= max_uint32 -> FillGapsCursor db NoFault = (db, Ok c).
Proof.
  intros Hc Hr. destruct db. cbn in Hc. subst. unfold FillGapsCursor. cbn -[Z.ltb max_uint32].
  by rewrite (proj2 (Z.ltb_ge c 0)), (proj2 (Z.ltb_ge max_uint32 c)) by lia.
Qed.

Lemma AdvanceFillGapsCursor_stored db c next :
  cdb_fill_gaps db = Some c ->
  AdvanceFillGapsCursor db NoFault c next = (db{{ cdb_fill_gaps := Some next }}, Ok tt).
Proof. intros Hc. destruct db. cbn in Hc. subst. unfold AdvanceFillGapsCursor. cbn. by rewrite bool_decide_eq_true_2. Qed.

(** Where the cursor stands after the first [n] of the payloads. *)
Definition cursor_after (c : Z) (ps : list IDSweepPayload) (n : nat) : Z :=
  match n with O => c | S m => match ps !! m with Some p => is_To p | None => c end end.

Lemma cursor_after_last chunk c ps n : Forall (chunk_ok chunk) ps -> (0 < n <= length ps)%nat ->
  exists P, payload_ids (take n ps) = P ++ [cursor_after c ps n].
Proof.
  intros Hok Hn. destruct n as [|m]; [lia|]. cbn [cursor_after].
  destruct (lookup_lt_is_Some_2 ps m) as [p Hp]; [lia|]. rewrite Hp.
  rewrite (take_S_r _ _ _ Hp). unfold payload_ids. rewrite bind_app. cbn. rewrite app_nil_r.
  rewrite Forall_forall in Hok. assert (Hc : chunk_ok chunk p) by (eapply Hok, list_elem_of_In, list_elem_of_lookup_2; eauto).
  unfold chunk_ok in Hc. rewrite (zrange_split (is_From p) (is_To p - 1) (is_To p)) by lia.
  replace (is_To p - 1 + 1) with (is_To p) by lia. rewrite (zrange_cons (is_To p) (is_To p)), (zrange_empty (is_To p + 1)) by lia.
  rewrite app_assoc. eauto.
Qed.

(** What one run plans to publish: the payloads of the first gaps, cut at
    [count] jobs. *)
Record gap_plan (db : CensusDB) (c count chunkSize : Z) (source : string)
    (gaps : list (Z * Z)) (jobs0 : list QueueJob) (ps : list IDSweepPayload) : Prop := {
  plan_find : FindIDGapsAfter db NoFault c (max_char_id db) count = Ok gaps;
  plan_build : buildGapSweepJobs gaps chunkSize source = Some jobs0;
  plan_cut : (if count <? u32 (Z.of_nat (length jobs0)) then take (Z.to_nat count) jobs0 else jobs0) = sweep_job <$> ps;
  plan_chunks : Forall (chunk_ok (if chunkSize =? 0 then 100 else chunkSize)) ps;
  plan_prefix : payload_ids ps `prefix_of` missing db c (max_char_id db);
  plan_length : Z.of_nat (length ps) <= count;
  plan_empty : gaps = [] -> ps = [];
  plan_none : ps = [] -> missing db c (max_char_id db) = [];
  plan_full : Z.of_nat (length ps) < count -> payload_ids ps = missing db c (max_char_id db);
}.

Lemma payload_ids_take ps n : payload_ids (take n ps) `prefix_of` payload_ids ps.
Proof. rewrite <- (take_drop n ps) at 2. unfold payload_ids. rewrite bind_app. by apply prefix_app_r. Qed.

Lemma gap_plan_exists db c count chunkSize source :
  ids_ok db -> 0 <= c < max_char_id db -> 1 <= count <= max_uint32 -> is_u32 chunkSize ->
  exists gaps jobs0 ps, gap_plan db c count chunkSize source gaps jobs0 ps.
Proof.
  intros Hids Hc Hcount Hchunk. set (maxID := max_char_id db) in *.
  pose proof (max_char_id_range db Hids) as Hmax. fold maxID in Hmax.
  destruct (FindIDGapsAfter_spec db c maxID count Hids) as (gaps & Hfind & Hpre & Hnone & Hall & Hgok); try lia.
  destruct (buildGapSweepJobs_spec chunkSize source c maxID gaps) as (ps0 & Hbuild & Hids0 & Hok0 & Hlg); try done; try lia.
  exists gaps, (sweep_job <$> ps0), (take (Z.to_nat count) ps0).
  assert (Hlen0 : Z.of_nat (length ps0) <= max_uint32).
  { pose proof (payload_ids_length _ _ Hok0) as H1. rewrite Hids0 in H1. pose proof (prefix_length _ _ Hpre) as H2.
    pose proof (length_filter (fun i => i ∉ char_ids db) (zrange (c + 1) maxID)) as H3. fold (missing db c maxID) in H3.
    pose proof (length_zrange (c + 1) maxID). lia. }
  split; try done.
  - rewrite length_fmap, u32_id by (unfold is_u32; lia). rewrite fmap_take.
    destruct (Z.ltb_spec count (Z.of_nat (length ps0))); [done|]. rewrite take_ge; [done|]. rewrite length_fmap. lia.
  - by apply Forall_take.
  - etrans; [apply payload_ids_take|]. rewrite Hids0. exact Hpre.
  - rewrite length_take. lia.
  - intros ->. cbn in Hbuild. injection Hbuild as Hb0. symmetry in Hb0. apply fmap_nil_inv in Hb0. by rewrite Hb0, take_nil.
  - intros He. apply Hnone. destruct gaps as [|g gaps]; [done|exfalso].
    apply list.Forall_cons_1 in Hgok as [Hg _]. unfold gap_ok in Hg.
    assert (ps0 = []) as Hnil by (destruct ps0; [done|]; destruct (Z.to_nat count) eqn:?; [lia|done]).
    rewrite Hnil in Hids0. unfold gap_ids in Hids0. cbn in Hids0.
    rewrite (zrange_cons g.1 g.2) in Hids0 by lia. done.
  - rewrite length_take. intros Hlt. rewrite take_ge by lia. rewrite Hids0. apply Hall. lia.
Qed.

Lemma plan_resume db c count chunkSize source gaps jobs0 ps n :
  gap_plan db c count chunkSize source gaps jobs0 ps -> 0 <= c < max_char_id db -> (n <= length ps)%nat ->
  missing db c (max_char_id db) = payload_ids (take n ps) ++ missing db (cursor_after c ps n) (max_char_id db)
  /\ c <= cursor_after c ps n <= max_char_id db
  /\ (cursor_after c ps n = c \/ cursor_after c ps n ∉ char_ids db).
Proof.
  intros Hplan Hc Hn. destruct n as [|m]; [cbn; split; [done|]; split; [lia|by left]|].
  destruct (cursor_after_last _ c ps (S m) (plan_chunks _ _ _ _ _ _ _ _ Hplan)) as [P HP]; [lia|]. rewrite HP.
  assert (Hp2 : payload_ids (take (S m) ps) `prefix_of` missing db c (max_char_id db)).
  { etrans; [apply payload_ids_take|]. apply (plan_prefix _ _ _ _ _ _ _ _ Hplan). }
  destruct Hp2 as [R HR]. rewrite HP, <- app_assoc in HR.
  destruct (missing_resume _ _ _ _ _ _ HR) as (-> & Hr & Hn'). rewrite HR, <- app_assoc. split; [done|]. split; [lia|by right].
Qed.

(** The queue together with the jobs it accepted. *)
Definition logged_publish {Q} (publish : QueueJob -> ST Q (result unit)) (job : QueueJob) : ST (Q * list QueueJob) (result unit) := fun ql =>
  let '(q, r) := publish job ql.1 in ((q, match r with Ok _ => ql.2 ++ [job] | Err _ => ql.2 end), r).
(** [publishAll] stops at the first refusal, and counts what was accepted. *)
Lemma publishAll_logged {Q} (publish : QueueJob -> ST Q (result unit)) jobs : forall i q log, exists q' n e,
  publishAll (logged_publish publish) jobs i (q, log) = ((q', log ++ take n jobs), (i + Z.of_nat n, e)) /\
  (n <= length jobs)%nat /\ (e = None -> n = length jobs).
Proof.
  induction jobs as [|job jobs IH]; intros i q log; cbn [publishAll]; [exists q, 0%nat, None; by rewrite app_nil_r, Z.add_0_r|].
  rewrite ST_bind_eq. assert (Hl : logged_publish publish job (q, log) = (let '(q, r) := publish job q in ((q, match r with Ok _ => log ++ [job] | Err _ => log end), r))) by done.
  rewrite Hl. clear Hl. destruct (publish job q) as [q1 [[]|err]]; cbn [fst snd].
  - destruct (IH (i + 1) q1 (log ++ [job])) as (q' & n & e & Hp & Hn & He). exists q', (S n), e. rewrite Hp. cbn [take length]. rewrite <-app_assoc.
    split; [cbn [app]; do 2 f_equal; lia|]. split; [lia|]. intros Hx. by rewrite (He Hx).
  - exists q1, 0%nat, (Some (ErrWrap "publish job" err)). cbn. rewrite app_nil_r, Z.add_0_r. split; [done|]. split; [lia|done].
Qed.

Section FillGaps.
Context {Q : Type} (publish : QueueJob -> ST Q (result unit)).

(** The whole run, in terms of the plan. *)
Lemma fill_gaps_run db (q : Q) c count chunkSize source gaps jobs0 ps :
  ids_ok db -> cdb_fill_gaps db = Some c -> 0 <= c < max_char_id db -> 1 <= count ->
  gap_plan db c count chunkSize source gaps jobs0 ps ->
  exists q' n e, publishAll publish (sweep_job <$> ps) 0 q = (q', (Z.of_nat n, e)) /\ (n <= length ps)%nat
    /\ publishFillGapsIDSweep publish NoFault NoFault NoFault NoFault NoFault count chunkSize source 0 db q
       = (q', Some (db{{ cdb_fill_gaps := Some (cursor_after c ps n) }},
                    match e with None => Ok tt | Some e => Err e end)).
Proof.
  intros Hids Hcur Hc Hcount Hplan. pose proof (max_char_id_range db Hids) as Hmax.
  destruct (publishAll publish (sweep_job <$> ps) 0 q) as [q' [n' e]] eqn:Hpub.
  destruct (publishAll_bounds publish _ _ _ _ _ _ Hpub) as [Hb _]. rewrite length_fmap in Hb.
  exists q', (Z.to_nat n'), e. rewrite Z2Nat.id by lia. split; [done|]. split; [lia|].
  unfold publishFillGapsIDSweep, MaxID. rewrite (proj2 (Z.eqb_neq count 0)) by lia. cbn [read_fault].
  rewrite (u32_id (max_char_id db)) by (unfold is_u32; lia). rewrite (proj2 (Z.eqb_neq (max_char_id db) 0)) by lia. cbn [Z.eqb].
  rewrite (FillGapsCursor_stored db c) by (done || lia). rewrite (proj2 (Z.leb_gt (max_char_id db) c)) by lia.
  destruct Hplan as [Hfind Hbuild Hcut Hps _ _ Hempty _ _]. rewrite Hfind. destruct gaps as [|g gaps].
  { rewrite (Hempty eq_refl) in *. cbn in Hpub. injection Hpub as <- <- <-. destruct db; cbn in *; by subst. }
  rewrite Hbuild. cbv zeta. rewrite Hcut, ST_bind_eq, Hpub. cbn [fst snd andb].
  destruct (Z.ltb_spec 0 n') as [Hpos|Hzero].
  - destruct (lookup_lt_is_Some_2 ps (Z.to_nat (n' - 1))) as [p Hp]; [lia|].
    rewrite list_lookup_fmap, Hp. cbn [fmap option_fmap option_map].
    assert (Hcp : chunk_ok (if chunkSize =? 0 then 100 else chunkSize) p).
    { rewrite Forall_forall in Hps. eapply Hps, list_elem_of_In, list_elem_of_lookup_2; eauto. }
    destruct (sweep_job_carries _ _ Hcp) as [_ ->]. rewrite AdvanceFillGapsCursor_stored by done.
    replace (Z.to_nat n') with (S (Z.to_nat (n' - 1))) by lia. cbn [cursor_after]. rewrite Hp. done.
  - replace (Z.to_nat n') with 0%nat by lia. cbn [cursor_after]. destruct db; cbn in *; by subst.
Qed.

End FillGaps.

Section Resumes.
Context {Q : Type} (publish : QueueJob -> ST Q (result unit)).

(** C27: one run of the gap sweep from a stored cursor below the highest id,
    with the database answering, whatever the queue answers to each job.  The
    jobs the queue accepted are at most [count], each with at most the chunk
    size (100 when unset); the ids they cover are, in ascending order, the
    first ids above the cursor that the census does not hold, each exactly
    once; the cursor ends at the last id of the last accepted job, so that
    what it covers and what is missing above the new cursor make up what was
    missing above the old one.  A run without an error that had less than
    [count] jobs accepted has covered everything. *)
Theorem fill_gaps_resumes (db : CensusDB) (q : Q) c count chunkSize source
    (Hids : ids_ok db) (Hcur : cdb_fill_gaps db = Some c) (Hc : 0 <= c < max_char_id db)
    (Hcount : 1 <= count <= max_uint32) (Hchunk : is_u32 chunkSize) :
  exists q' accepted ps c' r,
    publishFillGapsIDSweep (logged_publish publish) NoFault NoFault NoFault NoFault NoFault count chunkSize source 0 db (q, [])
      = ((q', accepted), Some (db{{ cdb_fill_gaps := Some c' }}, r))
    /\ Forall2 carries accepted ps /\ Z.of_nat (length accepted) <= count
    /\ Forall (chunk_ok (if chunkSize =? 0 then 100 else chunkSize)) ps
    /\ c' = default c (is_To <$> list.last ps)
    /\ missing db c (max_char_id db) = payload_ids ps ++ missing db c' (max_char_id db)
    /\ (r = Ok tt -> Z.of_nat (length accepted) < count -> missing db c' (max_char_id db) = []).
Proof.
  destruct (gap_plan_exists db c count chunkSize source) as (gaps & jobs0 & ps & Hplan); try done.
  destruct (publishAll_logged publish (sweep_job <$> ps) 0 q []) as (q' & n & e & Hlog & Hn & He). rewrite length_fmap in Hn.
  destruct (fill_gaps_run (logged_publish publish) db (q, []) c count chunkSize source gaps jobs0 ps) as (q1 & n1 & e1 & Hpub & Hn1 & Hrun); try done; try lia.
  rewrite Hlog in Hpub. injection Hpub as <- Hnn <-. assert (n1 = n) as -> by lia. rewrite <-fmap_take in Hrun.
  destruct (plan_resume _ _ _ _ _ _ _ _ n Hplan Hc Hn) as [Hres _].
  assert (Hlast : cursor_after c ps n = default c (is_To <$> list.last (take n ps))).
  { destruct n as [|m]; [done|]. cbn [cursor_after]. destruct (lookup_lt_is_Some_2 ps m) as [p Hp]; [lia|].
    by rewrite (take_S_r _ _ _ Hp), last_snoc, Hp. }
  destruct Hplan as [_ _ _ Hchunks Hpre Hlen _ _ Hfull].
  exists q', (sweep_job <$> take n ps), (take n ps), (cursor_after c ps n), (match e with None => Ok tt | Some e => Err e end).
  rewrite length_fmap, length_take. split; [exact Hrun|]. split; [by eapply carries_all, Forall_take|]. split; [lia|].
  split; [by apply Forall_take|]. split; [done|]. split; [done|]. destruct e as [e|]; [done|]. intros _ Hlt. specialize (He eq_refl). rewrite length_fmap in He.
  rewrite take_ge in Hres by lia. rewrite Hfull in Hres by lia. apply (f_equal length) in Hres. rewrite length_app in Hres. apply nil_length_inv. lia.
Qed.

(** A run that starts with the cursor below the highest stored id
    ends with the cursor below it, whatever the queue does: the highest stored
    id is never missing, so no sweep job ends there.  The test that would
    restart the sweep from the lowest gaps (cursor at or past the highest id)
    is therefore never true, and gaps below the cursor are not swept again. *)
Theorem fill_gaps_never_wraps (db : CensusDB) (q : Q) c count chunkSize source
    (Hids : ids_ok db) (Hcur : cdb_fill_gaps db = Some c) (Hc : 0 <= c < max_char_id db)
    (Hcount : 1 <= count <= max_uint32) (Hchunk : is_u32 chunkSize) :
  exists q' c' r,
    publishFillGapsIDSweep publish NoFault NoFault NoFault NoFault NoFault count chunkSize source 0 db q
      = (q', Some (db{{ cdb_fill_gaps := Some c' }}, r))
    /\ c <= c' < max_char_id db.
Proof.
  destruct (gap_plan_exists db c count chunkSize source) as (gaps & jobs0 & ps & Hplan); try done.
  destruct (fill_gaps_run publish db q c count chunkSize source gaps jobs0 ps) as (q' & n & e & Hpub & Hn & Hrun); try done; try lia.
  destruct (plan_resume _ _ _ _ _ _ _ _ n Hplan Hc Hn) as (_ & Hr & Hin).
  exists q', (cursor_after c ps n), (match e with None => Ok tt | Some e => Err e end). split; [exact Hrun|].
  assert (Hmax : max_char_id db ∈ char_ids db) by (apply max_char_id_in; [done|lia]).
  assert (cursor_after c ps n <> max_char_id db) by (destruct Hin as [->|Hin]; [lia|congruence]). lia.
Qed.
End Resumes.

(** A census that holds ids 1 and 5, with the cursor past the last gap. *)
Definition demo_char (id : Z) : charRow :=
  mkCharRow (mkCharacterRecord id "A" "" "" "" "Hyur" "" 0 "" None None "" "" 0 false None None 0 None None) 0.
Definition demo_census : CensusDB :=
  empty_census{{ cdb_chars := {[ 1 := demo_char 1; 5 := demo_char 5 ]}; cdb_fill_gaps := Some 4 }}.

Lemma demo_census_ids : ids_ok demo_census.
Proof.
  intros id Hid. assert (Hd : char_ids demo_census = {[1; 5]}) by (vm_compute; reflexivity).
  rewrite Hd in Hid. unfold max_uint32. set_solver by lia.
Qed.

(** Ids 2, 3 and 4 are missing, yet a run publishes nothing and leaves the
    cursor where it is. *)
Lemma fill_gaps_never_wraps_witness :
  exists q' c' r,
    publishFillGapsIDSweep demo_publish NoFault NoFault NoFault NoFault NoFault 10 100 "auto" 0 demo_census (mkDemoQueue [] None)
      = (q', Some (demo_census{{ cdb_fill_gaps := Some c' }}, r))
    /\ 4 <= c' < 5 /\ dq_jobs q' = [] /\ missing demo_census 0 5 = [2; 3; 4].
Proof.
  destruct (fill_gaps_never_wraps demo_publish demo_census (mkDemoQueue [] None) 4 10 100 "auto")
    as (q' & c' & r & Hrun & Hc').
  - exact demo_census_ids.
  - reflexivity.
  - vm_compute. split; [discriminate|reflexivity].
  - unfold max_uint32. lia.
  - unfold is_u32, max_uint32. lia.
  - exists q', c', r. split; [exact Hrun|]. split; [exact Hc'|].
    split; [|vm_compute; reflexivity].
    apply (f_equal (fun x => dq_jobs x.1)) in Hrun. vm_compute in Hrun. symmetry. exact Hrun.
Defined.

(** The queue refuses the second of two jobs: ids 2 and 3 are covered. *)
Lemma fill_gaps_resumes_witness :
  exists q' accepted ps c' r,
    publishFillGapsIDSweep (logged_publish demo_publish) NoFault NoFault NoFault NoFault NoFault 10 2 "auto" 0
      (demo_census{{ cdb_fill_gaps := Some 1 }}) (mkDemoQueue [] (Some 1%nat), [])
      = ((q', accepted), Some (demo_census{{ cdb_fill_gaps := Some c' }}, r))
    /\ is_ok r = false /\ c' = 3 /\ missing (demo_census{{ cdb_fill_gaps := Some 1 }}) 1 5 = payload_ids ps ++ [4].
Proof.
  destruct (fill_gaps_resumes demo_publish (demo_census{{ cdb_fill_gaps := Some 1 }}) (mkDemoQueue [] (Some 1%nat)) 1 10 2 "auto")
    as (q' & accepted & ps & c' & r & Hrun & _ & _ & _ & _ & Hm & _).
  - exact demo_census_ids.
  - reflexivity.
  - vm_compute. split; [discriminate|reflexivity].
  - unfold max_uint32. lia.
  - unfold is_u32, max_uint32. lia.
  - assert (Hc' : Some 3 = Some c') by (apply (f_equal (fun x => x.2 ≫= (fun y => cdb_fill_gaps y.1))) in Hrun; vm_compute in Hrun; exact Hrun).
    assert (Hr : Some false = Some (is_ok r)) by (apply (f_equal (fun x => (fun y => is_ok y.2) <$> x.2)) in Hrun; vm_compute in Hrun; exact Hrun).
    injection Hc' as <-. injection Hr as Hr. exists q', accepted, ps, 3, r. split; [exact Hrun|]. split; [by symmetry|]. split; [reflexivity|].
    etransitivity; [exact Hm|]. reflexivity.
Defined.
