(* ===== verification/LodestonePage.v ===== *)
(** * Lodestone pages ([infrastructure/lodestone/client.go], parsing)

    Character profiles are cut out of the HTML text by markers; achievement
    lists go through an HTML parser, which is a parameter.  The regular
    expressions are written out as the scans they denote. *)
From Stdlib Require Import Ascii.
From S2P Require Import Prelude GoErrors GoStrings Contract Dates Payloads.

(** ** Numbers *)

Fixpoint digits_value (acc : Z) (s : string) : option Z :=
  match s with
  | EmptyString => Some acc
  | String c s => d ← digit_value c; digits_value (10 * acc + d) s
  end.
(** [strconv.ParseUint(s, 10, bits)]: the value and whether there was no
    error; a value out of range is reported as the largest one. *)
Definition ParseUint (s : string) (max : Z) : Z * bool :=
  match s with
  | EmptyString => (0, false)
  | _ => match digits_value 0 s with
         | None => (0, false)
         | Some v => if max <? v then (max, false) else (v, true)
         end
  end.
Definition is_digit (c : ascii) : bool := match digit_value c with Some _ => true | None => false end.
(** The longest prefix of digits and the rest. *)
Fixpoint span_digits (s : string) : string * string :=
  match s with
  | String c s' => if is_digit c then let '(d, r) := span_digits s' in (String c d, r) else ("", s)
  | EmptyString => ("", "")
  end.

(** ** Text *)

(** The white space of a regular expression. *)
Definition is_space (c : ascii) : bool :=
  let n := nat_of_ascii c in ((n =? 9) || (n =? 10) || (n =? 12) || (n =? 13) || (n =? 32))%nat.

(** [tagRe.ReplaceAllString(s, " ")] with [<[^>]*>]: an unclosed angle bracket stays. *)
Fixpoint replace_tags (s : string) : string :=
  match s with
  | EmptyString => ""
  | String c s' => if bool_decide (c = "<"%char) && Contains s' ">" then String " "%char (skip_tag s') else String c (replace_tags s')
  end
with skip_tag (s : string) : string :=
  match s with
  | EmptyString => ""
  | String c s' => if bool_decide (c = ">"%char) then replace_tags s' else skip_tag s'
  end.
(** [multiSpaceRe.ReplaceAllString(s, " ")] with [\s+]. *)
Fixpoint collapse_spaces (in_run : bool) (s : string) : string :=
  match s with
  | EmptyString => ""
  | String c s' => if is_space c then if in_run then collapse_spaces true s' else String " "%char (collapse_spaces true s')
                   else String c (collapse_spaces false s')
  end.

Definition quote : string := bytes [34%nat].
Definition entityMap : list (string * string) :=
  [("&#39;", "'"); ("&amp;", "&"); ("&lt;", "<"); ("&gt;", ">"); ("&quot;", quote); ("&#34;", quote); ("&nbsp;", " ")].

(** Ranging over the entity map has no fixed order: [order] is the one taken. *)
Definition stripTags (order : list (string * string)) (s : string) : string :=
  let s := replace_tags s in
  let s := fold_left (fun s kv => ReplaceAll s kv.1 kv.2) order s in
  TrimSpace (collapse_spaces false s).

(** ** Cutting the page *)

Section Extract.
(** The order of the entity map in the calls of [stripTags]. *)
Context (order : list (string * string)).

Definition extractTextBetween (html startMarker endTag : string) : string :=
  default "" (
    startIdx ← Index html startMarker;
    tagEnd ← Index (sdrop startIdx html) ">";
    let content := sdrop (startIdx + tagEnd + 1) html in
    endIdx ← Index content endTag;
    Some (stripTags order (stake endIdx content))).

(** [rest] is [html[searchFrom:]]; every round moves past a marker. *)
Fixpoint all_text_between (fuel : nat) (rest startMarker endTag : string) : list string :=
  match fuel with
  | O => []
  | S fuel =>
      match Index rest startMarker with
      | None => []
      | Some startIdx =>
          match Index (sdrop startIdx rest) ">" with
          | None => []
          | Some tagEnd =>
              let content := sdrop (startIdx + tagEnd + 1) rest in
              match Index content endTag with
              | None => []
              | Some endIdx => stripTags order (stake endIdx content)
                               :: all_text_between fuel (sdrop (endIdx + String.length endTag) content) startMarker endTag
              end
          end
      end
  end.
Definition extractAllTextBetween (html startMarker endTag : string) : list string :=
  all_text_between (S (String.length html)) html startMarker endTag.

Definition extractAttribute (tagHTML attr : string) : string :=
  let attrPattern := attr +:+ "=" +:+ quote in
  default "" (
    idx ← Index tagHTML attrPattern;
    let value := sdrop (idx + String.length attrPattern) tagHTML in
    end_ ← Index value quote;
    Some (stake end_ value)).
Definition extractAttr (html containerMarker tagName attr : string) : string :=
  default "" (
    startIdx ← Index html containerMarker;
    let container := sdrop startIdx html in
    tagStart ← Index container ("<" +:+ tagName);
    let tag := sdrop tagStart container in
    tagEnd ← Index tag ">";
    Some (extractAttribute (stake (tagEnd + 1) tag) attr)).
Definition extractAlt (html containerMarker : string) : string := extractAttr html containerMarker "img" "alt".
Definition extractHref (html containerMarker : string) : string := extractAttr html containerMarker "a" "href".

(** The attribute that marks an element. *)
Definition class_marker (name : string) : string := "class=" +:+ quote +:+ name +:+ quote.

(** ** Regular expressions *)

(** The leftmost [prefix(\d+)terminator]. *)
Fixpoint find_digits (prefix terminator s : string) : option string :=
  let here := rest ← strip_prefix prefix s;
              let '(ds, after) := span_digits rest in
              if bool_decide (ds = "") || negb (HasPrefix after terminator) then None else Some ds in
  match here with
  | Some ds => Some ds
  | None => match s with EmptyString => None | String _ s => find_digits prefix terminator s end
  end.
Definition timestampEpochRe (s : string) : option string := find_digits "ldst_strftime(" "," s.
Definition achievementDetailIDRe (s : string) : option string := find_digits "/achievement/detail/" "/" s.
Definition fcIDRe (s : string) : option string := find_digits "/lodestone/freecompany/" "/" s.

(** The longest prefix of bytes that satisfy [p], and the rest. *)
Fixpoint span (p : ascii -> bool) (s : string) : string * string :=
  match s with
  | String c s' => if p c then let '(d, r) := span p s' in (String c d, r) else ("", s)
  | EmptyString => ("", "")
  end.

(** [^([^\s]+)\s+\[([^\]]+)\]$] *)
Definition worldDCRe (s : string) : option (string * string) :=
  let '(world, r) := span (fun c => negb (is_space c)) s in
  let '(gap, r) := span is_space r in
  match r with
  | String "["%char r =>
      let '(dc, r) := span (fun c => negb (bool_decide (c = "]"%char))) r in
      if bool_decide (r = "]") && negb (bool_decide (world = "")) && negb (bool_decide (gap = "")) && negb (bool_decide (dc = ""))
      then Some (world, dc) else None
  | _ => None
  end.

(** The leftmost text of one or more bytes other than an angle bracket that
    follows the marker [entry__activity__txt], a quote and a bracket, and is
    closed by [</p>]. *)
Fixpoint nameRe (s : string) : option string :=
  let here := rest ← strip_prefix ("entry__activity__txt" +:+ quote +:+ ">") s;
              let '(name, after) := span (fun c => negb (bool_decide (c = "<"%char))) rest in
              if bool_decide (name = "") || negb (HasPrefix after "</p>") then None else Some name in
  match here with
  | Some name => Some name
  | None => match s with EmptyString => None | String _ s => nameRe s end
  end.

(** The leftmost quoted name between [character achievement] and [earned], in
    any case; none of the letters folds with a character outside ASCII. *)
Fixpoint achievementActivityNameRe (s : string) : option string :=
  let literal := "character achievement" in
  let here := if bool_decide (ToLower (stake (String.length literal) s) = literal) then
                let '(gap, r) := span is_space (sdrop (String.length literal) s) in
                if bool_decide (gap = "") then None
                else r ← strip_prefix quote r;
                     let '(name, r) := span (fun c => negb (bool_decide (c = ascii_of_nat 34))) r in
                     r ← strip_prefix quote r;
                     let '(gap, r) := span is_space r in
                     if bool_decide (gap = "") || bool_decide (name = "") || negb (bool_decide (ToLower (stake 6 r) = "earned"))
                     then None else Some name
              else None in
  match here with
  | Some name => Some name
  | None => match s with EmptyString => None | String _ s => achievementActivityNameRe s end
  end.

(** ** Jobs *)

Definition lodestoneJobIDs : gmap string Z := list_to_map
  [("Paladin", 19); ("Warrior", 21); ("Dark Knight", 32); ("Gunbreaker", 37); ("White Mage", 24); ("Scholar",
   28); ("Astrologian", 33); ("Sage", 40); ("Monk", 20); ("Dragoon", 22); ("Ninja", 30); ("Samurai", 34);
   ("Reaper", 39); ("Viper", 41); ("Bard", 23); ("Machinist", 31); ("Dancer", 38); ("Black Mage", 25);
   ("Summoner", 27); ("Red Mage", 35); ("Pictomancer", 42); ("Blue Mage", 36); ("Carpenter", 8); ("Blacksmith",
   9); ("Armorer", 10); ("Goldsmith", 11); ("Leatherworker", 12); ("Weaver", 13); ("Alchemist", 14);
   ("Culinarian", 15); ("Miner", 16); ("Botanist", 17); ("Fisher", 18); ("Gladiator", 1); ("Pugilist", 2);
   ("Marauder", 3); ("Lancer", 4); ("Archer", 5); ("Conjurer", 6); ("Thaumaturge", 7); ("Arcanist", 26);
   ("Rogue", 29)].

(** The record of one list entry, if it has one. *)
Definition class_job_entry (entryHTML : string) (charID : Z) : option ClassJobRecord :=
  let jobName := extractAttribute entryHTML "data-tooltip" in
  if bool_decide (jobName = "") then None
  else
    let jobName := TrimSuffix jobName " (Limited Job)" in
    let jobName := match Index jobName " / " with Some idx => stake idx jobName | None => jobName end in
    let jobName := TrimSpace jobName in
    imgEnd ← LastIndex entryHTML ">";
    if (String.length entryHTML <=? imgEnd + 1)%nat then None
    else
      let levelStr := TrimSpace (sdrop (imgEnd + 1) entryHTML) in
      if bool_decide (levelStr = "-") || bool_decide (levelStr = "") then None
      else
        let levelStr := TrimSpace (TrimPrefix levelStr "Lv.") in
        let level := (ParseUint levelStr 255).1 in
        classJobID ← lodestoneJobIDs !! jobName;
        Some (mkClassJobRecord charID classJobID jobName (u8 level) 0).

(** [rest] is [html[searchFrom:]]; the next search starts one byte past the
    start of the closing tag. *)
Fixpoint class_jobs_loop (fuel : nat) (rest : string) (charID : Z) : list ClassJobRecord :=
  match fuel with
  | O => []
  | S fuel =>
      match Index rest "<li>" with
      | None => []
      | Some liIdx =>
          let li := sdrop liIdx rest in
          match Index li "</li>" with
          | None => []
          | Some liEnd =>
              match class_job_entry (stake liEnd li) charID with
              | Some job => job :: class_jobs_loop fuel (sdrop (liEnd + 1) li) charID
              | None => class_jobs_loop fuel (sdrop (liEnd + 1) li) charID
              end
          end
      end
  end.
Definition parseClassJobs (html : string) (charID : Z) : list ClassJobRecord :=
  match Index html (class_marker "character__level__list") with
  | None => []
  | Some listIdx => class_jobs_loop (S (String.length html)) (sdrop listIdx html) charID
  end.

(** ** The profile *)

Definition male_sign : string := bytes [226; 153; 130]%nat.
Definition female_sign : string := bytes [226; 153; 128]%nat.

Definition parse_gender (combined : string) : Z * string :=
  if Contains combined male_sign then (1, ReplaceAll combined male_sign "")
  else if Contains combined female_sign then (2, ReplaceAll combined female_sign "")
  else (0, combined).
(** Race and tribe; the text has lost its gender sign. *)
Definition split_race (combined : string) : string * string :=
  let combined := match cut combined " / " with Some (a, _) => a | None => combined end in
  let combined := TrimSpace combined in
  if HasPrefix combined "Au Ra " then ("Au Ra", TrimSpace (sdrop 6 combined))
  else match Index combined " " with
       | Some (S n) => (stake (S n) combined, TrimSpace (sdrop (S n + 1) combined))
       | _ => (combined, "")
       end.
Definition fc_name (html endTag : string) : string :=
  TrimSpace (TrimPrefix (extractTextBetween html (class_marker "character__freecompany__name") endTag) "Free Company").

Definition parseCharacterProfile (html : string) (id : Z) : result CharacterProfile :=
  let name := TrimSpace (extractTextBetween html (class_marker "frame__chara__name") "</p>") in
  if bool_decide (name = "") then Err (ErrorString "could not parse character name from HTML")
  else
    let worldText := TrimSpace (extractTextBetween html (class_marker "frame__chara__world") "</p>") in
    let worldText := TrimSuffix (TrimPrefix worldText "(") ")" in
    let '(world, dc) := match worldDCRe worldText with Some wd => wd | None => (worldText, "") end in
    let bio := TrimSpace (extractTextBetween html (class_marker "character__profile__state") "</p>") in
    let raceTribe := extractAllTextBetween html (class_marker "character-block__name") "</p>" in
    let '(gender, combined) := match raceTribe with r0 :: _ => parse_gender (TrimSpace r0) | [] => (0, "") end in
    let '(race, tribe) := match raceTribe with _ :: _ => split_race combined | [] => ("", "") end in
    let tribe := match raceTribe with
                 | _ :: r1 :: _ => if bool_decide (tribe = "") then TrimSpace r1 else tribe
                 | _ => tribe
                 end in
    let grandCompany := match raceTribe with
                        | _ :: _ :: _ :: r3 :: _ =>
                            let gcText := TrimSpace r3 in TrimSpace (match cut gcText " / " with Some (a, _) => a | None => gcText end)
                        | _ => ""
                        end in
    let fcName := fc_name html "</a>" in
    let fcName := if bool_decide (fcName = "") then fc_name html "</h4>" else fcName in
    let fcLink := extractHref html (class_marker "character__freecompany__name") in
    let fcLink := if bool_decide (fcLink = "") then extractHref html (class_marker "character__freecompany__crest") else fcLink in
    Ok (mkCharacterProfile id name world dc gender bio race tribe grandCompany (default "" (fcIDRe fcLink)) fcName
          (extractAlt html (class_marker "character__class_icon")) (parseClassJobs html id)).

(** ** Achievement pages *)

(** The nodes of [golang.org/x/net/html]. *)
Inductive nodeType := ElementNode | TextNode | OtherNode.
#[warnings="-register-all"]
Inductive htmlNode := Node (type : nodeType) (data : string) (attrs : list (string * string)) (children : list htmlNode).
Definition node_type (n : htmlNode) : nodeType := let 'Node t _ _ _ := n in t.
Definition node_data (n : htmlNode) : string := let 'Node _ d _ _ := n in d.
Definition node_attrs (n : htmlNode) : list (string * string) := let 'Node _ _ a _ := n in a.

Fixpoint findHTMLNode (match_ : htmlNode -> bool) (root : htmlNode) : option htmlNode :=
  if match_ root then Some root
  else let 'Node _ _ _ children := root in
       (fix go (l : list htmlNode) : option htmlNode :=
          match l with
          | [] => None
          | child :: l => match findHTMLNode match_ child with Some found => Some found | None => go l end
          end) children.
Definition hasHTMLClass (node : htmlNode) (want : string) : bool :=
  existsb (fun kv => bool_decide (kv.1 = "class") && existsb (fun className => bool_decide (className = want)) (Fields kv.2)) (node_attrs node).
Fixpoint htmlNodeText (node : htmlNode) : string :=
  let 'Node t d _ children := node in
  (match t with TextNode => d | _ => "" end)
  +:+ (fix go (l : list htmlNode) : string := match l with [] => "" | c :: l => htmlNodeText c +:+ go l end) children.
Definition htmlNodeAttr (node : htmlNode) (key : string) : string :=
  match filter (fun kv => kv.1 = key) (node_attrs node) with [] => "" | kv :: _ => kv.2 end.

Definition is_element (node : htmlNode) (name : string) : bool :=
  match node_type node with ElementNode => bool_decide (node_data node = name) | _ => false end.

Definition achievementNameFromActivityText (text : string) : string :=
  match achievementActivityNameRe (TrimSpace text) with Some name => name | None => TrimSpace text end.
Definition extractAchievementName (html : string) : string :=
  match nameRe html with Some name => TrimSpace name | None => "" end.

Context (html_Parse : string -> result htmlNode).

(** The epoch of the [time] element below a row, as an instant. *)
Definition row_time (row : htmlNode) (missing : string) : result Z :=
  match findHTMLNode (fun node => is_element node "time" && hasHTMLClass node "entry__activity__time") row with
  | None => Err (ErrorString missing)
  | Some timeNode =>
      match timestampEpochRe (htmlNodeText timeNode) with
      | None => Err (ErrorString missing)
      | Some digits => let '(epoch, ok) := ParseUint digits max_int64 in
                       if ok then Ok (epoch * second) else Err (ErrWrap "parse epoch" (ErrorString "value out of range"))
      end
  end.

Definition extractAchievementTimestamp (html : string) : result Z :=
  match html_Parse html with
  | Err e => Err (ErrWrap "parse achievement HTML" e)
  | Ok doc =>
      match findHTMLNode (fun node => is_element node "div" && hasHTMLClass node "entry__achievement__view--complete") doc with
      | None => Err (ErrorString "completed achievement row not found")
      | Some completeRow => row_time completeRow "completed achievement timestamp not found"
      end
  end.

Definition is_achievement_link (node : htmlNode) : bool :=
  is_element node "a" && hasHTMLClass node "entry__achievement"
  && match achievementDetailIDRe (htmlNodeAttr node "href") with Some _ => true | None => false end.
Definition extractLatestAchievement (html : string) : result (option AchievementResult) :=
  match html_Parse html with
  | Err e => Err (ErrWrap "parse achievement list HTML" e)
  | Ok doc =>
      match findHTMLNode is_achievement_link doc with
      | None => Ok None
      | Some row =>
          earnedAt ← row_time row "latest completed achievement timestamp not found";
          match achievementDetailIDRe (htmlNodeAttr row "href") with
          | None => Err (ErrorString "latest completed achievement ID not found")
          | Some digits =>
              let '(id, ok) := ParseUint digits max_uint32 in
              if ok then
                let name := match findHTMLNode (fun node => match node_type node with ElementNode => true | _ => false end
                                                            && hasHTMLClass node "entry__activity__txt") row with
                            | Some nameNode => achievementNameFromActivityText (htmlNodeText nameNode)
                            | None => ""
                            end in
                Ok (Some (mkAchievementResult id name true earnedAt))
              else Err (ErrWrap "parse achievement ID" (ErrorString "value out of range"))
          end
      end
  end.
End Extract.
