(* ===== verification/LodestonePageFacts.v ===== *)
(** * Lodestone pages: theorems

    The loops over a page end by themselves, and the job list reads back what a
    page lists. *)
From Stdlib Require Import Ascii.
From stdpp Require Import pretty.
From S2P Require Import Prelude GoErrors GoStrings Contract Dates Payloads LodestonePage.

(** ** The loops end *)

Lemma Index_bound s sep n : Index s sep = Some n -> (n + String.length sep <= String.length s)%nat.
Proof.
  revert n. induction s as [|a s IH]; intros n; cbn [Index]; unfold HasPrefix.
  - destruct (strip_prefix sep "") as [r|] eqn:H; [|done]. intros [= <-]. apply strip_prefix_Some in H. apply (f_equal String.length) in H.
    rewrite string_length_app in H. cbn in H |- *. lia.
  - destruct (strip_prefix sep (String a s)) as [r|] eqn:H.
    + intros [= <-]. apply strip_prefix_Some in H. rewrite H, string_length_app. lia.
    + destruct (Index s sep) as [m|] eqn:Hm; [|done]. intros [= <-]. specialize (IH m eq_refl). cbn. lia.
Qed.

(** More fuel than bytes changes nothing: each round drops a byte. *)
Lemma class_jobs_loop_fuel charID n m s : (String.length s < n)%nat -> (String.length s < m)%nat ->
  class_jobs_loop n s charID = class_jobs_loop m s charID.
Proof.
  revert m s. induction n as [|n IH]; intros [|m] s Hn Hm; [lia..|]. cbn [class_jobs_loop].
  destruct (Index s "<li>") as [li|] eqn:H1; [|done]. destruct (Index (sdrop li s) "</li>") as [e|] eqn:H2; [|done].
  apply Index_bound in H1, H2. rewrite length_sdrop in H2. cbn in H1, H2.
  assert (Hl : (String.length (sdrop (e + 1) (sdrop li s)) < String.length s)%nat) by (rewrite !length_sdrop; lia).
  rewrite (IH m) by lia. done.
Qed.
Lemma all_text_between_fuel order startMarker endTag n m s : startMarker <> "" -> (String.length s < n)%nat -> (String.length s < m)%nat ->
  all_text_between order n s startMarker endTag = all_text_between order m s startMarker endTag.
Proof.
  intros Hmark. revert m s. induction n as [|n IH]; intros [|m] s Hn Hm; [lia..|]. cbn [all_text_between].
  destruct (Index s startMarker) as [i|] eqn:H1; [|done]. destruct (Index (sdrop i s) ">") as [t|] eqn:H2; [|done].
  destruct (Index (sdrop (i + t + 1) s) endTag) as [e|] eqn:H3; [|done].
  apply Index_bound in H1, H2, H3. rewrite length_sdrop in H2, H3. cbn in H2.
  assert (Hl : (String.length (sdrop (e + String.length endTag) (sdrop (i + t + 1) s)) < String.length s)%nat) by (rewrite !length_sdrop; lia).
  f_equal. apply IH; lia.
Qed.

(** ** A job list *)

(** The entry of a job, as the pages render it. *)
Definition render_job (name level : string) : string :=
  "<li><img data-tooltip=" +:+ quote +:+ name +:+ quote +:+ ">" +:+ level +:+ "</li>".
Definition render_jobs (jobs : list (string * Z)) (after : string) : string :=
  foldr (fun j rest => render_job j.1 (pretty j.2) +:+ rest) after jobs.

(** A job the client knows, at a level of eight bits. *)
Definition listable (j : string * Z) : Prop := is_Some (lodestoneJobIDs !! j.1) /\ 0 <= j.2 <= 255.
Definition job_record (charID : Z) (j : string * Z) : ClassJobRecord :=
  mkClassJobRecord charID (default 0 (lodestoneJobIDs !! j.1)) j.1 j.2 0.

(** The names of the table and the eight-bit numbers are plain text, so the
    cleaning steps of the parser leave them alone. *)
Definition name_ok (name : string) : bool :=
  negb (bool_decide (name = "")) && free_of "<"%char name && free_of ">"%char name && free_of (ascii_of_nat 34) name
  && bool_decide (TrimSuffix name " (Limited Job)" = name) && match Index name " / " with None => true | Some _ => false end
  && bool_decide (TrimSpace name = name).
Definition level_ok (z : Z) : bool :=
  let s := pretty z in
  free_of "<"%char s && free_of ">"%char s && negb (bool_decide (s = "")) && negb (bool_decide (s = "-"))
  && bool_decide (TrimSpace s = s) && bool_decide (TrimPrefix s "Lv." = s) && bool_decide (ParseUint s 255 = (z, true)).

Lemma name_plain name : is_Some (lodestoneJobIDs !! name) ->
  name <> "" /\ free_of "<"%char name = true /\ free_of ">"%char name = true /\ free_of (ascii_of_nat 34) name = true /\
  TrimSuffix name " (Limited Job)" = name /\ Index name " / " = None /\ TrimSpace name = name.
Proof.
  intros [id Hid]. assert (H : forallb (fun kv => name_ok kv.1) (map_to_list lodestoneJobIDs) = true) by (vm_compute; reflexivity).
  rewrite forallb_forall in H. specialize (H (name, id) (proj1 (list_elem_of_In _ _) (proj2 (elem_of_map_to_list _ _ _) Hid))). clear Hid.
  cbn [fst] in H. unfold name_ok in H. rewrite !andb_true_iff, negb_true_iff, !bool_decide_eq_true, bool_decide_eq_false in H.
  destruct (Index name " / "); tauto || (destruct H as [[[[[[? ?] ?] ?] ?] ?] ?]; done).
Qed.
Lemma level_plain z : 0 <= z <= 255 ->
  free_of "<"%char (pretty z) = true /\ free_of ">"%char (pretty z) = true /\ pretty z <> "" /\ pretty z <> "-" /\
  TrimSpace (pretty z) = pretty z /\ TrimPrefix (pretty z) "Lv." = pretty z /\ ParseUint (pretty z) 255 = (z, true).
Proof.
  intros Hz. assert (H : level_ok z = true) by (apply (forallb_range level_ok 256); [vm_compute; reflexivity|lia]).
  unfold level_ok in H. rewrite !andb_true_iff, !negb_true_iff, !bool_decide_eq_true, !bool_decide_eq_false in H. tauto.
Qed.
#[local] Opaque lodestoneJobIDs.

Lemma LastIndex_free c a s : free_of c s = true -> LastIndex (a +:+ String c s) (String c "") = Some (String.length a).
Proof.
  intros Hs. assert (Hn : LastIndex s (String c "") = None).
  { induction s as [|x s IH]; [done|]. cbn in Hs. bsplit. cbn [LastIndex]. rewrite IH by done. by rewrite HasPrefix_head. }
  induction a as [|x a IH].
  - change ("" +:+ String c s) with (String c s). cbn [LastIndex]. rewrite Hn. unfold HasPrefix. cbn [strip_prefix]. by rewrite decide_True.
  - rewrite string_cons_app. cbn [LastIndex]. by rewrite IH.
Qed.

Lemma Index_upto c a s sep : free_of c a = true -> HasPrefix (String c s) (String c sep) = true ->
  Index (a +:+ String c s) (String c sep) = Some (String.length a).
Proof.
  intros Ha Hp. rewrite Index_free by done. cbn [Index]. rewrite Hp. cbn. by rewrite Nat.add_0_r.
Qed.

(** One entry. *)
Lemma class_job_entry_render charID j : listable j ->
  class_job_entry ("<li><img data-tooltip=" +:+ quote +:+ j.1 +:+ quote +:+ ">" +:+ pretty j.2) charID = Some (job_record charID j).
Proof.
  destruct j as [name level]. intros [Hname Hlevel]. cbn [fst snd] in *.
  destruct (name_plain name Hname) as (N1 & N2 & N3 & N4 & N5 & N6 & N7). destruct (level_plain level Hlevel) as (L1 & L2 & L3 & L4 & L5 & L6 & L7).
  set (text := pretty level) in *. unfold class_job_entry.
  assert (Hattr : extractAttribute ("<li><img data-tooltip=" +:+ quote +:+ name +:+ quote +:+ ">" +:+ text) "data-tooltip" = name).
  { unfold extractAttribute. change (Index ("<li><img data-tooltip=" +:+ quote +:+ name +:+ quote +:+ ">" +:+ text) ("data-tooltip" +:+ "=" +:+ quote)) with (Some 9%nat).
    cbn [mbind option_bind]. change (sdrop _ _) with (name +:+ String (ascii_of_nat 34) (">" +:+ text)).
    assert (Hi : Index (name +:+ String (ascii_of_nat 34) (">" +:+ text)) quote = Some (String.length name)) by exact (Index_upto (ascii_of_nat 34) name (">" +:+ text) "" ltac:(done) eq_refl).
    rewrite Hi. cbn [mbind option_bind default]. apply stake_app. }
  set (head := "<li><img data-tooltip=" +:+ quote +:+ name +:+ quote).
  assert (Hsplit : "<li><img data-tooltip=" +:+ quote +:+ name +:+ quote +:+ ">" +:+ text = head +:+ String ">"%char text)
    by (unfold head; by rewrite !string_app_assoc).
  rewrite Hattr, (bool_decide_false (name = "")), N5, N6, N7, Hsplit by done.
  rewrite (LastIndex_free ">"%char head text L2). cbn [mbind option_bind].
  replace (String.length (head +:+ String ">"%char text) <=? String.length head + 1)%nat with false
    by (symmetry; apply Nat.leb_gt; rewrite string_length_app; cbn; destruct text; [done|cbn; lia]).
  replace (sdrop (String.length head + 1) (head +:+ String ">"%char text)) with text.
  2:{ replace (head +:+ String ">"%char text) with ((head +:+ ">") +:+ text) by (by rewrite string_app_assoc).
      replace (String.length head + 1)%nat with (String.length (head +:+ ">")) by (rewrite string_length_app; cbn; lia). by rewrite sdrop_app. }
  rewrite L5, (bool_decide_false (text = "-")), (bool_decide_false (text = "")), L6, L5, L7 by done. cbn [orb fst].
  unfold job_record. cbn [fst snd]. destruct Hname as [id ->]. cbn. do 2 f_equal. unfold u8. apply Z.mod_small. lia.
Qed.

(** Text that holds no start of an entry, whatever follows it. *)
Definition skips (junk : string) : Prop := forall s, Index (junk +:+ s) "<li>" = Nat.add (String.length junk) <$> Index s "<li>".

Lemma class_jobs_step n junk j rest charID : listable j -> skips junk ->
  class_jobs_loop (S n) (junk +:+ render_job j.1 (pretty j.2) +:+ rest) charID
  = job_record charID j :: class_jobs_loop n ("/li>" +:+ rest) charID.
Proof.
  intros Hj Hskip. pose proof (class_job_entry_render charID j Hj) as Hentry. destruct Hj as [Hname Hlevel].
  destruct (name_plain _ Hname) as (_ & N2 & _). destruct (level_plain _ Hlevel) as (L1 & _).
  set (entry := "<li><img data-tooltip=" +:+ quote +:+ j.1 +:+ quote +:+ ">" +:+ pretty j.2) in *.
  assert (Hr : render_job j.1 (pretty j.2) +:+ rest = entry +:+ "</li>" +:+ rest)
    by (unfold render_job, entry; by rewrite !string_app_assoc).
  assert (Hend : Index (entry +:+ "</li>" +:+ rest) "</li>" = Some (String.length entry)).
  { unfold entry. rewrite !string_app_assoc. rewrite (Index_no_start "<li><img data-tooltip=") by reflexivity.
    rewrite (Index_no_start quote) by reflexivity. change "</li>" with (String "<"%char "/li>") at 2. rewrite Index_free by done.
    rewrite (Index_no_start quote), (Index_no_start ">") by reflexivity. rewrite Index_free by done.
    rewrite (Index_hit rest "</li>"). cbn [fmap option_fmap option_map]. f_equal. rewrite !string_length_app. cbn [String.length]. lia. }
  rewrite Hr. cbn [class_jobs_loop]. rewrite Hskip. change (Index (entry +:+ _) "<li>") with (Some O). cbn [fmap option_fmap option_map].
  rewrite Nat.add_0_r, sdrop_app, Hend, stake_app, Hentry. f_equal.
  replace (sdrop (String.length entry + 1) (entry +:+ "</li>" +:+ rest)) with ("/li>" +:+ rest); [done|].
  replace (entry +:+ "</li>" +:+ rest) with ((entry +:+ "<") +:+ "/li>" +:+ rest) by (by rewrite !string_app_assoc).
  replace (String.length entry + 1)%nat with (String.length (entry +:+ "<")) by (rewrite string_length_app; cbn; lia). by rewrite sdrop_app.
Qed.

Lemma skips_closing : skips "/li>".
Proof. intros s. apply Index_free. done. Qed.
Lemma skips_opening : skips (class_marker "character__level__list" +:+ "><ul>").
Proof.
  intros s. apply Index_no_start. reflexivity.
Qed.

Lemma class_jobs_loop_render charID jobs after : Forall listable jobs -> Index after "<li>" = None ->
  forall n junk, skips junk -> (String.length (junk +:+ render_jobs jobs after) < n)%nat ->
  class_jobs_loop n (junk +:+ render_jobs jobs after) charID = job_record charID <$> jobs.
Proof.
  intros Hjobs Hafter. induction Hjobs as [|j jobs Hj _ IH]; intros n junk Hskip Hn.
  - destruct n; [done|]. cbn [render_jobs foldr class_jobs_loop]. by rewrite Hskip, Hafter.
  - destruct n as [|n]; [lia|]. change (render_jobs (j :: jobs) after) with (render_job j.1 (pretty j.2) +:+ render_jobs jobs after) in *.
    rewrite class_jobs_step by done. cbn [fmap list_fmap]. f_equal. apply (IH n "/li>" skips_closing).
    revert Hn. unfold render_job. rewrite !string_length_app. cbn. lia.
Qed.

(** C25: the class and job list reads back.  For any list of jobs of
    the client's table at levels up to 255, rendered in the markup of the
    profile page anywhere after the first list marker, with no further list
    entry after it, [parseClassJobs] returns exactly those jobs in order, with
    the ids of the table. *)
Theorem parseClassJobs_roundtrip before jobs after charID :
  Forall listable jobs -> Index after "<li>" = None ->
  let html := before +:+ class_marker "character__level__list" +:+ "><ul>" +:+ render_jobs jobs after in
  Index html (class_marker "character__level__list") = Some (String.length before) ->
  parseClassJobs html charID = job_record charID <$> jobs.
Proof.
  intros Hjobs Hafter html Hidx. unfold parseClassJobs. rewrite Hidx.
  assert (Hd : sdrop (String.length before) html = (class_marker "character__level__list" +:+ "><ul>") +:+ render_jobs jobs after)
    by (unfold html; rewrite sdrop_app; by rewrite string_app_assoc).
  rewrite Hd. apply class_jobs_loop_render; [done|done|apply skips_opening|].
  rewrite <-Hd, length_sdrop. lia.
Qed.

Lemma parseClassJobs_roundtrip_witness :
  parseClassJobs ("<html><div " +:+ class_marker "character__level__list" +:+ "><ul>"
    +:+ render_jobs [("Paladin", 100); ("Blue Mage", 80)] "</ul></div></html>") 7
  = [mkClassJobRecord 7 19 "Paladin" 100 0; mkClassJobRecord 7 36 "Blue Mage" 80 0].
Proof.
  refine (eq_trans (parseClassJobs_roundtrip "<html><div " [("Paladin", 100); ("Blue Mage", 80)] "</ul></div></html>" 7 _ _ _) _).
  - repeat constructor; cbn; try lia; eexists; vm_compute; reflexivity.
  - reflexivity.
  - reflexivity.
  - vm_compute. reflexivity.
Defined.

(** ** A whole profile *)

Definition sample_page : string :=
  "<p " +:+ class_marker "frame__chara__name" +:+ ">Aya Tan</p><p " +:+ class_marker "frame__chara__world"
  +:+ "><i></i>Omega [Chaos]</p><p " +:+ class_marker "character-block__name" +:+ ">Au Ra<br />Raen / " +:+ female_sign
  +:+ "</p><p " +:+ class_marker "character-block__name" +:+ ">1st Sun</p><p " +:+ class_marker "character-block__name"
  +:+ ">Gridania</p><p " +:+ class_marker "character-block__name" +:+ ">Maelstrom / Captain</p>"
  +:+ "<div " +:+ class_marker "character__freecompany__name" +:+ "><p>Free Company</p><h4><a href=" +:+ quote
  +:+ "/lodestone/freecompany/9231/" +:+ quote +:+ ">Tea &amp; Cake</a></h4></div><div " +:+ class_marker "character__level__list"
  +:+ "><ul>" +:+ render_job "Sage" "90" +:+ "</ul></div>".
Example sample_profile : parseCharacterProfile entityMap sample_page 5
  = Ok (mkCharacterProfile 5 "Aya Tan" "Omega" "Chaos" 2 "" "Au Ra" "Raen" "Maelstrom" "9231" "Tea & Cake" ""
      [mkClassJobRecord 5 40 "Sage" 90 0]).
Proof. vm_compute. reflexivity. Qed.

(** Decoding entities one after the other depends on the order of the range:
    an escaped ampersand may be decoded before or after the entity it spells. *)
Lemma stripTags_order_matters : exists order1 order2, order1 ≡ₚ entityMap /\ order2 ≡ₚ entityMap /\
  stripTags order1 "&amp;lt;" = "<" /\ stripTags order2 "&amp;lt;" = "&lt;".
Proof.
  exists entityMap, (reverse entityMap). split; [done|]. split; [apply reverse_Permutation|]. split; vm_compute; reflexivity.
Qed.
