(* ===== verification/Census.v ===== *)
(** * The census service and its queue handlers
      ([domain/census/service.go], [milestone.go],
       [domain/census/handler])

    The service turns Lodestone profiles into census rows; the handlers turn
    queue payloads into fetches, writes and follow-up jobs.  They run over a
    world that holds the census tables, the service state, the clock, the
    database driver's behaviour and the Lodestone client. *)
From S2P Require Import Prelude GoErrors GoStrings Contract Payloads Worlds CharacterStore.

(** ** Milestones *)

Record ExpansionConfig := mkExpansion {
  ex_Name : string; ex_Version : string; ex_FinalQuest : string; ex_Icon : string; ex_LevelCap : Z; ex_AchievementID : Z;
}.
Definition DefaultExpansions : list ExpansionConfig := [
  mkExpansion "A Realm Reborn" "Patch 2.55" "Before the Dawn" "🌱" 50 1129;
  mkExpansion "Heavensward" "Patch 3.0" "Looking Up" "❄️" 60 1139;
  mkExpansion "Stormblood" "Patch 4.0" "The Measure of His Reach" "⚔️" 70 1794;
  mkExpansion "Shadowbringers" "Patch 5.0" "Shadowbringers" "🌑" 80 2298;
  mkExpansion "Endwalker" "Patch 6.0" "That Its Chorus Might Ring for All" "🌕" 90 2958;
  mkExpansion "Dawntrail" "Patch 7.0" "In the Glow of a New Dawn" "☀️" 100 3496].

Definition BuildMilestones (expansions : list ExpansionConfig) : list MilestoneAchievement :=
  mkMilestoneAchievement 590 MilestoneKindChocobo None "My Little Chocobo"
  :: (expansions ≫= (fun exp =>
        if 0 <? ex_AchievementID exp then
          let detail := if bool_decide (ex_Name exp = "A Realm Reborn") && bool_decide (ex_FinalQuest exp = "Before the Dawn")
                        then "My Left Arm" else ex_FinalQuest exp in
          [mkMilestoneAchievement (ex_AchievementID exp) MilestoneKindExpansion (Some (ex_Name exp)) detail]
        else [])).

(** ** Service state and world *)

Definition defaultActivityWindow : Z := 30 * day.

(** A nil cache is an empty list: the registry query returns nil when it has
    no rows. *)
Record Service := mkService {
  sv_activityWindow : Z;
  sv_maxLevel : Z;
  sv_expansions : list ExpansionConfig;
  sv_milestoneCache : list MilestoneAchievement;
  sv_milestoneCacheAt : Z;
  sv_milestoneCacheTTL : Z;
}.
Definition NewService : Service :=
  mkService defaultActivityWindow 100 DefaultExpansions [] zero_time (5 * minute).

Definition SetConfig (maxLevel : Z) (expansions : list ExpansionConfig) (s : Service) : Service :=
  let s := if 0 <? maxLevel then s{{ sv_maxLevel := maxLevel }} else s in
  match expansions with [] => s | _ => s{{ sv_expansions := expansions }} end.
Definition SetActivityWindow (d : Z) (s : Service) : Service :=
  if 0 <? d then s{{ sv_activityWindow := d }} else s.

(** [contract.LodestoneClient]. *)
Class LodestoneClient (L : Type) := {
  ld_FetchCharacter : Z -> ST L (result CharacterProfile);
  ld_FetchAchievements : Z -> list Z -> ST L (result (option AchievementSummary));
}.

(** The [n]th reading of the clock is [cw_clock n]; the driver answers the
    [n]th database call with [cw_fault n]. *)
Record CensusWorld (L : Type) := mkCensusWorld {
  cw_db : CensusDB;
  cw_svc : Service;
  cw_clock : nat -> Z;
  cw_ticks : nat;
  cw_fault : nat -> fault;
  cw_calls : nat;
  cw_lode : L;
}.
Arguments mkCensusWorld {L}.
Arguments cw_db {L}.
Arguments cw_svc {L}.
Arguments cw_clock {L}.
Arguments cw_ticks {L}.
Arguments cw_fault {L}.
Arguments cw_calls {L}.
Arguments cw_lode {L}.

Section Handlers.
Context {L : Type} `{LodestoneClient L}.
Abbreviation M := (ST (CensusWorld L)).

Definition now_ : M Z := fun w =>
  (mkCensusWorld (cw_db w) (cw_svc w) (cw_clock w) (S (cw_ticks w)) (cw_fault w) (cw_calls w) (cw_lode w),
   cw_clock w (cw_ticks w)).
Definition get_service : M Service := fun w => (w, cw_svc w).
Definition set_service (s : Service) : M unit := fun w =>
  (mkCensusWorld (cw_db w) s (cw_clock w) (cw_ticks w) (cw_fault w) (cw_calls w) (cw_lode w), tt).
Definition db_write {A} (op : CensusDB -> fault -> CensusDB * result A) : M (result A) := fun w =>
  let '(db, r) := op (cw_db w) (cw_fault w (cw_calls w)) in
  (mkCensusWorld db (cw_svc w) (cw_clock w) (cw_ticks w) (cw_fault w) (S (cw_calls w)) (cw_lode w), r).
Definition db_read {A} (op : CensusDB -> fault -> result A) : M (result A) :=
  db_write (fun db f => (db, op db f)).
Definition on_lodestone {A} (m : ST L A) : M A := fun w =>
  let '(l, a) := m (cw_lode w) in
  (mkCensusWorld (cw_db w) (cw_svc w) (cw_clock w) (cw_ticks w) (cw_fault w) (cw_calls w) l, a).

(** ** Service operations *)

Definition hiddenRace (race : string) : bool :=
  let race := TrimSpace race in bool_decide (race = "") || bool_decide (race = "----").

Definition profileToRecord (now : Z) (char : CharacterProfile) : CharacterRecord := {|
  cr_ID := cp_ID char; cr_Name := cp_Name char; cr_World := cp_World char; cr_Datacenter := cp_Datacenter char;
  cr_Region := RegionForDatacenter (cp_Datacenter char); cr_Race := cp_Race char; cr_Tribe := cp_Tribe char;
  cr_Gender := cp_Gender char; cr_GrandCompany := cp_GrandCompany char;
  cr_FreeCompanyID := if bool_decide (cp_FreeCompanyID char = "") then None else Some (cp_FreeCompanyID char);
  cr_FreeCompanyName := if bool_decide (cp_FreeCompanyName char = "") then None else Some (cp_FreeCompanyName char);
  cr_Bio := cp_Bio char; cr_ActiveJob := cp_ActiveJob char; cr_ItemLevel := 0; cr_AchievementsPrivate := false;
  cr_LatestAchievementID := None; cr_LatestAchievementAt := None;
  cr_FirstSeenAt := now; cr_LastCensusAt := Some now; cr_DeletedAt := None |}.

Definition profileToJobs (char : CharacterProfile) : list ClassJobRecord :=
  (fun j => mkClassJobRecord (cp_ID char) (cj_ClassJobID j) (cj_Name j) (cj_Level j) (cj_ExpLevel j)) <$> cp_ClassJobs char.

Definition UpsertCharacter (char : CharacterProfile) : M (result unit) :=
  if hiddenRace (cp_Race char) then mret (Err (ErrSentinel ErrProfileHidden))
  else if bool_decide (TrimSpace (cp_Name char) = "") then mret (Err (ErrorString "cannot upsert character: name is empty"))
  else
    now ← now_;
    db_write (fun db f => Upsert db f (profileToRecord now char) (profileToJobs char)).

Definition MarkCharacterDeleted (id at_ : Z) : M (result unit) :=
  db_write (fun db f => MarkDeleted db f id at_).

Definition svc_SyncMilestones : M (result unit) :=
  s ← get_service;
  r ← db_write (fun db f => SyncMilestones db f (BuildMilestones (sv_expansions s)));
  match r with
  | Err e => mret (Err e)
  | Ok _ =>
      s ← get_service;
      _ ← set_service (s{{ sv_milestoneCache := []; sv_milestoneCacheAt := zero_time }});
      mret (Ok tt)
  end.

Definition cachedMilestones : M (result (list MilestoneAchievement)) :=
  s ← get_service;
  now ← now_;
  if bool_decide (sv_milestoneCache s <> []) && (time_sub now (sv_milestoneCacheAt s) <? sv_milestoneCacheTTL s)
  then mret (Ok (sv_milestoneCache s))
  else
    r ← db_read ListMilestones;
    match r with
    | Err e => mret (Err e)
    | Ok fresh =>
        at_ ← now_;
        s ← get_service;
        _ ← set_service (s{{ sv_milestoneCache := fresh; sv_milestoneCacheAt := at_ }});
        mret (Ok fresh)
    end.

Definition MilestoneIDs : M (result (gset Z)) :=
  r ← cachedMilestones;
  mret ((fun registry => list_to_set (ma_AchievementID <$> registry)) <$> r).

Definition earned_milestones (charID : Z) (registry : list MilestoneAchievement) (results : list AchievementResult)
    : list CharacterMilestone :=
  (fun r => mkCharacterMilestone charID (ar_AchievementID r) (ar_EarnedAt r)) <$>
    filter (fun r => ar_Earned r = true /\ ar_AchievementID r ∈ (ma_AchievementID <$> registry)) results.

Definition ProcessMilestoneResults (charID : Z) (summary : option AchievementSummary)
    : M (result (list CharacterMilestone)) :=
  match summary with
  | None => mret (Err (ErrorString "nil achievement summary"))
  | Some summary =>
      if as_Private summary then
        r ← db_write (fun db f => SetAchievementsPrivate db f charID true);
        mret ((fun _ => []) <$> r)
      else
        r ← cachedMilestones;
        match r with
        | Err e => mret (Err e)
        | Ok [] => mret (Err (ErrorString "milestone registry is empty; run SyncMilestones before processing achievements"))
        | Ok registry =>
            let milestones := earned_milestones charID registry (as_Milestones summary) in
            r ← db_write (fun db f => UpsertCharacterMilestones db f milestones);
            match r with
            | Err e => mret (Err e)
            | Ok _ =>
                r ← db_write (fun db f => UpdateAchievementSummary db f charID false
                       (ar_AchievementID <$> as_LatestAchievement summary) (ar_EarnedAt <$> as_LatestAchievement summary));
                mret ((fun _ => milestones) <$> r)
            end
        end
  end.

Definition IsActive (s : Service) (now latestAt : Z) : bool :=
  negb (is_zero_time latestAt) && (time_sub now latestAt <=? sv_activityWindow s).
Definition activitySince (s : Service) (now : Z) : Z := now - sv_activityWindow s.

(** The three counts of [Summary], with the first error winning. *)
Definition Summary (fold_case : string -> string) : M (result (Z * Z * Z)) :=
  s ← get_service;
  now ← now_;
  total ← db_read (fun db f => Count fold_case db f zeroFilter);
  active ← db_read (fun db f => CountActive db f (activitySince s now));
  maxed ← db_read (fun db f => Count fold_case db f (zeroFilter{{ cf_MinLevel := sv_maxLevel s }}));
  mret (t ← total; a ← active; m ← maxed; mret (t, a, m)).
Definition svc_SummaryCounts : M (result (Z * Z * Z)) :=
  s ← get_service;
  now ← now_;
  db_read (fun db f => SummaryCounts db f (activitySince s now) (sv_maxLevel s)).

(** ** Handlers *)

Definition poison (e : gerror) : gerror := ErrJoin [ErrSentinel ErrPoisonPayload; e].

(** [storeLodestone]: a hidden profile is skipped. *)
Definition storeLodestone (char : CharacterProfile) : M (result (list QueueJob)) :=
  r ← UpsertCharacter char;
  match r with
  | Err e => if errors_Is e ErrProfileHidden then mret (Ok []) else mret (Err (ErrWrap "id-sweep upsert" e))
  | Ok _ => mret (Ok (BuildDependentCharacterJobs (cp_ID char)))
  end.

(** [for id := p.From; ; id++]: [more] ids follow [id] before [p.To]. *)
Fixpoint sweep_ids (more : nat) (id : Z) (next : list QueueJob) : M (result (list QueueJob)) :=
  r ← on_lodestone (ld_FetchCharacter id);
  stored ←
    match r with
    | Ok char => storeLodestone char
    | Err e => if errors_Is e ErrCharacterNotFound then mret (Ok [])
               else mret (Err (ErrWrap "id-sweep lodestone fetch" e))
    end;
  match stored with
  | Err e => mret (Err e)
  | Ok jobs =>
      match more with
      | O => mret (Ok (next ++ jobs))
      | S more => sweep_ids more (u32 (id + 1)) (next ++ jobs)
      end
  end.

(** [configured]: the worker has a Lodestone client. *)
Definition IDSweep_Handle (configured : bool) (payload : json) : M (result (list QueueJob)) :=
  match unmarshal_IDSweep payload with
  | Err e => mret (Err (poison (ErrWrap "id-sweep payload" e)))
  | Ok p =>
      if is_To p <? is_From p then mret (Err (poison (ErrorString "id-sweep range invalid")))
      else if negb configured then mret (Err (ErrorString "lodestone client unconfigured on this worker"))
      else sweep_ids (Z.to_nat (is_To p - is_From p)) (is_From p) []
  end.

Definition finishLodestone (char : CharacterProfile) : M (result (list QueueJob)) :=
  r ← UpsertCharacter char;
  match r with
  | Err e => if errors_Is e ErrProfileHidden then mret (Ok []) else mret (Err (ErrWrap "character-census upsert" e))
  | Ok _ => mret (Ok (BuildDependentCharacterJobs (cp_ID char)))
  end.

Definition CharacterCensus_Handle (configured : bool) (payload : json) : M (result (list QueueJob)) :=
  match unmarshal_CharacterID payload with
  | Err e => mret (Err (poison (ErrWrap "character-census payload" e)))
  | Ok p =>
      if negb configured then mret (Err (ErrorString "lodestone client unconfigured on this worker"))
      else
        r ← on_lodestone (ld_FetchCharacter (ci_CharacterID p));
        match r with
        | Ok char => finishLodestone char
        | Err e =>
            if errors_Is e ErrCharacterNotFound then
              at_ ← now_;
              r ← MarkCharacterDeleted (ci_CharacterID p) at_;
              match r with
              | Err e => mret (Err (ErrWrap "character-census mark-deleted" e))
              | Ok _ => mret (Ok [])
              end
            else mret (Err (ErrWrap "character-census fetch" e))
        end
  end.

(** The tracked milestones a character does not have yet, ascending. *)
Definition missingMilestoneIDs (ids : gset Z) (known : list CharacterMilestone) : list Z :=
  filter (fun id => id ∉ (cm_AchievementID <$> known)) (merge_sort Z.le (elements ids)).

(** [waited] is the outcome of waiting for a paused provider. *)
Definition AchievementCensus_Handle (waited : result unit) (payload : json) : M (result (list QueueJob)) :=
  match unmarshal_CharacterID payload with
  | Err e => mret (Err (poison (ErrWrap "achievement-census payload" e)))
  | Ok p =>
      let id := ci_CharacterID p in
      match waited with
      | Err e => mret (Err (ErrWrap "achievement-census: waiting for lodestone" e))
      | Ok _ =>
          known ← db_read (fun db f => ListCharacterMilestones db f id);
          let known := match known with Ok l => l | Err _ => [] end in
          ids ← MilestoneIDs;
          match ids with
          | Err e => mret (Err (ErrWrap "achievement-census: get milestone IDs" e))
          | Ok ids =>
              r ← on_lodestone (ld_FetchAchievements id (missingMilestoneIDs ids known));
              match r with
              | Err e =>
                  if errors_Is e ErrCharacterNotFound then
                    at_ ← now_;
                    r ← MarkCharacterDeleted id at_;
                    match r with
                    | Err e => mret (Err (ErrWrap "achievement-census mark-deleted" e))
                    | Ok _ => mret (Ok [])
                    end
                  else mret (Err (ErrWrap "achievement-census fetch" e))
              | Ok summary =>
                  r ← ProcessMilestoneResults id summary;
                  match r with
                  | Err e => mret (Err (ErrWrap "achievement-census process" e))
                  | Ok _ => mret (Ok [])
                  end
              end
          end
      end
  end.
End Handlers.
