(* ===== verification/Lodestone.v ===== *)
(** * The Lodestone client ([infrastructure/lodestone/client.go])

    Requests with the provider limiter, retries and the typed errors that tell
    a dead proxy from a rejecting destination; character and achievement
    fetches over them.  What happens to each attempt (limiter waits, the
    transport, the response, the clock) is given by the network [lw_net]. *)
From Stdlib Require Import Ascii.
From stdpp Require Import pretty.
From S2P Require Import Prelude GoErrors GoStrings Contract Limiter Worlds LodestonePage Census.

(** ** Responses *)

Record response := mkResponse { rp_status : Z; rp_header : string -> string }.
(** The error of [http.Client.Do] and, when its chain has a [net.Error],
    whether that is a timeout; or a response and its body. *)
Inductive reply :=
  | TransportError (e : gerror) (netTimeout : option bool)
  | Response (resp : response) (body : result string).
(** One attempt: the context, the two waits, building the request, the reply,
    the context during the back-off, and the clock when the pause of the
    provider is worked out, when the limiter sets it and when the error of a
    challenge is built. *)
Record exchange := mkExchange {
  ex_ctx : option gerror;
  ex_wait : option gerror;
  ex_token : option gerror;
  ex_build : option gerror;
  ex_reply : reply;
  ex_backoff : option gerror;
  ex_now : Z;
  ex_pausedAt : Z;
  ex_builtAt : Z;
}.

(** [net/http] status codes. *)
Definition StatusOK : Z := 200.
Definition StatusAccepted : Z := 202.
Definition StatusForbidden : Z := 403.
Definition StatusNotFound : Z := 404.
Definition StatusTooManyRequests : Z := 429.

Definition rateLimitPause : Z := 30 * second.
Definition challengePause : Z := 5 * second.

Definition isTimeoutError (e : gerror) (netTimeout : option bool) : bool :=
  match netTimeout with
  | Some timeout => timeout
  | None => errors_Is e ContextDeadlineExceeded
  end.

(** Lower case as far as ASCII text is concerned: besides the upper-case
    letters, the dotted capital I and the Kelvin sign become ASCII. *)
Fixpoint lower_text (s : string) : string :=
  match s with
  | EmptyString => ""
  | String a s1 =>
      let plain := String (Payloads.ascii_lower a) (lower_text s1) in
      match s1 with
      | EmptyString => plain
      | String b s2 =>
          if bool_decide (String a (String b "") = bytes [196; 176]%nat) then "i" +:+ lower_text s2
          else match s2 with
               | EmptyString => plain
               | String c s3 => if bool_decide (String a (String b (String c "")) = kelvin) then "k" +:+ lower_text s3 else plain
               end
      end
  end.
Definition challenge_markers : list string :=
  ["just a moment"; "attention required"; "cf-error-details"; "error 1020"; "cloudflare"].
Definition isCloudflareChallenge (resp : response) (body : string) : bool :=
  if EqualFold "challenge" (rp_header resp "Cf-Mitigated") then true
  else if bool_decide (body = "") then false
  else
    let lower := lower_text (stake (64 * 1024) body) in
    existsb (Contains lower) challenge_markers.

(** ** Retry-After ([infrastructure/httpclient/proxy_transport.go]) *)

(** [strconv.Atoi] on a 64-bit platform. *)
Definition Atoi (s : string) : option Z :=
  let parse (t : string) (max : Z) := let '(v, ok) := ParseUint t max in if ok then Some v else None in
  match s with
  | String "+"%char t => parse t max_int64
  | String "-"%char t => v ← parse t (max_int64 + 1); Some (- v)
  | _ => parse s max_int64
  end.

Section Client.
(** [http.ParseTime]; the HTML parser; the order of the entity map; the
    limiter. *)
Context (http_ParseTime : string -> option Z) (html_Parse : string -> result htmlNode).
Context (order : list (string * string)).
Context {S : Type} (limiter : ProviderRateLimiter S).

Definition ParseRetryAfter (hint : string) (receivedAt : Z) : Z :=
  let hint := TrimSpace hint in
  if bool_decide (hint = "") then 0
  else match Atoi hint with
       | Some secs => if secs <=? 0 then 0 else i64 (secs * second)
       | None =>
           match http_ParseTime hint with
           | Some t => let d := time_sub t receivedAt in if d <=? 0 then 0 else d
           | None => 0
           end
       end.

(** ** Requests *)

(** The client: its retries, the limiter it was given (or none), the network
    and the URLs requested so far. *)
Record lodeWorld := mkLodeWorld {
  lw_maxRetries : Z;
  lw_limiter : option S;
  lw_net : nat -> string -> exchange;
  lw_attempts : nat;
  lw_requests : list string;
}.
#[local] Abbreviation LodeM := (ST lodeWorld).

(** The next attempt at [url]. *)
Definition next_exchange (url : string) : LodeM exchange := fun w =>
  (w{{ lw_attempts := Datatypes.S (lw_attempts w) }}, lw_net w (lw_attempts w) url).
Definition send (url : string) : LodeM unit := fun w => (w{{ lw_requests := lw_requests w ++ [url] }}, tt).
Definition pause (now d : Z) (reason : string) : LodeM unit := fun w =>
  (w{{ lw_limiter := (fun s => prl_Pause limiter s now ProviderLodestone d reason) <$> lw_limiter w }}, tt).

Definition retry_pause (resp : response) (now floor : Z) : Z :=
  let d := ParseRetryAfter (rp_header resp "Retry-After") now in if d <=? 0 then floor else d.
Definition pauseForChallenge (resp : response) (ex : exchange) : LodeM unit :=
  pause (ex_pausedAt ex) (retry_pause resp (ex_now ex) challengePause) "lodestone challenge".

(** The typed rejection of a response. *)
Definition rejection (resp : response) (now : Z) (reason : string) (challenge : bool) : gerror :=
  ErrWrap "request" (ErrCheck CheckTarget reason challenge (ParseRetryAfter (rp_header resp "Retry-After") now) (Some (ErrorString "HTTP status"))).

(** An attempt returns the request's outcome or asks for another attempt. *)
Inductive attempt_end := Done (r : result (string * Z)) | Again (lastErr : gerror).

Definition handle_response (resp : response) (body : string) (ex : exchange) : LodeM attempt_end :=
  if rp_status resp =? StatusTooManyRequests then
    _ ← pause (ex_pausedAt ex) (retry_pause resp (ex_now ex) rateLimitPause) "lodestone 429 rate limited";
    mret (Done (Err (rejection resp (ex_now ex) "status 429" false)))
  else if rp_status resp =? StatusAccepted then
    _ ← pauseForChallenge resp ex;
    mret (Done (Err (rejection resp (ex_builtAt ex) "status 202" true)))
  else if (rp_status resp =? StatusForbidden) && isCloudflareChallenge resp body then
    _ ← pauseForChallenge resp ex;
    mret (Done (Err (rejection resp (ex_builtAt ex) "status 403 challenge" true)))
  else mret (Done (Ok (body, rp_status resp))).

(** What stops an attempt before its request is sent: the context, the
    provider limiter (when there is one), the token bucket, the URL. *)
Definition before_send (ex : exchange) (lim : option S) : option gerror :=
  match ex_ctx ex with
  | Some e => Some e
  | None =>
      match lim, ex_wait ex with
      | Some _, Some e => Some e
      | _, _ =>
          match ex_token ex with
          | Some e => Some e
          | None => match ex_build ex with Some e => Some (ErrWrap "create request" e) | None => None end
          end
      end
  end.

Definition is_proxy_failure (e : gerror) : bool :=
  match errors_As_check e with Some c => bool_decide (ce_Kind c = CheckProxy) | None => false end.

(** A failed round trip; [last] is whether no attempt is left. *)
Definition handle_transport_error (ex : exchange) (last : bool) (e : gerror) (netTimeout : option bool) : attempt_end :=
  let lastErr := WrapProxyDial e in
  if is_proxy_failure lastErr then Done (Err (ErrWrap "request" lastErr))
  else if isTimeoutError e netTimeout then Done (Err (ErrWrap "request" lastErr))
  else if last then Again lastErr
  else match ex_backoff ex with
       | Some ctxErr => Done (Err ctxErr)
       | None => Again lastErr
       end.

Definition attempt (url : string) (last : bool) : LodeM attempt_end :=
  ex ← next_exchange url;
  w ← (fun w : lodeWorld => (w, w));
  match before_send ex (lw_limiter w) with
  | Some e => mret (Done (Err e))
  | None =>
      _ ← send url;
      match ex_reply ex with
      | TransportError e netTimeout => mret (handle_transport_error ex last e netTimeout)
      | Response resp (Err e) => mret (Again e)
      | Response resp (Ok body) => handle_response resp body ex
      end
  end.

Fixpoint attempts (n : nat) (url : string) (lastErr : option gerror) : LodeM (result (string * Z)) :=
  match n with
  | O => mret (Err (ErrWrap "request" (default (ErrorString "all attempts failed") lastErr)))
  | Datatypes.S n =>
      r ← attempt url (match n with O => true | _ => false end);
      match r with
      | Done r => mret r
      | Again e => attempts n url (Some e)
      end
  end.
Definition doRequest (url : string) : LodeM (result (string * Z)) := fun w =>
  attempts (Z.to_nat (lw_maxRetries w + 1)) url None w.

(** ** Fetches *)

Definition character_url (id : Z) : string := "https://na.finalfantasyxiv.com/lodestone/character/" +:+ pretty id +:+ "/".
Definition achievement_list_url (id : Z) : string := character_url id +:+ "achievement/".
Definition achievement_url (id achievementID : Z) : string := character_url id +:+ "achievement/detail/" +:+ pretty achievementID +:+ "/".

Definition FetchCharacter (id : Z) : LodeM (result CharacterProfile) :=
  r ← doRequest (character_url id);
  match r with
  | Err e => mret (Err (ErrWrap "fetch character" e))
  | Ok (body, statusCode) =>
      if (statusCode =? StatusNotFound) || (statusCode =? StatusForbidden) then mret (Err (ErrSentinel ErrCharacterNotFound))
      else if negb (statusCode =? StatusOK) then mret (Err (ErrorString "fetch character: HTTP status"))
      else mret (wrap_err "parse character" (parseCharacterProfile order body id))
  end.

(** The result may come with an error: a private page carries the name. *)
Definition checkSingleAchievement (charID achievementID : Z) : LodeM (result AchievementResult) :=
  r ← doRequest (achievement_url charID achievementID);
  match r with
  | Err e => mret (Err e)
  | Ok (html, statusCode) =>
      let name := extractAchievementName html in
      if statusCode =? StatusForbidden then mret (Err (ErrSentinel ErrAchievementsPrivate))
      else if negb (statusCode =? StatusOK) then mret (Err (ErrorString "achievement detail: HTTP status"))
      else if Contains html "entry__achievement__view--complete" then
        match extractAchievementTimestamp html_Parse html with
        | Err e => mret (Err (ErrWrap "parse earned timestamp for achievement" e))
        | Ok earnedAt => mret (Ok (mkAchievementResult achievementID name true earnedAt))
        end
      else mret (Ok (mkAchievementResult achievementID name false zero_time))
  end.

(** The loop over the milestones: [inl] is a return from the function. *)
Fixpoint check_milestones (charID : Z) (milestoneIDs : list Z) (results : list AchievementResult)
    : LodeM (result (option AchievementSummary) + list AchievementResult) :=
  match milestoneIDs with
  | [] => mret (inr results)
  | id :: rest =>
      r ← checkSingleAchievement charID id;
      match r with
      | Err e =>
          if errors_Is e ErrAchievementsPrivate then mret (inl (Ok (Some (mkAchievementSummary true 0 0 [] None))))
          else mret (inl (Err (ErrWrap "check achievement" e)))
      | Ok result =>
          if ar_Earned result then check_milestones charID rest (results ++ [result])
          else mret (inr results)
      end
  end.

Definition FetchAchievements (charID : Z) (milestoneIDs : list Z) : LodeM (result (option AchievementSummary)) :=
  r ← doRequest (achievement_list_url charID);
  match r with
  | Err e => mret (Err (ErrWrap "fetch achievement list" e))
  | Ok (body, statusCode) =>
      if statusCode =? StatusNotFound then mret (Err (ErrSentinel ErrCharacterNotFound))
      else if statusCode =? StatusForbidden then mret (Ok (Some (mkAchievementSummary true 0 0 [] None)))
      else if negb (statusCode =? StatusOK) then mret (Err (ErrorString "achievement list: HTTP status"))
      else match extractLatestAchievement html_Parse body with
           | Err e => mret (Err (ErrWrap "parse latest achievement" e))
           | Ok latest =>
               r ← check_milestones charID milestoneIDs [];
               match r with
               | inl returned => mret returned
               | inr results => mret (Ok (Some (mkAchievementSummary false 0 0 results latest)))
               end
           end
  end.

(** The client is an implementation of the interface the handlers use. *)
#[global] Instance CustomClient : LodestoneClient lodeWorld := {|
  ld_FetchCharacter := FetchCharacter;
  ld_FetchAchievements := FetchAchievements |}.
End Client.
