(* ===== verification/LodestoneFacts.v ===== *)
(** * The Lodestone client: theorems

    [request_run] says, from the answers of the network alone, how a request
    must end; [doRequest_spec] shows the client follows it. *)
From stdpp Require Import pretty.
From S2P Require Import Prelude GoErrors GoStrings Contract Limiter Worlds Payloads LodestonePage CharacterStore Census Lodestone.

Section Requests.
Context (http_ParseTime : string -> option Z).
Context {S : Type} (limiter : ProviderRateLimiter S).

#[local] Abbreviation doRequest := (doRequest http_ParseTime limiter).
#[local] Abbreviation attempt := (attempt http_ParseTime limiter).
#[local] Abbreviation attempts := (attempts http_ParseTime limiter).

(** ** What may happen to one attempt *)

(** A Cloudflare page: the mitigation header, or one of the markers in the
    first 64 KiB of the body, in any case. *)
Definition challenge_page (resp : response) (body : string) : Prop :=
  EqualFold "challenge" (rp_header resp "Cf-Mitigated") = true \/
  body <> "" /\ exists marker,
    marker ∈ ["just a moment"; "attention required"; "cf-error-details"; "error 1020"; "cloudflare"] /\
    Contains (lower_text (stake (64 * 1024) body)) marker = true.
(** A response of the site itself. *)
Definition genuine (resp : response) (body : string) : Prop :=
  rp_status resp <> 429 /\ rp_status resp <> 202 /\ (rp_status resp = 403 -> ~ challenge_page resp body).
(** The delay a response asks for, when it is received at [now]: a positive
    number of seconds, or the time to a date that is still to come; [0] when it
    asks for none. *)
Inductive asks_to_wait (resp : response) (now : Z) : Z -> Prop :=
  | asks_seconds secs : Atoi (TrimSpace (rp_header resp "Retry-After")) = Some secs -> 0 < secs ->
      asks_to_wait resp now (i64 (secs * 1000000000))
  | asks_until t : TrimSpace (rp_header resp "Retry-After") <> "" -> Atoi (TrimSpace (rp_header resp "Retry-After")) = None ->
      http_ParseTime (TrimSpace (rp_header resp "Retry-After")) = Some t -> 0 < time_sub t now ->
      asks_to_wait resp now (time_sub t now)
  | asks_nothing :
      TrimSpace (rp_header resp "Retry-After") = ""
      \/ (exists secs, Atoi (TrimSpace (rp_header resp "Retry-After")) = Some secs /\ secs <= 0)
      \/ Atoi (TrimSpace (rp_header resp "Retry-After")) = None /\
         (forall t, http_ParseTime (TrimSpace (rp_header resp "Retry-After")) = Some t -> time_sub t now <= 0) ->
      asks_to_wait resp now 0.
(** A rejection by the destination: the reason of the typed error, whether it
    is a challenge and when its hint is read; the floor and the reason of the
    provider's pause. *)
Inductive rejects (ex : exchange) (resp : response) (body : string) : string -> bool -> Z -> Z -> string -> Prop :=
  | rejects_limited : rp_status resp = 429 ->
      rejects ex resp body "status 429" false (ex_now ex) 30000000000 "lodestone 429 rate limited"
  | rejects_accepted : rp_status resp = 202 ->
      rejects ex resp body "status 202" true (ex_builtAt ex) 5000000000 "lodestone challenge"
  | rejects_forbidden : rp_status resp = 403 -> challenge_page resp body ->
      rejects ex resp body "status 403 challenge" true (ex_builtAt ex) 5000000000 "lodestone challenge".

(** The attempt ended before its request was sent, with this error. *)
Inductive stops (ex : exchange) (limited : bool) : gerror -> Prop :=
  | stops_context e : ex_ctx ex = Some e -> stops ex limited e
  | stops_limiter e : ex_ctx ex = None -> limited = true -> ex_wait ex = Some e -> stops ex limited e
  | stops_tokens e : ex_ctx ex = None -> (limited = true -> ex_wait ex = None) -> ex_token ex = Some e -> stops ex limited e
  | stops_url e : ex_ctx ex = None -> (limited = true -> ex_wait ex = None) -> ex_token ex = None -> ex_build ex = Some e ->
      stops ex limited (ErrWrap "create request" e).
(** Nothing stopped it. *)
Definition goes_out (ex : exchange) (limited : bool) : Prop :=
  ex_ctx ex = None /\ (limited = true -> ex_wait ex = None) /\ ex_token ex = None /\ ex_build ex = None.

(** The failed round trip proves the proxy dead: a failed dial in the chain,
    with the error it is reported as, or a typed proxy failure. *)
Inductive proxy_dead (e : gerror) : gerror -> Prop :=
  | dead_dial reason : errors_As_dial e = Some reason -> proxy_dead e (ErrCheck CheckProxy ("proxy " +:+ reason) false 0 (Some e))
  | dead_check c : errors_As_dial e = None -> errors_As_check e = Some c -> ce_Kind c = CheckProxy -> proxy_dead e e.
Definition timed_out (e : gerror) (netTimeout : option bool) : Prop :=
  netTimeout = Some true \/ netTimeout = None /\ errors_Is e ContextDeadlineExceeded = true.
(** Neither. *)
Definition ambiguous (e : gerror) (netTimeout : option bool) : Prop :=
  errors_As_dial e = None /\ (forall c, errors_As_check e = Some c -> ce_Kind c <> CheckProxy) /\ ~ timed_out e netTimeout.

(** ** How a request ends

    [request_run url net left i lim k j r lim']: with [left] attempts left,
    the next being number [i], and the limiter [lim], the request sends [k]
    requests, ends before attempt [j] with [r], and leaves the limiter
    [lim']. *)
Inductive request_run (url : string) (net : nat -> string -> exchange) (lim : option S) :
    nat -> nat -> nat -> nat -> result (string * Z) -> option S -> Prop :=
  | run_stopped left i e : stops (net i url) (bool_decide (is_Some lim)) e ->
      request_run url net lim (Datatypes.S left) i 0 (Datatypes.S i) (Err e) lim
  | run_answered left i resp body : goes_out (net i url) (bool_decide (is_Some lim)) ->
      ex_reply (net i url) = Response resp (Ok body) -> genuine resp body ->
      request_run url net lim (Datatypes.S left) i 1 (Datatypes.S i) (Ok (body, rp_status resp)) lim
  | run_rejected left i resp body reason challenge at_ floor why hint delay : goes_out (net i url) (bool_decide (is_Some lim)) ->
      ex_reply (net i url) = Response resp (Ok body) ->
      rejects (net i url) resp body reason challenge at_ floor why ->
      asks_to_wait resp at_ hint -> asks_to_wait resp (ex_now (net i url)) delay ->
      request_run url net lim (Datatypes.S left) i 1 (Datatypes.S i)
        (Err (ErrWrap "request" (ErrCheck CheckTarget reason challenge hint (Some (ErrorString "HTTP status")))))
        ((fun s => prl_Pause limiter s (ex_pausedAt (net i url)) ProviderLodestone (if 0 <? delay then delay else floor) why) <$> lim)
  | run_proxy_dead left i e nt e' : goes_out (net i url) (bool_decide (is_Some lim)) ->
      ex_reply (net i url) = TransportError e nt -> proxy_dead e e' ->
      request_run url net lim (Datatypes.S left) i 1 (Datatypes.S i) (Err (ErrWrap "request" e')) lim
  | run_timed_out left i e nt : goes_out (net i url) (bool_decide (is_Some lim)) ->
      ex_reply (net i url) = TransportError e nt -> (forall e', ~ proxy_dead e e') -> timed_out e nt ->
      request_run url net lim (Datatypes.S left) i 1 (Datatypes.S i) (Err (ErrWrap "request" e)) lim
  | run_cancelled left i e nt e' : goes_out (net i url) (bool_decide (is_Some lim)) ->
      ex_reply (net i url) = TransportError e nt -> ambiguous e nt -> ex_backoff (net i url) = Some e' ->
      request_run url net lim (Datatypes.S (Datatypes.S left)) i 1 (Datatypes.S i) (Err e') lim
  | run_exhausted i e : goes_out (net i url) (bool_decide (is_Some lim)) ->
      (exists nt, ex_reply (net i url) = TransportError e nt /\ ambiguous e nt) \/
      (exists resp, ex_reply (net i url) = Response resp (Err e)) ->
      request_run url net lim 1 i 1 (Datatypes.S i) (Err (ErrWrap "request" e)) lim
  | run_again left i k j r lim' : goes_out (net i url) (bool_decide (is_Some lim)) ->
      (exists e nt, ex_reply (net i url) = TransportError e nt /\ ambiguous e nt /\ ex_backoff (net i url) = None) \/
      (exists resp e, ex_reply (net i url) = Response resp (Err e)) ->
      request_run url net lim (Datatypes.S left) (Datatypes.S i) k j r lim' ->
      request_run url net lim (Datatypes.S (Datatypes.S left)) i (Datatypes.S k) j r lim'
  | run_none i : request_run url net lim 0 i 0 i (Err (ErrWrap "request" (ErrorString "all attempts failed"))) lim.

(** ** The client's tests decide these conditions *)

Lemma isCloudflareChallenge_iff resp body : isCloudflareChallenge resp body = true <-> challenge_page resp body.
Proof.
  unfold isCloudflareChallenge, challenge_page. destruct (EqualFold _ _); [by split; auto|].
  destruct (bool_decide_reflect (body = "")) as [->|Hne]; [split; [done|intros [?|[? _]]; done]|].
  rewrite existsb_exists. split.
  - intros (m & Hin & Hc). right. split; [done|]. exists m. split; [by apply list_elem_of_In|done].
  - intros [?|(_ & m & Hin & Hc)]; [done|]. exists m. split; [by apply list_elem_of_In|done].
Qed.
Lemma ParseRetryAfter_asks resp now : asks_to_wait resp now (ParseRetryAfter http_ParseTime (rp_header resp "Retry-After") now).
Proof.
  unfold ParseRetryAfter. set (h := TrimSpace _). destruct (bool_decide_reflect (h = "")) as [He|Hne]; [apply asks_nothing; auto|].
  destruct (Atoi h) as [secs|] eqn:Ha.
  - destruct (Z.leb_spec secs 0); [apply asks_nothing; eauto|by apply asks_seconds].
  - destruct (http_ParseTime h) as [t|] eqn:Ht; [destruct (Z.leb_spec (time_sub t now) 0)|].
    + apply asks_nothing. right. right. split; [done|]. intros t'. fold h. rewrite Ht. by intros [= <-].
    + by apply asks_until.
    + apply asks_nothing. right. right. split; [done|]. intros t'. fold h. by rewrite Ht.
Qed.
Lemma retry_pause_eq resp now floor : retry_pause http_ParseTime resp now floor =
  let d := ParseRetryAfter http_ParseTime (rp_header resp "Retry-After") now in if 0 <? d then d else floor.
Proof. unfold retry_pause. cbv zeta. by destruct (Z.leb_spec (ParseRetryAfter http_ParseTime (rp_header resp "Retry-After") now) 0), (Z.ltb_spec 0 (ParseRetryAfter http_ParseTime (rp_header resp "Retry-After") now)); try lia. Qed.
Lemma before_send_cases ex (lim : option S) :
  match before_send ex lim with
  | Some e => stops ex (bool_decide (is_Some lim)) e
  | None => goes_out ex (bool_decide (is_Some lim))
  end.
Proof.
  unfold before_send, goes_out. destruct (ex_ctx ex) eqn:?; [by apply stops_context|].
  destruct lim as [s|].
  - rewrite bool_decide_true by eauto. destruct (ex_wait ex) eqn:?; [by apply stops_limiter|].
    destruct (ex_token ex) eqn:?; [by apply stops_tokens|]. destruct (ex_build ex) eqn:?; [by apply stops_url|done].
  - rewrite bool_decide_false by (by intros [? [=]]). destruct (ex_token ex) eqn:?; [by apply stops_tokens|].
    destruct (ex_build ex) eqn:?; [by apply stops_url|done].
Qed.
Lemma isTimeoutError_iff e nt : isTimeoutError e nt = true <-> timed_out e nt.
Proof. unfold isTimeoutError, timed_out. destruct nt as [[]|]; split; naive_solver. Qed.
Lemma is_proxy_failure_cases e :
  if is_proxy_failure (WrapProxyDial e) then proxy_dead e (WrapProxyDial e)
  else WrapProxyDial e = e /\ errors_As_dial e = None /\ forall c, errors_As_check e = Some c -> ce_Kind c <> CheckProxy.
Proof.
  unfold is_proxy_failure. rewrite WrapProxyDial_kind. unfold WrapProxyDial. destruct (errors_As_dial e) as [reason|] eqn:Hd.
  - cbn. by apply dead_dial.
  - destruct (errors_As_check e) as [c|] eqn:Hc; [|done]. case_bool_decide; [by eapply dead_check|]. naive_solver.
Qed.
Lemma not_dead e : errors_As_dial e = None -> (forall c, errors_As_check e = Some c -> ce_Kind c <> CheckProxy) -> forall e', ~ proxy_dead e e'.
Proof. intros H1 H2 e' Hd. inversion Hd; naive_solver. Qed.

(** ** One attempt *)

(** What one attempt leaves, whatever it returns. *)
Record attempt_frame (url : string) (k : nat) (w w' : @lodeWorld S) : Prop := {
  af_net : lw_net w' = lw_net w;
  af_retries : lw_maxRetries w' = lw_maxRetries w;
  af_attempts : lw_attempts w' = Datatypes.S (lw_attempts w);
  af_requests : lw_requests w' = lw_requests w ++ replicate k url;
}.

Lemma response_run url left i w resp body : goes_out (lw_net w i url) (bool_decide (is_Some (lw_limiter w))) ->
  ex_reply (lw_net w i url) = Response resp (Ok body) ->
  let '(w', r) := handle_response http_ParseTime limiter resp body (lw_net w i url) w in
  exists r', r = Done r' /\ request_run url (lw_net w) (lw_limiter w) (Datatypes.S left) i 1 (Datatypes.S i) r' (lw_limiter w') /\
    w' = w{{ lw_limiter := lw_limiter w' }}.
Proof.
  intros Hout Hr. unfold handle_response, pauseForChallenge, pause, rejection, mbind, ST_bind, mret, ST_ret.
  pose proof (ParseRetryAfter_asks resp (ex_now (lw_net w i url))) as Hnow.
  pose proof (ParseRetryAfter_asks resp (ex_builtAt (lw_net w i url))) as Hbuilt. rewrite !retry_pause_eq. cbv zeta.
  unfold StatusTooManyRequests, StatusAccepted, StatusForbidden.
  destruct (Z.eqb_spec (rp_status resp) 429) as [H1|H1]; [cbn; eexists; split; [done|]; split; [|done]; by eapply run_rejected; eauto using rejects|].
  destruct (Z.eqb_spec (rp_status resp) 202) as [H2|H2]; [cbn; eexists; split; [done|]; split; [|done]; by eapply run_rejected; eauto using rejects|].
  pose proof (isCloudflareChallenge_iff resp body) as Hc.
  destruct (Z.eqb_spec (rp_status resp) 403) as [H3|H3]; cbn [andb].
  - destruct (isCloudflareChallenge resp body); cbn; (eexists; split; [done|]; split; [|by destruct w]).
    + eapply run_rejected; eauto. apply rejects_forbidden; tauto.
    + apply run_answered; [done|done|]. split_and!; naive_solver.
  - cbn. eexists. split; [done|]. split; [|by destruct w]. apply run_answered; [done|done|]. by split_and!.
Qed.

(** An attempt that is the last of [Datatypes.S left] returns as the request
    must; one that asks for another failed in transit. *)
Lemma attempt_spec url left w : let '(w', r) := attempt url (match left with O => true | _ => false end) w in
  exists k, attempt_frame url k w w' /\
  match r with
  | Done r => request_run url (lw_net w) (lw_limiter w) (Datatypes.S left) (lw_attempts w) k (Datatypes.S (lw_attempts w)) r (lw_limiter w')
  | Again e => k = 1%nat /\ lw_limiter w' = lw_limiter w /\ goes_out (lw_net w (lw_attempts w) url) (bool_decide (is_Some (lw_limiter w))) /\
      ((exists nt, ex_reply (lw_net w (lw_attempts w) url) = TransportError e nt /\ ambiguous e nt /\
          (left = O \/ ex_backoff (lw_net w (lw_attempts w) url) = None))
       \/ exists resp, ex_reply (lw_net w (lw_attempts w) url) = Response resp (Err e))
  end.
Proof.
  unfold Lodestone.attempt, next_exchange, send, mbind, ST_bind, mret, ST_ret.
  destruct w as [mr lim net n reqs]. cbn [lw_attempts lw_net lw_limiter]. cbn -[handle_response].
  pose proof (before_send_cases (net n url) lim) as Hb. destruct (before_send (net n url) lim) as [e|].
  { exists O. split; [constructor; cbn; by rewrite ?app_nil_r|by apply run_stopped]. }
  destruct (ex_reply (net n url)) as [e nt|resp [body|e]] eqn:Hr; cbn -[handle_response].
  - exists 1%nat. split; [by constructor|]. unfold handle_transport_error. pose proof (is_proxy_failure_cases e) as Hp.
    destruct (is_proxy_failure _); [by eapply run_proxy_dead|]. destruct Hp as (-> & Hd & Hc).
    pose proof (isTimeoutError_iff e nt) as Ht. destruct (isTimeoutError e nt).
    { eapply run_timed_out; [done|done|by apply not_dead|tauto]. }
    assert (Ha : ambiguous e nt) by (split_and!; naive_solver).
    destruct left as [|left]; [eauto 10|]. destruct (ex_backoff (net n url)) eqn:Hbo; [by eapply run_cancelled|eauto 10].
  - pose proof (response_run url left n (mkLodeWorld mr lim net (Datatypes.S n) (reqs ++ [url])) resp body Hb Hr) as Hrr.
    cbn [lw_net lw_limiter] in Hrr. destruct (handle_response _ _ _ _ _ _) as [w' r]. destruct Hrr as (r' & -> & Hrun & ->).
    exists 1%nat. by split.
  - exists 1%nat. split; [by constructor|]. eauto 10.
Qed.

(** ** The whole request *)

Lemma attempts_spec url n : forall lastErr w, (n = O -> lastErr = None) -> let '(w', r) := attempts n url lastErr w in
  lw_net w' = lw_net w /\ lw_maxRetries w' = lw_maxRetries w /\
  exists k, lw_requests w' = lw_requests w ++ replicate k url /\
    request_run url (lw_net w) (lw_limiter w) n (lw_attempts w) k (lw_attempts w') r (lw_limiter w').
Proof.
  induction n as [|n IH]; intros lastErr w H0.
  { cbn. rewrite (H0 eq_refl). split_and!; [done|done|]. exists O. rewrite app_nil_r. split; [done|apply run_none]. }
  cbn [Lodestone.attempts]. unfold mbind, ST_bind. pose proof (attempt_spec url n w) as Ha.
  destruct (attempt url _ w) as [w1 [r|e]]; destruct Ha as (k & [F1 F2 F3 F4] & Hend).
  { cbn. split_and!; [done|done|]. exists k. by rewrite F3. }
  destruct Hend as (-> & Hlim & Hout & Hwhy). destruct n as [|n].
  - cbn. split_and!; [done|done|]. exists 1%nat. split; [done|]. rewrite F3, Hlim. apply run_exhausted; [done|].
    destruct Hwhy as [(nt & Hr & Ha & _)|Hr]; eauto.
  - specialize (IH (Some e) w1 ltac:(done)). destruct (attempts (Datatypes.S n) url (Some e) w1) as [w2 r].
    destruct IH as (G1 & G2 & k & G3 & G4). split_and!; [congruence|congruence|]. exists (Datatypes.S k).
    split; [rewrite G3, F4, <-app_assoc; done|]. apply run_again; [done| |by rewrite F1, F3, Hlim in G4].
    destruct Hwhy as [(nt & Hr & Ha & [[=]|Hbo])|(resp & Hr)]; eauto 10.
Qed.

Lemma doRequest_spec url w : let '(w', r) := doRequest url w in
  lw_net w' = lw_net w /\ lw_maxRetries w' = lw_maxRetries w /\
  exists k, lw_requests w' = lw_requests w ++ replicate k url /\
    request_run url (lw_net w) (lw_limiter w) (Z.to_nat (lw_maxRetries w + 1)) (lw_attempts w) k (lw_attempts w') r (lw_limiter w').
Proof. by apply (attempts_spec url (Z.to_nat (lw_maxRetries w + 1)) None w). Qed.

Lemma request_run_bound url net lim left i k j r lim' : request_run url net lim left i k j r lim' -> (k <= left /\ i <= j)%nat.
Proof. induction 1; lia. Qed.

(** C18: a request is bounded and ends the way the network's answers
    say.  At most [maxRetries + 1] requests are sent, all to the URL, and the
    run follows [request_run]: a context that is over, a refused wait or a bad
    URL ends it before anything is sent; a proxy proven dead or a time-out ends
    it at once with that error; another transport failure is tried again
    unless the context ends during the back-off, and so is a body that cannot be
    read, until the attempts run out and the last error is returned.  A body is
    returned only for a response that is no 429, no 202 and no Cloudflare 403,
    and then the limiter is untouched; a 429, a 202 or a Cloudflare 403 ends the
    request with a typed target error that carries the delay the response asks
    for, and pauses the provider for that delay, or for 30 seconds after a 429
    and 5 seconds after a challenge when it asks for none. *)
Theorem doRequest_correct url w : let '(w', r) := doRequest url w in
  lw_net w' = lw_net w /\ lw_maxRetries w' = lw_maxRetries w /\
  exists k, lw_requests w' = lw_requests w ++ replicate k url /\ Z.of_nat k <= Z.max 0 (lw_maxRetries w + 1) /\
    request_run url (lw_net w) (lw_limiter w) (Z.to_nat (lw_maxRetries w + 1)) (lw_attempts w) k (lw_attempts w') r (lw_limiter w').
Proof.
  pose proof (doRequest_spec url w) as H. destruct (doRequest url w) as [w' r]. destruct H as (H1 & H2 & k & H3 & H4).
  split_and!; [done|done|]. exists k. destruct (request_run_bound _ _ _ _ _ _ _ _ _ H4). split_and!; [done|lia|done].
Qed.
End Requests.
