(* ===== verification/Dial.v ===== *)
(** * Dialling a proxy ([infrastructure/httpclient/proxy_transport.go])

    The transport's dial functions: the HTTP CONNECT and SOCKS handshakes and
    the TLS handshake with the target.  A [wire] is what the code does to its
    connection; how the network and the context behave is a [dial_env]. *)
From Stdlib Require Import Ascii.
From stdpp Require Import pretty.
From S2P Require Import Prelude GoErrors GoStrings Payloads LodestonePage Lodestone.

(** ** The connection *)

Inductive message :=
  | Bytes (b : list Z)
  | ConnectRequest (addr : string) (auth : option (string * string)).
Record wire := mkWire {
  wi_dialled : list string;
  wi_open : bool;
  wi_deadline : option Z;
  wi_sent : list message;
}.
Definition fresh_wire : wire := mkWire [] false None [].

Definition dial_to (addr : string) (r : result unit) : ST wire (result unit) := fun w =>
  (w{{ wi_dialled := wi_dialled w ++ [addr]; wi_open := is_ok r }}, r).
Definition close_conn : ST wire unit := fun w => (w{{ wi_open := false }}, tt).
Definition set_deadline (d : option Z) : ST wire unit := fun w => (w{{ wi_deadline := d }}, tt).
Definition write_conn (m : message) : ST wire unit := fun w => (w{{ wi_sent := wi_sent w ++ [m] }}, tt).

(** Where the code looks at the context again. *)
Inductive moment := AfterProxyTLS | AfterWrite | AfterRead | AtEnd.
(** One dial: the clock when it starts and when the connection stands, the
    deadline of the context and its error at each moment, and the outcome of
    each network operation.  Closing the connection when the context ends makes
    the pending operation fail. *)
Record dial_env := mkDialEnv {
  de_start : Z;
  de_connected : Z;
  de_ctxDeadline : option Z;
  de_ctxErr : moment -> option gerror;
  de_tcp : result unit;
  de_proxyTLS : result unit;
  de_write : result unit;
  de_connect : result (Z * bool);    (* status, bytes buffered after the header *)
  de_reply : result (list Z);        (* the eight bytes of a SOCKS4 reply *)
  de_socks5 : result unit;
}.

Definition earliest (d : Z) (ctxDeadline : option Z) : Z :=
  match ctxDeadline with Some c => if c <? d then c else d | None => d end.

(** [net.JoinHostPort]. *)
Definition JoinHostPort (host port : string) : string :=
  if Contains host ":" then "[" +:+ host +:+ "]:" +:+ port else host +:+ ":" +:+ port.

(** ** HTTP and HTTPS proxies *)

(** [*url.URL], as far as it is read. *)
Record proxyURL := mkProxyURL { pu_Scheme : string; pu_Hostname : string; pu_Port : string; pu_User : option (string * string) }.

(** A standing connection: the socket, or the socket with buffered bytes. *)
Inductive conn := PlainConn | TunnelConn.

(** A step of the handshake failed: the connection is closed, and the failure
    is the context's if the context ended. *)
Definition abandon (env : dial_env) (at_ : moment) (reason : string) (e : gerror) : ST wire (result conn) :=
  _ ← close_conn;
  mret (Err (match de_ctxErr env at_ with Some ctxErr => ctxErr | None => ErrDial reason e end)).
(** The handshake is complete: the request's context owns the connection. *)
Definition hand_over (env : dial_env) (c : conn) : ST wire (result conn) :=
  _ ← set_deadline None;
  match de_ctxErr env AtEnd with
  | Some e => _ ← close_conn; mret (Err e)
  | None => mret (Ok c)
  end.

Definition proxy_port (u : proxyURL) : string :=
  if bool_decide (pu_Port u = "") then (if bool_decide (pu_Scheme u = "https") then "443" else "80") else pu_Port u.

Definition httpConnectDialContext (u : proxyURL) (connectBudget : Z) (env : dial_env) (addr : string) : ST wire (result conn) :=
  r ← dial_to (JoinHostPort (pu_Hostname u) (proxy_port u)) (de_tcp env);
  match r with
  | Err e => mret (Err (ErrDial "dial" e))
  | Ok _ =>
      _ ← set_deadline (Some (earliest (de_start env + connectBudget) (de_ctxDeadline env)));
      match (if bool_decide (pu_Scheme u = "https") then de_proxyTLS env else Ok tt) with
      | Err e => abandon env AfterProxyTLS "proxy tls" (ErrWrap "tls handshake with proxy" e)
      | Ok _ =>
          _ ← write_conn (ConnectRequest addr (pu_User u));
          match de_write env with
          | Err e => abandon env AfterWrite "connect" (ErrWrap "write CONNECT" e)
          | Ok _ =>
              match de_connect env with
              | Err e => abandon env AfterRead "connect" (ErrWrap "read CONNECT response" e)
              | Ok (status, buffered) =>
                  if negb (Z.quot status 100 =? 2) then
                    _ ← close_conn; mret (Err (ErrDial "connect" (ErrorString "proxy refused CONNECT")))
                  else hand_over env (if buffered : bool then TunnelConn else PlainConn)
              end
          end
      end
  end.

(** ** SOCKS proxies *)

Section Socks.
(** [net.SplitHostPort], [net.ParseIP] and the resolver; an IPv4 address is
    its four bytes, any other address is [None]. *)
Context (net_SplitHostPort : string -> result (string * string)).
Context (net_ParseIP : string -> option (option (Z * Z * Z * Z))).
Context (lookup_ip4 : string -> result (option (Z * Z * Z * Z))).

Definition socks4_target (addr : string) : result (Z * (Z * Z * Z * Z)) :=
  '(host, portStr) ← wrap_err "socks4 target address" (net_SplitHostPort addr);
  let '(port, ok) := ParseUint portStr 65535 in
  if negb ok then Err (ErrWrap "socks4 target port" (ErrorString "invalid port"))
  else
    match net_ParseIP host with
    | Some (Some ip) => Ok (port, ip)
    | Some None => Err (ErrorString "socks4 requires an IPv4 target")
    | None =>
        ip ← wrap_err "socks4 resolve target" (lookup_ip4 host);
        match ip with
        | Some ip => Ok (port, ip)
        | None => Err (ErrorString "socks4 requires an IPv4 target")
        end
    end.

(** [byte(x)] is the low byte. *)
Definition to_byte (x : Z) : Z := Z.land x 255.
Definition socks4_request (port : Z) (ip : Z * Z * Z * Z) : list Z :=
  let '(a, b, c, d) := ip in [4; 1; to_byte (Z.shiftr port 8); to_byte port; a; b; c; d; 0].

Definition socks4DialContext (u : proxyURL) (timeout : Z) (env : dial_env) (addr : string) : ST wire (result conn) :=
  match socks4_target addr with
  | Err e => mret (Err e)
  | Ok (port, targetIP) =>
      r ← dial_to (JoinHostPort (pu_Hostname u) (pu_Port u)) (de_tcp env);
      match r with
      | Err e => mret (Err (ErrDial "socks4 dial" e))
      | Ok _ =>
          _ ← set_deadline (Some (earliest (de_connected env + timeout) (de_ctxDeadline env)));
          _ ← write_conn (Bytes (socks4_request port targetIP));
          match de_write env with
          | Err e => abandon env AfterWrite "socks4 handshake" (ErrWrap "write request" e)
          | Ok _ =>
              match de_reply env with
              | Err e => abandon env AfterRead "socks4 handshake" (ErrWrap "read reply" e)
              | Ok reply =>
                  if negb (nth 0 reply 0 =? 0) then
                    _ ← close_conn; mret (Err (ErrDial "socks4 negotiation" (ErrorString "unexpected reply version")))
                  else if negb (nth 1 reply 0 =? 90) then
                    _ ← close_conn; mret (Err (ErrDial "socks4 negotiation" (ErrorString "proxy rejected CONNECT")))
                  else hand_over env PlainConn
              end
          end
      end
  end.

(** The SOCKS5 handshake is the library's: it dials, negotiates, and closes
    what it opened when it fails. *)
Definition socks5_dial (env : dial_env) : ST wire (result conn) := fun w =>
  (w{{ wi_open := is_ok (de_socks5 env) }},
   match de_socks5 env with Err e => Err (ErrDial "socks5" e) | Ok _ => Ok PlainConn end).

(** ** The transport *)

(** [url.Parse], and the SOCKS5 dialer's construction: whether it supports
    contexts. *)
Context (url_Parse : string -> result proxyURL) (xproxy_FromURL : proxyURL -> result bool).

Inductive dialer :=
  | ConnectDialer (u : proxyURL) (budget : Z)
  | Socks5Dialer (u : proxyURL) (budget : Z)
  | Socks4Dialer (u : proxyURL) (budget : Z).

Definition proxyConnectTimeout : Z := 15 * second.
Definition NewProxyTransport (url : string) (timeout : Z) : result dialer :=
  if bool_decide (url = "") then Err (ErrorString "proxy URL is empty")
  else
    u ← wrap_err "parse proxy URL" (url_Parse url);
    let connectBudget := if proxyConnectTimeout <? timeout then proxyConnectTimeout else timeout in
    if bool_decide (pu_Scheme u = "http") || bool_decide (pu_Scheme u = "https") then Ok (ConnectDialer u connectBudget)
    else if bool_decide (pu_Scheme u = "socks5") then
      supported ← wrap_err "create socks5 dialer" (xproxy_FromURL u);
      if supported : bool then Ok (Socks5Dialer u connectBudget) else Err (ErrorString "socks5 dialer does not support context")
    else if bool_decide (pu_Scheme u = "socks4") then Ok (Socks4Dialer u connectBudget)
    else Err (ErrorString "unsupported proxy protocol").

(** [base.DialContext]. *)
Definition dial (d : dialer) (env : dial_env) (addr : string) : ST wire (result conn) :=
  match d with
  | ConnectDialer u budget => httpConnectDialContext u budget env addr
  | Socks5Dialer u budget => socks5_dial env
  | Socks4Dialer u budget => socks4DialContext u budget env addr
  end.

(** ** TLS with the target *)

(** The TLS library: the ClientHello, its preset, the handshake; the clock when
    it starts and the context when it failed. *)
Record tls_env := mkTLSEnv {
  te_spec : result unit; te_preset : result unit; te_handshake : result unit;
  te_now : Z; te_ctxDeadline : option Z; te_ctxErr : option gerror;
}.
Definition browserTLSClient (handshakeTimeout : Z) (env : tls_env) (c : conn) : ST wire (result conn) :=
  match te_spec env with
  | Err e => _ ← close_conn; mret (Err (ErrWrap "build chrome client hello" e))
  | Ok _ =>
      match te_preset env with
      | Err e => _ ← close_conn; mret (Err (ErrWrap "apply chrome client hello" e))
      | Ok _ =>
          let bound := if 0 <? handshakeTimeout then te_now env + handshakeTimeout else te_now env + 10 * second in
          _ ← set_deadline (Some (earliest bound (te_ctxDeadline env)));
          match te_handshake env with
          | Err e => _ ← close_conn; mret (Err (default e (te_ctxErr env)))
          | Ok _ => _ ← set_deadline None; mret (Ok c)
          end
      end
  end.

(** [base.DialTLSContext]. *)
Definition dial_tls (d : dialer) (handshakeTimeout : Z) (env : dial_env) (tls : tls_env) (addr : string) : ST wire (result conn) :=
  r ← dial d env addr;
  match r with
  | Err e => mret (Err e)
  | Ok c => browserTLSClient handshakeTimeout tls c
  end.
(** [NewDirectTransport]: the same over a plain dial. *)
Definition dial_direct_tls (handshakeTimeout : Z) (env : dial_env) (tls : tls_env) (addr : string) : ST wire (result conn) :=
  r ← dial_to addr (de_tcp env);
  match r with
  | Err e => mret (Err e)
  | Ok _ => browserTLSClient handshakeTimeout tls PlainConn
  end.
End Socks.
