(* ===== verification/DialFacts.v ===== *)
(** * Dialling a proxy: theorems *)
From S2P Require Import Prelude GoErrors GoStrings Dates Payloads LodestonePage Lodestone Dial.

Section Dialling.
Context (net_SplitHostPort : string -> result (string * string)).
Context (net_ParseIP : string -> option (option (Z * Z * Z * Z))).
Context (lookup_ip4 : string -> result (option (Z * Z * Z * Z))).

#[local] Abbreviation socks4_target := (socks4_target net_SplitHostPort net_ParseIP lookup_ip4).
#[local] Abbreviation dial := (dial net_SplitHostPort net_ParseIP lookup_ip4).
#[local] Abbreviation dial_tls := (dial_tls net_SplitHostPort net_ParseIP lookup_ip4).

(** The error names the proxy. *)
Definition blames (e : gerror) : Prop := is_Some (errors_As_dial e).

(** ** The SOCKS4 request *)

(** A reader of CONNECT requests of the protocol: version 4, command 1, the
    port in network byte order, the address, an empty user id. *)
Definition socks4_read (b : list Z) : option (Z * (Z * Z * Z * Z)) :=
  match b with
  | [4; 1; hi; lo; a; b; c; d; 0] => Some (hi * 256 + lo, (a, b, c, d))
  | _ => None
  end.
Lemma socks4_request_reads port ip : 0 <= port <= 65535 -> socks4_read (socks4_request port ip) = Some (port, ip).
Proof.
  intros Hp. destruct ip as [[[a b] c] d]. cbn. unfold to_byte. change 255 with (Z.ones 8). rewrite !Z.land_ones by lia.
  rewrite Z.shiftr_div_pow2 by lia. do 2 f_equal. change (2 ^ 8) with 256. rewrite (Z.mod_small (port / 256)); [|split; [apply Z.div_pos; lia|apply Z.div_lt_upper_bound; lia]].
  pose proof (Z.div_mod port 256). lia.
Qed.
Lemma digit_value_bound c d : digit_value c = Some d -> 0 <= d.
Proof. unfold digit_value. case_match; [|done]. intros [= <-]. lia. Qed.
Lemma digits_value_nonneg s : forall acc v, 0 <= acc -> digits_value acc s = Some v -> 0 <= v.
Proof.
  induction s as [|c s IH]; intros acc v Hacc; cbn; [intros [= <-]; done|].
  destruct (digit_value c) as [d|] eqn:Hd; cbn; [|done]. apply IH. apply digit_value_bound in Hd. lia.
Qed.
Lemma socks4_target_port addr port ip : socks4_target addr = Ok (port, ip) -> 0 <= port <= 65535.
Proof.
  unfold Dial.socks4_target. destruct (net_SplitHostPort addr) as [[host p]|e]; cbn [wrap_err mbind result_bind]; [|done].
  assert (Hp : forall v, ParseUint p 65535 = (v, true) -> 0 <= v <= 65535).
  { intros v. unfold ParseUint. destruct p; [done|]. destruct (digits_value 0 _) as [x|] eqn:Hx; [|done].
    apply digits_value_nonneg in Hx; [|done]. destruct (Z.ltb_spec 65535 x); [done|]. intros [= <-]. lia. }
  destruct (ParseUint p 65535) as [v []]; cbn [negb]; [|done].
  destruct (net_ParseIP host) as [[ip'|]|]; [intros [= <- <-]; by apply Hp|done|].
  destruct (lookup_ip4 host) as [[ip'|]|]; cbn [wrap_err mbind result_bind]; [intros [= <- <-]; by apply Hp|done|done].
Qed.

(** ** Whose fault a failed dial is *)

(** The connection to an HTTP proxy stands, encrypted if it has to be. *)
Definition secured (u : proxyURL) (env : dial_env) : Prop :=
  de_tcp env = Ok tt /\ (pu_Scheme u = "https" -> de_proxyTLS env = Ok tt).

(** The dial ended at a step the code charges to the proxy, everything before
    it having succeeded.  The connection to the proxy and the library's whole
    SOCKS5 dial are charged whatever made them fail, the end of the context
    included; the later steps only if the context had not ended; a refusal
    always. *)
Inductive proxy_step_failed (env : dial_env) (addr : string) : dialer -> Prop :=
  | fault_dial u b e : de_tcp env = Err e -> proxy_step_failed env addr (ConnectDialer u b)
  | fault_tls u b e : de_tcp env = Ok tt -> pu_Scheme u = "https" -> de_proxyTLS env = Err e -> de_ctxErr env AfterProxyTLS = None ->
      proxy_step_failed env addr (ConnectDialer u b)
  | fault_write u b e : secured u env -> de_write env = Err e -> de_ctxErr env AfterWrite = None -> proxy_step_failed env addr (ConnectDialer u b)
  | fault_read u b e : secured u env -> de_write env = Ok tt -> de_connect env = Err e -> de_ctxErr env AfterRead = None ->
      proxy_step_failed env addr (ConnectDialer u b)
  | fault_refused u b status buffered : secured u env -> de_write env = Ok tt -> de_connect env = Ok (status, buffered) ->
      Z.quot status 100 <> 2 -> proxy_step_failed env addr (ConnectDialer u b)
  | fault_socks5 u b e : de_socks5 env = Err e -> proxy_step_failed env addr (Socks5Dialer u b)
  | fault_socks4_dial u b t e : socks4_target addr = Ok t -> de_tcp env = Err e -> proxy_step_failed env addr (Socks4Dialer u b)
  | fault_socks4_write u b t e : socks4_target addr = Ok t -> de_tcp env = Ok tt -> de_write env = Err e ->
      de_ctxErr env AfterWrite = None -> proxy_step_failed env addr (Socks4Dialer u b)
  | fault_socks4_read u b t e : socks4_target addr = Ok t -> de_tcp env = Ok tt -> de_write env = Ok tt -> de_reply env = Err e ->
      de_ctxErr env AfterRead = None -> proxy_step_failed env addr (Socks4Dialer u b)
  | fault_socks4_reply u b t reply : socks4_target addr = Ok t -> de_tcp env = Ok tt -> de_write env = Ok tt -> de_reply env = Ok reply ->
      nth 0 reply 0 <> 0 \/ nth 1 reply 0 <> 90 -> proxy_step_failed env addr (Socks4Dialer u b)
.

(** The tunnel stands: the proxy at its own address granted a connection to
    the target. *)
Definition tunnel (d : dialer) (env : dial_env) (addr : string) (w : wire) : Prop :=
  match d with
  | ConnectDialer u _ =>
      secured u env /\ de_write env = Ok tt /\ wi_dialled w = [JoinHostPort (pu_Hostname u) (proxy_port u)] /\ wi_sent w = [ConnectRequest addr (pu_User u)] /\
      exists status buffered, de_connect env = Ok (status, buffered) /\ 200 <= status < 300
  | Socks5Dialer _ _ => de_socks5 env = Ok tt
  | Socks4Dialer u _ =>
      de_tcp env = Ok tt /\ de_write env = Ok tt /\ wi_dialled w = [JoinHostPort (pu_Hostname u) (pu_Port u)] /\
      exists b target reply, wi_sent w = [Bytes b] /\ socks4_read b = Some target /\ socks4_target addr = Ok target /\
        de_reply env = Ok reply /\ nth 0 reply 0 = 0 /\ nth 1 reply 0 = 90
  end.

(** Errors of the environment that are no [ProxyDialError]: only the dial
    functions make them. *)
Definition plain {A} (r : result A) : Prop := forall e, r = Err e -> ~ blames e.
Definition plain_opt (o : option gerror) : Prop := forall e, o = Some e -> ~ blames e.
Record plain_env (env : dial_env) (addr : string) : Prop := {
  pe_ctx : forall m, plain_opt (de_ctxErr env m);
  pe_target : plain (socks4_target addr);
}.

Definition dial_result (d : dialer) (env : dial_env) (addr : string) (wr : wire * result conn) : Prop :=
  match wr.2 with
  | Ok _ => wi_open wr.1 = true /\ wi_deadline wr.1 = None /\ tunnel d env addr wr.1
  | Err e => wi_open wr.1 = false /\ (blames e <-> proxy_step_failed env addr d)
  end.

Lemma blamed d env addr reason e : proxy_step_failed env addr d -> (blames (ErrDial reason e) <-> proxy_step_failed env addr d).
Proof. intros H. split; [done|]. intros _. by eexists. Qed.
Lemma spared d env addr e : ~ blames e -> ~ proxy_step_failed env addr d -> (blames e <-> proxy_step_failed env addr d).
Proof. tauto. Qed.
Lemma abandon_result d env addr at_ reason e w : plain_env env addr ->
  (de_ctxErr env at_ = None -> proxy_step_failed env addr d) -> (de_ctxErr env at_ <> None -> ~ proxy_step_failed env addr d) ->
  dial_result d env addr (abandon env at_ reason e w).
Proof.
  intros Hp H1 H2. unfold abandon, dial_result. cbn. destruct w. split; [done|]. destruct (de_ctxErr env at_) as [c|] eqn:Hc.
  - apply spared; [by eapply pe_ctx|by apply H2].
  - by apply blamed, H1.
Qed.
Lemma hand_over_result d env addr c w : plain_env env addr -> wi_open w = true -> ~ proxy_step_failed env addr d ->
  tunnel d env addr (set_deadline None w).1 -> dial_result d env addr (hand_over env c w).
Proof.
  intros Hp Ho Hf Ht. unfold hand_over, dial_result. destruct w. cbn in *. destruct (de_ctxErr env AtEnd) as [e|] eqn:He; cbn; [|done].
  split; [done|]. apply spared; [by eapply pe_ctx|done].
Qed.

#[local] Ltac no_fault := let H := fresh in intros H; inversion H; unfold secured in *; intuition congruence.

Lemma status_2xx status : Z.quot status 100 = 2 -> 200 <= status < 300.
Proof.
  intros Hs. pose proof (Z.quot_rem' status 100) as Hq. pose proof (Z.rem_bound_abs status 100 ltac:(done)).
  pose proof (Z.rem_bound_pos status 100). lia.
Qed.
Lemma connect_result u b env addr : plain_env env addr ->
  dial_result (ConnectDialer u b) env addr (httpConnectDialContext u b env addr fresh_wire).
Proof.
  intros Hp. unfold httpConnectDialContext, dial_to, set_deadline, write_conn, close_conn, mbind, ST_bind. cbn -[abandon hand_over Z.quot].
  destruct (de_tcp env) as [[]|e] eqn:Htcp; [|split; [done|]; apply blamed; by econstructor].
  assert (Hsec : (if bool_decide (pu_Scheme u = "https") then de_proxyTLS env else Ok tt) = Ok tt -> secured u env).
  { intros H. split; [done|]. intros Hs. by rewrite bool_decide_eq_true_2 in H. }
  destruct (if bool_decide (pu_Scheme u = "https") then de_proxyTLS env else Ok tt) as [[]|e] eqn:Htls.
  - specialize (Hsec eq_refl). destruct (de_write env) as [[]|e] eqn:Hw.
    + destruct (de_connect env) as [[status buffered]|e] eqn:Hc.
      * destruct (Z.eqb_spec (Z.quot status 100) 2) as [Hs|Hs]; cbn [negb].
        -- apply hand_over_result; [done|done| |].
           { intros H. inversion H; unfold secured in *; simplify_eq; intuition congruence. }
           cbn. do 4 (split; [done|]). exists status, buffered. split; [done|]. by apply status_2xx.
        -- split; [done|]. apply blamed. by eapply fault_refused.
      * apply abandon_result; [done| |]; intros; [by eapply fault_read|no_fault].
    + apply abandon_result; [done| |]; intros; [by eapply fault_write|no_fault].
  - case_bool_decide as Hs; [|done]. apply abandon_result; [done| |]; intros; [by eapply fault_tls|no_fault].
Qed.
Lemma socks4_result u b env addr : plain_env env addr ->
  dial_result (Socks4Dialer u b) env addr (dial (Socks4Dialer u b) env addr fresh_wire).
Proof.
  intros Hp. cbn [Dial.dial]. unfold socks4DialContext, dial_to, set_deadline, write_conn, close_conn, mbind, ST_bind.
  destruct (socks4_target addr) as [[port ip]|e] eqn:Ht.
  2: { split; [done|]. apply spared; [by apply (pe_target env addr Hp)|no_fault]. }
  cbn -[abandon hand_over socks4_request].
  destruct (de_tcp env) as [[]|e] eqn:Htcp; [|split; [done|]; apply blamed; by eapply fault_socks4_dial].
  destruct (de_write env) as [[]|e] eqn:Hw; [|apply abandon_result; [done| |]; intros; [by eapply fault_socks4_write|no_fault]].
  destruct (de_reply env) as [reply|e] eqn:Hr; [|apply abandon_result; [done| |]; intros; [by eapply fault_socks4_read|no_fault]].
  destruct (Z.eqb_spec (nth 0 reply 0) 0) as [H0|H0]; cbn [negb].
  2: { split; [done|]. apply blamed. eapply fault_socks4_reply; eauto. }
  destruct (Z.eqb_spec (nth 1 reply 0) 90) as [H1|H1]; cbn [negb].
  2: { split; [done|]. apply blamed. eapply fault_socks4_reply; eauto. }
  apply hand_over_result; [done|done| |].
  - intros H. inversion H; simplify_eq; intuition congruence.
  - do 3 (split; [done|]). exists (socks4_request port ip), (port, ip), reply. split; [done|].
    split; [|done]. apply socks4_request_reads. by eapply socks4_target_port.
Qed.

Lemma dial_ok d env addr : plain_env env addr -> dial_result d env addr (dial d env addr fresh_wire).
Proof.
  intros Hp. destruct d as [u b|u b|u b]; [by apply connect_result| |by apply socks4_result].
  cbn. unfold socks5_dial, dial_result. cbn. destruct (de_socks5 env) as [[]|e] eqn:Hs; cbn; [done|]. split; [done|]. apply blamed. by econstructor.
Qed.
Lemma tunnel_no_fault d env addr w : tunnel d env addr w -> ~ proxy_step_failed env addr d.
Proof.
  destruct d as [u b|u b|u b].
  - intros (Hsec & Hw & _ & _ & status & buffered & Hc & Hs) H. inversion H; unfold secured in *; simplify_eq; try (intuition congruence).
    match goal with H : de_connect env = Ok (?s, _), H' : _ <> _ |- _ => apply H'; rewrite Hc in H; injection H as <- _ end.
    symmetry. apply (Z.quot_unique status 100 2 (status - 200)); lia.
  - intros Ht. cbn in Ht. no_fault.
  - intros (Htcp & Hw & _ & bs & target & reply & _ & _ & Ht & Hr & H0 & H1) H. inversion H; simplify_eq; intuition congruence.
Qed.

(** The TLS library's and the context's errors. *)
Definition plain_tls (tls : tls_env) : Prop :=
  plain (te_spec tls) /\ plain (te_preset tls) /\ plain (te_handshake tls) /\ plain_opt (te_ctxErr tls).

Lemma dial_tls_ok d handshakeTimeout env tls addr : plain_env env addr -> plain_tls tls ->
  dial_result d env addr (dial_tls d handshakeTimeout env tls addr fresh_wire).
Proof.
  intros Henv Htls. unfold Dial.dial_tls. rewrite ST_bind_eq. pose proof (dial_ok d env addr Henv) as Hd. unfold dial_result in Hd.
  destruct (dial d env addr fresh_wire) as [w [c|e]]; cbn [fst snd] in *; [|exact Hd]. destruct Hd as (Ho & Hdl & Ht).
  pose proof (tunnel_no_fault _ _ _ _ Ht) as Hnf. destruct Htls as (H1 & H2 & H3 & H4). unfold browserTLSClient, dial_result.
  destruct w as [dialled op dl sent].
  destruct (te_spec tls) as [[]|e] eqn:E1; cbn; [|split; [done|]; apply spared; [exact (H1 e eq_refl)|done]].
  destruct (te_preset tls) as [[]|e] eqn:E2; cbn; [|split; [done|]; apply spared; [exact (H2 e eq_refl)|done]].
  destruct (te_handshake tls) as [[]|e] eqn:E3; cbn.
  - cbn in Ho. subst op. split; [done|]. split; [done|]. by destruct d.
  - split; [done|]. apply spared; [|done]. destruct (te_ctxErr tls) as [c'|]; cbn; [by apply H4|by apply H3].
Qed.

(** C22: a dial through a proxy leaks no connection and blames the proxy
    for a step of its own and nothing else.  When it succeeds, the one connection is
    open with no deadline left on it and the proxy, dialled at its own address,
    granted the tunnel to the requested target (a 2xx answer to the CONNECT, or
    a SOCKS4 reply with code 90 to a request that any SOCKS4 reader decodes to
    the target).  When it fails, no connection is left open, and the error is a
    [ProxyDialError] if and only if the connection to the proxy could not be
    made (or the library's SOCKS5 dial failed), whatever the reason and also
    when the context ended meanwhile, the proxy refused the tunnel, or a later
    step of the handshake failed while the context was alive.  A target that
    cannot be resolved, a context that ends once the proxy is connected, and a
    TLS failure of the target never blame the proxy.  The errors of the
    environment (contexts, resolver, TLS library) are assumed to hold no
    [ProxyDialError] of their own. *)
Theorem dial_blames_the_proxy d handshakeTimeout env tls addr (Henv : plain_env env addr) (Htls : plain_tls tls) :
  dial_result d env addr (dial_tls d handshakeTimeout env tls addr fresh_wire).
Proof. by apply dial_tls_ok. Qed.
End Dialling.

(** A SOCKS4 proxy that answers with [code] to a request for 1.2.3.4:443. *)
Definition demo_split (addr : string) : result (string * string) :=
  if bool_decide (addr = "1.2.3.4:443") then Ok ("1.2.3.4", "443") else Err (ErrorString "missing port in address").
Definition demo_ip (host : string) : option (option (Z * Z * Z * Z)) :=
  if bool_decide (host = "1.2.3.4") then Some (Some (1, 2, 3, 4)) else None.
Definition demo_lookup (host : string) : result (option (Z * Z * Z * Z)) := Err (ErrorString "no such host").
Definition demo_env (code : Z) : dial_env :=
  mkDialEnv 0 10 None (fun _ => None) (Ok tt) (Ok tt) (Ok tt) (Ok (200, false)) (Ok [0; code; 0; 0; 0; 0; 0; 0]) (Ok tt).
Definition demo_tls : tls_env := mkTLSEnv (Ok tt) (Ok tt) (Ok tt) 20 None None.
Definition demo_proxy : dialer := Socks4Dialer (mkProxyURL "socks4" "10.0.0.7" "1080" None) (15 * second).

(** The request of a granted dial reads back as the target, and code 91 is the
    proxy's fault. *)
Lemma dial_blames_the_proxy_witness :
  (dial_tls demo_split demo_ip demo_lookup demo_proxy 0 (demo_env 90) demo_tls "1.2.3.4:443" fresh_wire
   = (mkWire ["10.0.0.7:1080"] true None [Bytes [4; 1; 1; 187; 1; 2; 3; 4; 0]], Ok PlainConn))
  /\ (exists e, (dial_tls demo_split demo_ip demo_lookup demo_proxy 0 (demo_env 91) demo_tls "1.2.3.4:443" fresh_wire).2 = Err e /\ blames e)
  /\ proxy_step_failed demo_split demo_ip demo_lookup (demo_env 91) "1.2.3.4:443" demo_proxy.
Proof.
  split; [vm_compute; reflexivity|]. assert (Hb : blames (ErrDial "socks4 negotiation" (ErrorString "proxy rejected CONNECT"))) by (by eexists).
  split; [eexists; split; [vm_compute; reflexivity|exact Hb]|].
  pose proof (dial_blames_the_proxy demo_split demo_ip demo_lookup demo_proxy 0 (demo_env 91) demo_tls "1.2.3.4:443") as H.
  unfold dial_result in H. cbn in H. apply H.
  - split; [done|]. intros e. vm_compute. discriminate.
  - repeat split; intros e; discriminate.
  - exact Hb.
Defined.
