(* ===== verification/Checks.v ===== *)
(** * Proxy checks ([infrastructure/proxy/checker.go], [health.go])

    The destination check and the general health check of a proxy, over the
    transport of [Dial], and what the scan worker makes of their errors. *)
From stdpp Require Import pretty.
From S2P Require Import Prelude GoErrors GoStrings Contract Scheduling LodestonePage Lodestone Dial DialFacts.

(** ** Bodies *)

Definition slen (s : string) : Z := Z.of_nat (String.length s).
(** A response body: what it delivers and the error it ends with, if any. *)
Record stream := mkStream { st_data : string; st_err : option gerror }.
(** [io.ReadAll(io.LimitReader(r, n))]: an error behind the limit is not seen. *)
Definition read_limited (r : stream) (n : Z) : result string :=
  if n <=? slen (st_data r) then Ok (stake (Z.to_nat n) (st_data r))
  else match st_err r with Some e => Err e | None => Ok (st_data r) end.

Definition maxHealthBodyBytes : Z := 512 * 1024.
Definition maxCheckerResponseBytes : Z := 4 * 1024 * 1024.

Definition validateBody (r : stream) : option gerror :=
  match read_limited r (maxHealthBodyBytes + 1) with
  | Err e => Some e
  | Ok body =>
      if maxHealthBodyBytes <? slen body then Some (ErrorString "health response exceeds body limit")
      else if bool_decide (TrimSpace body = "") then Some (ErrorString "empty response body")
      else None
  end.

(** ** Attribution *)

Definition is_sentinel (e : option gerror) (s : sentinel) : bool :=
  match e with Some (ErrSentinel s') => bool_decide (s' = s) | _ => false end.
(** [ctxErr] is [ctx.Err()] when the failure is classified. *)
Definition classifyCheckError (ctxErr : option gerror) (err : gerror) : ProxyCheckKind :=
  if errors_Is err ContextCanceled || is_sentinel ctxErr ContextCanceled then CheckCancelled
  else if errors_Is err ContextDeadlineExceeded || is_sentinel ctxErr ContextDeadlineExceeded then CheckDeadline
  else match errors_As_dial err with Some _ => CheckProxy | None => CheckTarget end.
Definition checkError (kind : ProxyCheckKind) (reason : string) (err : gerror) : gerror := ErrCheck kind reason false 0 (Some err).

Section Checks.
Context (url_Parse : string -> result proxyURL) (xproxy_FromURL : proxyURL -> result bool).

Definition retryAfterForStatus (http_ParseTime : string -> option Z) (status : Z) (hint : string) (receivedAt : Z) : Z :=
  if negb ((status =? StatusForbidden) || (status =? StatusTooManyRequests)) && (status <? 500) then 0
  else ParseRetryAfter http_ParseTime hint receivedAt.

(** One exchange through a transport: building the request, [client.Do], the
    context's error if it failed, the clock before and after and when the
    response is in. *)
Record check_env := mkCheckEnv {
  ck_build : option gerror;
  ck_do : result (response * stream);
  ck_ctxErr : option gerror;
  ck_start : Z; ck_received : Z; ck_end : Z;
}.
Definition Milliseconds (d : Z) : Z := Z.quot d 1000000.

(** ** The general health check *)

Definition health_runCheck (env : check_env) : result Z :=
  match ck_build env with
  | Some e => Err (checkError CheckLocal "build request" e)
  | None =>
      match ck_do env with
      | Err e => Err (checkError (classifyCheckError (ck_ctxErr env) e) "request" e)
      | Ok (resp, body) =>
          if negb (rp_status resp =? StatusOK) then Err (checkError CheckTarget "unexpected status" (ErrorString "unexpected status"))
          else match validateBody body with
               | Some e => Err (checkError CheckTarget "validate body" e)
               | None => Ok (Milliseconds (time_sub (ck_end env) (ck_start env)))
               end
      end
  end.
Definition proxy_url (protocol ip : string) (port : Z) : string := protocol +:+ "://" +:+ JoinHostPort ip (pretty port).
Definition HealthChecker_Check (timeout : Z) (protocol ip : string) (port : Z) (env : dialer -> check_env) : result Z :=
  match NewProxyTransport url_Parse xproxy_FromURL (proxy_url protocol ip port) timeout with
  | Err e => Err (checkError CheckLocal "build transport" e)
  | Ok transport => health_runCheck (env transport)
  end.
Definition CheckDirect (env : check_env) : option gerror :=
  match health_runCheck env with Ok _ => None | Err e => Some e end.

(** ** The destination check *)

Definition Checker_Check (http_ParseTime : string -> option Z) (timeout : Z) (protocol ip : string) (port : Z) (env : dialer -> check_env) : result Z :=
  match NewProxyTransport url_Parse xproxy_FromURL (proxy_url protocol ip port) timeout with
  | Err e => Err (checkError CheckLocal "build transport" e)
  | Ok transport =>
      let env := env transport in
      match ck_build env with
      | Some e => Err (checkError CheckLocal "build request" e)
      | None =>
          match ck_do env with
          | Err e => Err (checkError (classifyCheckError (ck_ctxErr env) e) "request" e)
          | Ok (resp, body) =>
              if negb (rp_status resp =? StatusOK) then
                Err (ErrCheck CheckTarget "unexpected status" false
                       (retryAfterForStatus http_ParseTime (rp_status resp) (rp_header resp "Retry-After") (ck_received env))
                       (Some (ErrorString "unexpected status")))
              else match read_limited body (maxCheckerResponseBytes + 1) with
                   | Err e => Err (checkError (classifyCheckError (ck_ctxErr env) e) "read body" e)
                   | Ok data =>
                       if maxCheckerResponseBytes <? slen data
                       then Err (checkError CheckTarget "read body" (ErrorString "response exceeds limit"))
                       else Ok (Milliseconds (time_sub (ck_end env) (ck_start env)))
                   end
          end
      end
  end.

(** ** Theorems *)

(** A validated body is complete, bounded and not blank. *)
Lemma validateBody_ok r : validateBody r = None <->
  st_err r = None /\ slen (st_data r) <= maxHealthBodyBytes /\ TrimSpace (st_data r) <> "".
Proof.
  unfold validateBody, read_limited. destruct (Z.leb_spec (maxHealthBodyBytes + 1) (slen (st_data r))) as [Hl|Hl].
  - assert (slen (stake (Z.to_nat (maxHealthBodyBytes + 1)) (st_data r)) = maxHealthBodyBytes + 1) as ->.
    { unfold slen in *. rewrite stake_length by lia. unfold maxHealthBodyBytes in *. lia. }
    rewrite (proj2 (Z.ltb_lt _ _)) by lia. split; [done|]. intros (_ & ? & _). lia.
  - destruct (st_err r) as [e|]; [split; [done|by intros [? _]]|].
    rewrite (proj2 (Z.ltb_ge _ _)) by lia. case_bool_decide; split; [done|by intros (_ & _ & ?)|intros _|done].
    split; [done|]. split; [lia|done].
Qed.

(** ** Over the transport *)

Context (net_SplitHostPort : string -> result (string * string)).
Context (net_ParseIP : string -> option (option (Z * Z * Z * Z))).
Context (lookup_ip4 : string -> result (option (Z * Z * Z * Z))).
#[local] Abbreviation dial_tls := (dial_tls net_SplitHostPort net_ParseIP lookup_ip4).
#[local] Abbreviation proxy_step_failed := (proxy_step_failed net_SplitHostPort net_ParseIP lookup_ip4).
#[local] Abbreviation tunnel := (tunnel net_SplitHostPort net_ParseIP lookup_ip4).
#[local] Abbreviation plain_env := (plain_env net_SplitHostPort net_ParseIP lookup_ip4).

(** [http.Client.Do] on a transport with no idle connection: a dial error is
    wrapped; any other error (the client's time-out included, which hides the
    chain) has no dial error in it; a response needs a connection. *)
Inductive do_over (dialled : result conn) : result (response * stream) -> Prop :=
  | do_dial_failed msg e : dialled = Err e -> do_over dialled (Err (ErrWrap msg e))
  | do_failed e : ~ blames e -> do_over dialled (Err e)
  | do_answered c resp body : dialled = Ok c -> do_over dialled (Ok (resp, body)).

Definition cancelled (env : check_env) (e : gerror) : Prop :=
  errors_Is e ContextCanceled = true \/ is_sentinel (ck_ctxErr env) ContextCanceled = true.
Definition timed_out (env : check_env) (e : gerror) : Prop :=
  errors_Is e ContextDeadlineExceeded = true \/ is_sentinel (ck_ctxErr env) ContextDeadlineExceeded = true.
Definition stable (start finish : GuardSnapshot) : Prop :=
  gs_Healthy start = true /\ gs_Healthy finish = true /\ gs_Generation start = gs_Generation finish.

Lemma classify_kind env e :
  match classifyCheckError (ck_ctxErr env) e with
  | CheckCancelled => cancelled env e
  | CheckDeadline => ~ cancelled env e /\ timed_out env e
  | CheckProxy => ~ cancelled env e /\ blames e
  | CheckTarget => ~ cancelled env e /\ ~ blames e
  | CheckLocal => False
  end.
Proof.
  unfold classifyCheckError, cancelled, timed_out, blames.
  destruct (errors_Is e ContextCanceled), (is_sentinel (ck_ctxErr env) ContextCanceled); cbn; auto.
  destruct (errors_Is e ContextDeadlineExceeded), (is_sentinel (ck_ctxErr env) ContextDeadlineExceeded); cbn; try by (split; [intros [|]|auto]).
  destruct (errors_As_dial e); (split; [by intros [|]|]); [done|by intros [? ?]].
Qed.

Lemma ClassifyCheck_failure kind reason e start finish :
  ClassifyCheck (Some (checkError kind reason e)) start finish = ScanFailure <->
  errors_Is e ContextCanceled = false /\ stable start finish /\ (kind = CheckProxy \/ kind = CheckDeadline).
Proof.
  unfold ClassifyCheck, checkError, stable. cbn. destruct (errors_Is e ContextCanceled); [split; [done|by intros [? _]]|].
  destruct (Z.eqb_spec (gs_Generation start) (gs_Generation finish)), (gs_Healthy start), (gs_Healthy finish), kind; cbn; naive_solver.
Qed.

(** The dial error that [client.Do] wrapped. *)
Lemma do_over_blames d handshakeTimeout denv tls addr r e : plain_env denv addr -> plain_tls tls ->
  do_over (dial_tls d handshakeTimeout denv tls addr fresh_wire).2 r -> r = Err e -> blames e -> proxy_step_failed denv addr d.
Proof.
  intros Hp Ht Hdo -> Hb. pose proof (dial_tls_ok net_SplitHostPort net_ParseIP lookup_ip4 d handshakeTimeout denv tls addr Hp Ht) as Hd.
  unfold dial_result in Hd. inversion Hdo as [msg e' Hr|e' Hn|]; subst; [|done]. rewrite Hr in Hd. by apply Hd.
Qed.
Lemma do_over_tunnel d handshakeTimeout denv tls addr resp body : plain_env denv addr -> plain_tls tls ->
  do_over (dial_tls d handshakeTimeout denv tls addr fresh_wire).2 (Ok (resp, body)) -> exists w, tunnel d denv addr w.
Proof.
  intros Hp Ht Hdo. pose proof (dial_tls_ok net_SplitHostPort net_ParseIP lookup_ip4 d handshakeTimeout denv tls addr Hp Ht) as Hd.
  unfold dial_result in Hd. inversion Hdo as [| |c resp' body' Hr]; subst. rewrite Hr in Hd. destruct Hd as (_ & _ & H). by eexists.
Qed.

(** C21: the general health check blames a proxy exactly for its own
    failures.  A check passes only if the tunnel stood and the target answered
    200 with a complete body that is not blank and within the limit.  A check
    makes the scan record a failure only if the proxy failed a step of its
    handshake, or the check's budget ran out before the response was in; and a
    handshake that the proxy failed, in a check nobody cancelled, is recorded
    as a failure under a stable guard.  What the target does wrong (its TLS, its
    status, its body) is never held against the proxy. *)
Theorem health_check_attribution timeout protocol ip port d handshakeTimeout addr denv tls cenv start finish
    (Hnew : NewProxyTransport url_Parse xproxy_FromURL (proxy_url protocol ip port) timeout = Ok d)
    (Hdo : do_over (dial_tls d handshakeTimeout denv tls addr fresh_wire).2 (ck_do (cenv d)))
    (Hplain : plain_env denv addr) (Htls : plain_tls tls) :
  match HealthChecker_Check timeout protocol ip port cenv with
  | Ok ms =>
      exists resp body, ck_do (cenv d) = Ok (resp, body) /\ rp_status resp = StatusOK /\ st_err body = None /\
        slen (st_data body) <= maxHealthBodyBytes /\ TrimSpace (st_data body) <> "" /\
        exists w, tunnel d denv addr w
  | Err e =>
      (ClassifyCheck (Some e) start finish = ScanFailure ->
         stable start finish /\ exists e', ck_do (cenv d) = Err e' /\ (proxy_step_failed denv addr d \/ timed_out (cenv d) e')) /\
      (forall msg e', ck_build (cenv d) = None -> ck_do (cenv d) = Err (ErrWrap msg e') ->
         (dial_tls d handshakeTimeout denv tls addr fresh_wire).2 = Err e' -> proxy_step_failed denv addr d ->
         ~ cancelled (cenv d) e' -> stable start finish -> ClassifyCheck (Some e) start finish = ScanFailure)
  end.
Proof.
  unfold HealthChecker_Check. rewrite Hnew. set (env := cenv d) in *. unfold health_runCheck.
  assert (Hlocal : forall kind reason e, kind <> CheckProxy -> kind <> CheckDeadline ->
    ClassifyCheck (Some (checkError kind reason e)) start finish <> ScanFailure).
  { intros kind reason e H1 H2 H%ClassifyCheck_failure. tauto. }
  destruct (ck_build env) as [e|]; [split; [by intros H%Hlocal|done]|].
  destruct (ck_do env) as [[resp body]|e] eqn:He.
  - destruct (Z.eqb_spec (rp_status resp) StatusOK) as [Hs|Hs]; cbn [negb]; [|split; [by intros H%Hlocal|done]].
    destruct (validateBody body) eqn:Hv; [split; [by intros H%Hlocal|done]|]. apply validateBody_ok in Hv as (H1 & H2 & H3).
    exists resp, body. do 5 (split; [done|]). by eapply do_over_tunnel.
  - pose proof (classify_kind env e) as Hk. split.
    + intros (Hc & Hst & Hkind)%ClassifyCheck_failure. split; [done|]. exists e. split; [done|].
      destruct Hkind as [Hkind|Hkind]; rewrite Hkind in Hk; destruct Hk as [_ Hk]; [left|by right]. by eapply do_over_blames.
    + intros msg e' _ [= ->] Hr Hf Hnc Hst. apply ClassifyCheck_failure. 
      pose proof (dial_tls_ok net_SplitHostPort net_ParseIP lookup_ip4 d handshakeTimeout denv tls addr Hplain Htls) as Hd.
      unfold dial_result in Hd. rewrite Hr in Hd. destruct Hd as [_ Hb]. apply Hb in Hf.
      assert (Hce : errors_Is e' ContextCanceled = false) by (destruct (errors_Is e' ContextCanceled) eqn:?; [exfalso; apply Hnc; by left|done]).
      split; [exact Hce|]. split; [done|]. unfold cancelled in Hk, Hnc. cbn [errors_Is] in Hk. unfold blames in Hk. cbn [errors_As_dial] in Hk.
      destruct (classifyCheckError (ck_ctxErr env) (ErrWrap msg e')); unfold blames in Hf; tauto.
Qed.
End Checks.

(** A deadline that expires while the body is read: the destination check
    classifies it, the health check attributes it to the target. *)
Lemma stalled_body_attribution http_ParseTime url_Parse xproxy_FromURL timeout protocol ip port d env resp data :
  NewProxyTransport url_Parse xproxy_FromURL (proxy_url protocol ip port) timeout = Ok d ->
  ck_build (env d) = None -> ck_do (env d) = Ok (resp, mkStream data (Some (ErrSentinel ContextDeadlineExceeded))) ->
  ck_ctxErr (env d) = Some (ErrSentinel ContextDeadlineExceeded) -> rp_status resp = StatusOK -> slen data <= maxHealthBodyBytes ->
  HealthChecker_Check url_Parse xproxy_FromURL timeout protocol ip port env
    = Err (checkError CheckTarget "validate body" (ErrSentinel ContextDeadlineExceeded))
  /\ Checker_Check url_Parse xproxy_FromURL http_ParseTime timeout protocol ip port env
    = Err (checkError CheckDeadline "read body" (ErrSentinel ContextDeadlineExceeded)).
Proof.
  intros Hnew Hb Hdo Hctx Hs Hl. unfold HealthChecker_Check, Checker_Check, health_runCheck. rewrite Hnew. cbv zeta. rewrite Hb, Hdo, Hs.
  unfold validateBody, read_limited. cbn [st_data st_err negb Z.eqb StatusOK Pos.eqb].
  rewrite !(proj2 (Z.leb_gt _ _)) by (unfold maxCheckerResponseBytes, maxHealthBodyBytes in *; lia). by rewrite Hctx.
Qed.

(** ** Retry-After *)

(** A number of seconds beyond the range of a duration wraps around: a hint of
    9223372037 s gives a negative duration, one of 18446744074 s gives 0.29 s. *)
Lemma ParseRetryAfter_wraps http_ParseTime now :
  ParseRetryAfter http_ParseTime "9223372037" now < 0
  /\ ParseRetryAfter http_ParseTime "18446744074" now = 290448384.
Proof. vm_compute. split; reflexivity. Qed.

(** A SOCKS4 proxy that refuses, checked under a healthy guard. *)
Definition demo_parse (url : string) : result proxyURL := Ok (mkProxyURL "socks4" "10.0.0.7" "1080" None).
Definition demo_check (d : dialer) : check_env :=
  mkCheckEnv None (Err (ErrWrap "Get" (ErrDial "socks4 negotiation" (ErrorString "proxy rejected CONNECT")))) None 0 1 2.
Definition demo_guard : GuardSnapshot := mkGuardSnapshot true 3.

Lemma health_check_attribution_witness :
  exists e, HealthChecker_Check demo_parse (fun _ => Ok true) (5 * second) "socks4" "10.0.0.7" 1080 demo_check = Err e
    /\ ClassifyCheck (Some e) demo_guard demo_guard = ScanFailure.
Proof.
  assert (Hnew : NewProxyTransport demo_parse (fun _ => Ok true) (proxy_url "socks4" "10.0.0.7" 1080) (5 * second)
    = Ok (Socks4Dialer (mkProxyURL "socks4" "10.0.0.7" "1080" None) (5 * second))) by (vm_compute; reflexivity).
  set (d := Socks4Dialer _ _) in Hnew.
  assert (Hfail : (dial_tls demo_split demo_ip demo_lookup d 0 (demo_env 91) demo_tls "1.2.3.4:443" fresh_wire).2
    = Err (ErrDial "socks4 negotiation" (ErrorString "proxy rejected CONNECT"))) by (vm_compute; reflexivity).
  assert (Hplain : plain_env demo_split demo_ip demo_lookup (demo_env 91) "1.2.3.4:443") by (split; [done|]; intros e; vm_compute; discriminate).
  assert (Htls : plain_tls demo_tls) by (repeat split; intros e; discriminate).
  pose proof (health_check_attribution demo_parse (fun _ => Ok true) demo_split demo_ip demo_lookup (5 * second) "socks4" "10.0.0.7" 1080
    d 0 "1.2.3.4:443" (demo_env 91) demo_tls demo_check demo_guard demo_guard Hnew) as H.
  rewrite Hfail in H. specialize (H (do_dial_failed _ "Get" _ eq_refl) Hplain Htls).
  unfold HealthChecker_Check in H |- *. rewrite Hnew in H |- *. cbn in H |- *. eexists. split; [reflexivity|].
  destruct H as [_ H]. apply (H "Get" (ErrDial "socks4 negotiation" (ErrorString "proxy rejected CONNECT")));
    [reflexivity|reflexivity|reflexivity| |intros [?|?]; discriminate|repeat split; reflexivity].
  eapply fault_socks4_reply; [vm_compute; reflexivity|reflexivity|reflexivity|reflexivity|right; discriminate].
Defined.
