(* ===== verification/Reports.v ===== *)
(** * Reports over the census tables
      ([infrastructure/postgres/repository/character.go], [achievement.go],
       [domain/census/service.go])

    The read-only queries behind the API and the pages: lists and streams of
    characters, daily and demographic counts, expansion completions, and the
    service operations that combine them.  The text of a time stamp
    ([TO_CHAR]) depends on the session's time zone, and the order of texts on
    the database's collation: both are parameters.  The order of rows that tie
    is an argument of the query. *)
From S2P Require Import Prelude GoErrors GoStrings Contract CharacterStore StatsStore Census Lodestone.

(** ** Listing characters *)

Inductive sortColumn := ColID | ColName | ColWorld | ColFirstSeen | ColLastCensus.
(** The column and whether the order is descending. *)
Definition characterOrderBy (sortBy sortOrder : string) : sortColumn * bool :=
  let column := lower_text sortBy in
  (if bool_decide (column = "name") then ColName
   else if bool_decide (column = "world") then ColWorld
   else if bool_decide (column = "created_at") then ColFirstSeen
   else if bool_decide (column = "updated_at") then ColLastCensus
   else ColID,
   bool_decide (lower_text sortOrder = "desc")).

(** The SQL order of a column; [collate] is the database's order on text, and
    NULL sorts after every value. *)
Definition column_le (collate : string -> string -> Prop) (col : sortColumn) (a b : CharacterRecord) : Prop :=
  match col with
  | ColID => cr_ID a <= cr_ID b
  | ColName => collate (cr_Name a) (cr_Name b)
  | ColWorld => collate (cr_World a) (cr_World b)
  | ColFirstSeen => cr_FirstSeenAt a <= cr_FirstSeenAt b
  | ColLastCensus =>
      match cr_LastCensusAt a, cr_LastCensusAt b with
      | Some x, Some y => x <= y
      | _, None => True
      | None, Some _ => False
      end
  end.
Definition row_order_le collate (o : sortColumn * bool) (a b : CharacterRecord) : Prop :=
  if o.2 then column_le collate o.1 b a else column_le collate o.1 a b.

Section Reports.
Context (fold_case : string -> string) (to_char : Z -> string) (sort_text : list string -> list string).

(** [arranged] is what the server returns for the ORDER BY clause. *)
Definition List_ (db : CensusDB) (fl : fault) (arranged : sortColumn * bool -> list CharacterRecord -> list CharacterRecord)
    (f : CharacterFilter) (limit offset : Z) : result (list CharacterRecord) :=
  let orderBy := characterOrderBy (cf_SortBy f) (cf_SortOrder f) in
  if (limit <? 0) || (offset <? 0) then Err (ErrorString "LIMIT and OFFSET must not be negative")
  else read_fault fl (Ok (take (Z.to_nat limit) (drop (Z.to_nat offset) (arranged orderBy (row_rec <$> matching fold_case db f))))).

(** [ORDER BY id ASC]; the callback's error ends the stream. *)
Definition id_le (a b : CharacterRecord) : Prop := cr_ID a <= cr_ID b.
#[local] Instance id_le_dec : RelDecision id_le.
Proof. intros a b. unfold id_le. apply _. Defined.
Fixpoint stream_rows {S} (fn : CharacterRecord -> ST S (option gerror)) (rows : list CharacterRecord) : ST S (result unit) :=
  match rows with
  | [] => mret (Ok tt)
  | rec :: rows => e ← fn rec; match e with Some e => mret (Err e) | None => stream_rows fn rows end
  end.
Definition Stream {S} (db : CensusDB) (fl : fault) (f : CharacterFilter) (fn : CharacterRecord -> ST S (option gerror)) : ST S (result unit) :=
  match read_fault fl (Ok (merge_sort id_le (row_rec <$> matching fold_case db f))) with
  | Err e => mret (Err e)
  | Ok rows => stream_rows fn rows
  end.

(** ** Demographics *)

Record DemographicCounts := mkDemographicCounts { dm_Tribes : list GroupCount; dm_Genders : list GroupCount; dm_RaceGenders : list GroupCount }.

(** A [GROUP BY] whose key is shown as a text. *)
Definition group_as {K} `{EqDecision K} (key : charRow -> K) (label : K -> string) (since : Z) (rows : list charRow) : list GroupCount :=
  (fun k => mkGroupCount (label k) (Z.of_nat (length (filter (fun r => key r = k) rows)))
              (Z.of_nat (length (filter (fun r => key r = k /\ active_since since r = true) rows))))
  <$> remove_dups (key <$> rows).

Definition DemographicBreakdown (db : CensusDB) (fl : fault) (since : Z) (f : CharacterFilter) : result DemographicCounts :=
  let rows := matching fold_case db f in
  read_fault fl (Ok (mkDemographicCounts
    (group_as (fun r => cr_Tribe (row_rec r)) id since (filter (fun r => cr_Tribe (row_rec r) <> "") rows))
    (group_as (fun r => cr_Gender (row_rec r)) genderName since rows)
    (group_as (fun r => (cr_Race (row_rec r), cr_Gender (row_rec r))) (fun rg => rg.1 +:+ "|" +:+ genderName rg.2) since
       (filter (fun r => cr_Race (row_rec r) <> "") rows)))).

(** ** Days *)

(** [GROUP BY day ORDER BY day ASC] of the distinct characters. *)
Definition per_day (rows : list (Z * Z)) : list DailyCount :=
  let days := (fun x => to_char x.2) <$> rows in
  (fun d => mkDailyCount d (Z.of_nat (length (remove_dups (filter (fun x => to_char x.2 = d) rows).*1))))
  <$> sort_text (remove_dups days).

Definition NewPerDay (db : CensusDB) (fl : fault) (since until : Z) (f : CharacterFilter) : result (list DailyCount) :=
  read_fault fl (Ok (per_day ((fun r => (cr_ID (row_rec r), cr_FirstSeenAt (row_rec r))) <$>
    filter (fun r => since <= cr_FirstSeenAt (row_rec r) < until) (matching fold_case db f)))).

(** ** Milestones *)

(** [characterJoinFilterWhere]: the clauses it emits. *)
Definition characterJoinFilterWhere (f : CharacterFilter) (r : charRow) : bool :=
  let c := row_rec r in
  unless_empty (cf_World f) (cr_World c) && unless_empty (cf_Datacenter f) (cr_Datacenter c)
  && unless_empty (cf_Region f) (cr_Region c) && unless_empty (cf_Race f) (cr_Race c)
  && unless_empty (cf_GrandCompany f) (cr_GrandCompany c)
  && (bool_decide (cf_FreeCompanyID f = "") || bool_decide (cr_FreeCompanyID c = Some (cf_FreeCompanyID f)))
  && (bool_decide (cf_Name f = "") || ilike fold_case (cr_Name c) ("%" +:+ cf_Name f +:+ "%")).

Definition live_in (db : CensusDB) (f : CharacterFilter) (ch : Z) : bool :=
  match cdb_chars db !! ch with Some r => not_deleted r && characterJoinFilterWhere f r | None => false end.
(** Milestones joined with the live characters of the filter: character,
    achievement, time. *)
Definition joined (db : CensusDB) (f : CharacterFilter) : list (Z * Z * Z) :=
  filter (fun x => live_in db f x.1.1 = true) (map_to_list (cdb_milestones db)).

Definition expansion_of (db : CensusDB) (ach : Z) : option string :=
  m ← cdb_registry db !! ach; if tracked_kind m then ma_Expansion m else None.
Definition CountExpansionsFiltered (db : CensusDB) (fl : fault) (f : CharacterFilter) : result (list ExpansionCount) :=
  let rows := joined db f in
  read_fault fl (Ok ((fun e => mkExpansionCount e
      (Z.of_nat (length (remove_dups (filter (fun x => expansion_of db x.1.2 = Some e) rows).*1.*1))))
    <$> sort_text (remove_dups (omap (fun x => expansion_of db x.1.2) rows)))).
Definition CountExpansions (db : CensusDB) (fl : fault) : result (list ExpansionCount) := CountExpansionsFiltered db fl zeroFilter.

Definition chocobo_rows (db : CensusDB) (f : CharacterFilter) (P : Z -> bool) : list (Z * Z) :=
  (fun x => (x.1.1, x.2)) <$> filter (fun x => x.1.2 = 590 /\ P x.2 = true) (joined db f).
Definition NewCharactersPerDay (db : CensusDB) (fl : fault) (since until : Z) (f : CharacterFilter) : result (list DailyCount) :=
  read_fault fl (Ok (per_day (chocobo_rows db f (fun t => (since <=? t) && (t <? until))))).
Definition CountChocoboMilestones (db : CensusDB) (fl : fault) (since : Z) (f : CharacterFilter) : result Z :=
  read_fault fl (Ok (Z.of_nat (length (remove_dups (chocobo_rows db f (fun t => since <=? t)).*1)))).

(** ** Service operations *)

Context {L : Type}.
Abbreviation M := (ST (CensusWorld L)).

Definition ListCharacters (arranged : sortColumn * bool -> list CharacterRecord -> list CharacterRecord) (f : CharacterFilter) (limit offset : Z)
    : M (result (list CharacterRecord * Z)) :=
  chars ← db_read (fun db fl => List_ db fl arranged f limit offset);
  match chars with
  | Err e => mret (Err e)
  | Ok chars =>
      total ← db_read (fun db fl => Count fold_case db fl f);
      mret ((fun total => (chars, total)) <$> total)
  end.

Record CharacterDetailRecord := mkCharacterDetail {
  dt_Character : CharacterRecord; dt_Jobs : list ClassJobRecord; dt_Gear : list CharacterGearRecord; dt_Milestones : list CharacterMilestone;
}.
Definition CharacterDetail (id : Z) : M (result (option CharacterDetailRecord)) :=
  rec ← db_read (fun db fl => Get db fl id);
  match rec with
  | Err e => mret (Err e)
  | Ok None => mret (Ok None)
  | Ok (Some rec) =>
      jobs ← db_read (fun db fl => GetJobs db fl id);
      match jobs with
      | Err e => mret (Err e)
      | Ok jobs =>
          gear ← db_read (fun db fl => GetGear db fl id);
          match gear with
          | Err e => mret (Err e)
          | Ok gear =>
              milestones ← db_read (fun db fl => ListCharacterMilestones db fl id);
              mret ((fun milestones => Some (mkCharacterDetail rec jobs gear milestones)) <$> milestones)
          end
      end
  end.

Record WorldDetailStats := mkWorldDetailStats {
  wd_World : string; wd_Datacenter : string; wd_Region : string;
  wd_TotalCharacters : Z; wd_ActiveCharacters : Z; wd_NewCharacters30d : Z;
  wd_Races : list GroupCount; wd_MSQCompletions : list ExpansionCount; wd_NewCharactersTimeline : list DailyCount;
}.
(** The seven queries run concurrently; the first error in this order wins and
    the metadata lookup is not fatal. *)
Definition WorldDetail (arranged : sortColumn * bool -> list CharacterRecord -> list CharacterRecord) (worldName : string) : M (result WorldDetailStats) :=
  let filter := zeroFilter{{ cf_World := worldName }} in
  s ← get_service;
  t ← now_;
  let since := activitySince s t in
  let filterActive := zeroFilter{{ cf_World := worldName; cf_Since := Some since }} in
  now ← now_;
  let since30d := now - 30 * day in
  total ← db_read (fun db fl => Count fold_case db fl filter);
  active ← db_read (fun db fl => Count fold_case db fl filterActive);
  new30d ← db_read (fun db fl => CountChocoboMilestones db fl since30d filter);
  races ← db_read (fun db fl => Breakdown fold_case db fl "race" since filter);
  msq ← db_read (fun db fl => CountExpansionsFiltered db fl filter);
  timeline ← db_read (fun db fl => NewCharactersPerDay db fl since30d now filter);
  chars ← db_read (fun db fl => List_ db fl arranged filter 1 0);
  let '(dc, region) := match chars with Ok (c :: _) => (cr_Datacenter c, cr_Region c) | _ => ("", "") end in
  mret (total ← total; active ← active; new30d ← new30d; races ← races; msq ← msq; timeline ← timeline;
        mret (mkWorldDetailStats worldName dc region total active new30d races msq timeline)).

Definition svc_Breakdown (column : string) (f : CharacterFilter) : M (result (list GroupCount)) :=
  match breakdownColumn column with
  | None => mret (Err (ErrSentinel ErrInvalidDimension))
  | Some _ =>
      s ← get_service;
      t ← now_;
      db_read (fun db fl => Breakdown fold_case db fl column (activitySince s t) f)
  end.
Definition svc_MultiBreakdown (columns : list string) (f : CharacterFilter) : M (result (gmap string (list GroupCount))) :=
  s ← get_service;
  t ← now_;
  db_read (fun db fl => MultiBreakdown fold_case db fl columns (activitySince s t) f).
Definition svc_DemographicBreakdown (f : CharacterFilter) : M (result DemographicCounts) :=
  s ← get_service;
  t ← now_;
  db_read (fun db fl => DemographicBreakdown db fl (activitySince s t) f).
Definition NewCharacters (since until : Z) (f : CharacterFilter) : M (result (list DailyCount)) :=
  db_read (fun db fl => NewCharactersPerDay db fl since until f).
Definition ExpansionCompletions : M (result (list ExpansionCount)) := db_read CountExpansions.
End Reports.
