(* ===== verification/ReportsFacts.v ===== *)
(** * Reports: theorems *)
From S2P Require Import Prelude GoErrors GoStrings Contract CharacterStore CharacterStoreFacts StatsStore Census Reports.

(** ** Pages *)

Lemma concat_pages {A} (limit n : nat) : forall l : list A, (length l <= n * limit)%nat ->
  concat ((fun k => take limit (drop (k * limit) l)) <$> seq 0 n) = l.
Proof.
  induction n as [|n IH]; intros l Hl.
  - destruct l; [done|cbn in Hl; lia].
  - cbn [seq fmap list_fmap concat]. rewrite <-fmap_S_seq, <-list_fmap_compose. cbn [Nat.mul drop].
    rewrite (list_fmap_ext _ (fun k => take limit (drop (k * limit) (drop limit l)))).
    + rewrite IH by (rewrite length_drop; lia). apply take_drop.
    + intros i k _. cbn. by rewrite drop_drop.
Qed.

Global Instance id_le_trans : Transitive id_le.
Proof. intros a b c. unfold id_le. lia. Qed.
Global Instance id_le_total : Total id_le.
Proof. intros a b. unfold id_le. lia. Qed.

Section Reports.
Context (fold_case : string -> string) (to_char : Z -> string) (sort_text : list string -> list string).
Context (Hsort : forall l, sort_text l ≡ₚ l).

#[local] Existing Instance id_le_dec.
#[local] Abbreviation matching := (matching fold_case).
#[local] Abbreviation List_ := (List_ fold_case).

(** What a server may return for an ORDER BY clause: the rows in some order
    that the clause allows. *)
Definition lawful (collate : string -> string -> Prop) (arranged : sortColumn * bool -> list CharacterRecord -> list CharacterRecord) : Prop :=
  forall o l, arranged o l ≡ₚ l /\ StronglySorted (row_order_le collate o) (arranged o l).

(** The export order. *)
Definition by_id (db : CensusDB) (f : CharacterFilter) : list CharacterRecord := merge_sort id_le (row_rec <$> matching db f).

Lemma matching_ids db f : census_ok db -> NoDup (cr_ID <$> (row_rec <$> matching db f)).
Proof.
  intros Hok. unfold CharacterStore.matching, chars_list. rewrite <-list_fmap_compose.
  assert (Hnd : NoDup ((cr_ID ∘ row_rec) <$> (map_to_list (cdb_chars db)).*2)).
  { rewrite <-list_fmap_compose. rewrite (list_fmap_ext _ fst); [apply NoDup_fst_map_to_list|].
    intros i [id r] Hr. cbn. apply list_elem_of_lookup_2, elem_of_map_to_list in Hr. by apply (ok_id _ _ Hok). }
  eapply sublist_NoDup; [exact Hnd|]. apply fmap_sublist, sublist_filter.
Qed.

Lemma sorted_by_id_unique db f l : census_ok db -> l ≡ₚ (row_rec <$> matching db f) -> StronglySorted id_le l -> l = by_id db f.
Proof.
  intros Hok Hp Hs. apply (StronglySorted_unique_strong id_le).
  - intros x y Hx Hy Hxy Hyx. unfold id_le in *. unfold by_id in Hy. rewrite merge_sort_Permutation in Hy. rewrite Hp in Hx.
    pose proof (matching_ids db f Hok) as Hnd. apply list_elem_of_lookup in Hx as [i Hi], Hy as [j Hj].
    assert (i = j); [|by subst; congruence]. eapply (NoDup_lookup _ i j (cr_ID x) Hnd).
    + by rewrite list_lookup_fmap, Hi.
    + rewrite list_lookup_fmap, Hj. cbn. f_equal. lia.
  - done.
  - apply (StronglySorted_merge_sort id_le).
  - unfold by_id. by rewrite merge_sort_Permutation.
Qed.

(** Every id occurs once, in ascending order. *)
Lemma by_id_sorted db f : census_ok db -> StronglySorted (fun a b => cr_ID a < cr_ID b) (by_id db f).
Proof.
  intros Hok. pose proof (matching_ids db f Hok) as Hnd. pose proof (StronglySorted_merge_sort id_le (row_rec <$> matching db f)) as Hs.
  fold (by_id db f) in Hs. assert (Hp : by_id db f ≡ₚ row_rec <$> matching db f) by apply merge_sort_Permutation.
  rewrite <-Hp in Hnd. revert Hnd. clear Hp. induction Hs as [|a l Hs IH Ha]; [constructor|].
  rewrite fmap_cons, list.NoDup_cons. intros [Hn Hnd]. constructor; [by apply IH|]. rewrite list.Forall_forall in Ha |- *.
  intros b Hb. specialize (Ha b Hb). unfold id_le in Ha. assert (cr_ID a <> cr_ID b); [|lia]. intros E. apply Hn. rewrite E. by apply list_elem_of_fmap_2.
Qed.

(** A list by id is a window of the export order, whatever the server does
    with rows that tie. *)
Lemma List_by_id db collate arranged f limit offset : census_ok db -> lawful collate arranged ->
  characterOrderBy (cf_SortBy f) (cf_SortOrder f) = (ColID, false) -> 0 <= limit -> 0 <= offset ->
  List_ db NoFault arranged f limit offset = Ok (take (Z.to_nat limit) (drop (Z.to_nat offset) (by_id db f))).
Proof.
  intros Hok Hlaw Hcol Hl Ho. unfold Reports.List_. rewrite Hcol. rewrite !(proj2 (Z.ltb_ge _ _)) by lia. cbn [orb read_fault].
  destruct (Hlaw (ColID, false) (row_rec <$> matching db f)) as [Hp Hs]. by rewrite (sorted_by_id_unique db f _ Hok Hp Hs).
Qed.

(** The callback that collects the records. *)
Definition collect (c : CharacterRecord) : ST (list CharacterRecord) (option gerror) := fun l => (l ++ [c], None).
Lemma stream_collect rows : forall l, stream_rows collect rows l = (l ++ rows, Ok tt).
Proof.
  induction rows as [|c rows IH]; intros l; cbn [stream_rows]; [by rewrite app_nil_r|].
  rewrite ST_bind_eq. cbn [collect fst snd]. by rewrite IH, <-app_assoc.
Qed.

(** A callback that fails is not called again. *)
Lemma stream_stops {S} (fn : CharacterRecord -> ST S (option gerror)) rows1 c rows2 e w1 w2 w3 :
  stream_rows fn rows1 w1 = (w2, Ok tt) -> fn c w2 = (w3, Some e) -> stream_rows fn (rows1 ++ c :: rows2) w1 = (w3, Err e).
Proof.
  revert w1. induction rows1 as [|d rows1 IH]; intros w1; cbn [stream_rows app]; rewrite ?ST_bind_eq.
  - intros [= <-] Hfn. by rewrite Hfn.
  - destruct (fn d w1) as [w [e'|]]; cbn [fst snd]; [done|]. apply IH.
Qed.

(** C34: the paginated list and the stream agree.  Listed by id, the
    characters that match a filter come in pages without gaps or repetitions:
    the pages of any positive size, in order, are together exactly what the
    export streams for the filter, even if the server arranges the rows of each
    query anew; so is their number what the count reports. *)
Theorem pages_are_the_export ops db f limit n collate (arranged : nat -> sortColumn * bool -> list CharacterRecord -> list CharacterRecord)
    (Hwf : Forall op_wf ops) (Hdb : db = run_census empty_census ops)
    (Hlaw : forall k, lawful collate (arranged k)) (Hcol : characterOrderBy (cf_SortBy f) (cf_SortOrder f) = (ColID, false))
    (Hlimit : 0 < limit) (Hn : forall total, CharacterStore.Count fold_case db NoFault f = Ok total -> total <= Z.of_nat n * limit) :
  exists pages, length pages = n /\
    (forall k page, pages !! k = Some page -> List_ db NoFault (arranged k) f limit (Z.of_nat k * limit) = Ok page) /\
    Stream fold_case db NoFault f collect [] = (concat pages, Ok tt) /\
    CharacterStore.Count fold_case db NoFault f = Ok (Z.of_nat (length (concat pages))).
Proof.
  assert (Hok : census_ok db) by (rewrite Hdb; apply run_census_ok; [done|exact empty_census_ok]).
  specialize (Hn _ eq_refl). assert (Hlen : length (by_id db f) = length (matching db f)).
  { unfold by_id. by rewrite merge_sort_Permutation, length_fmap. }
  exists ((fun k => take (Z.to_nat limit) (drop (k * Z.to_nat limit) (by_id db f))) <$> seq 0 n).
  rewrite concat_pages by (rewrite Hlen; nia). split; [by rewrite length_fmap, length_seq|]. split; [|split].
  - intros k page Hk. apply list_lookup_fmap_Some in Hk as (k' & -> & [-> _]%lookup_seq).
    rewrite (List_by_id db collate) by (done || nia). do 3 f_equal. rewrite Nat.add_0_l. nia.
  - unfold Stream. cbn [read_fault]. exact (stream_collect (by_id db f) []).
  - unfold CharacterStore.Count. cbn [read_fault]. by rewrite Hlen.
Qed.

(** Sorted by another column there is no tie-break: for two characters of one
    world the server may answer the first page and the second page with the
    same character. *)
Lemma tied_pages_repeat db f collate desc c1 c2 : (forall s, collate s s) ->
  characterOrderBy (cf_SortBy f) (cf_SortOrder f) = (ColWorld, desc) ->
  (row_rec <$> matching db f) ≡ₚ [c1; c2] -> cr_World c1 = cr_World c2 ->
  let answers (l : list CharacterRecord) :=
    l ≡ₚ (row_rec <$> matching db f) /\ StronglySorted (row_order_le collate (ColWorld, desc)) l in
  answers [c1; c2] /\ answers [c2; c1] /\
  List_ db NoFault (fun _ _ => [c1; c2]) f 1 0 = Ok [c1] /\ List_ db NoFault (fun _ _ => [c2; c1]) f 1 1 = Ok [c1].
Proof.
  intros Hrefl Hcol Hp Hw answers.
  assert (Hle : forall a b, cr_World a = cr_World b -> row_order_le collate (ColWorld, desc) a b).
  { intros a b E. unfold row_order_le. cbn. rewrite E. by destruct desc. }
  assert (Hs : forall a b, cr_World a = cr_World b -> StronglySorted (row_order_le collate (ColWorld, desc)) [a; b]).
  { intros a b E. repeat constructor. by apply Hle. }
  split; [split; [by symmetry|by apply Hs]|]. split; [split; [rewrite Hp; apply Permutation_swap|by apply Hs]|]. done.
Qed.

(** ** World detail *)

(** The clauses of a filter on the world only. *)
Lemma world_filter db world r : characterFilterWhere fold_case db (zeroFilter{{ cf_World := world }}) r = unless_empty world (cr_World (row_rec r)).
Proof. unfold characterFilterWhere. cbn. by rewrite !andb_true_r. Qed.
Lemma world_active_filter db world since r :
  characterFilterWhere fold_case db (zeroFilter{{ cf_World := world; cf_Since := Some since }}) r
  = unless_empty world (cr_World (row_rec r)) && active_since since r.
Proof. unfold characterFilterWhere, active_since. cbn. by rewrite !andb_true_r. Qed.
Lemma world_join_filter world r : characterJoinFilterWhere fold_case (zeroFilter{{ cf_World := world }}) r = unless_empty world (cr_World (row_rec r)).
Proof. unfold characterJoinFilterWhere. cbn. by rewrite !andb_true_r. Qed.

Lemma matching_active db world since :
  length (matching db (zeroFilter{{ cf_World := world; cf_Since := Some since }}))
  = length (filter (fun r => active_since since r = true) (matching db (zeroFilter{{ cf_World := world }}))).
Proof.
  unfold CharacterStore.matching. rewrite list_filter_filter. f_equal. apply filter_ext_in. intros r _.
  rewrite world_active_filter, world_filter, andb_true_iff. tauto.
Qed.

(** The characters of the joined milestones are live characters of the world. *)
Lemma joined_matching db world x : census_ok db -> x ∈ joined fold_case db (zeroFilter{{ cf_World := world }}) ->
  x.1.1 ∈ cr_ID <$> (row_rec <$> matching db (zeroFilter{{ cf_World := world }})).
Proof.
  intros Hok [Hl Hx]%list_elem_of_filter. unfold live_in in Hl. destruct (cdb_chars db !! x.1.1) as [r|] eqn:Hr; [|done].
  rewrite world_join_filter in Hl. apply andb_true_iff in Hl as [Hd Hw]. rewrite <-list_fmap_compose. apply list_elem_of_fmap.
  exists r. split; [symmetry; by apply (ok_id _ _ Hok)|]. apply list_elem_of_filter. rewrite world_filter. split; [done|].
  unfold chars_list. apply list_elem_of_fmap. exists (x.1.1, r). split; [done|]. by apply elem_of_map_to_list.
Qed.

(** Distinct characters with some milestone of the world are at most the
    world's characters. *)
Lemma distinct_le_total db world (rows : list (Z * Z * Z)) : census_ok db ->
  (forall x, x ∈ rows -> x ∈ joined fold_case db (zeroFilter{{ cf_World := world }})) ->
  (length (remove_dups rows.*1.*1) <= length (matching db (zeroFilter{{ cf_World := world }})))%nat.
Proof.
  intros Hok Hin. rewrite <-(length_fmap row_rec), <-(length_fmap cr_ID). apply submseteq_length, NoDup_submseteq; [apply NoDup_remove_dups|].
  intros id Hid. rewrite elem_of_remove_dups, <-list_fmap_compose in Hid. apply list_elem_of_fmap in Hid as (x & -> & Hx).
  by apply joined_matching; [|apply Hin].
Qed.

(** ** The timeline *)

Lemma length_remove_dups_NoDup {A} `{EqDecision A} (l : list A) : NoDup l -> length (remove_dups l) = length l.
Proof.
  intros Hl. apply Permutation_length, NoDup_Permutation; [apply NoDup_remove_dups|done|]. intros x. apply elem_of_remove_dups.
Qed.

Lemma per_day_sum rows : NoDup rows.*1 -> sumZ (dc_Count <$> per_day to_char sort_text rows) = Z.of_nat (length rows).
Proof using Hsort.
  intros Hnd. unfold per_day. rewrite <-list_fmap_compose. rewrite (sumZ_perm _ _ (fmap_Permutation _ _ _ (Hsort _))).
  transitivity (Z.of_nat (length (filter (fun x : Z * Z => (fun _ => true) (to_char x.2) = true) rows))).
  - rewrite <-(partition_sum (fun x => to_char x.2) (fun _ => true) rows). f_equal. apply list_fmap_ext. intros i d _. cbn. f_equal.
    rewrite length_remove_dups_NoDup; [by rewrite length_fmap|]. eapply sublist_NoDup; [exact Hnd|]. apply fmap_sublist, sublist_filter.
  - by rewrite filter_all.
Qed.

(** A character has one chocobo milestone. *)
Lemma chocobo_ids_NoDup db f P : NoDup (chocobo_rows fold_case db f P).*1.
Proof.
  unfold chocobo_rows, joined. rewrite <-list_fmap_compose. apply NoDup_fmap_2_strong.
  - intros [[a b] t] [[a' b'] t'] Hx Hy E. cbn in E. subst a'.
    apply list_elem_of_filter in Hx as [[Hb _] [_ Hx]%list_elem_of_filter], Hy as [[Hb' _] [_ Hy]%list_elem_of_filter].
    cbn in Hb, Hb'. subst. apply elem_of_map_to_list in Hx, Hy. congruence.
  - eapply sublist_NoDup; [apply NoDup_map_to_list|]. etrans; apply sublist_filter.
Qed.

(** Nobody earned the milestone after [now]. *)
Definition no_future (db : CensusDB) (now : Z) : Prop := forall ch t, cdb_milestones db !! (ch, 590) = Some t -> t < now.

Lemma chocobo_until db f since now : no_future db now ->
  chocobo_rows fold_case db f (fun t => (since <=? t) && (t <? now)) = chocobo_rows fold_case db f (fun t => since <=? t).
Proof.
  intros Hfut. unfold chocobo_rows. f_equal. apply filter_ext_in. intros [[ch a] t] [_ Hx]%list_elem_of_filter. cbn.
  split; [by intros [-> [? _]%andb_true_iff]|]. intros [-> H]. apply elem_of_map_to_list in Hx. rewrite H.
  split; [done|]. apply Z.ltb_lt. exact (Hfut ch t Hx).
Qed.

Context {L : Type}.

(** The figures of a world's page agree.  On every database the
    repositories can produce, with a driver that answers: the characters of the
    world are the sum over its races, the active ones (a count by the time of
    the latest achievement) the sum of the races' active columns, the new
    characters of the last thirty days the sum of the timeline (unless a stored
    milestone lies in the future), days and expansions are listed once, and no
    expansion was completed by more characters than the world has. *)
Theorem world_detail_consistent (w : CensusWorld L) ops arranged world
    (Hwf : Forall op_wf ops) (Hdb : cw_db w = run_census empty_census ops) (Hclean : forall n, cw_fault w n = NoFault) :
  exists w' st, WorldDetail fold_case to_char sort_text arranged world w = (w', Ok st) /\ cw_db w' = cw_db w /\
    CharacterStore.Count fold_case (cw_db w) NoFault (zeroFilter{{ cf_World := world }}) = Ok (wd_TotalCharacters st) /\
    wd_TotalCharacters st = sumZ (gc_Total <$> wd_Races st) /\
    wd_ActiveCharacters st = sumZ (gc_Active <$> wd_Races st) /\
    (no_future (cw_db w) (cw_clock w (S (cw_ticks w))) -> wd_NewCharacters30d st = sumZ (dc_Count <$> wd_NewCharactersTimeline st)) /\
    NoDup (dc_Day <$> wd_NewCharactersTimeline st) /\ NoDup (ec_Expansion <$> wd_MSQCompletions st) /\
    Forall (fun e => 0 <= ec_Count e <= wd_TotalCharacters st) (wd_MSQCompletions st).
Proof.
  assert (Hok : census_ok (cw_db w)) by (rewrite Hdb; apply run_census_ok; [done|exact empty_census_ok]).
  unfold WorldDetail, db_read, db_write, get_service, now_.
  repeat (rewrite ST_bind_eq; cbn -[Count Breakdown CountChocoboMilestones CountExpansionsFiltered NewCharactersPerDay Reports.List_ activitySince]).
  rewrite !Hclean. destruct (match List_ _ _ _ _ _ _ with Ok (c :: _) => _ | _ => _ end) as [dc region].
  change (mkCharacterFilter world "" "" "" "" "" "" false None 0 "" "") with (zeroFilter{{ cf_World := world }}).
  set (since := activitySince _ _). set (now := cw_clock w (S (cw_ticks w))). set (f := zeroFilter{{ cf_World := world }}).
  pose proof (Breakdown_partitions fold_case (cw_db w) "race" since f) as Hb.
  destruct (Breakdown fold_case (cw_db w) NoFault "race" since f) as [races|e]; [|by destruct Hb; apply list_elem_of_here].
  destruct Hb as (Htotal & Hactive & _). injection Htotal as Htotal.
  eexists _, _. split; [reflexivity|]. cbn [cw_db wd_TotalCharacters wd_ActiveCharacters wd_NewCharacters30d wd_Races wd_MSQCompletions wd_NewCharactersTimeline]. split; [done|]. split; [done|]. split; [exact Htotal|].
  split; [rewrite <-Hactive; f_equal; exact (matching_active (cw_db w) world since)|]. split; [|split; [|split]].
  - intros Hfut. rewrite chocobo_until by done. rewrite per_day_sum by apply chocobo_ids_NoDup.
    rewrite length_remove_dups_NoDup by apply chocobo_ids_NoDup. by rewrite length_fmap.
  - unfold per_day. rewrite <-list_fmap_compose, (list_fmap_ext _ id) by done. rewrite list_fmap_id, Hsort. apply NoDup_remove_dups.
  - rewrite <-list_fmap_compose, (list_fmap_ext _ id) by done. rewrite list_fmap_id, Hsort. apply NoDup_remove_dups.
  - apply Forall_fmap, list.Forall_forall. intros e _. cbn. split; [lia|]. apply inj_le. apply distinct_le_total; [done|].
    intros x [_ Hx]%list_elem_of_filter. exact Hx.
Qed.
End Reports.

(** ** Examples *)

(** A server that sorts, texts in byte order. *)
Global Instance order_le_dec o : RelDecision (row_order_le String.le o).
Proof. intros a b. unfold row_order_le, column_le. repeat case_match; apply _. Defined.
Lemma order_le_trans o : Transitive (row_order_le String.le o).
Proof.
  intros a b c. unfold row_order_le, column_le. destruct o as [[] []]; cbn; try lia; try (intros H1 H2; etrans; eassumption);
    destruct (cr_LastCensusAt a), (cr_LastCensusAt b), (cr_LastCensusAt c); done || lia.
Qed.
Lemma order_le_total o : Total (row_order_le String.le o).
Proof.
  intros a b. unfold row_order_le, column_le. destruct o as [[] []]; cbn; try lia; try (apply total; apply _);
    destruct (cr_LastCensusAt a), (cr_LastCensusAt b); auto; lia.
Qed.
Definition sorting_server (o : sortColumn * bool) (l : list CharacterRecord) : list CharacterRecord := merge_sort (row_order_le String.le o) l.
Lemma sorting_server_lawful : lawful String.le sorting_server.
Proof.
  intros o l. split; [apply merge_sort_Permutation|]. pose proof (order_le_trans o). pose proof (order_le_total o).
  apply (StronglySorted_merge_sort (row_order_le String.le o)).
Qed.

(** Two characters of one world; one earned the chocobo milestone. *)
Definition report_ops : list census_op :=
  [CUpsert NoFault (sample_char 11 1) [sample_job 11 30 90; sample_job 11 19 100]; CUpsert NoFault (sample_char 10 2) [sample_job 10 30 90; sample_job 10 19 100];
   CSync NoFault (BuildMilestones DefaultExpansions); CMilestones NoFault [mkCharacterMilestone 10 590 (5 * day)]].
Lemma report_ops_wf : Forall op_wf report_ops.
Proof. do 2 (constructor; [apply sample_jobs_wf|]). do 2 (constructor; [exact I|]). constructor. Qed.

Lemma pages_are_the_export_witness :
  exists pages, length pages = 2%nat /\
    Stream id (run_census empty_census report_ops) NoFault zeroFilter collect [] = (concat pages, Ok tt) /\
    (cr_ID <$> concat pages) = [10; 11].
Proof.
  destruct (pages_are_the_export id report_ops _ zeroFilter 1 2 String.le (fun _ => sorting_server) report_ops_wf eq_refl)
    as (pages & Hlen & _ & Hstream & _).
  - intros _. apply sorting_server_lawful.
  - vm_compute. reflexivity.
  - lia.
  - intros total. vm_compute. intros [= <-]. discriminate.
  - exists pages. split; [exact Hlen|]. split; [exact Hstream|].
    assert (H : (cr_ID <$> (Stream id (run_census empty_census report_ops) NoFault zeroFilter collect []).1) = [10; 11]) by (vm_compute; reflexivity).
    rewrite Hstream in H. exact H.
Defined.

Definition report_world : CensusWorld unit :=
  mkCensusWorld (run_census empty_census report_ops) NewService (fun _ => 20 * day) 0 (fun _ => NoFault) 0 tt.
Lemma world_detail_consistent_witness :
  exists w' st, WorldDetail id (fun _ => "1970-01-06") (merge_sort String.le) sorting_server "Omega" report_world = (w', Ok st) /\
    wd_NewCharacters30d st = sumZ (dc_Count <$> wd_NewCharactersTimeline st) /\ wd_TotalCharacters st = 2.
Proof.
  destruct (world_detail_consistent id (fun _ => "1970-01-06") (merge_sort String.le) (merge_sort_Permutation String.le)
    report_world report_ops sorting_server "Omega" report_ops_wf eq_refl (fun _ => eq_refl)) as (w' & st & Hrun & _ & Htotal & _ & _ & Hnew & _).
  exists w', st. split; [exact Hrun|]. split.
  - apply Hnew. intros ch t Ht. destruct (decide (ch = 10)) as [->|Hne].
    + vm_compute in Ht. injection Ht as <-. reflexivity.
    + exfalso. assert (Hs : forall k, is_Some (cdb_milestones (cw_db report_world) !! k) -> k = (10, 590)).
      { intros k Hk. assert (Hm : cdb_milestones (cw_db report_world) = {[ (10, 590) := 5 * day ]}) by (vm_compute; reflexivity).
        rewrite Hm in Hk. destruct Hk as [x Hx]. apply lookup_singleton_Some in Hx as [<- _]. reflexivity. }
      specialize (Hs (ch, 590) (ex_intro _ t Ht)). congruence.
  - assert (H2 : Count id (cw_db report_world) NoFault (zeroFilter{{ cf_World := "Omega" }}) = Ok 2) by (vm_compute; reflexivity).
    rewrite H2 in Htotal. congruence.
Defined.
