(* ===== verification/Api.v ===== *)
(** * The census REST API ([cmd/http/app/census/handler/census.go])

    One definition per endpoint: the query is validated, the statistics
    snapshot answers where there is a statistics service, the census service
    otherwise.  A reply is its status, its Retry-After header and its body
    before encoding; [configured] says whether the controller has a census
    service. *)
From S2P Require Import Prelude GoErrors GoStrings Dates Contract LodestonePage CharacterStore CharacterStoreFacts Snapshot Census Lodestone Reports ReportsFacts.

(** ** Payloads ([port/dto/response/census.go]) *)

(** The ratio is kept as the quotient that is rounded to a float; [None] is 0. *)
Record CensusSummary := mkCensusSummary { cs_Total : Z; cs_Active : Z; cs_Ratio : option (Z * Z); cs_MaxLevel : Z }.
Record CharacterListItem := mkListItem {
  li_ID : Z; li_Name : string; li_World : string; li_Datacenter : string; li_Region : string; li_Race : string; li_Gender : Z;
  li_FreeCompanyID : option string; li_FreeCompanyName : option string; li_AchievementsPrivate : bool;
  li_LatestAchievementID : option Z; li_IsActive : bool; li_FirstSeenAt : Z; li_LastCensusAt : option Z;
}.
Record PaginatedCharacters := mkPage { pg_Items : list CharacterListItem; pg_Total : Z; pg_Limit : Z; pg_Offset : Z }.
Record CharacterJobDetail := mkJobDetail { jd_ClassJobID : Z; jd_Name : string; jd_Level : Z; jd_ExpLevel : Z }.
Record CharacterMilestoneDetail := mkMilestoneDetail { md_AchievementID : Z; md_AchievedAt : Z }.
Record CharacterDetailPayload := mkDetailPayload {
  dp_Character : CharacterListItem; dp_Jobs : list CharacterJobDetail; dp_Milestones : list CharacterMilestoneDetail;
}.
Inductive apiBody :=
  | ErrorText (msg : string)
  | ErrorOf (e : gerror)
  | SummaryBody (s : CensusSummary)
  | PageBody (p : PaginatedCharacters)
  | DetailBody (d : CharacterDetailPayload)
  | BreakdownBody (groups : list GroupCount)
  | DaysBody (days : list DailyCount)
  | ExpansionsBody (stats : list ExpansionCount).
Record httpReply := mkReply { hr_status : Z; hr_retryAfter : option string; hr_body : apiBody }.
Definition writeJSON (status : Z) (body : apiBody) : httpReply := mkReply status None body.
Definition writeError (status : Z) (msg : string) : httpReply := writeJSON status (ErrorText msg).

Definition StatusBadRequest : Z := 400.
Definition StatusInternalServerError : Z := 500.
Definition StatusServiceUnavailable : Z := 503.

(** [strconv.ParseBool]. *)
Definition ParseBool (s : string) : option bool :=
  if bool_decide (s ∈ ["1"; "t"; "T"; "TRUE"; "true"; "True"]) then Some true
  else if bool_decide (s ∈ ["0"; "f"; "F"; "FALSE"; "false"; "False"]) then Some false
  else None.

(** ** Mapping *)

(** [now] is read for characters with an achievement. *)
Definition list_item (now : Z) (rec : CharacterRecord) : CharacterListItem := {|
  li_ID := cr_ID rec; li_Name := cr_Name rec; li_World := cr_World rec; li_Datacenter := cr_Datacenter rec; li_Region := cr_Region rec;
  li_Race := cr_Race rec; li_Gender := cr_Gender rec; li_FreeCompanyID := cr_FreeCompanyID rec; li_FreeCompanyName := cr_FreeCompanyName rec;
  li_AchievementsPrivate := cr_AchievementsPrivate rec; li_LatestAchievementID := cr_LatestAchievementID rec;
  li_IsActive := match cr_LatestAchievementAt rec with Some at_ => negb (at_ <? now - 30 * day) | None => false end;
  li_FirstSeenAt := cr_FirstSeenAt rec; li_LastCensusAt := cr_LastCensusAt rec |}.

Section Endpoints.
Context {L : Type}.
Abbreviation M := (ST (CensusWorld L)).
Context (fold_case : string -> string) (to_char : Z -> string) (sort_text : list string -> list string).
Context (configured : bool) (stats : option (result UIStatsSnapshot)).

Definition toCharacterListItem (rec : CharacterRecord) : M CharacterListItem :=
  match cr_LatestAchievementAt rec with
  | Some _ => now ← now_; mret (list_item now rec)
  | None => mret (list_item 0 rec)
  end.
Fixpoint list_items (recs : list CharacterRecord) : M (list CharacterListItem) :=
  match recs with
  | [] => mret []
  | rec :: recs => item ← toCharacterListItem rec; items ← list_items recs; mret (item :: items)
  end.
Definition toCharacterDetail (d : CharacterDetailRecord) : M CharacterDetailPayload :=
  item ← toCharacterListItem (dt_Character d);
  mret (mkDetailPayload item
    ((fun j => mkJobDetail (cj_ClassJobID j) (cj_Name j) (cj_Level j) (cj_ExpLevel j)) <$> dt_Jobs d)
    ((fun m => mkMilestoneDetail (cm_AchievementID m) (cm_AchievedAt m)) <$> dt_Milestones d)).

Definition unavailable : httpReply := writeError StatusInternalServerError "census service unavailable".
Definition internal (e : gerror) : httpReply := writeJSON StatusInternalServerError (ErrorOf e).
Definition require_service (k : M httpReply) : M httpReply := if configured then k else mret unavailable.
(** [currentStats]: the snapshot if there is a statistics service. *)
Definition with_stats (k : UIStatsSnapshot -> httpReply) (direct : M httpReply) : M httpReply :=
  match stats with
  | None => direct
  | Some (Err _) => mret (mkReply StatusServiceUnavailable (Some "60") (ErrorText "statistics temporarily unavailable"))
  | Some (Ok snapshot) => mret (k snapshot)
  end.

(** ** Endpoints *)

Definition summary_body (total active maxLevel : Z) : apiBody :=
  SummaryBody (mkCensusSummary total active (if 0 <? total then Some (active, total) else None) maxLevel).
Definition api_Latest : M httpReply :=
  with_stats (fun s => writeJSON StatusOK (summary_body (su_Total (ss_Summary s)) (su_Active (ss_Summary s)) (su_MaxLevel (ss_Summary s))))
    (require_service (
      r ← Summary fold_case;
      mret (match r with
            | Err e => internal e
            | Ok (total, active, maxLevel) => writeJSON StatusOK (summary_body total active maxLevel)
            end))).

(** A numeric parameter: its default, or a number at least [least]. *)
Definition int_param (raw : string) (default_ least : Z) : option Z :=
  if bool_decide (raw = "") then Some default_
  else match Atoi raw with Some n => if n <? least then None else Some n | None => None end.
Definition list_filter (query : string -> string) : CharacterFilter := {|
  cf_World := query "world"; cf_Datacenter := query "datacenter"; cf_Region := query "region"; cf_Race := query "race";
  cf_Name := query "name"; cf_GrandCompany := query "grand_company"; cf_FreeCompanyID := query "free_company_id";
  cf_ActiveOnly := default false (ParseBool (query "active")); cf_Since := None; cf_MinLevel := 0;
  cf_SortBy := query "sort_by"; cf_SortOrder := query "sort_order" |}.
Definition api_List (arranged : sortColumn * bool -> list CharacterRecord -> list CharacterRecord) (query : string -> string) : M httpReply :=
  require_service (
    match int_param (query "limit") 100 1 with
    | None => mret (writeError StatusBadRequest "invalid limit")
    | Some n =>
        let limit := if 500 <? n then 500 else n in
        match int_param (query "offset") 0 0 with
        | None => mret (writeError StatusBadRequest "invalid offset")
        | Some offset =>
            r ← ListCharacters fold_case arranged (list_filter query) limit offset;
            match r with
            | Err e => mret (internal e)
            | Ok (chars, total) => items ← list_items chars; mret (writeJSON StatusOK (PageBody (mkPage items total limit offset)))
            end
        end
    end).

Definition api_Get (id : string) : M httpReply :=
  require_service (
    let '(n, ok) := ParseUint id max_uint32 in
    if negb ok then mret (writeError StatusBadRequest "invalid character id")
    else
      r ← CharacterDetail n;
      match r with
      | Err e => mret (internal e)
      | Ok None => mret (writeError StatusNotFound "character not found")
      | Ok (Some d) => p ← toCharacterDetail d; mret (writeJSON StatusOK (DetailBody p))
      end).

Definition api_Breakdown (column : string) : M httpReply :=
  require_service (
    if bool_decide (column = "") then mret (writeError StatusBadRequest "missing by parameter")
    else if negb (bool_decide (column ∈ ["race"; "world"; "datacenter"; "region"])) then
      mret (writeJSON StatusBadRequest (ErrorOf (ErrSentinel ErrInvalidDimension)))
    else
      with_stats (fun s => writeJSON StatusOK (BreakdownBody (SnapshotGroups (Some s) column zeroScope)))
        (r ← svc_Breakdown fold_case column zeroFilter;
         mret (match r with
               | Err e => if errors_Is e ErrInvalidDimension then writeJSON StatusBadRequest (ErrorOf e) else internal e
               | Ok groups => writeJSON StatusOK (BreakdownBody groups)
               end))).

(** The days of the snapshot in [since, until). *)
Definition days_between (since until : Z) (days : list DailyCount) : list DailyCount :=
  filter (fun d => match parse_day (dc_Day d) with Some z => (since <=? time_of_day z) && (time_of_day z <? until) | None => false end = true) days.
Definition api_NewCharacters (query : string -> string) : M httpReply :=
  require_service (
    if bool_decide (query "since" = "") then mret (writeError StatusBadRequest "missing since parameter")
    else match parse_day (query "since") with
         | None => mret (writeError StatusBadRequest "invalid since parameter")
         | Some since =>
             let since := time_of_day since in
             now ← now_;
             match (if bool_decide (query "until" = "") then Some now else time_of_day <$> parse_day (query "until")) with
             | None => mret (writeError StatusBadRequest "invalid until parameter")
             | Some until =>
                 with_stats (fun s =>
                     let maxUntil := time_of_day (day_of (ss_GeneratedAt s)) + day in
                     if (since <? time_of_day (day_of (ss_ActivitySince s))) || (maxUntil <? until) || negb (since <? until)
                     then writeError StatusBadRequest "requested range is outside the available statistics snapshot"
                     else writeJSON StatusOK (DaysBody (days_between since until (SnapshotDaily (Some s) zeroScope))))
                   (r ← NewCharacters fold_case to_char sort_text since until zeroFilter;
                    mret (match r with Err e => internal e | Ok days => writeJSON StatusOK (DaysBody days) end))
             end
         end).

Definition named (name : string) (stats : list ExpansionCount) : list ExpansionCount :=
  filter (fun s => name = "" \/ ec_Expansion s = name) stats.
Definition api_Expansion (name : string) : M httpReply :=
  require_service (
    with_stats (fun s => writeJSON StatusOK (ExpansionsBody (named name (SnapshotExpansions (Some s) zeroScope))))
      (r ← ExpansionCompletions fold_case sort_text;
       mret (match r with Err e => internal e | Ok stats => writeJSON StatusOK (ExpansionsBody (named name stats)) end))).
End Endpoints.

(** ** Theorems *)

Section Listing.
Context {L : Type}.
Context (fold_case : string -> string).
#[local] Abbreviation World := (CensusWorld L).

(** Mapping reads the clock and nothing else. *)
Definition clock_only (w w' : World) : Prop := cw_db w' = cw_db w /\ cw_clock w' = cw_clock w /\ cw_fault w' = cw_fault w.
Lemma toCharacterListItem_spec rec (w : World) : exists w' now, toCharacterListItem rec w = (w', list_item now rec) /\ clock_only w w'.
Proof.
  unfold toCharacterListItem. destruct (cr_LatestAchievementAt rec) eqn:H; eexists _, _; (split; [reflexivity|done]).
Qed.
Lemma list_items_spec recs : forall w : World, exists w' items, list_items recs w = (w', items) /\ clock_only w w' /\
  Forall2 (fun rec item => exists now, item = list_item now rec) recs items.
Proof.
  induction recs as [|rec recs IH]; intros w; cbn [list_items]; [by exists w, []|]. rewrite ST_bind_eq.
  destruct (toCharacterListItem_spec rec w) as (w1 & now & -> & H1 & H2 & H3). cbn [fst snd]. rewrite ST_bind_eq.
  destruct (IH w1) as (w2 & items & -> & (G1 & G2 & G3) & Hall). cbn [fst snd].
  exists w2, (list_item now rec :: items). split; [done|]. split; [repeat split; congruence|]. constructor; [by exists now|done].
Qed.

Lemma int_param_bound raw d least n : least <= d -> int_param raw d least = Some n -> least <= n.
Proof.
  intros Hd. unfold int_param. case_bool_decide; [by intros [= <-]|]. destruct (Atoi raw); [|done].
  destruct (Z.ltb_spec z least); [done|]. by intros [= <-].
Qed.

(** A list request is answered by the page it asks for.  Whatever the
    query, a controller with a database that answers replies 400 for a limit or
    an offset that is not a number in range, and otherwise 200 with the page
    the server has at that offset: at most 500 items and at most the limit
    reported, each the image of the character listed, with the number of
    matching characters as total.  The database is not changed, and the query
    never makes the statement fail. *)
Theorem list_request (w : World) arranged query (Hclean : forall n, cw_fault w n = NoFault) :
  exists w' r, api_List fold_case true arranged query w = (w', r) /\ cw_db w' = cw_db w /\
    ((hr_status r = StatusBadRequest /\ (int_param (query "limit") 100 1 = None \/ int_param (query "offset") 0 0 = None))
     \/ exists page chars, r = writeJSON StatusOK (PageBody page) /\ 1 <= pg_Limit page <= 500 /\ 0 <= pg_Offset page /\
          List_ fold_case (cw_db w) NoFault arranged (list_filter query) (pg_Limit page) (pg_Offset page) = Ok chars /\
          Z.of_nat (length (pg_Items page)) <= pg_Limit page /\
          Forall2 (fun rec item => exists now, item = list_item now rec) chars (pg_Items page) /\
          CharacterStore.Count fold_case (cw_db w) NoFault (list_filter query) = Ok (pg_Total page)).
Proof.
  unfold api_List, require_service. destruct (int_param (query "limit") 100 1) as [n|] eqn:Hlim; [|eexists _, _; split; [reflexivity|]; split; [done|]; left; auto].
  apply int_param_bound in Hlim; [|lia]. cbv zeta. set (limit := if 500 <? n then 500 else n).
  assert (Hl : 1 <= limit <= 500) by (unfold limit; destruct (Z.ltb_spec 500 n); lia). clearbody limit.
  destruct (int_param (query "offset") 0 0) as [offset|] eqn:Hoff; [|eexists _, _; split; [reflexivity|]; split; [done|]; left; auto].
  apply int_param_bound in Hoff; [|lia]. rewrite ST_bind_eq. unfold ListCharacters, db_read, db_write. rewrite ST_bind_eq. cbn [fst snd].
  rewrite Hclean. assert (Hlist : exists chars, List_ fold_case (cw_db w) NoFault arranged (list_filter query) limit offset = Ok chars /\
    (length chars <= Z.to_nat limit)%nat).
  { unfold List_. rewrite !(proj2 (Z.ltb_ge _ _)) by lia. eexists. split; [reflexivity|]. rewrite length_take. lia. }
  destruct Hlist as (chars & Hchars & Hlen). rewrite Hchars. rewrite ST_bind_eq. cbn [fst snd cw_fault cw_calls cw_db]. rewrite Hclean.
  unfold mret, ST_ret. cbn [fst snd fmap result_fmap CharacterStore.Count read_fault]. rewrite ST_bind_eq.
  match goal with |- context [list_items chars ?w1] => destruct (list_items_spec chars w1) as (w2 & items & -> & (H1 & _ & _) & Hall) end.
  eexists _, _. split; [reflexivity|]. split; [exact H1|]. right. eexists _, chars. split; [reflexivity|]. cbn.
  split; [done|]. split; [done|]. split; [done|]. split; [|done]. apply Forall2_length in Hall. lia.
Qed.
End Listing.

(** ** What "active" means *)

(** The [active] parameter selects what every list already selects. *)
Lemma active_parameter_is_ignored fold_case db f : matching fold_case db (f{{ cf_ActiveOnly := true }}) = matching fold_case db (f{{ cf_ActiveOnly := false }}).
Proof.
  unfold matching. apply filter_ext_in. intros r _. unfold characterFilterWhere, not_deleted. destruct f. cbn.
  rewrite !andb_true_iff, !orb_true_iff, !bool_decide_eq_true. tauto.
Qed.
(** The item's flag uses thirty days whatever window the service is given. *)
Lemma item_flag_ignores_window : exists s now rec at_, s = SetActivityWindow (60 * day) NewService /\
  cr_LatestAchievementAt rec = Some at_ /\ IsActive s now at_ = true /\ li_IsActive (list_item now rec) = false.
Proof.
  exists (SetActivityWindow (60 * day) NewService), (100 * day), ((sample_char 1 0){{ cr_LatestAchievementAt := Some (50 * day) }}), (50 * day).
  split; [done|]. split; [done|]. vm_compute. done.
Qed.

(** Three characters are at most a page of 500. *)
Lemma list_request_witness :
  exists w' page, api_List id true sorting_server (fun k => if bool_decide (k = "limit") then "9999" else "") report_world
    = (w', writeJSON StatusOK (PageBody page)) /\ pg_Limit page = 500 /\ (li_ID <$> pg_Items page) = [10; 11].
Proof.
  destruct (list_request id report_world sorting_server (fun k => if bool_decide (k = "limit") then "9999" else "") (fun _ => eq_refl))
    as (w' & r & Hrun & _ & [[Hs [H|H]]|(page & chars & -> & _)]); [vm_compute in H; discriminate H|vm_compute in H; discriminate H|].
  exists w', page. split; [exact Hrun|].
  assert (H : match (api_List id true sorting_server (fun k => if bool_decide (k = "limit") then "9999" else "") report_world).2 with
    | mkReply _ _ (PageBody p) => (pg_Limit p, li_ID <$> pg_Items p) = (500, [10; 11]) | _ => False end) by (vm_compute; reflexivity).
  rewrite Hrun in H. cbn in H. injection H as H1 H2. split; [exact H1|exact H2].
Defined.
