(* ===== verification/Export.v ===== *)
(** * Bulk export ([cmd/http/app/census/handler/export.go], [cmd/cli/export.go])

    The two exports of the census: the HTTP endpoint and the command.  Their
    output is the text before compression; the [n]th write to it may fail, and
    JSON encoding is a parameter. *)
From stdpp Require Import pretty.
From S2P Require Import Prelude GoErrors GoStrings Csv Dates Contract CharacterStore CharacterStoreFacts Census Lodestone Reports ReportsFacts Api.

(** [Format(time.RFC3339)]: whole seconds. *)
Definition format_seconds (t : Z) : string := format_rfc3339 (t - t mod second).
Definition FormatBool (b : bool) : string := if b then "true" else "false".

Inductive exportFormat := FormatCSV | FormatJSON | FormatNDJSON.
Definition export_format (raw : string) : option exportFormat :=
  let format := lower_text raw in
  if bool_decide (format = "") || bool_decide (format = "csv") then Some FormatCSV
  else if bool_decide (format = "json") then Some FormatJSON
  else if bool_decide (format = "ndjson") || bool_decide (format = "jsonl") then Some FormatNDJSON
  else None.
Definition csv_header : list string :=
  ["id"; "name"; "world"; "datacenter"; "region"; "race"; "gender"; "fc_id"; "fc_name"; "achievements_private";
   "latest_achievement_id"; "is_active"; "first_seen_at"; "last_census_at"].

(** ** Output *)

Record exportWorld := mkExportWorld {
  xw_clock : nat -> Z; xw_ticks : nat;
  xw_fault : nat -> option gerror; xw_writes : nat;
  xw_out : string; xw_first : bool; xw_count : nat; xw_flushes : nat;
}.
Abbreviation X := (ST exportWorld).
Definition write (text : string) : X (option gerror) := fun w =>
  let w' := w{{ xw_writes := S (xw_writes w) }} in
  match xw_fault w (xw_writes w) with
  | Some e => (w', Some e)
  | None => (w'{{ xw_out := xw_out w +:+ text }}, None)
  end.
(** Write, then go on if it succeeded. *)
Definition write_then (text : string) (k : X (option gerror)) : X (option gerror) :=
  e ← write text; match e with Some e => mret (Some e) | None => k end.
Definition clock_for (rec : CharacterRecord) : X Z := fun w =>
  match cr_LatestAchievementAt rec with
  | Some _ => (w{{ xw_ticks := S (xw_ticks w) }}, xw_clock w (xw_ticks w))
  | None => (w, 0)
  end.
(** [time.Now()]. *)
Definition read_clock : X Z := fun w => (w{{ xw_ticks := S (xw_ticks w) }}, xw_clock w (xw_ticks w)).
Definition count_record : X unit := fun w => (w{{ xw_count := S (xw_count w) }}, tt).
(** Every 500 records are flushed. *)
Definition maybeFlush : X unit := fun w =>
  let n := S (xw_count w) in
  (w{{ xw_count := n; xw_flushes := if (n mod 500 =? 0)%nat then S (xw_flushes w) else xw_flushes w }}, tt).
Definition set_first (b : bool) : X unit := fun w => (w{{ xw_first := b }}, tt).

Section Exports.
Context (fold_case : string -> string).
Context (marshal_item : CharacterListItem -> result string) (marshal_record : CharacterRecord -> result string).

(** ** The HTTP endpoint *)

Definition http_row (item : CharacterListItem) : list string :=
  [pretty (li_ID item); li_Name item; li_World item; li_Datacenter item; li_Region item; li_Race item; pretty (li_Gender item);
   default "" (li_FreeCompanyID item); default "" (li_FreeCompanyName item); FormatBool (li_AchievementsPrivate item);
   match li_LatestAchievementID item with Some id => pretty id | None => "" end; FormatBool (li_IsActive item);
   format_seconds (li_FirstSeenAt item); match li_LastCensusAt item with Some t => format_seconds t | None => "" end].

Definition http_csv_record (rec : CharacterRecord) : X (option gerror) :=
  now ← clock_for rec;
  write_then (csv_row (http_row (list_item now rec))) (_ ← maybeFlush; mret None).
(** A comma before every record but the first. *)
Definition separator (k : X (option gerror)) : X (option gerror) :=
  first ← (fun w => (w, xw_first w));
  if first : bool then _ ← set_first false; k
  else write_then ("," +:+ String newline "") k.
Definition http_json_record (rec : CharacterRecord) : X (option gerror) :=
  now ← clock_for rec;
  separator (match marshal_item (list_item now rec) with
             | Err e => mret (Some e)
             | Ok data => write_then data (_ ← maybeFlush; mret None)
             end).
Definition http_ndjson_record (rec : CharacterRecord) : X (option gerror) :=
  now ← clock_for rec;
  match marshal_item (list_item now rec) with
  | Err e => mret (Some e)
  | Ok data => write_then data (write_then (String newline "") (_ ← maybeFlush; mret None))
  end.

(** The body; a failed stream only ends it.  The cutoff is read from the clock
    and not used: each record is compared with a reading of its own. *)
Definition http_export (format : exportFormat) (db : CensusDB) (fl : fault) (f : CharacterFilter) : X unit :=
  cutoff ← read_clock;
  match format with
  | FormatCSV =>
      e ← write (csv_row csv_header);
      match e with
      | Some _ => mret tt
      | None => _ ← Stream fold_case db fl f http_csv_record; mret tt
      end
  | FormatJSON =>
      e ← write ("[" +:+ String newline "");
      match e with
      | Some _ => mret tt
      | None =>
          _ ← set_first true;
          _ ← Stream fold_case db fl f http_json_record;
          _ ← write (String newline "]" +:+ String newline ""); mret tt
      end
  | FormatNDJSON => _ ← Stream fold_case db fl f http_ndjson_record; mret tt
  end.

(** The headers and whether the body is compressed. *)
Record exportHeaders := mkExportHeaders { eh_contentType : string; eh_filename : string; eh_gzip : bool }.
Definition use_gzip (gzipParam acceptEncoding : string) : bool :=
  if negb (bool_decide (gzipParam = "")) then match ParseBool gzipParam with Some b => b | None => false end
  else Contains acceptEncoding "gzip".
Definition export_headers (format : exportFormat) (gzip : bool) : exportHeaders :=
  let '(contentType, filename) :=
    match format with
    | FormatCSV => ("text/csv; charset=utf-8", "ffxiv-census-characters.csv")
    | FormatJSON => ("application/json", "ffxiv-census-characters.json")
    | FormatNDJSON => ("application/x-ndjson", "ffxiv-census-characters.ndjson")
    end in
  mkExportHeaders contentType (if gzip then filename +:+ ".gz" else filename) gzip.
Definition export_filter (query : string -> string) : CharacterFilter :=
  zeroFilter{{ cf_World := query "world"; cf_Datacenter := query "datacenter"; cf_Region := query "region"; cf_Race := query "race";
               cf_Name := query "name" }}.
(** [inl] is an error reply. *)
Definition api_Export (configured : bool) (query : string -> string) (acceptEncoding : string) (db : CensusDB) (fl : fault)
    : X (httpReply + exportHeaders) :=
  if negb configured then mret (inl unavailable)
  else match export_format (query "format") with
       | None => mret (inl (writeError StatusBadRequest "invalid format, supported formats: csv, json, ndjson (or jsonl)"))
       | Some format =>
           _ ← http_export format db fl (export_filter query);
           mret (inr (export_headers format (use_gzip (query "gzip") acceptEncoding)))
       end.

(** ** The command *)

Definition cli_row (now : Z) (rec : CharacterRecord) : list string :=
  let fcID := match cr_FreeCompanyID rec with Some s => s | None => "" end in
  let fcName := match cr_FreeCompanyName rec with Some s => s | None => "" end in
  let latestAchID := match cr_LatestAchievementID rec with Some id => pretty id | None => "" end in
  let isActive := match cr_LatestAchievementAt rec with Some at_ => negb (at_ <? now - 30 * day) | None => false end in
  let lastCensus := match cr_LastCensusAt rec with Some t => format_seconds t | None => "" end in
  [pretty (cr_ID rec); cr_Name rec; cr_World rec; cr_Datacenter rec; cr_Region rec; cr_Race rec; pretty (cr_Gender rec); fcID; fcName;
   FormatBool (cr_AchievementsPrivate rec); latestAchID; FormatBool isActive; format_seconds (cr_FirstSeenAt rec); lastCensus].

Definition cli_csv_record (rec : CharacterRecord) : X (option gerror) :=
  _ ← count_record;
  now ← clock_for rec;
  write (csv_row (cli_row now rec)).
Definition cli_json_record (rec : CharacterRecord) : X (option gerror) :=
  _ ← count_record;
  separator (match marshal_record rec with Err e => mret (Some e) | Ok data => write data end).
Definition cli_ndjson_record (rec : CharacterRecord) : X (option gerror) :=
  _ ← count_record;
  match marshal_record rec with
  | Err e => mret (Some e)
  | Ok data => write_then data (write (String newline ""))
  end.

(** [dest] is the outcome of creating the output file, [flushed] of the final
    flushes. *)
Definition runExport (raw : string) (dest flushed : option gerror) (db : CensusDB) (fl : fault) (f : CharacterFilter) : X (result unit) :=
  match export_format raw with
  | None => mret (Err (ErrorString "invalid format"))
  | Some format =>
      match dest with
      | Some e => mret (Err (ErrWrap "create output file" e))
      | None =>
          r ← match format with
              | FormatCSV =>
                  e ← write (csv_row csv_header);
                  match e with
                  | Some e => mret (Err (ErrWrap "write csv header" e))
                  | None => Stream fold_case db fl f cli_csv_record
                  end
              | FormatJSON =>
                  e ← write ("[" +:+ String newline "");
                  match e with
                  | Some e => mret (Err e)
                  | None =>
                      _ ← set_first true;
                      r ← Stream fold_case db fl f cli_json_record;
                      match r with
                      | Err e => mret (Err e)
                      | Ok _ => e ← write (String newline "]" +:+ String newline ""); mret (match e with Some e => Err e | None => Ok tt end)
                      end
                  end
              | FormatNDJSON => Stream fold_case db fl f cli_ndjson_record
              end;
          mret (match r with Err e => Err e | Ok _ => match flushed with Some e => Err (ErrWrap "flush" e) | None => Ok tt end end)
      end
  end.

(** ** The exported table *)

(** The columns of a character at an instant [now]. *)
Definition exported (now : Z) (rec : CharacterRecord) : list string := [
  pretty (cr_ID rec); cr_Name rec; cr_World rec; cr_Datacenter rec; cr_Region rec; cr_Race rec; pretty (cr_Gender rec);
  default "" (cr_FreeCompanyID rec); default "" (cr_FreeCompanyName rec); (if cr_AchievementsPrivate rec then "true" else "false");
  match cr_LatestAchievementID rec with Some id => pretty id | None => "" end;
  (if (match cr_LatestAchievementAt rec with Some t => bool_decide (now - 30 * day <= t) | None => false end) then "true" else "false");
  format_seconds (cr_FirstSeenAt rec); match cr_LastCensusAt rec with Some t => format_seconds t | None => "" end].
(** The rows of an export whose clock starts at reading [t]: each record with
    an achievement takes a reading. *)
Fixpoint export_rows (clock : nat -> Z) (t : nat) (recs : list CharacterRecord) : list (list string) :=
  match recs with
  | [] => []
  | rec :: recs => exported (clock t) rec :: export_rows clock (match cr_LatestAchievementAt rec with Some _ => S t | None => t end) recs
  end.
Lemma http_row_exported now rec : http_row (list_item now rec) = exported now rec.
Proof.
  unfold http_row, list_item, exported, FormatBool. cbn. destruct (cr_LatestAchievementAt rec) as [t|]; [|done].
  repeat f_equal. destruct (Z.ltb_spec t (now - 30 * day)), (bool_decide_reflect (now - 30 * day <= t)); done || lia.
Qed.
Lemma cli_row_exported now rec : cli_row now rec = exported now rec.
Proof. rewrite <-http_row_exported. unfold cli_row, http_row, list_item. cbn. by destruct (cr_FreeCompanyID rec), (cr_FreeCompanyName rec). Qed.
Lemma exported_unread now now' rec : cr_LatestAchievementAt rec = None -> exported now rec = exported now' rec.
Proof. intros H. unfold exported. by rewrite H. Qed.
Lemma export_rows_nonempty clock recs : forall t, Forall (fun row => row <> []) (export_rows clock t recs).
Proof. induction recs as [|rec recs IH]; intros t; cbn [export_rows]; [constructor|]. constructor; done || apply IH. Qed.
(** Only the readings matter. *)
Lemma export_rows_ext clock clock' recs : forall t t', (forall i, clock (t + i)%nat = clock' (t' + i)%nat) ->
  export_rows clock t recs = export_rows clock' t' recs.
Proof.
  induction recs as [|rec recs IH]; intros t t' H; [done|]. cbn [export_rows].
  f_equal; [f_equal; specialize (H 0%nat); by rewrite !Nat.add_0_r in H|].
  apply IH. intros i. destruct (cr_LatestAchievementAt rec); [|done]. specialize (H (S i)). by rewrite !Nat.add_succ_r in H.
Qed.

(** A callback that writes the CSV row of its record, as both do. *)
Definition csv_writer (fn : CharacterRecord -> X (option gerror)) : Prop := forall rec w, (forall n, xw_fault w n = None) ->
  exists w', fn rec w = (w', None) /\ xw_fault w' = xw_fault w /\ xw_clock w' = xw_clock w /\
    xw_ticks w' = match cr_LatestAchievementAt rec with Some _ => S (xw_ticks w) | None => xw_ticks w end /\
    xw_out w' = xw_out w +:+ csv_row (exported (xw_clock w (xw_ticks w)) rec).
Lemma http_csv_writer : csv_writer http_csv_record.
Proof.
  intros rec w Hw. destruct w as [clock ticks fault writes out first count flushes]. cbn in Hw.
  unfold http_csv_record, clock_for, write_then, write, maybeFlush, mbind, ST_bind, mret, ST_ret.
  destruct (cr_LatestAchievementAt rec) eqn:Hl; cbn -[csv_row http_row list_item exported]; rewrite Hw, http_row_exported;
    cbn -[csv_row exported]; eexists; (split; [reflexivity|]); [done|]. by rewrite (exported_unread 0 (clock ticks) rec Hl).
Qed.
Lemma cli_csv_writer : csv_writer cli_csv_record.
Proof.
  intros rec w Hw. destruct w as [clock ticks fault writes out first count flushes]. cbn in Hw.
  unfold cli_csv_record, clock_for, count_record, write, mbind, ST_bind, mret, ST_ret.
  destruct (cr_LatestAchievementAt rec) eqn:Hl; cbn -[csv_row cli_row exported]; rewrite Hw, cli_row_exported;
    cbn -[csv_row exported]; eexists; (split; [reflexivity|]); [done|]. by rewrite (exported_unread 0 (clock ticks) rec Hl).
Qed.

Lemma stream_csv fn recs : csv_writer fn -> forall w, (forall n, xw_fault w n = None) ->
  exists w', stream_rows fn recs w = (w', Ok tt) /\ xw_out w' = xw_out w +:+ csv_text_of (export_rows (xw_clock w) (xw_ticks w) recs).
Proof.
  intros Hfn. induction recs as [|rec recs IH]; intros w Hw; cbn [stream_rows export_rows].
  - exists w. split; [done|]. by rewrite app_empty_r.
  - rewrite ST_bind_eq. destruct (Hfn rec w Hw) as (w1 & -> & Hf & Hc & Ht & Ho). cbn [fst snd].
    destruct (IH w1) as (w2 & -> & Hout); [by rewrite Hf|]. exists w2. split; [done|]. rewrite Hout, Hc, Ht, Ho.
    cbn [csv_text_of foldr]. by rewrite string_app_assoc.
Qed.
(** Header and records, from an output that accepts them. *)
Lemma csv_body fn recs w : csv_writer fn -> xw_out w = "" -> (forall n, xw_fault w n = None) ->
  exists w1 w2, write (csv_row csv_header) w = (w1, None) /\ stream_rows fn recs w1 = (w2, Ok tt) /\
    xw_out w2 = csv_text_of (csv_header :: export_rows (xw_clock w) (xw_ticks w) recs).
Proof.
  intros Hfn Hout Hw. destruct (stream_csv fn recs Hfn (write (csv_row csv_header) w).1) as (w2 & Hs & Ho).
  { intros n. unfold write. rewrite Hw. destruct w. cbn in *. apply Hw. }
  exists (write (csv_row csv_header) w).1, w2. unfold write in Hs, Ho |- *. rewrite Hw in Hs, Ho |- *. destruct w. cbn -[csv_row csv_header] in *. by subst.
Qed.

(** A live character that meets every condition the filter sets. *)
Record wanted (db : CensusDB) (f : CharacterFilter) (c : CharacterRecord) : Prop := {
  wt_live : cr_DeletedAt c = None;
  wt_world : cf_World f <> "" -> cr_World c = cf_World f;
  wt_datacenter : cf_Datacenter f <> "" -> cr_Datacenter c = cf_Datacenter f;
  wt_region : cf_Region f <> "" -> cr_Region c = cf_Region f;
  wt_race : cf_Race f <> "" -> cr_Race c = cf_Race f;
  wt_grand_company : cf_GrandCompany f <> "" -> cr_GrandCompany c = cf_GrandCompany f;
  wt_free_company : cf_FreeCompanyID f <> "" -> cr_FreeCompanyID c = Some (cf_FreeCompanyID f);
  wt_name : cf_Name f <> "" -> like (fold_case ("%" +:+ cf_Name f +:+ "%")) (fold_case (cr_Name c)) = true;
  wt_since : forall since, cf_Since f = Some since -> exists t, cr_LatestAchievementAt c = Some t /\ since <= t;
  wt_level : 0 < cf_MinLevel f -> exists job j, cdb_jobs db !! (cr_ID c, job) = Some j /\ cf_MinLevel f <= cj_Level j;
}.
Lemma unless_empty_iff v col : unless_empty v col = true <-> (v <> "" -> col = v).
Proof. unfold unless_empty. destruct (bool_decide_reflect (v = "")), (bool_decide_reflect (col = v)); cbn; split; try done; tauto. Qed.
Lemma or_clause v (b : bool) (P : Prop) : (b = true <-> P) -> bool_decide (v = "") || b = true <-> (v <> "" -> P).
Proof. intros <-. destruct (bool_decide_reflect (v = "")); cbn; split; try done; tauto. Qed.
Lemma matching_iff db f r : not_deleted r = true /\ characterFilterWhere fold_case db f r = true <-> wanted db f (row_rec r).
Proof.
  unfold characterFilterWhere, not_deleted. rewrite !andb_true_iff, !unless_empty_iff, bool_decide_eq_true.
  rewrite !(or_clause _ _ _ (bool_decide_eq_true _)), (or_clause _ _ _ (iff_refl _)).
  assert (Hsince : match cf_Since f with None => true | Some since => match cr_LatestAchievementAt (row_rec r) with Some t => since <=? t | None => false end end = true
    <-> forall since, cf_Since f = Some since -> exists t, cr_LatestAchievementAt (row_rec r) = Some t /\ since <= t).
  { destruct (cf_Since f) as [since|]; [|split; [intros _ ? [=]|done]]. destruct (cr_LatestAchievementAt (row_rec r)) as [t|].
    - rewrite Z.leb_le. split; [intros H ? [= <-]; eauto|]. intros H. destruct (H since eq_refl) as (t' & [= <-] & ?). done.
    - split; [done|]. intros H. by destruct (H since eq_refl) as (? & [=] & _). }
  assert (Hlevel : (cf_MinLevel f <=? 0) || existsb (fun kv => (kv.1.1 =? cr_ID (row_rec r)) && (cf_MinLevel f <=? cj_Level kv.2)) (map_to_list (cdb_jobs db)) = true
    <-> (0 < cf_MinLevel f -> exists job j, cdb_jobs db !! (cr_ID (row_rec r), job) = Some j /\ cf_MinLevel f <= cj_Level j)).
  { destruct (Z.leb_spec (cf_MinLevel f) 0); cbn; [split; [lia|done]|]. rewrite existsb_exists. split.
    - intros ([[id job] j] & Hin & Hj) _. apply list_elem_of_In, elem_of_map_to_list in Hin. apply andb_true_iff in Hj as [Hi Hj].
      apply Z.eqb_eq in Hi. apply Z.leb_le in Hj. cbn in Hi, Hj. subst. eauto.
    - intros H'. destruct (H' ltac:(lia)) as (job & j & Hj & Hl). exists (cr_ID (row_rec r), job, j). split; [by apply list_elem_of_In, elem_of_map_to_list|].
      cbn. by rewrite Z.eqb_refl, (proj2 (Z.leb_le _ _)). }
  rewrite Hsince, Hlevel. split.
  - intros (Hlive & ((((((((Hw & Hd) & Hr) & Hra) & Hg) & Hfc) & Hn) & Hs) & _) & Hl). by split.
  - intros [H1 H2 H3 H4 H5 H6 H7 H8 H9 H10]. rewrite H1. split_and!; try done. by rewrite bool_decide_true, orb_true_r.
Qed.
Lemma by_id_spec db f : census_ok db -> StronglySorted (fun a b => cr_ID a < cr_ID b) (by_id fold_case db f) /\
  forall rec, rec ∈ by_id fold_case db f <-> exists level, cdb_chars db !! cr_ID rec = Some (mkCharRow rec level) /\ wanted db f rec.
Proof.
  intros Hok. split.
  - by apply by_id_sorted.
  - intros rec. unfold by_id. rewrite merge_sort_Permutation, list_elem_of_fmap. unfold matching, chars_list. split.
    + intros ([rec' level] & -> & Hin). apply list_elem_of_filter in Hin as [Hm Hin]. apply matching_iff in Hm.
      apply list_elem_of_fmap in Hin as ([id row] & [= <-] & Hin). apply elem_of_map_to_list in Hin.
      exists level. cbn in *. split; [|done]. destruct Hok as [Hid _ _]. specialize (Hid _ _ Hin). cbn in Hid. by subst.
    + intros (level & Hrow & Hw). exists (mkCharRow rec level). split; [done|]. apply list_elem_of_filter. split; [by apply matching_iff|].
      apply list_elem_of_fmap. exists (cr_ID rec, mkCharRow rec level). split; [done|]. by apply elem_of_map_to_list.
Qed.

(** C35: the exports are complete, readable and the same.  With an output
    that accepts what is written and a database that answers, whose rows are
    stored under their ids, the CSV of the HTTP endpoint holds the header and,
    in the order of ids, one row per live character that meets every condition
    the filter sets, each with the fields of its record and
    the activity flag of its own clock reading; the command, run so that its
    readings for the records are the same (the endpoint takes one more, before
    them), writes the same text; and a CSV reader recovers exactly those rows
    from it, whatever separators, quotes or line breaks names and companies
    contain. *)
Theorem csv_export_readable (db : CensusDB) (f : CharacterFilter) (w wc : exportWorld) (Hok : census_ok db)
    (Hout : xw_out w = "" /\ xw_out wc = "") (Hw : forall n, xw_fault w n = None /\ xw_fault wc n = None)
    (Hclock : forall i, xw_clock wc (xw_ticks wc + i) = xw_clock w (S (xw_ticks w) + i)%nat) :
  exists text recs, csv_read text = Some (csv_header :: export_rows (xw_clock w) (S (xw_ticks w)) recs) /\
    StronglySorted (fun a b => cr_ID a < cr_ID b) recs /\
    (forall rec, rec ∈ recs <-> exists level, cdb_chars db !! cr_ID rec = Some (mkCharRow rec level) /\ wanted db f rec) /\
    (exists w', http_export FormatCSV db NoFault f w = (w', tt) /\ xw_out w' = text) /\
    (exists w', runExport "csv" None None db NoFault f wc = (w', Ok tt) /\ xw_out w' = text).
Proof.
  destruct Hout as [Ho Hoc]. set (recs := by_id fold_case db f). set (w0 := w{{ xw_ticks := S (xw_ticks w) }}).
  destruct (csv_body http_csv_record recs w0 http_csv_writer) as (w1 & w2 & H1 & H2 & H3); [by destruct w|intros n; destruct w; apply Hw|].
  destruct (csv_body cli_csv_record recs wc cli_csv_writer Hoc (fun n => proj2 (Hw n))) as (v1 & v2 & G1 & G2 & G3).
  rewrite (export_rows_ext _ (xw_clock w) recs _ (S (xw_ticks w)) Hclock) in G3.
  assert (H3' : xw_out w2 = csv_text_of (csv_header :: export_rows (xw_clock w) (S (xw_ticks w)) recs)) by (rewrite H3; by destruct w).
  destruct (by_id_spec db f Hok) as [Hsorted Hrecs].
  eexists _, recs. split; [|split; [exact Hsorted|split; [exact Hrecs|split]]].
  - apply (csv_roundtrip (csv_header :: _)). constructor; [done|apply export_rows_nonempty].
  - exists w2. split; [|exact H3']. unfold http_export. rewrite ST_bind_eq. change (read_clock w).1 with w0. rewrite ST_bind_eq, H1. cbn [fst snd].
    rewrite ST_bind_eq. unfold Stream. cbn [read_fault]. change (merge_sort id_le _) with recs. by rewrite H2.
  - exists v2. split; [|exact G3]. unfold runExport. change (export_format "csv") with (Some FormatCSV). cbv iota. rewrite !ST_bind_eq, G1. cbn [fst snd].
    unfold Stream. cbn [read_fault]. change (merge_sort id_le _) with recs. by rewrite G2.
Qed.
End Exports.

(** A database error in the middle: the command reports it, the endpoint's
    reply ends after the header. *)
Lemma http_export_hides_errors fold_case mi mr db f e w : xw_out w = "" -> (forall n, xw_fault w n = None) ->
  xw_out (http_export fold_case mi FormatCSV db (Refused e) f w).1 = csv_row csv_header
  /\ (runExport fold_case mr "csv" None None db (Refused e) f w).2 = Err e.
Proof.
  intros Ho Hw. destruct w. cbn in Ho, Hw. subst. split.
  - unfold http_export, Stream, write, mbind, ST_bind. cbn -[csv_row]. by rewrite Hw.
  - unfold runExport. change (export_format "csv") with (Some FormatCSV). cbv iota. unfold Stream, write, mbind, ST_bind. cbn -[csv_row]. by rewrite Hw.
Qed.

(** A free company whose name has a comma, a quote and a line break. *)
Definition awkward : string := bytes [65; 44; 32; 34; 98; 34; 10; 99]%nat.
Definition export_db : CensusDB :=
  (Upsert empty_census NoFault ((sample_char 10 1){{ cr_FreeCompanyName := Some awkward }}) []).1.
Definition export_start : exportWorld := mkExportWorld (fun _ => 0) 0 (fun _ => None) 0 "" true 0 0.

Lemma csv_export_readable_witness :
  exists text rows, xw_out (http_export id (fun _ => Ok "{}") FormatCSV export_db NoFault zeroFilter export_start).1 = text
    /\ xw_out (runExport id (fun _ => Ok "{}") "csv" None None export_db NoFault zeroFilter export_start).1 = text
    /\ csv_read text = Some (csv_header :: rows) /\ exists row, row ∈ rows /\ nth 0 row "" = "10" /\ nth 8 row "" = awkward.
Proof.
  destruct (csv_export_readable id (fun _ => Ok "{}") (fun _ => Ok "{}") export_db zeroFilter export_start export_start
    ltac:(apply Upsert_ok; [repeat split; constructor|exact empty_census_ok])
    (conj eq_refl eq_refl) (fun _ => conj eq_refl eq_refl) (fun _ => eq_refl)) as (text & recs & Hread & _ & Hrecs & (w' & Hrun & Ho) & (v' & Hrun' & Ho')).
  eexists text, _. rewrite Hrun, Hrun'. split; [exact Ho|]. split; [exact Ho'|]. split; [exact Hread|].
  assert (Hin : (sample_char 10 1){{ cr_FreeCompanyName := Some awkward }} ∈ recs).
  { apply Hrecs. eexists. split; [vm_compute; reflexivity|]. by split. }
  exists (exported 0 ((sample_char 10 1){{ cr_FreeCompanyName := Some awkward }})). split; [|split; vm_compute; reflexivity].
  clear - Hin. revert Hin. generalize (S (xw_ticks export_start)). induction recs as [|rec recs IH]; intros t Hin; [by apply elem_of_nil in Hin|].
  cbn [export_rows]. apply elem_of_cons in Hin as [<-|Hin]; [by left|]. right. by apply IH.
Defined.
