(* ===== verification/HttpClient.v ===== *)
(** * HTTP clients ([infrastructure/httpclient/client.go], [proxy_client.go],
      [rotating_proxy_client.go]; the unlocked acquisitions of
      [domain/proxy/hub.go])

    The client the proxy providers fetch their lists with, as the interface
    [HTTPClient] and its two implementations: the plain adapter over
    [http.Client], and the one that rotates over the pool's proxies.  A
    streamed response is handed to a callback; what the callback captures and
    changes is a state of its own ([S]), beside the position in the
    environment. *)
From S2P Require Import Prelude GoErrors GoStrings Contract ProxyStore Payloads LodestonePage Lodestone Dial Checks Hub.

Definition StatusMultipleChoices : Z := 300.

Definition ascii_upper (a : Ascii.ascii) : Ascii.ascii :=
  let n := Ascii.nat_of_ascii a in
  if ((97 <=? n) && (n <=? 122))%nat then Ascii.ascii_of_nat (n - 32) else a.
Fixpoint ToUpper (s : string) : string :=
  match s with EmptyString => EmptyString | String a s => String (ascii_upper a) (ToUpper s) end.

(** ** Requests and replies *)

(** port/dto/request/http.go, port/dto/response/http.go *)
Record HTTPRequest := mkHTTPRequest {
  rq_Method : string;
  rq_URL : string;
  rq_QueryParams : list (string * string);
  rq_Headers : list (string * string);
  rq_Body : string;
  rq_Timeout : Z;
}.
Record HTTPResponse := mkHTTPResponse {
  rs_StatusCode : Z;
  rs_Headers : list (string * list string);
  rs_Body : string;
}.

(** What [buildRequest] hands to [http.Client.Do]: the request, and the budget
    its context was given. *)
Record httpReq := mkHttpReq {
  hq_method : string;
  hq_url : string;
  hq_headers : list (string * string);
  hq_body : string;
  hq_timeout : option Z;
}.
Record httpReply := mkHttpReply { hp_status : Z; hp_headers : list (string * list string); hp_body : stream }.

(** ** The environment

    The network answers the [n]th request sent over a transport ([None] is a
    direct connection); the pool's [n]th read sees the database as other
    processes left it, at some time, and [ORDER BY RANDOM()] arranges the
    rows; the clock gives the [n]th reading. *)
Record netEnv := mkNetEnv {
  ne_do : nat -> option dialer -> httpReq -> result httpReply;
  ne_db : nat -> ProxyDB;
  ne_dbFault : nat -> fault;
  ne_dbNow : nat -> Z;
  ne_pick : nat -> list ProxyRecord -> option ProxyRecord;
  ne_clock : nat -> Z;
}.

(** How far a run is in the environment, and the requests it has sent. *)
Record net := mkNet { n_calls : nat; n_reads : nat; n_ticks : nat; n_sent : list (option dialer * httpReq) }.

Definition params : Type := list (string * string).

(** [contract.HTTPClient], as far as the providers use it. *)
Class HTTPClient := {
  GetStream : forall {S : Type}, string -> params -> params ->
    (Z -> stream -> ST (net * S) (option gerror)) -> ST (net * S) (option gerror);
}.

Section Client.
Context (env : netEnv).
(** [url.Parse] with the query's parameters set and encoded; and
    [http.NewRequestWithContext], which may refuse the method or the URL. *)
Context (url_with_query : string -> params -> result string) (http_NewRequest : string -> string -> result unit).

Definition now_utc {S} : ST (net * S) Z := fun '(n, s) =>
  ((n{{ n_ticks := Datatypes.S (n_ticks n) }}, s), ne_clock env (n_ticks n)).

Definition http_Do {S} (route : option dialer) (req : httpReq) : ST (net * S) (result httpReply) := fun '(n, s) =>
  ((n{{ n_calls := Datatypes.S (n_calls n); n_sent := n_sent n ++ [(route, req)] }}, s), ne_do env (n_calls n) route req).

(** ** client *)

Definition buildRequest (req : HTTPRequest) : result httpReq :=
  let method := ToUpper (TrimSpace (rq_Method req)) in
  if bool_decide (method = "") then Err (ErrorString "http method is required")
  else if bool_decide (TrimSpace (rq_URL req) = "") then Err (ErrorString "request url is required")
  else
    url ← wrap_err "parse url" (url_with_query (rq_URL req) (rq_QueryParams req));
    _ ← wrap_err "build request" (http_NewRequest method url);
    mret (mkHttpReq method url (rq_Headers req) (rq_Body req) (if 0 <? rq_Timeout req then Some (rq_Timeout req) else None)).

(** The status text of [http.StatusText] only enters the message. *)
Definition client_Do {S} (route : option dialer) (req : HTTPRequest) : ST (net * S) (HTTPResponse * option gerror) :=
  let none := mkHTTPResponse 0 [] "" in
  match buildRequest req with
  | Err e => mret (none, Some e)
  | Ok httpReq =>
      r ← http_Do route httpReq;
      match r with
      | Err e => mret (none, Some (ErrWrap "execute request" e))
      | Ok resp =>
          match st_err (hp_body resp) with
          | Some e => mret (none, Some (ErrWrap "read response body" e))
          | None =>
              let response := mkHTTPResponse (hp_status resp) (hp_headers resp) (st_data (hp_body resp)) in
              if (hp_status resp <? StatusOK) || (StatusMultipleChoices <=? hp_status resp)
              then mret (response, Some (ErrorString "request failed with status"))
              else mret (response, None)
          end
      end
  end.

Definition client_Get {S} (route : option dialer) (url : string) (queryParams headers : params) : ST (net * S) (HTTPResponse * option gerror) :=
  client_Do route (mkHTTPRequest "GET" url queryParams headers "" 0).
Definition client_Post {S} (route : option dialer) (url : string) (queryParams headers : params) (body : string) :
    ST (net * S) (HTTPResponse * option gerror) :=
  client_Do route (mkHTTPRequest "POST" url queryParams headers body 0).
Definition client_Patch {S} (route : option dialer) (url : string) (queryParams headers : params) (body : string) :
    ST (net * S) (HTTPResponse * option gerror) :=
  client_Do route (mkHTTPRequest "PATCH" url queryParams headers body 0).
Definition client_Delete {S} (route : option dialer) (url : string) (queryParams headers : params) : ST (net * S) (HTTPResponse * option gerror) :=
  client_Do route (mkHTTPRequest "DELETE" url queryParams headers "" 0).

Definition client_GetStream {S} (route : option dialer) (rawURL : string) (queryParams headers : params)
    (consume : Z -> stream -> ST (net * S) (option gerror)) : ST (net * S) (option gerror) :=
  match buildRequest (mkHTTPRequest "GET" rawURL queryParams headers "" 0) with
  | Err e => mret (Some e)
  | Ok req =>
      r ← http_Do route req;
      match r with
      | Err e => mret (Some (ErrTransport (ErrWrap "execute request" e)))
      | Ok resp => consume (hp_status resp) (hp_body resp)
      end
  end.

(** ** Proxies for scraping: acquired without a lock *)

Definition repo_RandomActive {S} (h : ProxyHub) (excludeIDs : list Z) : ST (net * S) (result (option ProxyRecord)) := fun '(n, s) =>
  let i := n_reads n in
  ((n{{ n_reads := Datatypes.S i }}, s),
   RandomActive (ph_policy h) (ne_db env i) (ne_dbFault env i) (ne_dbNow env i) (ne_pick env i) excludeIDs).

Definition hub_RandomActive {S} (h : ProxyHub) : ST (net * S) (result (option ProxyRecord)) := repo_RandomActive h [].
Definition RandomActiveExcluding {S} (h : ProxyHub) (excludeIDs : list Z) : ST (net * S) (result (option ProxyRecord)) :=
  repo_RandomActive h excludeIDs.
Definition SwapActive {S} (h : ProxyHub) (current : option ProxyRecord) : ST (net * S) (result (option ProxyRecord)) :=
  match current with
  | None => hub_RandomActive h
  | Some p => repo_RandomActive h [pr_ID p]
  end.

(** ** NewProxyClient *)
Context (url_Parse : string -> result proxyURL) (xproxy_FromURL : proxyURL -> result bool).

Definition NewProxyClient (proxyAddr : string) (timeout : Z) : result dialer :=
  if bool_decide (proxyAddr = "") then Err (ErrorString "proxy address is empty")
  else
    _ ← wrap_err "parse proxy address" (url_Parse proxyAddr);
    NewProxyTransport url_Parse xproxy_FromURL proxyAddr timeout.

(** ** RotatingProxyClient *)

Record RotatingProxyClient := mkRotatingProxyClient { rc_hub : ProxyHub; rc_timeout : Z; rc_maxAttempts : nat }.
Definition NewRotatingProxyClient (hub : ProxyHub) (timeout : Z) : RotatingProxyClient := mkRotatingProxyClient hub timeout 3.

Definition retryable_status (status : Z) : bool :=
  (status =? StatusForbidden) || (status =? StatusTooManyRequests) || (500 <=? status).

(** The callback that refuses a response worth another proxy. *)
Definition or_retry {S} (consume : Z -> stream -> ST (net * S) (option gerror)) (status : Z) (body : stream) :
    ST (net * S) (option gerror) :=
  if retryable_status status then mret (Some (ErrRetryableStatus status)) else consume status body.

(** The loop, with [n] attempts left: [current] is in [attemptedIDs]. *)
Fixpoint rotate {S} (c : RotatingProxyClient) (rawURL : string) (queryParams headers : params)
    (consume : Z -> stream -> ST (net * S) (option gerror))
    (n : nat) (attemptedIDs : list Z) (current : option ProxyRecord) (lastErr : option gerror) : ST (net * S) (option gerror) :=
  match n, current with
  | Datatypes.S n, Some p =>
      let swap (e : gerror) : ST (net * S) (option gerror) :=
        r ← RandomActiveExcluding (rc_hub c) attemptedIDs;
        match r with
        | Err e' => mret (Some (ErrJoin [e; e']))
        | Ok None => rotate c rawURL queryParams headers consume n attemptedIDs None (Some e)
        | Ok (Some q) => rotate c rawURL queryParams headers consume n (attemptedIDs ++ [pr_ID q]) (Some q) (Some e)
        end in
      match NewProxyClient (Address p) (rc_timeout c) with
      | Err e => swap (ErrTransport e)
      | Ok d =>
          pErr ← client_GetStream (Some d) rawURL queryParams headers (or_retry consume);
          match pErr with
          | None => mret None
          | Some e => if rotates e then swap e else mret (Some e)
          end
      end
  | _, _ => mret lastErr
  end.

Definition rotating_GetStream {S} (c : RotatingProxyClient) (rawURL : string) (queryParams headers : params)
    (consume : Z -> stream -> ST (net * S) (option gerror)) : ST (net * S) (option gerror) :=
  current ← hub_RandomActive (rc_hub c);
  match current with
  | Err e => mret (Some e)
  | Ok None => client_GetStream None rawURL queryParams headers consume
  | Ok (Some p) => rotate c rawURL queryParams headers consume (rc_maxAttempts c) [pr_ID p] (Some p) None
  end.

(** [Do], [Get], [Post], [Patch] and [Delete] go to the direct client. *)
Definition rotating_Do {S} (c : RotatingProxyClient) (req : HTTPRequest) : ST (net * S) (HTTPResponse * option gerror) := client_Do None req.
Definition rotating_Get {S} (c : RotatingProxyClient) := client_Get (S := S) None.
Definition rotating_Post {S} (c : RotatingProxyClient) := client_Post (S := S) None.
Definition rotating_Patch {S} (c : RotatingProxyClient) := client_Patch (S := S) None.
Definition rotating_Delete {S} (c : RotatingProxyClient) := client_Delete (S := S) None.
End Client.
