(* ===== verification/HttpClientFacts.v ===== *)
(** * What the HTTP clients promise their callers

    The contract of [GetStream] ([port/contract/httpclient.go]) as an
    interface: the environment alone decides whether and with what the callback
    is called; it is called at most once, and its error is returned as it is.
    Both clients implement it. *)
From stdpp Require Import pretty.
From S2P Require Import Prelude GoErrors GoStrings Contract ProxyStore Payloads LodestonePage Lodestone Dial Checks Hub HttpClient.

(** ** The contract *)

(** The errors a caller's callback uses for itself. *)
Definition callback_sentinels : list sentinel := [ErrEmitFailed; ErrPublishFailed; ErrLookupFailed; ErrDiscoveryLimitReached].
Definition foreign (e : gerror) : Prop := Forall (fun s => errors_Is e s = false) callback_sentinels.

Lemma foreign_wrap m e : foreign e -> foreign (ErrWrap m e).
Proof. done. Qed.
Lemma foreign_transport e : foreign e -> foreign (ErrTransport e).
Proof. done. Qed.
Lemma foreign_join e e' : foreign e -> foreign e' -> foreign (ErrJoin [e; e']).
Proof.
  intros H H'. unfold foreign in *. rewrite Forall_forall in *. intros s Hs. cbn. by rewrite (H s Hs), (H' s Hs).
Qed.
Lemma foreign_string m : foreign (ErrorString m).
Proof. by repeat constructor. Qed.
Lemma foreign_status n : foreign (ErrRetryableStatus n).
Proof. by repeat constructor. Qed.

Create HintDb foreign.
#[export] Hint Resolve foreign_wrap foreign_transport foreign_join foreign_string foreign_status : foreign.

(** The callback is not called, or called with a response. *)
Inductive stream_answer := Unanswered (n : net) (e : gerror) | Answered (n : net) (status : Z) (body : stream).
Definition answer_net (a : stream_answer) : net := match a with Unanswered n _ | Answered n _ _ => n end.
(** An error that is neither the callback's nor one of the rotation. *)
Definition alien (e : gerror) : Prop := foreign e /\ rotates e = false.
Definition body_ok (b : stream) : Prop := match st_err b with Some e => alien e | None => True end.
Definition answer_ok (a : stream_answer) : Prop := match a with Unanswered _ e => foreign e | Answered _ _ body => body_ok body end.

Definition streamer : Type := forall S : Type, (Z -> stream -> ST (net * S) (option gerror)) -> ST (net * S) (option gerror).

(** A callback whose own error asks for another proxy would be called again;
    no callback has one, the error types being private to the clients. *)
Definition streams_as (f : streamer) (n : net) (a : stream_answer) : Prop :=
  forall S (consume : Z -> stream -> ST (net * S) (option gerror)) (s : S),
  match a with
  | Unanswered n' e => f S consume (n, s) = ((n', s), Some e)
  | Answered n' status body =>
      (forall e, (consume status body (n', s)).2 = Some e -> rotates e = false) ->
      f S consume (n, s) = consume status body (n', s)
  end.

Class HTTPClientLaw (C : HTTPClient) : Prop :=
  stream_once : forall url queryParams headers n, exists a,
    streams_as (fun S => GetStream (S := S) url queryParams headers) n a /\ answer_ok a.

(** ** The clients *)

Section Clients.
Context (env : netEnv) (url_with_query : string -> params -> result string) (http_NewRequest : string -> string -> result unit).
Context (url_Parse : string -> result proxyURL) (xproxy_FromURL : proxyURL -> result bool).

(** No library returns one of the program's own errors, and the database picks
    one of the rows it was asked for when there is one. *)
Record env_ok : Prop := {
  eo_do : forall n route req e, ne_do env n route req = Err e -> foreign e;
  eo_body : forall n route req resp, ne_do env n route req = Ok resp -> body_ok (hp_body resp);
  eo_db : forall n, match ne_dbFault env n with NoFault => True | Refused e | LostReply e => foreign e end;
  eo_url : forall u q e, url_with_query u q = Err e -> alien e;
  eo_new : forall m u e, http_NewRequest m u = Err e -> alien e;
  eo_parse : forall u e, url_Parse u = Err e -> foreign e;
  eo_socks : forall u e, xproxy_FromURL u = Err e -> foreign e;
  eo_pick : forall n l p, ne_pick env n l = Some p -> p ∈ l;
  eo_some : forall n l, ne_pick env n l = None -> l = [];
}.
Context (Henv : env_ok).

#[local] Abbreviation buildRequest := (buildRequest url_with_query http_NewRequest).
#[local] Abbreviation client_GetStream := (client_GetStream env url_with_query http_NewRequest).
#[local] Abbreviation NewProxyClient := (NewProxyClient url_Parse xproxy_FromURL).
#[local] Abbreviation rotate := (rotate env url_with_query http_NewRequest url_Parse xproxy_FromURL).
#[local] Abbreviation rotating_GetStream := (rotating_GetStream env url_with_query http_NewRequest url_Parse xproxy_FromURL).

#[export] Instance direct_client : HTTPClient := {| GetStream _ := client_GetStream None |}.
#[export] Instance rotating_client (c : RotatingProxyClient) : HTTPClient := {| GetStream _ := rotating_GetStream c |}.

Lemma buildRequest_foreign req e : buildRequest req = Err e -> foreign e.
Proof.
  unfold HttpClient.buildRequest. repeat case_bool_decide; [intros [= <-]; apply foreign_string..|].
  destruct (url_with_query _ _) eqn:Hu; cbn; [|intros [= <-]; apply foreign_wrap; by eapply (eo_url Henv)].
  destruct (http_NewRequest _ _) eqn:Hn; cbn; [done|]. intros [= <-]. apply foreign_wrap. by eapply (eo_new Henv).
Qed.

Lemma NewProxyClient_foreign addr timeout e : NewProxyClient addr timeout = Err e -> foreign e.
Proof.
  unfold HttpClient.NewProxyClient, NewProxyTransport.
  destruct (bool_decide (addr = "")); [intros [= <-]; apply foreign_string|].
  destruct (url_Parse addr) as [u|e'] eqn:Hu; cbn -[bool_decide]; [|intros [= <-]; apply foreign_wrap; by eapply eo_parse].
  destruct (_ || _); [done|].
  destruct (bool_decide (pu_Scheme u = "socks5")).
  - destruct (xproxy_FromURL u) as [[]|e'] eqn:Hs; cbn; [done|intros [= <-]; apply foreign_string|].
    intros [= <-]. apply foreign_wrap. by eapply eo_socks.
  - destruct (bool_decide _); [done|]. intros [= <-]. apply foreign_string.
Qed.

(** The one request of a plain call. *)
Definition get_request (url : string) (queryParams headers : params) : result httpReq :=
  buildRequest (mkHTTPRequest "GET" url queryParams headers "" 0).
Definition after_request (n : net) (route : option dialer) (req : httpReq) : net :=
  n{{ n_calls := S (n_calls n); n_sent := n_sent n ++ [(route, req)] }}.

Definition client_answer (route : option dialer) (url : string) (queryParams headers : params) (n : net) : stream_answer :=
  match get_request url queryParams headers with
  | Err e => Unanswered n e
  | Ok req =>
      match ne_do env (n_calls n) route req with
      | Err e => Unanswered (after_request n route req) (ErrTransport (ErrWrap "execute request" e))
      | Ok resp => Answered (after_request n route req) (hp_status resp) (hp_body resp)
      end
  end.

Lemma client_GetStream_run route url queryParams headers n S consume (s : S) :
  client_GetStream route url queryParams headers consume (n, s) =
    match client_answer route url queryParams headers n with
    | Unanswered n' e => ((n', s), Some e)
    | Answered n' status body => consume status body (n', s)
    end.
Proof.
  unfold client_answer, get_request, HttpClient.client_GetStream. destruct (buildRequest _) as [req|e]; [|done].
  rewrite ST_bind_eq. cbn. by destruct (ne_do _ _ _ _).
Qed.

Lemma client_answer_spec route url queryParams headers n : answer_ok (client_answer route url queryParams headers n).
Proof.
  unfold client_answer. destruct (get_request _ _ _) as [req|e] eqn:Hreq; cbn.
  - destruct (ne_do _ _ _ _) eqn:Hdo; cbn; [by eapply eo_body|]. apply foreign_transport, foreign_wrap. by eapply eo_do.
  - by eapply buildRequest_foreign.
Qed.

#[export] Instance direct_client_law : HTTPClientLaw direct_client.
Proof.
  intros url q h n. exists (client_answer None url q h n). split; [|apply client_answer_spec].
  intros S consume s. cbn [GetStream direct_client]. rewrite client_GetStream_run. by destruct (client_answer _ _ _ _ _).
Qed.

(** ** Rotation *)

(** A proxy the pool may hand out at its [i]th read: stored, healthy, verified
    within the freshness TTL, of a protocol the client speaks, not excluded. *)
Definition available (h : ProxyHub) (i : nat) (excluded : list Z) (p : ProxyRecord) : Prop :=
  p ∈ rows_list (ne_db env i) /\ pr_GeneralHealthy p = true /\
  (exists t, pr_LastVerifiedAt p = Some t /\ ne_dbNow env i - sp_FreshnessTTL (ph_policy h) < t) /\
  pr_Protocol p ∈ ["http"; "https"; "socks4"; "socks5"] /\ pr_ID p ∉ excluded.
Inductive pool_read (h : ProxyHub) (i : nat) (excluded : list Z) : result (option ProxyRecord) -> Prop :=
  | read_fails e : ne_dbFault env i = Refused e \/ ne_dbFault env i = LostReply e -> pool_read h i excluded (Err e)
  | read_empty : ne_dbFault env i = NoFault -> (forall p, ~ available h i excluded p) -> pool_read h i excluded (Ok None)
  | read_picks p : ne_dbFault env i = NoFault -> available h i excluded p -> pool_read h i excluded (Ok (Some p)).
Definition after_read (n : net) : net := n{{ n_reads := S (n_reads n) }}.

(** The GET request for [url], or why it cannot be made. *)
Definition asks (url : string) (queryParams headers : params) (req : httpReq) : Prop :=
  TrimSpace url <> "" /\ exists u, url_with_query url queryParams = Ok u /\ http_NewRequest "GET" u = Ok tt /\ req = mkHttpReq "GET" u headers "" None.
Inductive cannot_ask (url : string) (queryParams : params) : gerror -> Prop :=
  | no_url : TrimSpace url = "" -> cannot_ask url queryParams (ErrorString "request url is required")
  | bad_url e : TrimSpace url <> "" -> url_with_query url queryParams = Err e -> cannot_ask url queryParams (ErrWrap "parse url" e)
  | bad_request u e : TrimSpace url <> "" -> url_with_query url queryParams = Ok u -> http_NewRequest "GET" u = Err e ->
      cannot_ask url queryParams (ErrWrap "build request" e).
(** One direct request. *)
Inductive direct_run (url : string) (queryParams headers : params) (n : net) : stream_answer -> Prop :=
  | direct_unasked e : cannot_ask url queryParams e -> direct_run url queryParams headers n (Unanswered n e)
  | direct_failed req e : asks url queryParams headers req -> ne_do env (n_calls n) None req = Err e ->
      direct_run url queryParams headers n (Unanswered (after_request n None req) (ErrTransport (ErrWrap "execute request" e)))
  | direct_answered req resp : asks url queryParams headers req -> ne_do env (n_calls n) None req = Ok resp ->
      direct_run url queryParams headers n (Answered (after_request n None req) (hp_status resp) (hp_body resp)).

(** The transport through a proxy, at its address. *)
Definition transport (timeout : Z) (p : ProxyRecord) : result dialer :=
  NewProxyClient (pr_Protocol p +:+ "://" +:+ pr_IP p +:+ ":" +:+ pretty (pr_Port p)) timeout.
(** The attempt through [p] failed in a way that moves on: no client can be
    made for it, the request did not get through, or the status is 403, 429 or
    at least 500. *)
Inductive tried_in_vain (timeout : Z) (url : string) (queryParams headers : params) (p : ProxyRecord) (n : net) : net -> gerror -> Prop :=
  | vain_client e : transport timeout p = Err e -> tried_in_vain timeout url queryParams headers p n n (ErrTransport e)
  | vain_network d req e : transport timeout p = Ok d -> asks url queryParams headers req -> ne_do env (n_calls n) (Some d) req = Err e ->
      tried_in_vain timeout url queryParams headers p n (after_request n (Some d) req) (ErrTransport (ErrWrap "execute request" e))
  | vain_status d req resp : transport timeout p = Ok d -> asks url queryParams headers req -> ne_do env (n_calls n) (Some d) req = Ok resp ->
      hp_status resp = 403 \/ hp_status resp = 429 \/ 500 <= hp_status resp ->
      tried_in_vain timeout url queryParams headers p n (after_request n (Some d) req) (ErrRetryableStatus (hp_status resp)).

(** [rotation_run left attempted p n a]: with [left] attempts, the next through
    [p], the proxies tried so far being [attempted]. *)
Inductive rotation_run (c : RotatingProxyClient) (url : string) (queryParams headers : params) :
    nat -> list Z -> ProxyRecord -> net -> stream_answer -> Prop :=
  | rot_answered left attempted p n d req resp : transport (rc_timeout c) p = Ok d -> asks url queryParams headers req ->
      ne_do env (n_calls n) (Some d) req = Ok resp -> hp_status resp <> 403 -> hp_status resp <> 429 -> hp_status resp < 500 ->
      rotation_run c url queryParams headers (S left) attempted p n (Answered (after_request n (Some d) req) (hp_status resp) (hp_body resp))
  | rot_unasked left attempted p n d e : transport (rc_timeout c) p = Ok d -> cannot_ask url queryParams e ->
      rotation_run c url queryParams headers (S left) attempted p n (Unanswered n e)
  | rot_pool_failed left attempted p n n1 e e' : tried_in_vain (rc_timeout c) url queryParams headers p n n1 e ->
      pool_read (rc_hub c) (n_reads n1) attempted (Err e') ->
      rotation_run c url queryParams headers (S left) attempted p n (Unanswered (after_read n1) (ErrJoin [e; e']))
  | rot_pool_empty left attempted p n n1 e : tried_in_vain (rc_timeout c) url queryParams headers p n n1 e ->
      pool_read (rc_hub c) (n_reads n1) attempted (Ok None) ->
      rotation_run c url queryParams headers (S left) attempted p n (Unanswered (after_read n1) e)
  | rot_exhausted attempted p n n1 e p' : tried_in_vain (rc_timeout c) url queryParams headers p n n1 e ->
      pool_read (rc_hub c) (n_reads n1) attempted (Ok (Some p')) ->
      rotation_run c url queryParams headers 1 attempted p n (Unanswered (after_read n1) e)
  | rot_next left attempted p n n1 e p' a : tried_in_vain (rc_timeout c) url queryParams headers p n n1 e ->
      pool_read (rc_hub c) (n_reads n1) attempted (Ok (Some p')) ->
      rotation_run c url queryParams headers (S left) (attempted ++ [pr_ID p']) p' (after_read n1) a ->
      rotation_run c url queryParams headers (S (S left)) attempted p n a.
(** How a streamed request of the rotating client goes. *)
Inductive rotating_run (c : RotatingProxyClient) (url : string) (queryParams headers : params) (n : net) : stream_answer -> Prop :=
  | pool_failed e : pool_read (rc_hub c) (n_reads n) [] (Err e) -> rotating_run c url queryParams headers n (Unanswered (after_read n) e)
  | pool_empty a : pool_read (rc_hub c) (n_reads n) [] (Ok None) -> direct_run url queryParams headers (after_read n) a ->
      rotating_run c url queryParams headers n a
  | through_pool p a : pool_read (rc_hub c) (n_reads n) [] (Ok (Some p)) ->
      rotation_run c url queryParams headers (rc_maxAttempts c) [pr_ID p] p (after_read n) a -> rotating_run c url queryParams headers n a.

(** ** The loop follows the rotation *)

Lemma available_iff h i excluded p : p ∈ filter (fun p => freshPredicate (sp_FreshnessTTL (ph_policy h)) (ne_dbNow env i) p = true
    /\ supportedProtocol p = true /\ pr_ID p ∉ excluded) (rows_list (ne_db env i)) <-> available h i excluded p.
Proof.
  rewrite list_elem_of_filter. unfold freshPredicate, supportedProtocol, available. rewrite andb_true_iff, bool_decide_eq_true.
  assert (Hgt : sql_gt (pr_LastVerifiedAt p) (ne_dbNow env i - sp_FreshnessTTL (ph_policy h)) = true <->
    exists t, pr_LastVerifiedAt p = Some t /\ ne_dbNow env i - sp_FreshnessTTL (ph_policy h) < t).
  { unfold sql_gt. destruct (pr_LastVerifiedAt p) as [t|]; [|split; [done|by intros (? & [=] & _)]]. rewrite Z.ltb_lt. naive_solver. }
  rewrite Hgt. tauto.
Qed.
Lemma RandomActiveExcluding_spec h excluded n : exists r, pool_read h (n_reads n) excluded r /\
  forall S (s : S), RandomActiveExcluding env h excluded (n, s) = ((after_read n, s), r).
Proof.
  eexists. split; [|reflexivity]. unfold ProxyStore.RandomActive.
  destruct (ne_dbFault env (n_reads n)) eqn:Hf; cbn [read_fault]; [|apply read_fails; auto..].
  destruct (ne_pick env (n_reads n) _) as [p|] eqn:Hp.
  - apply (eo_pick Henv), available_iff in Hp. by apply read_picks.
  - apply (eo_some Henv) in Hp. apply read_empty; [done|]. intros p Ha%available_iff. rewrite Hp in Ha. by apply elem_of_nil in Ha.
Qed.
Lemma pool_read_foreign h i excluded e : pool_read h i excluded (Err e) -> foreign e.
Proof. intros H. pose proof (eo_db Henv i) as Hf. inversion H as [? [E|E]| |]; subst; by rewrite E in Hf. Qed.

Lemma get_request_asks url q h :
  match get_request url q h with Ok req => asks url q h req | Err e => cannot_ask url q e /\ alien e end.
Proof.
  unfold get_request, HttpClient.buildRequest. cbn [rq_Method rq_URL rq_QueryParams rq_Headers rq_Body rq_Timeout].
  change (ToUpper (TrimSpace "GET")) with "GET". rewrite bool_decide_false by done.
  case_bool_decide as Hu; [split; [by apply no_url|split; [apply foreign_string|done]]|].
  destruct (url_with_query url q) as [u|e] eqn:Hq; cbn; [|split; [by apply bad_url|]; destruct (eo_url Henv _ _ _ Hq); by split].
  destruct (http_NewRequest "GET" u) as [[]|e] eqn:Hn; cbn; [split; [done|]; by exists u|].
  split; [by eapply bad_request|]. destruct (eo_new Henv _ _ _ Hn); by split.
Qed.

Lemma client_answer_cases route url q h n :
  match get_request url q h with
  | Err e => client_answer route url q h n = Unanswered n e
  | Ok req =>
      match ne_do env (n_calls n) route req with
      | Err e => client_answer route url q h n = Unanswered (after_request n route req) (ErrTransport (ErrWrap "execute request" e))
      | Ok resp => client_answer route url q h n = Answered (after_request n route req) (hp_status resp) (hp_body resp)
      end
  end.
Proof. unfold client_answer. destruct (get_request url q h) as [req|e]; [|done]. by destruct (ne_do _ _ _ _). Qed.
Lemma client_answer_direct url q h n : direct_run url q h n (client_answer None url q h n).
Proof.
  pose proof (get_request_asks url q h) as Hr. pose proof (client_answer_cases None url q h n) as Ha.
  destruct (get_request url q h) as [req|e]; [|rewrite Ha; apply direct_unasked, Hr].
  destruct (ne_do env (n_calls n) None req) eqn:Hd; rewrite Ha; [by apply direct_answered|by apply direct_failed].
Qed.

(** The computation goes on as [g] from [n1]. *)
Lemma streams_step (f g : streamer) n n1 a : (forall S consume (s : S), f S consume (n, s) = g S consume (n1, s)) ->
  streams_as g n1 a -> streams_as f n a.
Proof. intros Hf Ha S consume s. specialize (Ha S consume s). by rewrite Hf. Qed.

(** The acquisition after a failed attempt, and the rest of the loop. *)
Definition swap (c : RotatingProxyClient) (url : string) (queryParams headers : params) (left : nat) (attempted : list Z)
    (e : gerror) : streamer := fun S consume =>
  r ← RandomActiveExcluding env (rc_hub c) attempted;
  match r with
  | Err e' => mret (Some (ErrJoin [e; e']))
  | Ok None => rotate c url queryParams headers consume left attempted None (Some e)
  | Ok (Some q) => rotate c url queryParams headers consume left (attempted ++ [pr_ID q]) (Some q) (Some e)
  end.

(** The attempt through [p] fails and the loop swaps, or its answer is the
    loop's. *)
Lemma rotate_step c url q h left attempted p lastErr n :
  (exists n1 e, tried_in_vain (rc_timeout c) url q h p n n1 e /\ foreign e /\
     forall S consume (s : S), rotate c url q h consume (Datatypes.S left) attempted (Some p) lastErr (n, s) = swap c url q h left attempted e S consume (n1, s)) \/
  (exists a, rotation_run c url q h (Datatypes.S left) attempted p n a /\ answer_ok a /\
     streams_as (fun S consume => rotate c url q h consume (Datatypes.S left) attempted (Some p) lastErr) n a).
Proof.
  destruct (NewProxyClient (Address p) (rc_timeout c)) as [d|e] eqn:Hd.
  2:{ left. exists n, (ErrTransport e). split; [by apply vain_client|]. split; [by eapply foreign_transport, NewProxyClient_foreign|].
      intros S consume s. cbn [HttpClient.rotate]. by rewrite Hd. }
  assert (Hrun : forall S (consume : Z -> stream -> ST (net * S) (option gerror)) s,
    rotate c url q h consume (Datatypes.S left) attempted (Some p) lastErr (n, s) =
      let '(w, pErr) := match client_answer (Some d) url q h n with
        | Unanswered n' e => ((n', s), Some e)
        | Answered n' status body => or_retry consume status body (n', s)
        end in
      match pErr with
      | None => (w, None)
      | Some e => if rotates e then swap c url q h left attempted e S consume w else (w, Some e)
      end).
  { intros S consume s. cbn [HttpClient.rotate]. rewrite Hd. rewrite ST_bind_eq, client_GetStream_run.
    destruct (client_answer (Some d) url q h n) as [n' e|n' status body]; cbn [fst snd]; [by destruct (rotates e)|].
    destruct (or_retry consume status body (n', s)) as [w' [e|]]; cbn [fst snd]; [by destruct (rotates e)|done]. }
  pose proof (get_request_asks url q h) as Hr. pose proof (client_answer_cases (Some d) url q h n) as Ha.
  destruct (get_request url q h) as [req|e].
  2:{ destruct Hr as [Hr [Hfor Hrot]]. right. exists (Unanswered n e). split; [by eapply rot_unasked|]. split; [done|].
      intros S consume s. by rewrite Hrun, Ha, Hrot. }
  destruct (ne_do env (n_calls n) (Some d) req) as [resp|e] eqn:Hdo; rewrite Ha in Hrun.
  2:{ left. eexists _, _. split; [by eapply vain_network|]. split; [apply foreign_transport, foreign_wrap; by eapply (eo_do Henv)|].
      intros S consume s. by rewrite Hrun. }
  unfold or_retry, retryable_status, StatusForbidden, StatusTooManyRequests in Hrun.
  destruct ((hp_status resp =? 403) || (hp_status resp =? 429) || (500 <=? hp_status resp)) eqn:Hst.
  - left. eexists _, _. split; [eapply (vain_status _ _ _ _ _ _ d req resp); try done; lia|]. split; [apply foreign_status|].
    intros S consume s. by rewrite Hrun.
  - right. eexists. split; [eapply (rot_answered _ _ _ _ _ _ _ _ d req resp); try done; lia|].
    split; [by eapply (eo_body Henv)|]. intros S consume s Hc. cbv beta. rewrite Hrun.
    destruct (consume _ _ _) as [w [e|]] eqn:Hcon; [|done]. by rewrite (Hc e eq_refl).
Qed.

Lemma rotate_runs c url q h left : forall attempted p lastErr n, exists a,
  streams_as (fun S consume => rotate c url q h consume (Datatypes.S left) attempted (Some p) lastErr) n a /\ answer_ok a /\
  rotation_run c url q h (Datatypes.S left) attempted p n a.
Proof.
  induction left as [|left IH]; intros attempted p lastErr n;
    [destruct (rotate_step c url q h O attempted p lastErr n) as [(n1 & e & Hvain & Hfor & Hrun)|(a & Ha)]
    |destruct (rotate_step c url q h (S left) attempted p lastErr n) as [(n1 & e & Hvain & Hfor & Hrun)|(a & Ha)]].
  2, 4: exists a; tauto.
  all: destruct (RandomActiveExcluding_spec (rc_hub c) attempted n1) as (r & Hread & Hr).
  all: assert (Hswap : forall left S (consume : Z -> stream -> ST (net * S) (option gerror)) s, swap c url q h left attempted e S consume (n1, s) =
         match r with
         | Err e' => mret (Some (ErrJoin [e; e']))
         | Ok None => rotate c url q h consume left attempted None (Some e)
         | Ok (Some q') => rotate c url q h consume left (attempted ++ [pr_ID q']) (Some q') (Some e)
         end (after_read n1, s)) by (intros; unfold swap; by rewrite ST_bind_eq, Hr).
  all: destruct r as [[p'|]|e'];
    [|exists (Unanswered (after_read n1) e); split; [intros S consume s; by rewrite Hrun, Hswap|]; split; [done|by eapply rot_pool_empty]
     |exists (Unanswered (after_read n1) (ErrJoin [e; e'])); split; [intros S consume s; by rewrite Hrun, Hswap|];
      split; [apply foreign_join; [done|by eapply pool_read_foreign]|by eapply rot_pool_failed]].
  - exists (Unanswered (after_read n1) e). split; [intros S consume s; by rewrite Hrun, Hswap|]. split; [done|by eapply rot_exhausted].
  - destruct (IH (attempted ++ [pr_ID p']) p' (Some e) (after_read n1)) as (a & Ha & Hok & Hrot). exists a. split; [|split; [done|by eapply rot_next]].
    eapply streams_step; [|exact Ha]. intros S consume s. cbv beta. by rewrite Hrun, Hswap.
Qed.

Lemma rotating_spec c url q h n : (0 < rc_maxAttempts c)%nat ->
  exists a, streams_as (fun S consume => rotating_GetStream c url q h consume) n a /\ answer_ok a /\ rotating_run c url q h n a.
Proof.
  intros Hmax. destruct (RandomActiveExcluding_spec (rc_hub c) [] n) as (r & Hread & Hr).
  assert (Hrun : forall S (consume : Z -> stream -> ST (net * S) (option gerror)) s, rotating_GetStream c url q h consume (n, s) =
    match r with
    | Err e => mret (Some e)
    | Ok None => client_GetStream None url q h consume
    | Ok (Some p) => rotate c url q h consume (rc_maxAttempts c) [pr_ID p] (Some p) None
    end (after_read n, s)).
  { intros S consume s. unfold HttpClient.rotating_GetStream. rewrite ST_bind_eq. unfold RandomActiveExcluding in Hr. unfold hub_RandomActive. by rewrite Hr. }
  destruct r as [[p|]|e].
  - destruct (rc_maxAttempts c) as [|left] eqn:Hleft; [lia|].
    destruct (rotate_runs c url q h left [pr_ID p] p None (after_read n)) as (a & Ha & Hok & Hrot). exists a.
    split; [eapply streams_step; [|exact Ha]; intros; cbv beta; by rewrite Hrun|]. split; [done|].
    eapply through_pool; [done|by rewrite Hleft].
  - exists (client_answer None url q h (after_read n)). split; [|split; [apply client_answer_spec|by eapply pool_empty, client_answer_direct]].
    intros S consume s. rewrite Hrun, client_GetStream_run. by destruct (client_answer _ _ _ _ _).
  - exists (Unanswered (after_read n) e). split; [intros S consume s; by rewrite Hrun|]. split; [by eapply pool_read_foreign|by apply pool_failed].
Qed.

#[export] Instance rotating_client_law hub timeout : HTTPClientLaw (rotating_client (NewRotatingProxyClient hub timeout)).
Proof.
  intros url q h n. destruct (rotating_spec (NewRotatingProxyClient hub timeout) url q h n) as (a & Ha & Hf & _); [cbn; lia|].
  by exists a.
Qed.

(** ** The requests of a rotation *)

(** The request an attempt sent, if it sent one. *)
Definition sent_through (timeout : Z) (url : string) (queryParams headers : params) (p : ProxyRecord) (sent : list (option dialer * httpReq)) : Prop :=
  sent = [] \/ exists d req, transport timeout p = Ok d /\ asks url queryParams headers req /\ sent = [(Some d, req)].
Lemma vain_sends timeout url q h p n n1 e : tried_in_vain timeout url q h p n n1 e ->
  exists sent, n_sent n1 = n_sent n ++ sent /\ sent_through timeout url q h p sent.
Proof.
  intros H. inversion H as [e'|d req e'|d req resp]; subst; [exists []; split; [by rewrite app_nil_r|by left]|..];
    (eexists; split; [reflexivity|]; right; by exists d, req).
Qed.
Lemma rotation_requests c url q h left attempted p n a : rotation_run c url q h left attempted p n a -> pr_ID p ∈ attempted ->
  exists tried sents, (length tried <= left)%nat /\ NoDup (pr_ID <$> tried) /\ (forall r, r ∈ tried -> r = p \/ pr_ID r ∉ attempted) /\
    Forall2 (sent_through (rc_timeout c) url q h) tried sents /\ n_sent (answer_net a) = n_sent n ++ concat sents.
Proof.
  assert (Hone : forall left (attempted : list Z) (p : ProxyRecord) n (a : stream_answer) sent, n_sent (answer_net a) = n_sent n ++ sent -> sent_through (rc_timeout c) url q h p sent ->
    exists tried sents, (length tried <= S left)%nat /\ NoDup (pr_ID <$> tried) /\ (forall r, r ∈ tried -> r = p \/ pr_ID r ∉ attempted) /\
      Forall2 (sent_through (rc_timeout c) url q h) tried sents /\ n_sent (answer_net a) = n_sent n ++ concat sents).
  { intros left' att p' n' a' sent Hs Ht. exists [p'], [sent]. cbn. split_and!; [lia|apply NoDup_singleton| |constructor; [done|constructor]|by rewrite app_nil_r].
    intros r Hr%list_elem_of_singleton. by left. }
  induction 1 as [left att p n d req resp|left att p n d e|left att p n n1 e e' Hv|left att p n n1 e Hv|att p n n1 e p' Hv|left att p n n1 e p' a Hv Hread Hrot IH]; intros Hin.
  - eapply Hone; [reflexivity|]. right. by exists d, req.
  - eapply (Hone _ _ _ _ _ []); [by rewrite app_nil_r|by left].
  - destruct (vain_sends _ _ _ _ _ _ _ _ Hv) as (sent & Hs & Ht). by eapply Hone.
  - destruct (vain_sends _ _ _ _ _ _ _ _ Hv) as (sent & Hs & Ht). by eapply Hone.
  - destruct (vain_sends _ _ _ _ _ _ _ _ Hv) as (sent & Hs & Ht). by eapply Hone.
  - destruct (vain_sends _ _ _ _ _ _ _ _ Hv) as (sent & Hs & Ht).
    destruct IH as (tried & sents & Hlen & Hnd & Hnew & Hall & Hsents); [apply elem_of_app; right; by apply list_elem_of_singleton|].
    assert (Hp' : pr_ID p' ∉ att) by (inversion Hread as [| |? ? Hav]; subst; apply Hav).
    assert (Hfresh : forall r, r ∈ tried -> pr_ID r ∉ att).
    { intros r Hr. destruct (Hnew r Hr) as [->|Hn]; [done|]. intros Ha. by apply Hn, elem_of_app, or_introl. }
    exists (p :: tried), (sent :: sents). cbn. split_and!; [lia| | |by constructor|by rewrite Hsents, app_assoc, <-Hs].
    + apply list.NoDup_cons. split; [|done]. intros (r & Hr & Hin')%list_elem_of_fmap. apply (Hfresh r Hin'). by rewrite <-Hr.
    + intros r [->|Hr]%elem_of_cons; [by left|right; by apply Hfresh].
Qed.

(** C33: a streamed request over the pool reaches its consumer at most
    once.  If the pool cannot be read nothing is sent; if it has no available
    proxy (stored, healthy, verified within the TTL, of a known protocol) one
    direct request is made; otherwise the request goes through an available
    proxy.  A proxy no client can be made for, a transport failure, a 403, a
    429 or a 5xx moves on to an available proxy not tried before, as long as
    there is one and less than three were tried; the first other response is
    the one the consumer sees, and the consumer's error is returned unchanged.
    So at most three requests are sent through the pool, each through another
    proxy.  The libraries are assumed not to return the program's own error
    types, the database to pick one of the rows it was asked for whenever there
    is one, and the consumer not to return the error types private to the
    client. *)
Theorem rotating_stream hub timeout url queryParams headers n :
  exists a, streams_as (fun S consume => rotating_GetStream (NewRotatingProxyClient hub timeout) url queryParams headers consume) n a
    /\ answer_ok a /\ rotating_run (NewRotatingProxyClient hub timeout) url queryParams headers n a
    /\ ((exists p, available hub (n_reads n) [] p) -> exists tried sents, (length tried <= 3)%nat /\ NoDup (pr_ID <$> tried) /\
          Forall2 (sent_through timeout url queryParams headers) tried sents /\ n_sent (answer_net a) = n_sent n ++ concat sents).
Proof.
  destruct (rotating_spec (NewRotatingProxyClient hub timeout) url queryParams headers n) as (a & Ha & Hok & Hrun); [cbn; lia|].
  exists a. split; [done|]. split; [done|]. split; [done|]. intros [p Hp].
  inversion Hrun as [e He|a' He|p' a' He Hrot]; subst.
  - exists [], []. cbn. split_and!; [lia|constructor|constructor|by rewrite app_nil_r].
  - exfalso. inversion He as [|? Hno|]; subst. by apply (Hno p).
  - destruct (rotation_requests _ _ _ _ _ _ _ _ _ Hrot) as (tried & sents & H1 & H2 & _ & H3 & H4); [by apply list_elem_of_singleton|].
    by exists tried, sents.
Qed.
End Clients.

(** ** A pool of two proxies: the first answers 429, the second 200 *)

Definition scrape_row (id : Z) (ip : string) : ProxyRecord :=
  zeroProxyRecord{{ pr_ID := id; pr_Protocol := "http"; pr_IP := ip; pr_Port := 8080; pr_GeneralHealthy := true; pr_Status := ProxyStatusActive;
    pr_LastVerifiedAt := Some 0 }}.
Definition scrape_db : ProxyDB := mkProxyDB (<[1 := scrape_row 1 "10.0.0.1"]> {[ 2 := scrape_row 2 "10.0.0.2" ]}) 3.
Definition scrape_hub : ProxyHub := mkProxyHub minute false minute
  (mkProxyScanPolicy minute (2 * minute) (10 * second) (5 * minute) hour (30 * second) second (15 * second) (24 * hour) 5).
Definition text_body (data : string) : stream := mkStream data None.
Definition scrape_env : netEnv := {|
  ne_do n route req := Ok (mkHttpReply (match n with O => 429 | _ => 200 end) [] (text_body "ok"));
  ne_db _ := scrape_db;
  ne_dbFault _ := NoFault;
  ne_dbNow _ := second;
  ne_pick _ l := head l;
  ne_clock n := Z.of_nat n * second;
|}.
Definition scrape_parse (u : string) : result proxyURL := Ok (mkProxyURL "http" u "" None).
Definition scrape_url (u : string) (q : params) : result string := Ok u.
Definition scrape_request (m u : string) : result unit := Ok tt.
Definition scrape_socks (u : proxyURL) : result bool := Ok true.

Lemma scrape_env_ok : env_ok scrape_env scrape_url scrape_request scrape_parse scrape_socks.
Proof.
  split; try done; [by intros n route req resp [= <-]|..].
  - intros n l p. cbn. destruct l; [done|]. intros [= ->]. by left.
  - intros n l. by destruct l.
Qed.

(** The consumer records the status it sees. *)
Example rotation_moves_on :
  let '(w, r) := rotating_GetStream scrape_env scrape_url scrape_request scrape_parse scrape_socks
      (NewRotatingProxyClient scrape_hub minute) "https://list" [] [] (fun status body '(n, s) => ((n, s ++ [status]), None)) (mkNet 0 0 0 [], []) in
  w.2 = [200] /\ length (n_sent w.1) = 2%nat /\ r = None.
Proof. vm_compute. done. Qed.

(** The pool has a proxy, so nothing is sent directly, and the run saw the 200
    after the 429. *)
Lemma rotating_stream_witness : exists a tried,
  rotating_run scrape_env scrape_url scrape_request scrape_parse scrape_socks (NewRotatingProxyClient scrape_hub minute) "https://list" [] [] (mkNet 0 0 0 []) a /\
  (forall n e, a <> Unanswered n e) /\ (length tried <= 3)%nat /\ NoDup (pr_ID <$> tried) /\
  Forall (fun sent => sent.1 <> None) (n_sent (answer_net a)).
Proof.
  destruct (rotating_stream scrape_env scrape_url scrape_request scrape_parse scrape_socks scrape_env_ok scrape_hub minute "https://list" [] [] (mkNet 0 0 0 []))
    as (a & Ha & _ & Hrun & Hpool).
  destruct Hpool as (tried & sents & H1 & H2 & H3 & H4).
  { exists (scrape_row 1 "10.0.0.1"). split; [vm_compute; right; by left|]. split; [done|]. split; [by exists 0|]. split; [by left|apply not_elem_of_nil]. }
  exists a, tried. split; [exact Hrun|]. split; [|split; [exact H1|split; [exact H2|]]].
  - intros n e ->. specialize (Ha unit (fun _ _ w => (w, None)) tt). vm_compute in Ha. discriminate Ha.
  - rewrite H4. cbn [n_sent app]. clear - H3. induction H3 as [|p sent tried sents [->|(d & req & _ & _ & ->)] _ IH]; [constructor|exact IH|].
    constructor; [done|exact IH].
Defined.
