(* ===== verification/Providers.v ===== *)
(** * Proxy providers ([infrastructure/geonode], [proxyscrape], [pubproxy],
      [textproxy])

    Each provider fetches a public list with an [HTTPClient] and hands every
    record it can read to a callback.  [contract.ProxyProvider] is the class
    [ProxyProvider]; the callback's own state is a type parameter, so a
    provider cannot touch it.  [encoding/json]'s streaming decoder works on the
    tokens of the body, [bufio.Scanner] on its bytes.  Log records are left
    out. *)
From Stdlib Require Import Ascii.
From stdpp Require Import pretty.
From S2P Require Import Prelude GoErrors GoStrings Contract ProxyStore Payloads LodestonePage Lodestone Checks Discovery HttpClient.

(** ** The interface (port/contract/proxy.go) *)

Definition emitter (S : Type) : Type := ProxyRecord -> ST S (option gerror).

Class ProxyProvider := {
  FetchProxies : forall {S : Type}, emitter S -> ST (net * S) (option gerror);
}.

(** A callback on its own state, where the run also has a position. *)
Definition on_net {S A} (f : ST S A) : ST (net * S) A := fun '(n, s) => let '(s', r) := f s in ((n, s'), r).

Fixpoint emit_all {S} (emit : emitter S) (recs : list ProxyRecord) : ST S (option gerror) :=
  match recs with
  | [] => mret None
  | rec :: recs => r ← emit rec; match r with Some e => mret (Some e) | None => emit_all emit recs end
  end.

(** ** [net.SplitHostPort] *)
Definition addrErr {A} (why : string) : result A := Err (ErrorString why).
Definition SplitHostPort (hostport : string) : result (string * string) :=
  match LastIndex hostport ":" with
  | None => addrErr "missing port in address"
  | Some i =>
      let host_part : result (string * nat * nat) :=
        match hostport with
        | String "["%char _ =>
            match Index hostport "]" with
            | None => addrErr "missing ']' in address"
            | Some close =>
                if (close + 1 =? String.length hostport)%nat then addrErr "missing port in address"
                else if (close + 1 =? i)%nat then Ok (stake (close - 1) (sdrop 1 hostport), 1, (close + 1))%nat
                else if HasPrefix (sdrop (close + 1) hostport) ":" then addrErr "too many colons in address"
                else addrErr "missing port in address"
            end
        | _ =>
            let host := stake i hostport in
            if Contains host ":" then addrErr "too many colons in address" else Ok (host, 0, 0)%nat
        end in
      '(host, j, k) ← host_part;
      if Contains (sdrop j hostport) "[" then addrErr "unexpected '[' in address"
      else if Contains (sdrop k hostport) "]" then addrErr "unexpected ']' in address"
      else Ok (host, sdrop (i + 1) hostport)
  end.

(** ** [fmt.Sscanf(s, "%d", &port)]: what follows the number is not read *)

(** White space before the number is skipped; a line break there is an error. *)
Fixpoint skip_space (fuel : nat) (s : string) : option string :=
  match fuel with
  | O => Some s
  | S fuel =>
      if HasPrefix s (bytes [10%nat]) then None
      else match first_match (fun p => strip_prefix p s) space_encodings with
           | Some rest => skip_space fuel rest
           | None => Some s
           end
  end.
Definition Sscanf_d (s : string) : option Z :=
  s ← skip_space (String.length s) s;
  let number (t : string) (max : Z) : option Z :=
    let '(v, ok) := ParseUint (span_digits t).1 max in if ok : bool then Some v else None in
  match s with
  | String "+"%char t => number t max_int64
  | String "-"%char t => v ← number t (max_int64 + 1); Some (- v)
  | _ => number s max_int64
  end.

(** ** [bufio.Scanner] over lines *)

Definition maxScanTokenSize : Z := 65536.
Definition ErrTooLong : gerror := ErrorString "bufio.Scanner: token too long".

(** The pieces between line feeds; nothing follows a final one.  [acc] is the
    line read so far. *)
Fixpoint split_lines (acc : string) (s : string) : list string :=
  match s with
  | EmptyString => if bool_decide (acc = "") then [] else [acc]
  | String c s =>
      if bool_decide (c = Ascii.ascii_of_nat 10) then acc :: split_lines "" s else split_lines (acc +:+ String c "") s
  end.
Definition dropCR (line : string) : string := TrimSuffix line (bytes [13%nat]).

(** The lines [Scan] gives and what [Err] then says.  A failing reader's last,
    unfinished line is given like any other; a line that does not fit the
    buffer ends the scan. *)
Fixpoint scan_from (raw : list string) (err : option gerror) : list string * option gerror :=
  match raw with
  | [] => ([], err)
  | line :: raw =>
      if maxScanTokenSize <=? slen line then ([], Some ErrTooLong)
      else let '(lines, e) := scan_from raw err in (dropCR line :: lines, e)
  end.
Definition scan_lines (body : stream) : list string * option gerror := scan_from (split_lines "" (st_data body)) (st_err body).

(** ** [json.Decoder] *)

Inductive token := ObjOpen | ObjClose | ArrOpen | ArrClose | TStr (s : string) | TScalar (v : json).
(** The stream behind its last token: it ends or fails, or there is text that is
    no token where one may stand. *)
Inductive stream_end := Cut (e : gerror) | Garbage (e : gerror).
Definition end_err (fin : stream_end) : gerror := match fin with Cut e | Garbage e => e end.

Definition More (toks : list token) (fin : stream_end) : bool :=
  match toks with
  | [] => match fin with Cut _ => false | Garbage _ => true end
  | ObjClose :: _ | ArrClose :: _ => false
  | _ => true
  end.
Definition Token (toks : list token) (fin : stream_end) : result (token * list token) :=
  match toks with [] => Err (end_err fin) | t :: toks => Ok (t, toks) end.

(** One value; the number of tokens bounds the nesting. *)
Fixpoint parse_value (fuel : nat) (toks : list token) {struct fuel} : option (json * list token) :=
  match fuel with
  | O => None
  | S fuel =>
      match toks with
      | TStr s :: toks => Some (JStr s, toks)
      | TScalar v :: toks => Some (v, toks)
      | ArrOpen :: toks => '(l, toks) ← parse_items fuel toks; Some (JArr l, toks)
      | ObjOpen :: toks => '(l, toks) ← parse_members fuel toks; Some (JObj l, toks)
      | _ => None
      end
  end
with parse_items (fuel : nat) (toks : list token) {struct fuel} : option (list json * list token) :=
  match fuel with
  | O => None
  | S fuel =>
      match toks with
      | ArrClose :: toks => Some ([], toks)
      | _ => '(v, toks) ← parse_value fuel toks; '(l, toks) ← parse_items fuel toks; Some (v :: l, toks)
      end
  end
with parse_members (fuel : nat) (toks : list token) {struct fuel} : option (list (string * json) * list token) :=
  match fuel with
  | O => None
  | S fuel =>
      match toks with
      | ObjClose :: toks => Some ([], toks)
      | TStr k :: toks => '(v, toks) ← parse_value fuel toks; '(l, toks) ← parse_members fuel toks; Some ((k, v) :: l, toks)
      | _ => None
      end
  end.
(** [Decode] into a raw value: an unfinished value is the stream's error. *)
Definition Decode (toks : list token) (fin : stream_end) : result (json * list token) :=
  match parse_value (2 * length toks) toks with Some r => Ok r | None => Err (end_err fin) end.

(** ** The records of the JSON lists *)

Section Json.
(** The tokens of a body, up to its end; [strconv.ParseFloat], whose result is
    the bits of the number; and [strings.ToLower]. *)
Context (env : netEnv) `{C : HTTPClient}.
Context (json_tokens : stream -> list token * stream_end) (ParseFloat : json -> option Z) (strings_ToLower : string -> string).

(** [x > 0] on the bits of a [float64]: the sign is clear, and it is neither
    zero nor a NaN. *)
Definition float_positive (bits : Z) : bool := (0 <? bits) && (bits <=? 0x7FF0000000000000).
Definition unless_zero (s : string) : option string := if bool_decide (s = "") then None else Some s.

Definition set_bool (old : bool) (v : json) : result bool :=
  match v with JBool b => Ok b | JNull => Ok old | _ => Err (ErrorString "json: cannot unmarshal") end.
Definition set_float (old : Z) (v : json) : result Z :=
  match v with
  | JNull => Ok old
  | _ => x ← set_float_ptr ParseFloat v; Ok (default old x)
  end.
(** A [[]string] field of a value that is decoded for the first time. *)
Fixpoint string_items (l : list json) : result (list string) :=
  match l with
  | [] => Ok []
  | v :: l => s ← set_string "" v; rest ← string_items l; Ok (s :: rest)
  end.
Definition set_strings (v : json) : result (list string) :=
  match v with
  | JArr l => string_items l
  | JNull => Ok []
  | _ => Err (ErrorString "json: cannot unmarshal")
  end.

(** A discovered record before its optional columns. *)
Definition new_record (protocol ip : string) (port : Z) (source : string) (now : Z) : ProxyRecord :=
  zeroProxyRecord{{ pr_Protocol := protocol; pr_IP := ip; pr_Port := port; pr_FirstSeenAt := now; pr_Source := source;
    pr_Status := ProxyStatusInactive }}.
Definition lower_or_http (s : string) : string := let p := strings_ToLower s in if bool_decide (p = "") then "http" else p.

(** *** geonode *)

Record geonodeProxy := mkGeonodeProxy {
  gp_IP : string; gp_Port : string; gp_Protocols : list string; gp_AnonymityLevel : string; gp_Country : string; gp_UpTime : Z;
}.
Definition zeroGeonodeProxy : geonodeProxy := mkGeonodeProxy "" "" [] "" "" 0.
Record geonodePage := mkGeonodePage { ga_Data : list geonodeProxy; ga_Total : Z; ga_Page : Z; ga_Limit : Z }.
Definition zeroGeonodePage : geonodePage := mkGeonodePage [] 0 0 0.

Definition geonodeProxy_field (key : string) : option (geonodeProxy -> json -> result geonodeProxy) :=
  if bool_decide (key = "ip") then Some (fun p v => x ← set_string (gp_IP p) v; mret (p{{ gp_IP := x }}))
  else if bool_decide (key = "port") then Some (fun p v => x ← set_string (gp_Port p) v; mret (p{{ gp_Port := x }}))
  else if bool_decide (key = "protocols") then Some (fun p v => x ← set_strings v; mret (p{{ gp_Protocols := x }}))
  else if bool_decide (key = "anonymitylevel") then Some (fun p v => x ← set_string (gp_AnonymityLevel p) v; mret (p{{ gp_AnonymityLevel := x }}))
  else if bool_decide (key = "country") then Some (fun p v => x ← set_string (gp_Country p) v; mret (p{{ gp_Country := x }}))
  else if bool_decide (key = "uptime") then Some (fun p v => x ← set_float (gp_UpTime p) v; mret (p{{ gp_UpTime := x }}))
  else None.
Fixpoint geonode_items (l : list json) : result (list geonodeProxy) :=
  match l with
  | [] => Ok []
  | v :: l => p ← unmarshal_struct geonodeProxy_field zeroGeonodeProxy v; rest ← geonode_items l; Ok (p :: rest)
  end.
Definition set_geonode_data (v : json) : result (list geonodeProxy) :=
  match v with JArr l => geonode_items l | JNull => Ok [] | _ => Err (ErrorString "json: cannot unmarshal") end.
Definition geonodePage_field (key : string) : option (geonodePage -> json -> result geonodePage) :=
  if bool_decide (key = "data") then Some (fun p v => x ← set_geonode_data v; mret (p{{ ga_Data := x }}))
  else if bool_decide (key = "total") then Some (fun p v => x ← set_int (ga_Total p) v; mret (p{{ ga_Total := x }}))
  else if bool_decide (key = "page") then Some (fun p v => x ← set_int (ga_Page p) v; mret (p{{ ga_Page := x }}))
  else if bool_decide (key = "limit") then Some (fun p v => x ← set_int (ga_Limit p) v; mret (p{{ ga_Limit := x }}))
  else None.

Definition geonode_record (now : Z) (p : geonodeProxy) (port : Z) (proto : string) : ProxyRecord :=
  (new_record proto (gp_IP p) port "geonode" now){{ pr_Country := unless_zero (gp_Country p);
    pr_Anonymity := unless_zero (gp_AnonymityLevel p);
    pr_UptimePercent := if float_positive (gp_UpTime p) then Some (gp_UpTime p) else None }}.
(** The records of a page: one per protocol of each row with a port. *)
Definition geonode_records (now : Z) (data : list geonodeProxy) : list ProxyRecord :=
  data ≫= (fun p => match Atoi (gp_Port p) with Some port => geonode_record now p port <$> gp_Protocols p | None => [] end).

Definition geonode_params (page limit : Z) : params :=
  [("limit", pretty limit); ("page", pretty page); ("sort_by", "lastChecked"); ("sort_type", "desc")].
Definition accept_json : params := [("Accept", "application/json")].

Definition geonode_decode (body : stream) : result geonodePage :=
  '(v, _) ← Decode (json_tokens body).1 (json_tokens body).2;
  unmarshal_struct geonodePage_field zeroGeonodePage v.
(** The callback of a page: it sets [pageData] and [pageTotal]. *)
Definition geonode_consume {S} (status : Z) (body : stream) : ST (net * (S * (list geonodeProxy * Z))) (option gerror) :=
  fun '(n, (s, vars)) =>
  if negb (status =? 200) then ((n, (s, vars)), Some (ErrorString "geonode: unexpected status"))
  else
    match geonode_decode body with
    | Err e => ((n, (s, vars)), Some (ErrWrap "geonode decode page" e))
    | Ok p => ((n, (s, (ga_Data p, ga_Total p))), None)
    end.
(** [pageData] and [pageTotal] start empty for every page. *)
Definition geonode_fetch {S} (baseURL : string) (page limit : Z) : ST (net * S) (option gerror * (list geonodeProxy * Z)) :=
  fun '(n, s) =>
  let '((n, (s, vars)), err) := GetStream baseURL (geonode_params page limit) accept_json geonode_consume (n, (s, ([], 0))) in
  ((n, s), (err, vars)).

(** The page loop; [None] when [fuel] pages were not enough. *)
Fixpoint geonode_loop {S} (fuel : nat) (baseURL : string) (page : Z) (emit : emitter S) : ST (net * S) (option (option gerror)) :=
  match fuel with
  | O => mret None
  | Datatypes.S fuel =>
      let limit := 100 in
      '(err, (pageData, pageTotal)) ← geonode_fetch baseURL page limit;
      match err with
      | Some e => mret (Some (Some (ErrWrap "geonode fetch page" e)))
      | None =>
          now ← now_utc env;
          r ← on_net (emit_all emit (geonode_records now pageData));
          match r with
          | Some e => mret (Some (Some e))
          | None =>
              if (Z.of_nat (length pageData) <? limit) || (pageTotal <=? i64 (page * limit)) then mret (Some None)
              else geonode_loop fuel baseURL (i64 (page + 1)) emit
          end
      end
  end.
(** [FetchProxies] within [fuel] pages. *)
Definition geonode_FetchProxies {S} (fuel : nat) (baseURL : string) (emit : emitter S) : ST (net * S) (option gerror) :=
  r ← geonode_loop fuel baseURL 1 emit;
  mret (default (Some (ErrorString "unfinished")) r).
Definition geonode_apiURL : string := "https://proxylist.geonode.com/api/proxy-list".
Definition geonode_New (baseURL : string) : string := if bool_decide (baseURL = "") then geonode_apiURL else baseURL.

(** *** Lists that are read element by element (pubproxy, proxyscrape)

    Both clients walk the top-level object to the field [key], decode the
    array's elements one at a time with [each] (an element may be skipped),
    and read the object to its end.  The number of tokens bounds each loop. *)

(** The elements, up to the closing bracket. *)
Fixpoint stream_elements {S} (fuel : nat) (each : json -> result (option ProxyRecord)) (emit : emitter S)
    (toks : list token) (fin : stream_end) : ST S (result (list token)) :=
  match fuel with
  | O => mret (Ok toks)
  | Datatypes.S fuel =>
      if More toks fin then
        match Decode toks fin with
        | Err e => mret (Err (ErrWrap "decode proxy" e))
        | Ok (v, toks) =>
            match each v with
            | Err e => mret (Err (ErrWrap "decode proxy" e))
            | Ok None => stream_elements fuel each emit toks fin
            | Ok (Some rec) =>
                r ← emit rec;
                match r with
                | Some e => mret (Err e)
                | None => stream_elements fuel each emit toks fin
                end
            end
        end
      else mret (Ok toks)
  end.
(** The fields behind the array, and the closing brace. *)
Fixpoint skip_remaining (fuel : nat) (toks : list token) (fin : stream_end) : option gerror :=
  let close := match Token toks fin with Err e => Some (ErrWrap "close object" e) | Ok _ => None end in
  match fuel with
  | O => close
  | S fuel =>
      if More toks fin then
        match Token toks fin with
        | Err e => Some (ErrWrap "skip remaining key" e)
        | Ok (_, toks) =>
            match Decode toks fin with
            | Err e => Some (ErrWrap "skip remaining value" e)
            | Ok (_, toks) => skip_remaining fuel toks fin
            end
        end
      else close
  end.
(** From the field's value on. *)
Definition stream_field {S} (each : json -> result (option ProxyRecord)) (emit : emitter S) (toks : list token) (fin : stream_end) :
    ST S (option gerror) :=
  match Token toks fin with
  | Err e => mret (Some (ErrWrap "array" e))
  | Ok (ArrOpen, toks) =>
      r ← stream_elements (length toks + 1) each emit toks fin;
      match r with
      | Err e => mret (Some e)
      | Ok toks =>
          match Token toks fin with
          | Err e => mret (Some (ErrWrap "close array" e))
          | Ok (_, toks) => mret (skip_remaining (length toks + 1) toks fin)
          end
      end
  | Ok _ => mret (Some (ErrorString "expected array"))
  end.
(** The fields before the array. *)
Fixpoint find_field {S} (fuel : nat) (key : string) (each : json -> result (option ProxyRecord)) (emit : emitter S)
    (toks : list token) (fin : stream_end) : ST S (option gerror) :=
  match fuel with
  | O => mret None
  | Datatypes.S fuel =>
      if More toks fin then
        match Token toks fin with
        | Err e => mret (Some (ErrWrap "decode key" e))
        | Ok (TStr k, toks) =>
            if bool_decide (k = key) then stream_field each emit toks fin
            else match Decode toks fin with
                 | Err e => mret (Some (ErrWrap "skip field" e))
                 | Ok (_, toks) => find_field fuel key each emit toks fin
                 end
        | Ok (_, toks) => find_field fuel key each emit toks fin
        end
      else mret None
  end.
Definition stream_object {S} (key : string) (each : json -> result (option ProxyRecord)) (emit : emitter S)
    (toks : list token) (fin : stream_end) : ST S (option gerror) :=
  match Token toks fin with
  | Err e => mret (Some (ErrWrap "decode" e))
  | Ok (ObjOpen, toks) => find_field (length toks + 1) key each emit toks fin
  | Ok _ => mret (Some (ErrorString "decode: expected object"))
  end.
(** The callback of the response. *)
Definition stream_consume {S} (key : string) (each : Z -> json -> result (option ProxyRecord)) (emit : emitter S)
    (status : Z) (body : stream) : ST (net * S) (option gerror) :=
  if negb (status =? 200) then mret (Some (ErrorString "unexpected status"))
  else
    now ← now_utc env;
    on_net (stream_object key (each now) emit (json_tokens body).1 (json_tokens body).2).

(** *** pubproxy *)

Record pubproxyProxy := mkPubproxyProxy {
  pp_IP : string; pp_Port : string; pp_Type : string; pp_Country : string; pp_ProxyLevel : string; pp_Speed : string;
}.
Definition pubproxyProxy_field (key : string) : option (pubproxyProxy -> json -> result pubproxyProxy) :=
  if bool_decide (key = "ip") then Some (fun p v => x ← set_string (pp_IP p) v; mret (p{{ pp_IP := x }}))
  else if bool_decide (key = "port") then Some (fun p v => x ← set_string (pp_Port p) v; mret (p{{ pp_Port := x }}))
  else if bool_decide (key = "type") then Some (fun p v => x ← set_string (pp_Type p) v; mret (p{{ pp_Type := x }}))
  else if bool_decide (key = "country") then Some (fun p v => x ← set_string (pp_Country p) v; mret (p{{ pp_Country := x }}))
  else if bool_decide (key = "proxy_level") then Some (fun p v => x ← set_string (pp_ProxyLevel p) v; mret (p{{ pp_ProxyLevel := x }}))
  else if bool_decide (key = "speed") then Some (fun p v => x ← set_string (pp_Speed p) v; mret (p{{ pp_Speed := x }}))
  else None.
Definition pubproxy_each (now : Z) (v : json) : result (option ProxyRecord) :=
  p ← unmarshal_struct pubproxyProxy_field (mkPubproxyProxy "" "" "" "" "" "") v;
  mret (port ← Sscanf_d (pp_Port p);
        Some ((new_record (lower_or_http (pp_Type p)) (pp_IP p) port "pubproxy" now){{
          pr_Country := unless_zero (pp_Country p); pr_Anonymity := unless_zero (pp_ProxyLevel p) }})).
Definition pubproxy_defaultURL : string := "http://pubproxy.com/api/proxy".
Definition pubproxy_New (baseURL : string) : string := if bool_decide (baseURL = "") then pubproxy_defaultURL else baseURL.
Definition pubproxy_FetchProxies {S} (baseURL : string) (emit : emitter S) : ST (net * S) (option gerror) :=
  GetStream baseURL [("format", "json"); ("limit", "5")] accept_json (stream_consume "data" pubproxy_each emit).

(** *** proxyscrape *)

Record proxyscrapeProxy := mkProxyscrapeProxy {
  ps_Alive : bool; ps_IP : string; ps_Port : Z; ps_Protocol : string; ps_Country : string; ps_Anonymity : string; ps_Uptime : Z; ps_Timeout : Z;
}.
Definition proxyscrapeProxy_field (key : string) : option (proxyscrapeProxy -> json -> result proxyscrapeProxy) :=
  if bool_decide (key = "alive") then Some (fun p v => x ← set_bool (ps_Alive p) v; mret (p{{ ps_Alive := x }}))
  else if bool_decide (key = "ip") then Some (fun p v => x ← set_string (ps_IP p) v; mret (p{{ ps_IP := x }}))
  else if bool_decide (key = "port") then Some (fun p v => x ← set_int (ps_Port p) v; mret (p{{ ps_Port := x }}))
  else if bool_decide (key = "protocol") then Some (fun p v => x ← set_string (ps_Protocol p) v; mret (p{{ ps_Protocol := x }}))
  else if bool_decide (key = "country_code") then Some (fun p v => x ← set_string (ps_Country p) v; mret (p{{ ps_Country := x }}))
  else if bool_decide (key = "anonymity") then Some (fun p v => x ← set_string (ps_Anonymity p) v; mret (p{{ ps_Anonymity := x }}))
  else if bool_decide (key = "uptime") then Some (fun p v => x ← set_float (ps_Uptime p) v; mret (p{{ ps_Uptime := x }}))
  else if bool_decide (key = "timeout") then Some (fun p v => x ← set_float (ps_Timeout p) v; mret (p{{ ps_Timeout := x }}))
  else None.
Definition proxyscrape_each (now : Z) (v : json) : result (option ProxyRecord) :=
  p ← unmarshal_struct proxyscrapeProxy_field (mkProxyscrapeProxy false "" 0 "" "" "" 0 0) v;
  mret (if ps_Alive p then
          Some ((new_record (lower_or_http (ps_Protocol p)) (ps_IP p) (ps_Port p) "proxyscrape" now){{
            pr_Country := unless_zero (ps_Country p); pr_Anonymity := unless_zero (ps_Anonymity p);
            pr_UptimePercent := if float_positive (ps_Uptime p) then Some (ps_Uptime p) else None }})
        else None).
Definition proxyscrape_apiURL : string := "https://api.proxyscrape.com/v4/free-proxy-list/get".
Definition proxyscrape_New (baseURL : string) : string := if bool_decide (baseURL = "") then proxyscrape_apiURL else baseURL.
Definition proxyscrape_FetchProxies {S} (baseURL : string) (emit : emitter S) : ST (net * S) (option gerror) :=
  GetStream baseURL [("request", "display_proxies"); ("proxy_format", "protocolipport"); ("format", "json"); ("timeout", "10000")]
    accept_json (stream_consume "proxies" proxyscrape_each emit).
End Json.

(** ** textproxy *)

Section Text.
Context (env : netEnv) `{C : HTTPClient} (name : string).

Definition textproxy_line (raw : string) : option (string * Z) :=
  let line := TrimSpace raw in
  if bool_decide (line = "") then None
  else
    let line := match Index line "://" with Some idx => sdrop (idx + 3) line | None => line end in
    match SplitHostPort line with
    | Err _ => None
    | Ok (host, portStr) => port ← Sscanf_d portStr; Some (host, port)
    end.

(** The callback's loop; the second state is [*fetched]. *)
Fixpoint textproxy_lines {S} (protocol : string) (now : Z) (emit : emitter S) (lines : list string) : ST (S * Z) (option gerror) :=
  match lines with
  | [] => mret None
  | raw :: lines =>
      match textproxy_line raw with
      | None => textproxy_lines protocol now emit lines
      | Some (host, port) => fun '(s, fetched) =>
          let '(s, r) := emit (new_record protocol host port name now) s in
          match r with
          | Some e => ((s, fetched), Some (ErrJoin [ErrSentinel ErrEmitFailed; e]))
          | None => textproxy_lines protocol now emit lines (s, fetched + 1)
          end
      end
  end.
Definition textproxy_consume {S} (protocol : string) (emit : emitter S) (status : Z) (body : stream) : ST (net * (S * Z)) (option gerror) :=
  if negb (status =? 200) then mret (Some (ErrorString "unexpected status"))
  else
    now ← now_utc env;
    r ← on_net (textproxy_lines protocol now emit (scan_lines body).1);
    match r with Some e => mret (Some e) | None => mret (scan_lines body).2 end.
Definition fetchFromURL {S} (url protocol : string) (emit : emitter S) : ST (net * (S * Z)) (option gerror) :=
  GetStream url [] [] (textproxy_consume protocol emit).

(** The sources in the order the map is walked. *)
Fixpoint textproxy_sources {S} (urls : list (string * string)) (emit : emitter S) : ST (net * (S * Z)) (option gerror) :=
  match urls with
  | [] => fun '(n, (s, fetched)) =>
      ((n, (s, fetched)), if fetched =? 0 then Some (ErrorString "no proxies fetched from any source") else None)
  | (protocol, url) :: urls =>
      err ← fetchFromURL url protocol emit;
      match err with
      | Some e => if errors_Is e ErrEmitFailed then mret (Some e) else textproxy_sources urls emit
      | None => textproxy_sources urls emit
      end
  end.
Definition textproxy_FetchProxies {S} (urls : list (string * string)) (emit : emitter S) : ST (net * S) (option gerror) :=
  fun '(n, s) => let '((n, (s, _)), r) := textproxy_sources urls emit (n, (s, 0)) in ((n, s), r).
End Text.
