(* ===== verification/ProvidersFacts.v ===== *)
(** * What the providers promise discovery

    The contract of [ProxyProvider.FetchProxies]: the network alone decides
    which records are emitted and how the fetch ends; a refused record stops it
    with the refusal.  All four providers keep it over any HTTP client that
    keeps its own contract. *)
From Stdlib Require Import Ascii.
From stdpp Require Import pretty.
From S2P Require Import Prelude GoErrors GoStrings Contract ProxyStore Payloads LodestonePage Lodestone Dial Checks Discovery HttpClient HttpClientFacts Providers.

(** ** The contract *)

(** The refusal [e] as a provider passes it on. *)
Definition carries (e' e : gerror) : Prop := forall t, t <> ErrEmitFailed -> errors_Is e' t = errors_Is e t.

(** In the states it goes through, no refusal asks the client for another
    proxy. *)
Definition polite {S} (I : S -> Prop) (emit : emitter S) : Prop :=
  forall rec s, I s -> I (emit rec s).1 /\ forall e, (emit rec s).2 = Some e -> rotates e = false.

Definition fetcher : Type := forall S : Type, emitter S -> ST (net * S) (option gerror).

(** From [n], the fetch emits [recs]; if none is refused it ends with [own] at
    [n']. *)
Definition yields (f : fetcher) (n : net) (recs : list ProxyRecord) (n' : net) (own : option gerror) : Prop :=
  forall S (emit : emitter S) I s, polite I emit -> I s ->
  match emit_all emit recs s with
  | (s', None) => f S emit (n, s) = ((n', s'), own)
  | (s', Some e) => exists n'' e', f S emit (n, s) = ((n'', s'), Some e') /\ carries e' e
  end.

Definition own_foreign (own : option gerror) : Prop := match own with Some e => foreign e | None => True end.

Class ProxyProviderLaw (P : ProxyProvider) : Prop :=
  fetch_yields : forall n, exists recs n' own, yields (fun S emit => FetchProxies (S := S) emit) n recs n' own /\ own_foreign own.

Lemma emit_all_app {S} (emit : emitter S) l1 l2 : forall s,
  emit_all emit (l1 ++ l2) s = let '(s', r) := emit_all emit l1 s in match r with None => emit_all emit l2 s' | Some e => (s', Some e) end.
Proof.
  induction l1 as [|rec l1 IH]; intros s; cbn [app emit_all]; [done|]. rewrite !ST_bind_eq.
  destruct (emit rec s) as [s' [e|]]; cbn [fst snd]; [done|]. apply IH.
Qed.

(** ** Programs that emit a fixed list *)

Section Plays.
Context {B : Type} (fail : gerror -> B).

Definition plays (f : forall S, emitter S -> ST S B) (recs : list ProxyRecord) (own : B) : Prop :=
  forall S (emit : emitter S) s, f S emit s = let '(s', r) := emit_all emit recs s in (s', match r with None => own | Some e => fail e end).

Lemma plays_ret b : plays (fun S emit => mret b) [] b.
Proof. done. Qed.
Lemma plays_emit rec f recs own : plays f recs own ->
  plays (fun S emit => r ← emit rec; match r with Some e => mret (fail e) | None => f S emit end) (rec :: recs) own.
Proof.
  intros Hf S emit s. cbn [emit_all]. rewrite !ST_bind_eq. destruct (emit rec s) as [s' [e|]]; cbn [fst snd]; [done|].
  apply Hf.
Qed.
End Plays.

Lemma plays_then {A B} (fail : gerror -> B) (g : forall S, emitter S -> ST S (result A)) (h : A -> B) recs r :
  plays Err g recs r ->
  plays fail (fun S emit => x ← g S emit; match x with Err e => mret (fail e) | Ok a => mret (h a) end) recs
    (match r with Err e => fail e | Ok a => h a end).
Proof.
  intros Hg S emit s. rewrite ST_bind_eq, Hg. destruct (emit_all emit recs s) as [s' [e|]]; cbn [fst snd]; [done|]. by destruct r.
Qed.

(** ** Errors of the decoders *)

Lemma alien_string m : alien (ErrorString m).
Proof. split; [apply foreign_string|done]. Qed.
Lemma alien_wrap m e : alien e -> alien (ErrWrap m e).
Proof. done. Qed.
#[export] Hint Resolve alien_string alien_wrap : foreign.

(** Decoding fails with texts of the library only. *)
Definition texts_only {A} (r : result A) : Prop := match r with Err (ErrorString _) | Ok _ => True | Err _ => False end.
Lemma texts_bind {A B} (r : result A) (f : A -> result B) : texts_only r -> (forall a, texts_only (f a)) -> texts_only (r ≫= f).
Proof. destruct r; cbn; auto. Qed.
Lemma texts_alien {A} (r : result A) e : texts_only r -> r = Err e -> alien e.
Proof. intros H ->. destruct e; try done. apply alien_string. Qed.
Create HintDb texts.
#[export] Hint Resolve texts_bind : texts.

Lemma texts_unmarshal {A} (field : string -> option (A -> json -> result A)) zero v :
  (forall key set a x, field key = Some set -> texts_only (set a x)) -> texts_only (unmarshal_struct field zero v).
Proof.
  intros Hset. unfold unmarshal_struct. destruct v; try done.
  cut (forall r : result A, texts_only r -> texts_only (fold_left (fun r kv => match r, field (ToLower kv.1) with
          | Ok a, Some set => set a kv.2 | _, _ => r end) l r)); [intros H; by apply H|].
  induction l as [|kv l IH]; intros r Hr; [done|]. cbn [fold_left]. apply IH. destruct r; [|done].
  destruct (field _) eqn:Hf; [|done]. by eapply Hset.
Qed.

Section Decoding.
Context (ParseFloat : json -> option Z).
Lemma texts_string old v : texts_only (set_string old v).
Proof. by destruct v. Qed.
Lemma texts_int old v : texts_only (set_int old v).
Proof. destruct v; try done. unfold set_int. by destruct (_ && _). Qed.
Lemma texts_bool old v : texts_only (set_bool old v).
Proof. by destruct v. Qed.
Lemma texts_float old v : texts_only (set_float ParseFloat old v).
Proof. destruct v; try done; unfold set_float, set_float_ptr; by destruct (ParseFloat _). Qed.
Lemma texts_strings v : texts_only (set_strings v).
Proof.
  destruct v; try done. cbn. induction l as [|v l IH]; [done|]. cbn. apply texts_bind; [apply texts_string|]. intros s.
  by apply texts_bind.
Qed.
End Decoding.
#[export] Hint Resolve texts_string texts_int texts_bool texts_float texts_strings : texts.

(** A field table: every setter is one of the above. *)
Ltac texts_fields f :=
  let H := fresh in
  intros ? ? ? ? H; unfold f in H; repeat (case_bool_decide; [injection H as <-; apply texts_bind; [auto with texts|done]|]); discriminate H.

(** ** Lists that are read element by element *)

Definition own_alien (own : option gerror) : Prop := match own with Some e => alien e | None => True end.
Definition result_alien {A} (r : result A) : Prop := match r with Err e => alien e | Ok _ => True end.

Lemma Decode_alien toks fin : alien (end_err fin) -> result_alien (Decode toks fin).
Proof. intros H. unfold Decode. by destruct (parse_value _ _). Qed.

Section Streams.
Context (each : json -> result (option ProxyRecord)) (fin : stream_end).
Context (Heach : forall v, texts_only (each v)) (Hfin : alien (end_err fin)).

Lemma stream_elements_plays fuel : forall toks,
  exists recs r, plays Err (fun S emit => stream_elements fuel each emit toks fin) recs r /\ result_alien r.
Proof.
  induction fuel as [|fuel IH]; intros toks; [by exists [], (Ok toks)|]. cbn [stream_elements].
  destruct (More toks fin); [|by exists [], (Ok toks)].
  pose proof (Decode_alien toks fin Hfin) as Hd. destruct (Decode toks fin) as [[v toks']|e]; [|by exists [], (Err (ErrWrap "decode proxy" e))].
  pose proof (Heach v) as Hv. destruct (each v) as [[rec|]|e] eqn:He.
  - destruct (IH toks') as (recs & r & Hp & Hr). exists (rec :: recs), r. split; [|done]. by apply plays_emit.
  - apply IH.
  - exists [], (Err (ErrWrap "decode proxy" e)). split; [done|]. cbn. apply alien_wrap. by eapply texts_alien.
Qed.

Lemma skip_remaining_alien fuel : forall toks, own_alien (skip_remaining fuel toks fin).
Proof.
  induction fuel as [|fuel IH]; intros toks; cbn [skip_remaining].
  - destruct toks; cbn; auto with foreign.
  - destruct (More toks fin); [|destruct toks; cbn; auto with foreign].
    destruct toks as [|t toks]; cbn; [auto with foreign|]. pose proof (Decode_alien toks fin Hfin) as Hd.
    destruct (Decode toks fin) as [[v toks']|e]; [apply IH|]. cbn. auto with foreign.
Qed.

Lemma stream_field_plays toks :
  exists recs own, plays Some (fun S emit => stream_field each emit toks fin) recs own /\ own_alien own.
Proof.
  unfold stream_field. destruct toks as [|t toks]; cbn [Token].
  { exists [], (Some (ErrWrap "array" (end_err fin))). split; [done|]. cbn. auto with foreign. }
  destruct t; try (exists [], (Some (ErrorString "expected array")); split; [done|]; cbn; auto with foreign).
  destruct (stream_elements_plays (length toks + 1) toks) as (recs & r & Hp & Hr).
  set (h := fun toks' => match Token toks' fin with Err e => Some (ErrWrap "close array" e) | Ok (_, toks') => skip_remaining (length toks' + 1) toks' fin end).
  exists recs, (match r with Err e => Some e | Ok toks' => h toks' end). split.
  - intros S emit s. etransitivity; [|apply (plays_then Some _ h _ _ Hp)]. rewrite !ST_bind_eq.
    destruct (stream_elements _ _ _ _ _ s) as [s' [toks'|e]]; cbn [fst snd]; [|done]. unfold h. by destruct (Token toks' fin) as [[]|].
  - destruct r as [toks'|e]; [|done]. unfold h. destruct toks' as [|t toks']; cbn; [auto with foreign|]. apply skip_remaining_alien.
Qed.

Lemma find_field_plays key fuel : forall toks,
  exists recs own, plays Some (fun S emit => find_field fuel key each emit toks fin) recs own /\ own_alien own.
Proof.
  induction fuel as [|fuel IH]; intros toks; [by exists [], None|]. cbn [find_field].
  destruct (More toks fin); [|by exists [], None]. destruct toks as [|t toks]; cbn [Token].
  { exists [], (Some (ErrWrap "decode key" (end_err fin))). split; [done|]. cbn. auto with foreign. }
  destruct t; try apply IH. destruct (bool_decide _); [apply stream_field_plays|].
  pose proof (Decode_alien toks fin Hfin) as Hd. destruct (Decode toks fin) as [[v toks']|e]; [apply IH|].
  exists [], (Some (ErrWrap "skip field" e)). split; [done|]. cbn. auto with foreign.
Qed.

Lemma stream_object_plays key toks :
  exists recs own, plays Some (fun S emit => stream_object key each emit toks fin) recs own /\ own_alien own.
Proof.
  unfold stream_object. destruct toks as [|t toks]; cbn [Token].
  { exists [], (Some (ErrWrap "decode" (end_err fin))). split; [done|]. cbn. auto with foreign. }
  destruct t; try (exists [], (Some (ErrorString "decode: expected object")); split; [done|]; cbn; auto with foreign).
  apply find_field_plays.
Qed.
End Streams.

(** ** Fetching with a callback that emits *)

Section Fetch.
Context (env : netEnv) `{C : HTTPClient} {HC : HTTPClientLaw C}.

(** A callback whose records and outcome depend on the response only. *)
Definition callback : Type := forall S, emitter S -> Z -> stream -> ST (net * S) (option gerror).
Definition callback_plays (consume : callback) : Prop := forall n status body, body_ok body ->
  exists recs n' own, own_alien own /\ forall S (emit : emitter S) s,
    consume S emit status body (n, s) = let '(s', r) := emit_all emit recs s in ((n', s'), match r with None => own | Some e => Some e end).

Lemma emit_all_polite {S} (emit : emitter S) I recs : forall s, polite I emit -> I s ->
  I (emit_all emit recs s).1 /\ forall e, (emit_all emit recs s).2 = Some e -> rotates e = false.
Proof.
  induction recs as [|rec recs IH]; intros s Hp Hs; cbn [emit_all]; [done|]. rewrite ST_bind_eq.
  destruct (Hp rec s Hs) as [Hs' He]. destruct (emit rec s) as [s' [e'|]]; cbn [fst snd] in *; [|by apply IH].
  split; [done|]. intros e [= <-]. by apply He.
Qed.

(** One request; the refusal is returned as it is. *)
Lemma stream_fetch (consume : callback) url q h n : callback_plays consume ->
  exists recs n' own, own_foreign own /\ forall S (emit : emitter S) I s consume', polite I emit -> I s ->
    (forall status body w, consume' status body w = consume S emit status body w) -> exists n'',
    GetStream url q h consume' (n, s) =
      let '(s', r) := emit_all emit recs s in match r with None => ((n', s'), own) | Some e => ((n'', s'), Some e) end.
Proof.
  intros Hplays. destruct (stream_once url q h n) as ([n1 e|n1 status body] & Ha & Hok).
  - exists [], n1, (Some e). split; [done|]. intros S emit I s consume' _ _ _. exists n1. exact (Ha S consume' s).
  - destruct (Hplays n1 status body Hok) as (recs & n' & own & Hown & Hrun). exists recs, n', own.
    split; [destruct own; [by destruct Hown|done]|]. intros S emit I s consume' Hp Hs Heq. exists n'.
    specialize (Ha S consume' s). cbv beta in Ha. rewrite Ha.
    + rewrite Heq, Hrun. by destruct (emit_all emit recs s) as [s' [e|]].
    + rewrite Heq, Hrun. intros e. destruct (emit_all_polite emit I recs s Hp Hs) as [_ He].
      destruct (emit_all emit recs s) as [s' [e'|]]; cbn; [intros [= ->]; by apply He|].
      intros ->. by destruct Hown.
Qed.

Lemma stream_fetch_yields (consume : callback) url q h n : callback_plays consume ->
  exists recs n' own, yields (fun S emit => GetStream url q h (consume S emit)) n recs n' own /\ own_foreign own.
Proof.
  intros Hplays. destruct (stream_fetch consume url q h n Hplays) as (recs & n' & own & Hown & Hrun). exists recs, n', own. split; [|done].
  intros S emit I s Hp Hs. destruct (Hrun S emit I s (consume S emit) Hp Hs (fun _ _ _ => eq_refl)) as (n'' & Hr).
  destruct (emit_all emit recs s) as [s' [e|]]; [|done]. by exists n'', e.
Qed.
End Fetch.

(** ** The providers *)

Section Instances.
Context (env : netEnv) `{C : HTTPClient} {HC : HTTPClientLaw C}.
Context (json_tokens : stream -> list token * stream_end) (ParseFloat : json -> option Z) (strings_ToLower : string -> string).
(** The lexer's errors are its own, or the body's. *)
Context (Htokens : forall body, body_ok body -> alien (end_err (json_tokens body).2)).

Lemma stream_consume_plays key each : (forall now v, texts_only (each now v)) ->
  callback_plays (fun S emit => stream_consume env json_tokens key each emit).
Proof.
  intros Heach n status body Hb. unfold stream_consume. destruct (negb (status =? 200)).
  { exists [], n, (Some (ErrorString "unexpected status")). split; [apply alien_string|done]. }
  destruct (stream_object_plays (each (ne_clock env (n_ticks n))) (json_tokens body).2 (Heach _) (Htokens body Hb) key (json_tokens body).1)
    as (recs & own & Hp & Hown).
  exists recs, (n{{ n_ticks := S (n_ticks n) }}), own. split; [done|]. intros S emit s. rewrite ST_bind_eq. cbn [fst snd now_utc on_net].
  rewrite Hp. by destruct (emit_all emit recs s).
Qed.

Lemma pubproxy_texts now v : texts_only (pubproxy_each strings_ToLower now v).
Proof. apply texts_bind; [|done]. apply texts_unmarshal. texts_fields pubproxyProxy_field. Qed.
Lemma proxyscrape_texts now v : texts_only (proxyscrape_each ParseFloat strings_ToLower now v).
Proof. apply texts_bind; [|done]. apply texts_unmarshal. texts_fields proxyscrapeProxy_field. Qed.

Definition pubproxy (baseURL : string) : ProxyProvider :=
  {| FetchProxies S := pubproxy_FetchProxies env json_tokens strings_ToLower (pubproxy_New baseURL) |}.
Definition proxyscrape (baseURL : string) : ProxyProvider :=
  {| FetchProxies S := proxyscrape_FetchProxies env json_tokens ParseFloat strings_ToLower (proxyscrape_New baseURL) |}.

#[export] Instance pubproxy_law baseURL : ProxyProviderLaw (pubproxy baseURL).
Proof. intros n. apply (stream_fetch_yields (fun S emit => stream_consume env json_tokens "data" _ emit)), stream_consume_plays, pubproxy_texts. Qed.
#[export] Instance proxyscrape_law baseURL : ProxyProviderLaw (proxyscrape baseURL).
Proof. intros n. apply (stream_fetch_yields (fun S emit => stream_consume env json_tokens "proxies" _ emit)), stream_consume_plays, proxyscrape_texts. Qed.

(** *** textproxy: the callback counts and marks the refusals *)

Definition counted {S} (emit : emitter S) : emitter (S * Z) := fun rec '(s, fetched) =>
  let '(s', r) := emit rec s in
  match r with
  | None => ((s', fetched + 1), None)
  | Some e => ((s', fetched), Some (ErrJoin [ErrSentinel ErrEmitFailed; e]))
  end.

Lemma counted_eq {S} (emit : emitter S) rec s k : counted emit rec (s, k) =
  match (emit rec s).2 with
  | None => (((emit rec s).1, k + 1), None)
  | Some e => (((emit rec s).1, k), Some (ErrJoin [ErrSentinel ErrEmitFailed; e]))
  end.
Proof. unfold counted. by destruct (emit rec s) as [s' [e|]]. Qed.

Lemma counted_polite {S} (emit : emitter S) I : polite I emit -> polite (fun sk => I sk.1) (counted emit).
Proof.
  intros Hp rec [s k] Hs. rewrite counted_eq. destruct (Hp rec s Hs) as [Hs' He]. destruct (emit rec s) as [s' [e'|]]; cbn in *; [|done].
  split; [done|]. intros e [= <-]. cbn. by rewrite (He e' eq_refl).
Qed.

(** Counting and marking leave the callback's own run alone. *)
Lemma counted_run {S} (emit : emitter S) recs : forall s k,
  match emit_all emit recs s with
  | (s', None) => emit_all (counted emit) recs (s, k) = ((s', k + Z.of_nat (length recs)), None)
  | (s', Some e) => exists k', emit_all (counted emit) recs (s, k) = ((s', k'), Some (ErrJoin [ErrSentinel ErrEmitFailed; e]))
  end.
Proof.
  induction recs as [|rec recs IH]; intros s k; cbn [emit_all length]; [by rewrite Z.add_0_r|].
  rewrite !ST_bind_eq, counted_eq. destruct (emit rec s) as [s' [e|]]; cbn [fst snd]; [by exists k|].
  specialize (IH s' (k + 1)). destruct (emit_all emit recs s') as [s2 [e|]]; cbn [fst snd] in *; [done|].
  rewrite IH. by replace (k + Z.of_nat (Datatypes.S (length recs))) with (k + 1 + Z.of_nat (length recs)) by lia.
Qed.

(** The records of a text list. *)
Definition text_records (name protocol : string) (now : Z) (lines : list string) : list ProxyRecord :=
  omap (fun raw => '(host, port) ← textproxy_line raw; Some (new_record protocol host port name now)) lines.

Lemma textproxy_lines_emit {S} name protocol now (emit : emitter S) lines : forall sk,
  textproxy_lines name protocol now emit lines sk =
    emit_all (counted emit) (text_records name protocol now lines) sk.
Proof.
  induction lines as [|raw lines IH]; intros [s k]; cbn [textproxy_lines text_records omap list_omap]; [done|].
  destruct (textproxy_line raw) as [[host port]|]; cbn [mbind option_bind]; [|apply IH]. cbn [emit_all]. rewrite ST_bind_eq.
  rewrite counted_eq. destruct (emit _ s) as [s' [e|]]; cbn [fst snd]; [done|]. apply IH.
Qed.

(** The callback, on any state. *)
Definition text_callback (name protocol : string) : callback := fun S emit status body =>
  if negb (status =? 200) then mret (Some (ErrorString "unexpected status"))
  else
    now ← now_utc env;
    r ← on_net (emit_all emit (text_records name protocol now (scan_lines body).1));
    match r with Some e => mret (Some e) | None => mret (scan_lines body).2 end.

Lemma scan_from_alien raw err : own_alien err -> own_alien (scan_from raw err).2.
Proof.
  intros He. induction raw as [|line raw IH]; cbn [scan_from]; [done|]. destruct (_ <=? _); [apply alien_string|].
  by destruct (scan_from raw err).
Qed.

Lemma text_callback_plays name protocol : callback_plays (text_callback name protocol).
Proof.
  intros n status body Hb. unfold text_callback. destruct (negb (status =? 200)).
  { exists [], n, (Some (ErrorString "unexpected status")). split; [apply alien_string|done]. }
  exists (text_records name protocol (ne_clock env (n_ticks n)) (scan_lines body).1), (n{{ n_ticks := S (n_ticks n) }}), (scan_lines body).2.
  split; [by apply scan_from_alien|].
  intros S emit s. rewrite !ST_bind_eq. cbn [fst snd now_utc]. unfold on_net.
  destruct (emit_all emit _ s) as [s' [e|]]; reflexivity.
Qed.

Lemma textproxy_consume_counted {S} name protocol (emit : emitter S) status body w :
  textproxy_consume env name protocol emit status body w = text_callback name protocol (S * Z)%type (counted emit) status body w.
Proof.
  unfold textproxy_consume, text_callback. destruct (negb _); [done|]. destruct w as [n s].
  rewrite !ST_bind_eq. unfold on_net. cbn [fst snd now_utc]. by rewrite textproxy_lines_emit.
Qed.

(** The sources, one after the other: a source that fails is passed over. *)
Lemma textproxy_sources_run name urls : forall n, exists recs n', forall S (emit : emitter S) I s k, polite I emit -> I s -> exists n'',
  textproxy_sources env name urls emit (n, (s, k)) =
    let '((s', k'), r) := emit_all (counted emit) recs (s, k) in
    match r with
    | None => ((n', (s', k')), if k' =? 0 then Some (ErrorString "no proxies fetched from any source") else None)
    | Some e => ((n'', (s', k')), Some e)
    end.
Proof.
  induction urls as [|[protocol url] urls IH]; intros n.
  { exists [], n. intros S emit I s k _ _. by exists n. }
  destruct (stream_fetch (text_callback name protocol) url [] [] n (text_callback_plays name protocol)) as (recs & n1 & own & Hown & Hrun).
  destruct (IH n1) as (recs' & n' & IH'). exists (recs ++ recs'), n'. intros S emit I s k Hp Hs.
  destruct (Hrun (S * Z)%type (counted emit) _ (s, k) _ (counted_polite emit I Hp) Hs (textproxy_consume_counted name protocol emit)) as (n'' & Hr).
  cbn [textproxy_sources]. unfold fetchFromURL. rewrite ST_bind_eq, Hr, emit_all_app. pose proof (counted_run emit recs s k) as Hc.
  destruct (emit_all_polite emit I recs s Hp Hs) as [Hs' _]. destruct (emit_all emit recs s) as [s' [e|]].
  - destruct Hc as (k' & ->). cbn [fst snd errors_Is existsb orb]. rewrite bool_decide_true by done. by exists n''.
  - rewrite Hc. cbn [fst snd]. destruct (IH' S emit I s' (k + Z.of_nat (length recs)) Hp Hs') as (n3 & IH3). exists n3. rewrite <-IH3.
    destruct own as [e|]; [|done]. apply (Forall_inv (P := fun t => errors_Is e t = false)) in Hown. by rewrite Hown.
Qed.

Definition textproxy (name : string) (urls : list (string * string)) : ProxyProvider :=
  {| FetchProxies S := textproxy_FetchProxies env name urls |}.
#[export] Instance textproxy_law name urls : ProxyProviderLaw (textproxy name urls).
Proof.
  intros n. destruct (textproxy_sources_run name urls n) as (recs & n' & Hrun).
  exists recs, n', (if Z.of_nat (length recs) =? 0 then Some (ErrorString "no proxies fetched from any source") else None). split.
  - intros S emit I s Hp Hs. destruct (Hrun S emit I s 0 Hp Hs) as (n'' & Hr). pose proof (counted_run emit recs s 0) as Hc.
    cbn [FetchProxies textproxy]. unfold textproxy_FetchProxies. rewrite Hr. destruct (emit_all emit recs s) as [s' [e|]].
    + destruct Hc as (k' & ->). eexists n'', _. split; [done|]. intros t Ht. cbn. by rewrite bool_decide_false, orb_false_r by done.
    + rewrite Hc. done.
  - destruct (_ =? 0); [apply foreign_string|done].
Qed.

(** *** geonode: pages until the last one *)

Context (T : Z) (HT : 0 <= T <= max_int64 - 200).
(** No page announces more than [T] proxies in all. *)
Context (Htotal : forall body p, geonode_decode json_tokens ParseFloat body = Ok p -> ga_Total p <= T).

Lemma geonode_texts v : texts_only (unmarshal_struct (geonodePage_field ParseFloat) zeroGeonodePage v).
Proof.
  assert (Hitems : forall l, texts_only (geonode_items ParseFloat l)).
  { induction l as [|x l IH]; cbn; [done|]. apply texts_bind; [apply texts_unmarshal; texts_fields geonodeProxy_field|].
    intros p. by apply texts_bind. }
  assert (Hdata : forall x, texts_only (set_geonode_data ParseFloat x)) by (intros []; try done; apply Hitems).
  apply texts_unmarshal. texts_fields geonodePage_field.
Qed.

Lemma geonode_decode_alien body e : body_ok body -> geonode_decode json_tokens ParseFloat body = Err e -> alien e.
Proof.
  intros Hb. unfold geonode_decode. pose proof (Decode_alien (json_tokens body).1 (json_tokens body).2 (Htokens body Hb)) as Hd.
  destruct (Decode _ _) as [[v toks]|e']; cbn; [|by intros [= <-]]. apply texts_alien, geonode_texts.
Qed.

(** A page: nothing is emitted while it is fetched. *)
Lemma geonode_fetch_run baseURL page n : exists n' err data,
  (match err with Some e => foreign e | None => data.2 <= T end) /\
  forall S (s : S), geonode_fetch json_tokens ParseFloat baseURL page 100 (n, s) = ((n', s), (err, data)).
Proof.
  destruct (stream_once baseURL (geonode_params page 100) accept_json n) as ([n1 e|n1 status body] & Ha & Hok).
  - exists n1, (Some e), ([], 0). split; [done|]. intros S s. unfold geonode_fetch.
    specialize (Ha (S * (list geonodeProxy * Z))%type (geonode_consume json_tokens ParseFloat) (s, ([], 0))). cbv beta in Ha. by rewrite Ha.
  - cbn [answer_ok] in Hok. set (outcome := if negb (status =? 200) then Err (ErrorString "geonode: unexpected status")
      else wrap_err "geonode decode page" (geonode_decode json_tokens ParseFloat body)).
    assert (Hrun : forall S (s : S), geonode_consume json_tokens ParseFloat status body (n1, (s, ([], 0))) =
      match outcome with Err e => ((n1, (s, ([], 0))), Some e) | Ok p => ((n1, (s, (ga_Data p, ga_Total p))), None) end).
    { intros S s. unfold geonode_consume, outcome. destruct (negb _); [done|]. by destruct (geonode_decode _ _ _). }
    assert (Hout : match outcome with Err e => alien e | Ok p => ga_Total p <= T end).
    { unfold outcome. destruct (negb _); [apply alien_string|]. destruct (geonode_decode _ _ body) as [p|e] eqn:Hd; cbn.
      - by eapply Htotal.
      - apply alien_wrap. by eapply geonode_decode_alien. }
    exists n1, (match outcome with Err e => Some e | Ok _ => None end), (match outcome with Err _ => ([], 0) | Ok p => (ga_Data p, ga_Total p) end).
    split; [destruct outcome; [done|by destruct Hout]|]. intros S s. unfold geonode_fetch.
    specialize (Ha (S * (list geonodeProxy * Z))%type (geonode_consume json_tokens ParseFloat) (s, ([], 0))). cbv beta in Ha.
    rewrite Ha, Hrun; [by destruct outcome|]. rewrite Hrun. destruct outcome; [done|]. by intros e' [= <-]; destruct Hout.
Qed.

(** Every page but the last lies below the announced total. *)
Lemma geonode_loop_run baseURL fuel : forall page n, 1 <= page -> (page - 1) * 100 <= T -> T < (page - 1 + Z.of_nat fuel) * 100 ->
  exists recs n' own, own_foreign own /\ forall S (emit : emitter S) s, exists n'',
    geonode_loop env json_tokens ParseFloat fuel baseURL page emit (n, s) =
      let '(s', r) := emit_all emit recs s in match r with None => ((n', s'), Some own) | Some e => ((n'', s'), Some (Some e)) end.
Proof.
  induction fuel as [|fuel IH]; intros page n Hpage Hbelow Hfuel; [lia|].
  destruct (geonode_fetch_run baseURL page n) as (n1 & err & [data total] & Herr & Hfetch).
  destruct err as [e|].
  { exists [], n1, (Some (ErrWrap "geonode fetch page" e)). split; [done|]. intros S emit s. exists n1. cbn [geonode_loop].
    by rewrite ST_bind_eq, Hfetch. }
  set (recs := geonode_records (ne_clock env (n_ticks n1)) data). set (n2 := n1{{ n_ticks := Datatypes.S (n_ticks n1) }}).
  assert (Hmul : i64 (page * 100) = page * 100) by (apply i64_id; unfold is_i64, min_int64, max_int64 in *; lia).
  assert (Hadd : i64 (page + 1) = page + 1) by (apply i64_id; unfold is_i64, min_int64, max_int64 in *; lia).
  assert (Hstep : forall S (emit : emitter S) s, geonode_loop env json_tokens ParseFloat (Datatypes.S fuel) baseURL page emit (n, s) =
    let '(s', r) := emit_all emit recs s in
    match r with
    | Some e => ((n2, s'), Some (Some e))
    | None => if (Z.of_nat (length data) <? 100) || (total <=? page * 100) then ((n2, s'), Some None)
              else geonode_loop env json_tokens ParseFloat fuel baseURL (page + 1) emit (n2, s')
    end).
  { intros S emit s. cbn [geonode_loop]. rewrite ST_bind_eq, Hfetch. cbn [fst snd]. rewrite ST_bind_eq. cbn [now_utc fst snd].
    rewrite ST_bind_eq. unfold on_net. fold recs. fold n2. destruct (emit_all emit recs s) as [s' [e|]]; cbn [fst snd]; [done|].
    rewrite Hmul, Hadd. by destruct (_ || _). }
  destruct ((Z.of_nat (length data) <? 100) || (total <=? page * 100)) eqn:Hlast.
  - exists recs, n2, None. split; [done|]. intros S emit s. exists n2. rewrite Hstep. by destruct (emit_all emit recs s) as [s' [e|]].
  - apply orb_false_iff in Hlast as [_ Hlast]. apply Z.leb_gt in Hlast. cbn in Herr.
    destruct (IH (page + 1) n2) as (recs' & n' & own & Hown & Hrun); [lia..|].
    exists (recs ++ recs'), n', own. split; [done|]. intros S emit s. rewrite Hstep, emit_all_app.
    destruct (emit_all emit recs s) as [s' [e|]]; [by exists n2|]. apply Hrun.
Qed.

Definition geonode_fuel : nat := Z.to_nat (T / 100 + 1).
Definition geonode (baseURL : string) : ProxyProvider :=
  {| FetchProxies S := geonode_FetchProxies env json_tokens ParseFloat geonode_fuel (geonode_New baseURL) |}.

Lemma geonode_run baseURL n : exists recs n' own, own_foreign own /\ forall S (emit : emitter S) s, exists n'',
  geonode_loop env json_tokens ParseFloat geonode_fuel baseURL 1 emit (n, s) =
    let '(s', r) := emit_all emit recs s in match r with None => ((n', s'), Some own) | Some e => ((n'', s'), Some (Some e)) end.
Proof. apply geonode_loop_run; unfold geonode_fuel; [lia..|]. pose proof (Z.mod_pos_bound T 100). pose proof (Z.div_mod T 100). lia. Qed.

#[export] Instance geonode_law baseURL : ProxyProviderLaw (geonode baseURL).
Proof.
  intros n. destruct (geonode_run (geonode_New baseURL) n) as (recs & n' & own & Hown & Hrun). exists recs, n', own. split; [|done].
  intros S emit I s _ _. destruct (Hrun S emit s) as (n'' & Hr). cbn [FetchProxies geonode]. unfold geonode_FetchProxies. rewrite ST_bind_eq, Hr.
  destruct (emit_all emit recs s) as [s' [e|]]; [by exists n'', e|done].
Qed.

(** The page loop ends: as many pages as the announced total needs, whatever
    the callback does. *)
Lemma geonode_terminates baseURL n {S} (emit : emitter S) s :
  (geonode_loop env json_tokens ParseFloat geonode_fuel baseURL 1 emit (n, s)).2 <> None.
Proof.
  destruct (geonode_run baseURL n) as (recs & n' & own & _ & Hrun). destruct (Hrun S emit s) as (n'' & ->).
  by destruct (emit_all emit recs s) as [s' [e|]].
Qed.
End Instances.
