(* ===== verification/Discover.v ===== *)
(** * Proxy discovery ([cmd/cli/proxy.go], [publishDiscoveredProxies];
      [domain/proxy/handler/handler.go], [NewProxyJob])

    The discovery command walks the configured providers and publishes a
    new-proxy job for every record the proxy table does not know, up to a
    limit.  It is written against the provider interface and against
    [DiscoveryEnv], the repository and the queue.  Log records are left
    out. *)
From S2P Require Import Prelude GoErrors GoStrings Contract Scheduling ProxyStore ProxyStoreFacts ProxyClaims Payloads Queue Checks Discovery HttpClient HttpClientFacts Providers ProvidersFacts.

Section Discover.
(** A [float64] as [encoding/json] prints it. *)
Context (FormatFloat : Z -> json).

(** ** NewProxyJob *)

Definition marshal_NewProxy (p : NewProxyPayload) : json :=
  let omitempty (key : string) (v : option string) := match v with Some s => [(key, JStr s)] | None => [] end in
  JObj ([("protocol", JStr (np_Protocol p)); ("ip", JStr (np_IP p)); ("port", JInt (np_Port p))]
        ++ omitempty "country" (np_Country p) ++ omitempty "anonymity" (np_Anonymity p) ++ [("source", JStr (np_Source p))]
        ++ match np_UptimePercent p with Some x => [("uptime_percent", FormatFloat x)] | None => [] end).
Definition NewProxyJob (p : NewProxyPayload) : QueueJob := mkQueueJob EventNewProxy (marshal_NewProxy p).

(** ** publishDiscoveredProxies *)
Context {W : Type} `{E : DiscoveryEnv W}.

Definition discovered_payload (rec : ProxyRecord) : NewProxyPayload :=
  mkNewProxyPayload (pr_Protocol rec) (pr_IP rec) (pr_Port rec) (pr_Country rec) (pr_Anonymity rec) (pr_Source rec) (pr_UptimePercent rec).

Definition discovery_job (rec : ProxyRecord) : QueueJob := NewProxyJob (discovered_payload rec).

(** The callback given to a provider; its second state is [totalPublished]. *)
Definition discover_emit (limit : Z) : emitter (W * Z) := fun rec '(w, totalPublished) =>
  let '(w, known) := de_Exists (pr_Protocol rec) (pr_IP rec) (pr_Port rec) w in
  match known with
  | Err e => ((w, totalPublished), Some (ErrJoin [ErrSentinel ErrLookupFailed; e]))
  | Ok true => ((w, totalPublished), None)
  | Ok false =>
      let '(w, r) := de_Publish (discovery_job rec) w in
      match r with
      | Err e => ((w, totalPublished), Some (ErrJoin [ErrSentinel ErrPublishFailed; e]))
      | Ok _ =>
          let totalPublished := totalPublished + 1 in
          ((w, totalPublished),
           if (0 <? limit) && (limit <=? totalPublished) then Some (ErrSentinel ErrDiscoveryLimitReached) else None)
      end
  end.

Definition get_total : ST (net * (W * Z)) Z := fun st => (st, st.2.2).
Fixpoint discover_from (limit : Z) (providers : list ProxyProvider) (totalErrors : Z) : ST (net * (W * Z)) (result Z) :=
  match providers with
  | [] =>
      totalPublished ← get_total;
      mret (if (totalPublished =? 0) && (0 <? totalErrors) then Err (ErrorString "proxy discovery failed: all providers failed")
            else Ok totalPublished)
  | p :: providers =>
      err ← @FetchProxies p (W * Z)%type (discover_emit limit);
      match err with
      | Some e =>
          if errors_Is e ErrDiscoveryLimitReached then totalPublished ← get_total; mret (Ok totalPublished)
          else discover_from limit providers (totalErrors + 1)
      | None => discover_from limit providers totalErrors
      end
  end.
Definition publishDiscoveredProxies (providers : list ProxyProvider) (limit : Z) : ST (net * W) (result Z) := fun '(n, w) =>
  let '((n, (w, _)), r) := discover_from (if limit <? 0 then 0 else limit) providers 0 (n, (w, 0)) in ((n, w), r).
End Discover.

(** ** The store and the queue *)

(** What the queue has accepted, beside the world of the store. *)
Record PubWorld := mkPubWorld { pw_store : StoreWorld; pw_queue : list QueueJob }.
#[export] Instance PubWorld_env : DiscoveryEnv PubWorld := {|
  de_Exists protocol ip port := fun w =>
    let '(st, r) := de_Exists protocol ip port (pw_store w) in (w{{ pw_store := st }}, r);
  de_InsertIfAbsent rec := fun w =>
    let '(st, r) := de_InsertIfAbsent rec (pw_store w) in (w{{ pw_store := st }}, r);
  de_Publish job := fun w =>
    let '(st, r) := de_Publish job (pw_store w) in
    (mkPubWorld st (match r with Ok _ => pw_queue w ++ [job] | Err _ => pw_queue w end), r);
|}.

(** No refusal of the store or the queue is an error of the HTTP client. *)
Definition plain_world (w : StoreWorld) : Prop := forall n,
  match sw_fault w n with NoFault => True | Refused e | LostReply e => rotates e = false end
  /\ match sw_answer w n with Ok _ => True | Err e => rotates e = false end.

(** Nothing fails and nobody else writes. *)
Definition quiet (w : StoreWorld) : Prop := forall n, sw_fault w n = NoFault /\ sw_answer w n = Ok tt /\ sw_others w n = [].

(** What the providers have to say from [n] on. *)
Inductive all_yield : list ProxyProvider -> net -> list (list ProxyRecord * option gerror) -> Prop :=
  | yield_none n : all_yield [] n []
  | yield_next p ps n recs n' own ys :
      yields (fun S emit => @FetchProxies p S emit) n recs n' own -> own_foreign own -> all_yield ps n' ys ->
      all_yield (p :: ps) n ((recs, own) :: ys).

Lemma all_yield_exists ps : Forall ProxyProviderLaw ps -> forall n, exists ys, all_yield ps n ys.
Proof.
  induction 1 as [|p ps Hp Hps IH]; intros n; [eexists; constructor|].
  destruct (Hp n) as (recs & n' & own & Hy & Ho). destruct (IH n') as (ys & Hys). eexists. by econstructor.
Qed.

Section DiscoverFacts.
Context (FormatFloat : Z -> json).
#[local] Abbreviation job := (discovery_job FormatFloat).
#[local] Abbreviation emit := (discover_emit FormatFloat (W := PubWorld)).

Definition plain_state (st : PubWorld * Z) : Prop := plain_world (pw_store st.1).

(** One record, in terms of the store's answers. *)
Lemma discover_emit_eq limit rec w t : emit limit rec (w, t) =
  let st := pw_store w in
  let st1 := store_next st (store_now st) in
  let st2 := store_next st1 (store_now st1) in
  match Exists (store_now st) (sw_fault st (sw_calls st)) (pr_Protocol rec) (pr_IP rec) (pr_Port rec) with
  | Err e => ((mkPubWorld st1 (pw_queue w), t), Some (ErrJoin [ErrSentinel ErrLookupFailed; e]))
  | Ok true => ((mkPubWorld st1 (pw_queue w), t), None)
  | Ok false =>
      match sw_answer st1 (sw_calls st1) with
      | Err e => ((mkPubWorld st2 (pw_queue w), t), Some (ErrJoin [ErrSentinel ErrPublishFailed; e]))
      | Ok _ => ((mkPubWorld st2 (pw_queue w ++ [job rec]), t + 1),
                 if (0 <? limit) && (limit <=? t + 1) then Some (ErrSentinel ErrDiscoveryLimitReached) else None)
      end
  end.
Proof.
  destruct w as [st q]. cbn -[store_next store_now discovery_job Exists]. destruct (Exists _ _ _ _ _) as [[]|e]; [done| |done].
  cbn -[store_next store_now discovery_job Exists]. by destruct (sw_answer _ _).
Qed.

Lemma plain_next st db : plain_world st -> plain_world (store_next st db).
Proof. done. Qed.

Lemma discover_emit_polite limit : polite plain_state (emit limit).
Proof.
  intros rec [w t] Hp. unfold plain_state in *. cbn [fst] in Hp. rewrite discover_emit_eq. cbv zeta.
  destruct (Exists _ _ _ _ _) as [[]|e] eqn:He; cbn -[store_next store_now discovery_job].
  - done.
  - destruct (sw_answer _ _) as [u|e] eqn:Ha; cbn -[store_next store_now discovery_job].
    + split; [done|]. destruct (_ && _); [|done]. by intros e [= <-].
    + split; [done|]. intros e' [= <-]. cbn.
      pose proof (plain_next _ (store_now (pw_store w)) Hp (sw_calls (store_next (pw_store w) (store_now (pw_store w))))) as [_ H].
      rewrite Ha in H. by rewrite H.
  - split; [done|]. intros e' [= <-]. cbn. pose proof (Hp (sw_calls (pw_store w))) as [H _]. revert He H.
    unfold Exists. destruct (sw_fault _ _); cbn; [done|..]; intros [= <-] ->; done.
Qed.

(** ** Whatever fails: counting and the limit *)

Definition room (limit t : Z) : Prop := limit = 0 \/ t < limit.

(** The records published between [w] and [w'], [t] counted before and [t']
    after. *)
Definition counted_jobs (limit : Z) (w w' : PubWorld) (t t' : Z) : Prop :=
  exists recs, pw_queue w' = pw_queue w ++ (job <$> recs) /\ t' = t + Z.of_nat (length recs) /\ (limit = 0 \/ t' <= limit).

Lemma counted_none limit w w' t : 0 <= limit -> room limit t -> pw_queue w' = pw_queue w -> counted_jobs limit w w' t t.
Proof. intros Hl Hr Hq. exists []. rewrite Hq, app_nil_r. unfold room in Hr. split_and!; [done|cbn; lia|lia]. Qed.

Lemma counted_trans limit w w1 w2 t t1 t2 : counted_jobs limit w w1 t t1 -> counted_jobs limit w1 w2 t1 t2 -> counted_jobs limit w w2 t t2.
Proof.
  intros (j1 & Hq1 & Ht1 & _) (j2 & Hq2 & Ht2 & Hl). exists (j1 ++ j2). rewrite Hq2, Hq1, fmap_app, app_assoc, length_app.
  split_and!; [done|lia|done].
Qed.

(** A refusal that is not the limit leaves room. *)
Definition not_limit (r : option gerror) : Prop := match r with Some e => errors_Is e ErrDiscoveryLimitReached = false | None => True end.

Lemma discover_emit_counts limit rec w t : 0 <= limit -> room limit t ->
  let '((w', t'), r) := emit limit rec (w, t) in counted_jobs limit w w' t t' /\ (not_limit r -> room limit t').
Proof.
  intros Hl Hr. rewrite discover_emit_eq. cbv zeta.
  destruct (Exists _ _ _ _ _) as [[]|e]; [split; [by apply counted_none|done]| |split; [by apply counted_none|done]].
  destruct (sw_answer _ _) as [u|e]; [|split; [by apply counted_none|done]]. unfold room in *. split.
  - exists [rec]. split_and!; try done; cbn; lia.
  - unfold not_limit. destruct (Z.ltb_spec 0 limit), (Z.leb_spec limit (t + 1)); cbn [andb]; lia || (cbn; by rewrite bool_decide_true).
Qed.

Lemma emit_all_counts limit recs : forall w t, 0 <= limit -> room limit t ->
  let '((w', t'), r) := emit_all (emit limit) recs (w, t) in counted_jobs limit w w' t t' /\ (not_limit r -> room limit t').
Proof.
  induction recs as [|rec recs IH]; intros w t Hl Hr; cbn [emit_all].
  { split; [by apply counted_none|done]. }
  rewrite ST_bind_eq. pose proof (discover_emit_counts limit rec w t Hl Hr) as H.
  destruct (emit limit rec (w, t)) as [[w1 t1] [e|]]; cbn [fst snd] in *; destruct H as [Hc Hroom]; [done|].
  specialize (IH w1 t1 Hl (Hroom I)). destruct (emit_all _ _ _) as [[w2 t2] r]. destruct IH as [Hc2 Hroom2].
  split; [|done]. by apply (counted_trans _ _ w1 _ _ t1).
Qed.

(** One provider: what its callback did is counted, and the command sees the
    refusal that stopped it. *)
Lemma provider_counts limit (p : ProxyProvider) n w t : ProxyProviderLaw p -> 0 <= limit -> room limit t -> plain_world (pw_store w) ->
  exists n1 w1 t1 err, @FetchProxies p _ (emit limit) (n, (w, t)) = ((n1, (w1, t1)), err) /\ counted_jobs limit w w1 t t1 /\
    plain_world (pw_store w1) /\ (not_limit err -> room limit t1).
Proof.
  intros Hlaw Hl Hr Hp. destruct (Hlaw n) as (recs & n' & own & Hy & _).
  specialize (Hy _ (emit limit) plain_state (w, t) (discover_emit_polite limit) Hp). pose proof (emit_all_counts limit recs w t Hl Hr) as Hc.
  destruct (emit_all_polite (emit limit) plain_state recs (w, t) (discover_emit_polite limit) Hp) as [Hp' _].
  destruct (emit_all (emit limit) recs (w, t)) as [[w1 t1] [e|]]; destruct Hc as [Hc Hroom].
  - destruct Hy as (n'' & e' & Hf & Hcar). exists n'', w1, t1, (Some e'). split_and!; try done. cbn in *. by rewrite Hcar.
  - exists n', w1, t1, own. split_and!; try done. intros _. by apply Hroom.
Qed.

Lemma discover_from_counts limit ps : Forall ProxyProviderLaw ps -> forall errs n w t, 0 <= limit -> room limit t -> plain_world (pw_store w) ->
  let '((_, (w', t')), r) := discover_from FormatFloat limit ps errs (n, (w, t)) in
  counted_jobs limit w w' t t' /\ match r with Ok k => k = t' | Err _ => t' = 0 end.
Proof.
  induction 1 as [|p ps Hlaw Hps IH]; intros errs n w t Hl Hr Hp.
  - cbn [discover_from]. rewrite ST_bind_eq. cbn [fst snd get_total]. unfold mret, ST_ret. split; [by apply counted_none|].
    destruct (Z.eqb_spec t 0) as [->|]; [by destruct (0 <? errs)|done].
  - cbn [discover_from]. rewrite ST_bind_eq. destruct (provider_counts limit p n w t Hlaw Hl Hr Hp) as (n1 & w1 & t1 & err & -> & Hc & Hp1 & Hroom).
    cbn [fst snd]. assert (Hgo : forall errs1, room limit t1 ->
      let '((_, (w', t')), r) := discover_from FormatFloat limit ps errs1 (n1, (w1, t1)) in
      counted_jobs limit w w' t t' /\ match r with Ok k => k = t' | Err _ => t' = 0 end).
    { intros errs1 Hr1. specialize (IH errs1 n1 w1 t1 Hl Hr1 Hp1). destruct (discover_from _ _ _ _ _) as [[n2 [w2 t2]] r2].
      destruct IH as [IH1 IH2]. split; [|done]. by apply (counted_trans _ _ w1 _ _ t1). }
    destruct err as [e|]; [|by apply Hgo, Hroom]. destruct (errors_Is e ErrDiscoveryLimitReached) eqn:He; [done|]. by apply Hgo, Hroom.
Qed.

(** ** When nothing fails: exactly the unknown records *)

Definition stored (db : ProxyDB) (rec : ProxyRecord) : bool :=
  existsb (fun p => bool_decide (pr_Protocol p = pr_Protocol rec) && bool_decide (pr_IP p = pr_IP rec) && (pr_Port p =? pr_Port rec)) (rows_list db).
Definition unknown (db : ProxyDB) (recs : list ProxyRecord) : list ProxyRecord := filter (fun rec => stored db rec = false) recs.
(** What a limit leaves of a list, with [t] already published. *)
Definition within (limit t : Z) {A} (l : list A) : list A := if 0 <? limit then take (Z.to_nat (limit - t)) l else l.
Definition quiet_state (w : PubWorld) (db : ProxyDB) : Prop := quiet (pw_store w) /\ sw_db (pw_store w) = db.

Lemma quiet_now st : quiet st -> store_now st = sw_db st.
Proof. intros Hq. unfold store_now. by rewrite (proj2 (proj2 (Hq _))). Qed.

Lemma discover_emit_quiet limit db rec w t : quiet_state w db -> exists w', quiet_state w' db /\
  pw_queue w' = pw_queue w ++ (if stored db rec then [] else [job rec]) /\
  emit limit rec (w, t) = if stored db rec then ((w', t), None)
    else ((w', t + 1), if (0 <? limit) && (limit <=? t + 1) then Some (ErrSentinel ErrDiscoveryLimitReached) else None).
Proof.
  intros [Hq Hdb]. rewrite discover_emit_eq. cbv zeta. set (st1 := store_next (pw_store w) (store_now (pw_store w))).
  assert (Hq1 : quiet st1) by exact Hq.
  assert (Hdb1 : sw_db st1 = db) by (unfold st1, store_next; cbn; by rewrite quiet_now).
  rewrite (quiet_now _ Hq), Hdb, (proj1 (Hq _)). unfold Exists. cbn [read_fault]. fold (stored db rec). destruct (stored db rec).
  - exists (mkPubWorld st1 (pw_queue w)). by rewrite app_nil_r.
  - rewrite (proj1 (proj2 (Hq1 _))). exists (mkPubWorld (store_next st1 (store_now st1)) (pw_queue w ++ [job rec])).
    split; [|done]. split; [exact Hq1|]. cbn [pw_store store_next]. by rewrite quiet_now.
Qed.

Lemma within_nil limit t {A} : within limit t ([] : list A) = [].
Proof. unfold within. destruct (0 <? limit); [apply take_nil|done]. Qed.
Lemma within_cons limit t {A} (a : A) l : room limit t -> within limit t (a :: l) = a :: within limit (t + 1) l.
Proof.
  unfold within, room. intros Hr. destruct (Z.ltb_spec 0 limit); [|done].
  replace (Z.to_nat (limit - t)) with (S (Z.to_nat (limit - (t + 1)))) by lia. done.
Qed.
Lemma within_full limit t {A} (l : list A) : 0 < limit -> limit <= t -> within limit t l = [].
Proof. intros H1 H2. unfold within. destruct (Z.ltb_spec 0 limit); [|lia]. by replace (Z.to_nat (limit - t)) with O by lia. Qed.
Lemma within_room limit t {A} (l : list A) : limit = 0 \/ t + Z.of_nat (length l) < limit -> within limit t l = l.
Proof. intros H. unfold within. destruct (Z.ltb_spec 0 limit); [|done]. apply take_ge. lia. Qed.

Lemma emit_all_quiet limit db recs : forall w t, quiet_state w db -> 0 <= limit -> room limit t ->
  exists w', quiet_state w' db /\ pw_queue w' = pw_queue w ++ (job <$> within limit t (unknown db recs)) /\
    emit_all (emit limit) recs (w, t) =
      ((w', t + Z.of_nat (length (within limit t (unknown db recs)))),
       if (0 <? limit) && (limit <=? t + Z.of_nat (length (unknown db recs))) then Some (ErrSentinel ErrDiscoveryLimitReached) else None).
Proof.
  induction recs as [|rec recs IH]; intros w t Hw Hl Hr; cbn [emit_all].
  { exists w. cbn [unknown]. unfold unknown. cbn [filter list_filter]. rewrite within_nil, app_nil_r, Z.add_0_r. split_and!; try done.
    unfold room in Hr. destruct (Z.ltb_spec 0 limit), (Z.leb_spec limit t); cbn; done || lia. }
  rewrite ST_bind_eq. destruct (discover_emit_quiet limit db rec w t Hw) as (w1 & Hw1 & Hq1 & ->). unfold unknown. rewrite filter_cons.
  fold (unknown db recs). destruct (stored db rec) eqn:Hs; cbn [fst snd].
  - rewrite decide_False by done. destruct (IH w1 t Hw1 Hl Hr) as (w2 & Hw2 & Hq2 & Hrun). exists w2. by rewrite Hq2, Hq1, app_nil_r.
  - rewrite decide_True by done. rewrite within_cons by done. cbn [length]. destruct ((0 <? limit) && (limit <=? t + 1)) eqn:Hlim.
    + apply andb_true_iff in Hlim as [H1 H2]. apply Z.ltb_lt in H1. apply Z.leb_le in H2. exists w1. rewrite within_full by lia.
      split_and!; [done|exact Hq1|]. cbn [length]. rewrite (proj2 (Z.ltb_lt 0 limit) H1), (proj2 (Z.leb_le limit _)) by lia. cbn. do 2 f_equal.
    + assert (Hr1 : room limit (t + 1)).
      { unfold room in *. destruct (Z.ltb_spec 0 limit), (Z.leb_spec limit (t + 1)); cbn in Hlim; done || lia. }
      destruct (IH w1 (t + 1) Hw1 Hl Hr1) as (w2 & Hw2 & Hq2 & Hrun). exists w2. split_and!; [done|by rewrite Hq2, Hq1, <-app_assoc|].
      rewrite Hrun. cbn [length]. rewrite !Nat2Z.inj_succ, <-!Z.add_1_l, !Z.add_assoc. done.
Qed.

Definition failures (ys : list (list ProxyRecord * option gerror)) : Z := Z.of_nat (length (omap snd ys)).

Lemma within_app limit t {A} (l l' : list A) : limit = 0 \/ t + Z.of_nat (length l) < limit ->
  within limit t (l ++ l') = l ++ within limit (t + Z.of_nat (length l)) l'.
Proof.
  intros H. unfold within. destruct (Z.ltb_spec 0 limit); [|done]. rewrite take_app, take_ge by lia. do 2 f_equal. lia.
Qed.
Lemma within_stop limit t {A} (l l' : list A) : 0 < limit -> t < limit -> limit <= t + Z.of_nat (length l) ->
  within limit t (l ++ l') = within limit t l /\ t + Z.of_nat (length (within limit t l)) = limit.
Proof.
  intros H1 H2 H3. unfold within. destruct (Z.ltb_spec 0 limit); [|lia]. rewrite take_app_le by lia. split; [done|].
  rewrite length_take. lia.
Qed.
Lemma quiet_plain w : quiet w -> plain_world w.
Proof. intros Hq n. destruct (Hq n) as (-> & -> & _). done. Qed.

Lemma discover_from_quiet limit db ps n ys : all_yield ps n ys -> forall errs w t, quiet_state w db -> 0 <= limit -> room limit t ->
  let news := within limit t (unknown db (concat ys.*1)) in
  let t' := t + Z.of_nat (length news) in
  exists n' w', discover_from FormatFloat limit ps errs (n, (w, t)) =
      ((n', (w', t')), if (t' =? 0) && (0 <? errs + failures ys) then Err (ErrorString "proxy discovery failed: all providers failed") else Ok t')
    /\ pw_queue w' = pw_queue w ++ (job <$> news) /\ quiet_state w' db.
Proof.
  induction 1 as [n|p ps n recs n' own ys Hy Ho Hys IH]; intros errs w t Hw Hl Hr; cbv zeta.
  { exists n, w. unfold unknown, failures. cbn [fmap list_fmap concat filter list_filter omap list_omap length discover_from].
    rewrite within_nil, app_nil_r, !Z.add_0_r. split; [|done]. rewrite ST_bind_eq. done. }
  destruct (emit_all_quiet limit db recs w t Hw Hl Hr) as (w1 & Hw1 & Hq1 & Hrun).
  specialize (Hy _ (emit limit) plain_state (w, t) (discover_emit_polite limit) (quiet_plain _ (proj1 Hw))). rewrite Hrun in Hy.
  cbn [discover_from]. rewrite ST_bind_eq. cbn [fmap list_fmap concat fst]. unfold unknown. rewrite list.filter_app. fold (unknown db recs).
  fold (unknown db (concat (ys.*1))). destruct ((0 <? limit) && (limit <=? t + Z.of_nat (length (unknown db recs)))) eqn:Hlim.
  - apply andb_true_iff in Hlim as [H1 H2]. apply Z.ltb_lt in H1. apply Z.leb_le in H2. assert (Hlt : t < limit) by (unfold room in Hr; lia).
    destruct (within_stop limit t (unknown db recs) (unknown db (concat (ys.*1))) H1 Hlt H2) as [-> Hend].
    destruct Hy as (n'' & e' & -> & Hcar). cbn [fst snd]. rewrite Hcar by done. exists n'', w1. split; [|done].
    cbn [errors_Is]. rewrite bool_decide_true by done. rewrite ST_bind_eq. cbn [get_total fst snd]. unfold mret, ST_ret. rewrite Hend.
    by rewrite (proj2 (Z.eqb_neq limit 0)) by lia.
  - assert (Hroom : limit = 0 \/ t + Z.of_nat (length (unknown db recs)) < limit).
    { destruct (Z.ltb_spec 0 limit), (Z.leb_spec limit (t + Z.of_nat (length (unknown db recs)))); cbn in Hlim; done || lia. }
    rewrite Hy. cbn [fst snd]. rewrite within_app by done. rewrite (within_room limit t (unknown db recs) Hroom) in *.
    set (t1 := t + Z.of_nat (length (unknown db recs))) in *.
    assert (Hstep : match own with
      | Some e => if errors_Is e ErrDiscoveryLimitReached then totalPublished ← get_total (W := PubWorld); mret (Ok totalPublished)
                  else discover_from FormatFloat limit ps (errs + 1)
      | None => discover_from FormatFloat limit ps errs
      end = discover_from FormatFloat limit ps (errs + failures [(recs, own)])).
    { destruct own as [e|]; cbn [failures omap list_omap snd length]; [|by rewrite Z.add_0_r].
      unfold own_foreign, foreign in Ho. rewrite Forall_forall in Ho. by rewrite (Ho ErrDiscoveryLimitReached) by (cbn; auto). }
    rewrite Hstep. destruct (IH (errs + failures [(recs, own)]) w1 t1 Hw1 Hl Hroom) as (n2 & w2 & Hr2 & Hq2 & Hw2). exists n2, w2. rewrite Hr2.
    rewrite length_app, Nat2Z.inj_add, fmap_app, app_assoc, Z.add_assoc, <-Hq1. fold t1. split; [|done].
    replace (errs + failures ((recs, own) :: ys)) with (errs + failures [(recs, own)] + failures ys); [done|].
    unfold failures. cbn. destruct own; cbn; lia.
Qed.

(** ** The jobs, read back and ingested *)

Context (ParseFloat : json -> option Z).
(** Printing a [float64] gives a number that parses to it. *)
Context (Hfloat : forall x, set_float_ptr ParseFloat (FormatFloat x) = Ok (Some x)).

(** One member of an object, into its field. *)
Lemma decode_member {A} (field : string -> option (A -> json -> result A)) key set v l a a' :
  field (ToLower key) = Some set -> set a v = Ok a' ->
  fold_left (fun r kv => match r, field (ToLower kv.1) with Ok a, Some set => set a kv.2 | _, _ => r end) ((key, v) :: l) (Ok a) =
  fold_left (fun r kv => match r, field (ToLower kv.1) with Ok a, Some set => set a kv.2 | _, _ => r end) l (Ok a').
Proof. intros Hf Hs. cbn [fold_left fst snd]. by rewrite Hf, Hs. Qed.

Lemma unmarshal_discovery_job rec : is_i64 (pr_Port rec) ->
  unmarshal_NewProxy ParseFloat (qj_Payload (job rec)) = Ok (discovered_payload rec).
Proof.
  intros Hport. assert (Hint : forall old, set_int old (JInt (pr_Port rec)) = Ok (pr_Port rec)).
  { intros old. unfold set_int. unfold is_i64 in Hport. by rewrite (proj2 (Z.leb_le _ _)), (proj2 (Z.leb_le _ _)) by lia. }
  unfold discovery_job, NewProxyJob, discovered_payload, unmarshal_NewProxy, marshal_NewProxy.
  destruct (pr_Country rec), (pr_Anonymity rec), (pr_UptimePercent rec) as [x|];
    cbn [app qj_Payload np_Protocol np_IP np_Port np_Country np_Anonymity np_Source np_UptimePercent];
    unfold unmarshal_struct; repeat (erewrite decode_member; [|reflexivity|cbv beta; rewrite ?Hint, ?Hfloat; reflexivity]); reflexivity.
Qed.

(** The new-proxy worker on the deliveries of a list of jobs. *)
Definition ingest (jobs : list QueueJob) : ST StoreWorld (result unit) :=
  worker_RunEvents (proxyRegistry ParseFloat) (fun _ _ => mret tt) [EventNewProxy] jobs.

Record ingest_ok (st : StoreWorld) : Prop := { io_quiet : quiet st; io_table : table_ok (sw_db st); io_unique : tuples_unique (sw_db st) }.

Lemma others_db_quiet st k : quiet st -> others_db st k = sw_db st.
Proof.
  intros Hq. unfold others_db. replace (concat (sw_others st <$> seq (sw_calls st) k)) with (@nil store_op); [done|].
  symmetry. generalize (sw_calls st). induction k as [|k IH]; intros c; [done|]. cbn. by rewrite (proj2 (proj2 (Hq c))), IH.
Qed.

Lemma ProcessNewProxy_quiet st p : quiet st -> quiet (ProcessNewProxy p st).1 /\ (ProcessNewProxy p st).2 = Ok tt.
Proof.
  intros Hq. unfold ProcessNewProxy. rewrite ST_bind_eq. cbn [de_Exists StoreWorld_env fst snd]. rewrite (proj1 (Hq _)).
  unfold Exists. cbn [read_fault]. destruct (existsb _ _); [done|]. rewrite ST_bind_eq. cbn [de_InsertIfAbsent StoreWorld_env].
  set (st1 := store_next st (store_now st)). assert (Hq1 : quiet st1) by exact Hq. rewrite (proj1 (Hq1 _)). unfold InsertIfAbsent.
  cbn [with_fault]. by destruct (existsb _ _).
Qed.

(** One delivery of a discovery job. *)
Lemma deliver_quiet st rec : ingest_ok st ->
  let '(st', _) := worker_processJob (proxyRegistry ParseFloat) (job rec) st in
  ingest_ok st' /\ (forall t, known (sw_db st) t -> known (sw_db st') t) /\ (is_i64 (pr_Port rec) -> known (sw_db st') (tuple rec)).
Proof.
  intros [Hq Hok Hu]. unfold worker_processJob. cbn [qj_Type discovery_job NewProxyJob]. rewrite proxyRegistry_new, !ST_bind_eq.
  unfold NewProxy_Handle. destruct (unmarshal_NewProxy _ (qj_Payload (job rec))) as [p|e] eqn:Hp.
  - rewrite ST_bind_eq. destruct (ProcessNewProxy_quiet st p Hq) as [Hq' Hr]. destruct (ProcessNewProxy p st) as [st' r] eqn:Hrun.
    cbn [fst snd] in *. destruct (ProcessNewProxy_delivery st p st' r Hok Hu Hrun) as (Hok' & Hu' & Hknown & k & Hkeep & _). subst r.
    rewrite others_db_quiet in Hkeep by done. cbn. split_and!; [by split| |].
    + intros t (j & row & Hrow & Ht). exists j, row. split; [by apply Hkeep|done].
    + intros Hport. rewrite unmarshal_discovery_job in Hp by done. injection Hp as <-. by apply Hknown.
  - cbn. split_and!; [by split|done|]. intros Hport. by rewrite unmarshal_discovery_job in Hp.
Qed.

Lemma ingest_quiet recs : forall st, ingest_ok st ->
  ingest_ok (ingest (job <$> recs) st).1 /\ (forall t, known (sw_db st) t -> known (sw_db (ingest (job <$> recs) st).1) t) /\
  Forall (fun rec => is_i64 (pr_Port rec) -> known (sw_db (ingest (job <$> recs) st).1) (tuple rec)) recs.
Proof.
  induction recs as [|rec recs IH]; intros st Hst; [by split_and!|].
  pose proof (deliver_quiet st rec Hst) as Hd. destruct (worker_processJob _ (job rec) st) as [st1 r] eqn:Hrun.
  assert (Heq : ingest (job <$> rec :: recs) st = ingest (job <$> recs) st1).
  { unfold ingest, worker_RunEvents. destruct (list_find _ _) as [[? ?]|] eqn:Hf.
    - apply list_find_Some in Hf as (Hf & Hn & _). destruct n; [|done]. cbn in Hf. injection Hf as <-. by rewrite proxyRegistry_new in Hn.
    - rewrite fmap_cons. cbn [fmap]. rewrite ST_bind_eq, Hrun. done. }
  rewrite Heq. destruct Hd as (Hst1 & Hkeep & Hnew). destruct (IH st1 Hst1) as (H1 & H2 & H3). split_and!; [done|auto|].
  constructor; [auto|done].
Qed.

(** C32: a discovery run fills the table.  With providers that keep their
    contract, on a store and a queue that answer and nobody else writing, the
    command publishes, in the order the providers emit them, a job for exactly
    the records the table does not hold, cut off at a positive limit; it
    returns their number, and an error only when nothing was published and some
    provider failed.  When the new-proxy worker has consumed the jobs, the
    table's tuples are still unique, and without a limit it holds every record
    any provider emitted, also those of providers that failed half-way. *)
Theorem discovered_proxies_are_stored providers limit n w
    (Hlaw : Forall ProxyProviderLaw providers) (Hok : ingest_ok (pw_store w)) :
  exists ys n' w', all_yield providers n ys /\
    let emitted := concat ys.*1 in
    let news := within (Z.max 0 limit) 0 (unknown (sw_db (pw_store w)) emitted) in
    publishDiscoveredProxies FormatFloat providers limit (n, w) =
      ((n', w'), if bool_decide (news = []) && (0 <? failures ys) then Err (ErrorString "proxy discovery failed: all providers failed")
                 else Ok (Z.of_nat (length news))) /\
    pw_queue w' = pw_queue w ++ (job <$> news) /\
    let st := (ingest (job <$> news) (pw_store w')).1 in
    table_ok (sw_db st) /\ tuples_unique (sw_db st) /\
    (limit <= 0 -> Forall (fun rec => is_i64 (pr_Port rec) -> known (sw_db st) (tuple rec)) emitted).
Proof.
  destruct (all_yield_exists providers Hlaw n) as (ys & Hys). set (db := sw_db (pw_store w)).
  destruct (discover_from_quiet (Z.max 0 limit) db providers n ys Hys 0 w 0) as (n' & w' & Hrun & Hq & Hw');
    [by split; [apply io_quiet|]|lia|unfold room; lia|].
  exists ys, n', w'. split; [done|]. cbv zeta. set (news := within (Z.max 0 limit) 0 (unknown db (concat ys.*1))) in *.
  assert (Hok' : ingest_ok (pw_store w')).
  { destruct Hw' as [Hq' Hdb']. destruct Hok as [_ Ht Hu]. split; [done|by rewrite Hdb'|by rewrite Hdb']. }
  destruct (ingest_quiet news (pw_store w') Hok') as ([_ Ht Hu] & Hkeep & Hall). split_and!; try done.
  - unfold publishDiscoveredProxies. replace (if limit <? 0 then 0 else limit) with (Z.max 0 limit) by (destruct (Z.ltb_spec limit 0); lia).
    rewrite Hrun. rewrite !Z.add_0_l. destruct news as [|rec rest]; cbn [length]; [done|]. rewrite bool_decide_false by done.
    by rewrite (proj2 (Z.eqb_neq _ _)) by lia.
  - intros Hlim. rewrite Forall_forall in *. intros rec Hin Hport. destruct (stored db rec) eqn:Hs.
    + apply Hkeep. rewrite (proj2 Hw'). apply (known_rows db (tuple rec)); [apply Hok|exact Hs].
    + apply Hall; [|done]. unfold news. rewrite within_room by lia. apply list_elem_of_In, list_elem_of_filter.
      split; [done|by apply list_elem_of_In].
Qed.

(** The limit bounds what a run publishes, whatever fails.  With the
    store and the queue failing at any call, any writes of other processes and
    any stop of a provider: the queue accepted at most [limit] jobs when the
    limit is positive, each a discovery job; a returned count is their number,
    and an error means that none was accepted. *)
Theorem discovery_bounded providers limit n w (Hlaw : Forall ProxyProviderLaw providers) (Hplain : plain_world (pw_store w)) :
  let '((_, w'), r) := publishDiscoveredProxies FormatFloat providers limit (n, w) in
  exists recs, pw_queue w' = pw_queue w ++ (job <$> recs) /\ (0 < limit -> Z.of_nat (length recs) <= limit) /\
    match r with Ok k => k = Z.of_nat (length recs) | Err _ => recs = [] end.
Proof.
  unfold publishDiscoveredProxies. set (l := if limit <? 0 then 0 else limit).
  assert (Hl : 0 <= l /\ (0 < limit -> l = limit)) by (unfold l; destruct (Z.ltb_spec limit 0); lia).
  assert (Hroom : room l 0) by (unfold room; lia).
  pose proof (discover_from_counts l providers Hlaw 0 n w 0 (proj1 Hl) Hroom Hplain) as H.
  destruct (discover_from _ _ _ _ _) as [[n' [w' t']] r]. destruct H as [(recs & Hq & Ht & Hb) Hr]. exists recs. split_and!; [done|lia|].
  destruct r; [lia|]. apply length_zero_iff_nil. lia.
Qed.
End DiscoverFacts.

(** ** A run: a text list with two usable lines, and a provider that is down *)

Definition list_env : netEnv := {|
  ne_do n route req := match n with
    | O => Ok (mkHttpReply 200 [] (text_body ("10.0.0.1:8080" +:+ bytes [13; 10]%nat +:+ "# comment" +:+ bytes [10]%nat +:+ "http://10.0.0.9:3128")))
    | _ => Err (ErrorString "connection refused")
    end;
  ne_db _ := scrape_db;
  ne_dbFault _ := NoFault;
  ne_dbNow _ := second;
  ne_pick _ l := head l;
  ne_clock n := Z.of_nat n * second;
|}.
Lemma list_env_ok : env_ok list_env scrape_url scrape_request scrape_parse scrape_socks.
Proof.
  split; try done.
  - intros [|n] route req e; [done|]. intros [= <-]. apply foreign_string.
  - by intros [|n] route req resp [= <-].
  - intros n l p. cbn. destruct l; [done|]. intros [= ->]. by left.
  - intros n l. by destruct l.
Qed.

Definition no_tokens (body : stream) : list token * stream_end := ([], Cut (ErrorString "EOF")).
Definition run_providers : list ProxyProvider :=
  let client := direct_client list_env scrape_url scrape_request in
  [@textproxy list_env client "list" [("http", "https://list")]; @pubproxy list_env client no_tokens ToLower ""].
Lemma run_providers_lawful : Forall ProxyProviderLaw run_providers.
Proof.
  pose proof (direct_client_law list_env scrape_url scrape_request scrape_parse scrape_socks list_env_ok) as Hc.
  constructor; [by apply textproxy_law|]. constructor; [|done]. apply pubproxy_law; [exact Hc|]. intros body _. apply alien_string.
Qed.
Definition print_float (x : Z) : json := JInt x.
Definition parse_float (v : json) : option Z := match v with JInt x => Some x | _ => None end.
Definition run_world : PubWorld := mkPubWorld (mkStoreWorld demo_policy demo_db 0 (fun _ => []) (fun _ => 8) (fun _ => NoFault) (fun _ => Ok tt)) [].
Lemma run_world_ok : ingest_ok (pw_store run_world).
Proof.
  split; [done|apply demo_db_ok|]. apply (run_ops_unique demo_policy); [apply empty_db_ok|]. intros i j r s Hr. discriminate Hr.
Qed.

(** The first list's proxies that are new are published although the second
    provider fails. *)
Example discovery_run :
  (publishDiscoveredProxies print_float run_providers 0 (mkNet 0 0 0 [], run_world)).2 = Ok 1
  /\ (publishDiscoveredProxies print_float (drop 1 run_providers) 0 (mkNet 1 0 0 [], run_world)).2
       = Err (ErrorString "proxy discovery failed: all providers failed").
Proof. vm_compute. done. Qed.

Lemma discovered_proxies_are_stored_witness :
  exists w', (publishDiscoveredProxies print_float run_providers 0 (mkNet 0 0 0 [], run_world)).1.2 = w' /\
    exists news, pw_queue w' = discovery_job print_float <$> news.
Proof.
  destruct (discovered_proxies_are_stored print_float parse_float (fun x => eq_refl) run_providers 0 (mkNet 0 0 0 []) run_world
    run_providers_lawful run_world_ok) as (ys & n' & w' & _ & Hrun & Hq & _).
  exists w'. rewrite Hrun. split; [reflexivity|]. eexists. exact Hq.
Defined.

Lemma discovery_bounded_witness :
  let '((_, w'), r) := publishDiscoveredProxies print_float run_providers 1 (mkNet 0 0 0 [], run_world) in
  exists recs, pw_queue w' = discovery_job print_float <$> recs /\ Z.of_nat (length recs) <= 1.
Proof.
  assert (Hp : plain_world (pw_store run_world)) by (intros n; split; exact I).
  pose proof (discovery_bounded print_float run_providers 1 (mkNet 0 0 0 []) run_world run_providers_lawful Hp) as H.
  destruct (publishDiscoveredProxies _ _ _ _) as [[n' w'] r]. destruct H as (recs & Hq & Hl & _). exists recs.
  split; [exact Hq|]. apply Hl. lia.
Defined.
