(* ===== verification/ListFormats.v ===== *)
(** * The formats of proxy lists

    Text lists, the line format of [infrastructure/textproxy]: a list printed as
    [host:port] lines, with or without a scheme and a carriage return, is read
    back record by record; and what a connection cut in a line does.  JSON lists,
    [json.Decoder] as the providers drive it on complete documents: a value's
    tokens decode to the value, and the streamed walk of pubproxy and
    proxyscrape emits every element of the list field of a document, wherever
    the field stands.  The budgets of the loops are thereby shown sufficient. *)
From Stdlib Require Import Ascii.
From stdpp Require Import pretty.
From S2P Require Import Prelude GoErrors GoStrings Dates Contract ProxyStore Payloads Discovery LodestonePage LodestonePageFacts Checks HttpClient HttpClientFacts Providers ProvidersFacts Discover.

Lemma string_app_nil (s : string) : s +:+ "" = s.
Proof. induction s as [|c s IH]; [done|]. rewrite string_cons_app. by f_equal. Qed.

(** ** Characters *)

Fixpoint all_chars (P : ascii -> bool) (s : string) : bool :=
  match s with EmptyString => true | String c s => P c && all_chars P s end.
Lemma all_chars_app P a b : all_chars P (a +:+ b) = all_chars P a && all_chars P b.
Proof. induction a as [|c a IH]; [done|]. rewrite string_cons_app. cbn. by rewrite IH, andb_assoc. Qed.
Lemma all_chars_impl (P Q : ascii -> bool) s : (forall c, P c = true -> Q c = true) -> all_chars P s = true -> all_chars Q s = true.
Proof. intros H. induction s as [|c s IH]; [done|]. cbn. intros [H1 H2]%andb_true_iff. by rewrite (H c H1), IH. Qed.
Lemma all_chars_free (P : ascii -> bool) c s : P c = false -> all_chars P s = true -> free_of c s = true.
Proof.
  intros Hc. induction s as [|x s IH]; [done|]. cbn. intros [H1 H2]%andb_true_iff. rewrite IH by done.
  rewrite bool_decide_false by congruence. done.
Qed.

Definition host_char (c : ascii) : bool :=
  let n := nat_of_ascii c in
  ((48 <=? n) && (n <=? 57) || (65 <=? n) && (n <=? 90) || (97 <=? n) && (n <=? 122) || (n =? 45) || (n =? 46))%nat.
Definition port_char (c : ascii) : bool := is_digit c.

Lemma digit_host c : port_char c = true -> host_char c = true.
Proof. destruct c as [[] [] [] [] [] [] [] []]; done. Qed.

(** ** Numbers *)

Lemma digit_value_char x : (x < 10)%N -> digit_value (pretty_N_char x) = Some (Z.of_N x).
Proof.
  intros H. assert (x = 0 \/ x = 1 \/ x = 2 \/ x = 3 \/ x = 4 \/ x = 5 \/ x = 6 \/ x = 7 \/ x = 8 \/ x = 9)%N as Hx by lia.
  by repeat destruct Hx as [->|Hx]; subst.
Qed.

Lemma digits_value_go x : forall s, digits_value 0 (pretty_N_go x s) = digits_value (Z.of_N x) s.
Proof.
  induction (N.lt_wf_0 x) as [x _ IH]; intros s. destruct (decide (x = 0)%N) as [->|Hx]; [done|].
  rewrite pretty_N_go_step by lia. rewrite IH by (apply N.div_lt; lia). cbn [digits_value].
  pose proof (N.mod_upper_bound x 10). rewrite digit_value_char by lia. cbn. f_equal.
  rewrite N2Z.inj_div, N2Z.inj_mod. pose proof (Z.div_mod (Z.of_N x) 10). lia.
Qed.

Lemma pretty_go_digits x : forall s, all_chars port_char s = true -> all_chars port_char (pretty_N_go x s) = true.
Proof.
  induction (N.lt_wf_0 x) as [x _ IH]; intros s Hs. destruct (decide (x = 0)%N) as [->|Hx]; [done|].
  rewrite pretty_N_go_step by lia. apply IH; [apply N.div_lt; lia|]. cbn [all_chars]. rewrite Hs. unfold port_char, is_digit.
  pose proof (N.mod_upper_bound x 10). by rewrite digit_value_char by lia.
Qed.

(** The decimal text of a number that is not negative. *)
Lemma pretty_number z : 0 <= z -> all_chars port_char (pretty z) = true /\ digits_value 0 (pretty z) = Some z /\ pretty z <> "".
Proof.
  intros Hz. destruct z as [|p|p]; [by vm_compute|..|lia].
  change (pretty (Z.pos p)) with (pretty (N.pos p)). unfold pretty, pretty_N. rewrite decide_False by done.
  split; [by apply pretty_go_digits|]. split; [by rewrite digits_value_go|]. intros He.
  pose proof (digits_value_go (N.pos p) "") as H. by rewrite He in H.
Qed.

Lemma span_digits_all s : all_chars port_char s = true -> span_digits s = (s, "").
Proof. induction s as [|c s IH]; [done|]. cbn. unfold port_char. intros [-> H]%andb_true_iff. by rewrite IH. Qed.

(** ** White space *)

(** A text that starts with no byte of a white space character. *)
Definition head_plain (s : string) : bool := match s with EmptyString => true | String c _ => host_char c end.

Lemma no_space_prefix s : head_plain s = true -> s <> "" -> first_match (fun p => strip_prefix p s) space_encodings = None.
Proof.
  intros Hs Hne. destruct s as [|c s]; [done|]. cbn in Hs. unfold space_encodings.
  destruct c as [[] [] [] [] [] [] [] []]; vm_compute in Hs; try discriminate Hs; reflexivity.
Qed.

Fixpoint last_char (s : string) : option ascii :=
  match s with
  | EmptyString => None
  | String c s => match last_char s with Some d => Some d | None => Some c end
  end.
Lemma last_char_app a b : b <> "" -> last_char (a +:+ b) = last_char b.
Proof.
  intros Hb. assert (Hsome : exists d, last_char b = Some d) by (destruct b as [|c b]; [done|]; cbn; destruct (last_char b); eauto).
  destruct Hsome as [d Hd]. induction a as [|c a IH]; [done|]. rewrite string_cons_app. cbn. by rewrite IH, Hd.
Qed.

Lemma no_space_suffix a c : host_char c = true -> first_match (fun p => strip_suffix p (a +:+ String c "")) space_encodings = None.
Proof.
  intros Hc. assert (Hgen : forall l, forallb (fun p => match last_char p with Some e => negb (host_char e) | None => false end) l = true ->
    first_match (fun p => strip_suffix p (a +:+ String c "")) l = None).
  { induction l as [|p l IH]; cbn [first_match forallb]; [done|]. intros [Hp Hl]%andb_true_iff.
    destruct (strip_suffix p _) as [r|] eqn:Hr; [|by apply IH]. apply strip_suffix_Some in Hr. apply (f_equal last_char) in Hr.
    rewrite last_char_app in Hr by done. destruct p as [|x p]; [done|]. rewrite last_char_app in Hr by done. rewrite <-Hr in Hp. cbn in Hp.
    by rewrite Hc in Hp. }
  apply Hgen. vm_compute. reflexivity.
Qed.

Lemma split_last s : s <> "" -> exists a c, s = a +:+ String c "".
Proof.
  induction s as [|c s IH]; [done|]. intros _. destruct s as [|d s]; [by exists "", c|].
  destruct IH as (a & e & He); [done|]. exists (String c a), e. by rewrite string_cons_app, <-He.
Qed.

Lemma TrimSpace_plain s : s <> "" -> head_plain s = true -> (exists a c, s = a +:+ String c "" /\ host_char c = true) -> TrimSpace s = s.
Proof.
  intros Hne Hh (a & c & Hs & Hc). unfold TrimSpace.
  assert (Hl : forall n, trim_left n s = s) by (intros [|n]; cbn [trim_left]; [done|]; by rewrite no_space_prefix).
  assert (Hr : forall n, trim_right n s = s) by (intros [|n]; cbn [trim_right]; [done|]; by rewrite Hs, no_space_suffix).
  by rewrite Hl, Hr.
Qed.

(** ** One line *)

Record text_entry := mkTextEntry { te_scheme : option string; te_host : string; te_port : Z; te_crlf : bool }.
Definition te_address (e : text_entry) : string := te_host e +:+ ":" +:+ pretty (te_port e).
Definition te_line (e : text_entry) : string :=
  match te_scheme e with Some s => s +:+ "://" +:+ te_address e | None => te_address e end.
Definition te_raw (e : text_entry) : string := te_line e +:+ (if te_crlf e then bytes [13%nat] else "").

(** A name or an IPv4 address, a port, and a line that fits the buffer. *)
Definition host_ok (s : string) : Prop := s <> "" /\ all_chars host_char s = true.
Definition entry_ok (e : text_entry) : Prop :=
  host_ok (te_host e) /\ 0 <= te_port e <= max_int64 /\ slen (te_raw e) < maxScanTokenSize /\
  match te_scheme e with Some s => host_ok s | None => True end.

Lemma Contains_free c s : free_of c s = true -> Contains s (String c "") = false.
Proof.
  intros H. unfold Contains. pose proof (Index_free c "" s "" H) as Hi.
  rewrite string_app_nil in Hi. by rewrite Hi.
Qed.
Lemma free_of_app c a b : free_of c (a +:+ b) = free_of c a && free_of c b.
Proof. induction a as [|x a IH]; [done|]. rewrite string_cons_app. cbn. by rewrite IH, andb_assoc. Qed.
Lemma host_free c s : host_char c = false -> host_ok s -> free_of c s = true.
Proof. intros Hc [_ Hs]. by apply (all_chars_free host_char). Qed.
Lemma port_free c z : host_char c = false -> 0 <= z -> free_of c (pretty z) = true.
Proof.
  intros Hc Hz. destruct (pretty_number z Hz) as (Hd & _). apply (all_chars_free host_char); [done|].
  eapply all_chars_impl; [apply digit_host|exact Hd].
Qed.
Lemma address_free c e : host_char c = false -> c <> ":"%char -> entry_ok e -> free_of c (te_address e) = true.
Proof.
  intros Hc Hne (Hh & Hp & _). unfold te_address. rewrite !free_of_app, (host_free c) by done. rewrite (port_free c) by (done || lia).
  cbn. by rewrite bool_decide_false by congruence.
Qed.

Lemma not_bracket {A} c s (x y : A) : host_char c = true -> match String c s with String "["%char _ => x | _ => y end = y.
Proof. destruct c as [[] [] [] [] [] [] [] []]; intros Hc; (discriminate Hc || reflexivity). Qed.

Lemma SplitHostPort_entry e : entry_ok e -> SplitHostPort (te_address e) = Ok (te_host e, pretty (te_port e)).
Proof.
  intros He. pose proof He as (Hh & Hp & _). unfold SplitHostPort.
  assert (Hlast : LastIndex (te_address e) ":" = Some (String.length (te_host e))).
  { unfold te_address. apply (LastIndex_free ":"%char). apply port_free; [done|lia]. }
  assert (Hb : Contains (te_address e) "[" = false) by by apply Contains_free, address_free.
  assert (Hb' : Contains (te_address e) "]" = false) by by apply Contains_free, address_free.
  assert (Hd : sdrop (String.length (te_host e) + 1) (te_address e) = pretty (te_port e)).
  { unfold te_address. rewrite <-string_app_assoc. replace (String.length (te_host e) + 1)%nat with (String.length (te_host e +:+ ":"))
      by (rewrite string_length_app; done). apply sdrop_app. }
  assert (Ht : stake (String.length (te_host e)) (te_address e) = te_host e) by apply stake_app.
  assert (Hc : Contains (te_host e) ":" = false) by (apply Contains_free, host_free; done).
  rewrite Hlast. cbv zeta. assert (Hform : exists c s, te_address e = String c s /\ host_char c = true).
  { unfold te_address. destruct Hh as [Hne Hch]. destruct (te_host e) as [|c h]; [done|]. cbn in Hch. apply andb_true_iff in Hch as [Hch _].
    by exists c, (h +:+ ":" +:+ pretty (te_port e)). }
  destruct Hform as (c & s & Hform & Hch). rewrite Ht, Hc, Hd. rewrite Hform at 1. rewrite not_bracket by done.
  cbn [mbind result_bind]. change (sdrop 0 (te_address e)) with (te_address e). by rewrite Hb, Hb'.
Qed.

Lemma not_sign {A} c s (x y z : A) : port_char c = true ->
  match String c s with String "+"%char _ => x | String "-"%char _ => y | _ => z end = z.
Proof. destruct c as [[] [] [] [] [] [] [] []]; intros Hc; (discriminate Hc || reflexivity). Qed.

Lemma Sscanf_pretty z : 0 <= z <= max_int64 -> Sscanf_d (pretty z) = Some z.
Proof.
  intros Hz. destruct (pretty_number z) as (Hd & Hv & Hne); [lia|]. unfold Sscanf_d.
  destruct (pretty z) as [|c s] eqn:Hp; [done|]. pose proof Hd as Hc. cbn [all_chars] in Hc. apply andb_true_iff in Hc as [Hc _].
  assert (Hskip : forall n, skip_space n (String c s) = Some (String c s)).
  { intros [|n]; cbn [skip_space]; [done|]. rewrite no_space_prefix by (done || by apply digit_host).
    replace (HasPrefix (String c s) (bytes [10%nat])) with false; [done|]. symmetry. apply HasPrefix_head. intros ->. discriminate Hc. }
  rewrite Hskip. cbn [mbind option_bind]. rewrite not_sign by done. rewrite span_digits_all by done. cbn [fst]. unfold ParseUint.
  rewrite Hv. destruct (Z.ltb_spec max_int64 z); [lia|done].
Qed.

(** The scheme in front of an address is dropped. *)
Lemma strip_scheme e : entry_ok e ->
  match Index (te_line e) "://" with Some idx => sdrop (idx + 3) (te_line e) | None => te_line e end = te_address e.
Proof.
  intros He. pose proof He as (_ & Hp & _ & Hs). unfold te_line. destruct (te_scheme e) as [sch|].
  - assert (Hi : Index (sch +:+ "://" +:+ te_address e) "://" = Some (String.length sch)).
    { apply (Index_upto ":"%char sch ("//" +:+ te_address e)); [by apply host_free|done]. }
    rewrite Hi, <-string_app_assoc.
    replace (String.length sch + 3)%nat with (String.length (sch +:+ "://")) by (by rewrite string_length_app). apply sdrop_app.
  - unfold te_address. rewrite (Index_free ":"%char "//") by (apply host_free; [done|by destruct He]).
    destruct (pretty_number (te_port e)) as (Hd & _ & Hne); [lia|].
    assert (Hnone : Index (":" +:+ pretty (te_port e)) "://" = None).
    { change (":" +:+ pretty (te_port e)) with (String ":"%char (pretty (te_port e))). rewrite Index_miss.
      - pose proof (Index_free ":"%char "//" (pretty (te_port e)) "" ltac:(apply port_free; [done|lia])) as Hi.
        rewrite string_app_nil in Hi. by rewrite Hi.
      - destruct (pretty (te_port e)) as [|c s]; [done|]. cbn in Hd. apply andb_true_iff in Hd as [Hd _].
        apply (mismatch_prefix (String ":"%char (String c "")) s "://"). cbn [mismatch]. rewrite bool_decide_true by done.
        rewrite bool_decide_false; [done|]. intros ->. discriminate Hd. }
    by rewrite Hnone.
Qed.

Lemma te_line_ends e : entry_ok e -> te_line e <> "" /\ head_plain (te_line e) = true /\ exists a c, te_line e = a +:+ String c "" /\ port_char c = true.
Proof.
  intros ((Hne & Hh) & Hp & _ & Hs). destruct (pretty_number (te_port e)) as (Hd & _ & Hpe); [lia|].
  destruct (split_last _ Hpe) as (a & c & Hac).
  assert (Hc : port_char c = true) by (rewrite Hac, all_chars_app in Hd; cbn in Hd; by destruct (port_char c); rewrite ?andb_false_r in Hd).
  unfold te_line, te_address. rewrite Hac. destruct (te_scheme e) as [sch|].
  - destruct Hs as [Hsne Hsh]. destruct sch as [|x sch]; [done|]. cbn in Hsh. apply andb_true_iff in Hsh as [Hx _].
    split; [done|]. split; [done|]. exists ((String x sch) +:+ "://" +:+ te_host e +:+ ":" +:+ a), c. by rewrite !string_app_assoc.
  - destruct (te_host e) as [|x h] eqn:Hhost; [done|]. cbn in Hh. apply andb_true_iff in Hh as [Hx _].
    split; [done|]. split; [done|]. exists (String x h +:+ ":" +:+ a), c. by rewrite !string_app_assoc.
Qed.

Lemma textproxy_line_entry e : entry_ok e -> textproxy_line (te_line e) = Some (te_host e, te_port e).
Proof.
  intros He. destruct (te_line_ends e He) as (Hne & Hh & a & c & Ha & Hc). unfold textproxy_line.
  rewrite TrimSpace_plain by eauto using digit_host. rewrite bool_decide_false by done.
  rewrite strip_scheme, SplitHostPort_entry by done. rewrite Sscanf_pretty; [done|]. by destruct He as (_ & ? & _).
Qed.

(** ** The list *)

Definition print_list (entries : list text_entry) : string := foldr (fun e rest => te_raw e +:+ bytes [10%nat] +:+ rest) "" entries.

Lemma split_line line rest : forall acc, free_of (ascii_of_nat 10) line = true ->
  split_lines acc (line +:+ bytes [10%nat] +:+ rest) = (acc +:+ line) :: split_lines "" rest.
Proof.
  induction line as [|c line IH]; intros acc Hl.
  - change ("" +:+ bytes [10%nat] +:+ rest) with (String (ascii_of_nat 10) rest). cbn [split_lines]. rewrite bool_decide_true by done.
    by rewrite string_app_nil.
  - cbn in Hl. apply andb_true_iff in Hl as [Hc Hl]. apply negb_true_iff, bool_decide_eq_false in Hc. rewrite string_cons_app. cbn [split_lines].
    rewrite bool_decide_false by done. rewrite IH by done. by rewrite string_app_assoc.
Qed.

Lemma te_raw_free e : entry_ok e -> free_of (ascii_of_nat 10) (te_raw e) = true.
Proof.
  intros He. pose proof He as (_ & _ & _ & Hs). unfold te_raw, te_line.
  assert (Ha : free_of (ascii_of_nat 10) (te_address e) = true) by (apply address_free; done).
  rewrite free_of_app. apply andb_true_iff. split; [|by destruct (te_crlf e)].
  destruct (te_scheme e); [|done]. rewrite !free_of_app, Ha, host_free by done. done.
Qed.

Lemma dropCR_raw e : entry_ok e -> dropCR (te_raw e) = te_line e.
Proof.
  intros He. unfold dropCR, te_raw. destruct (te_crlf e); [apply TrimSuffix_app|].
  destruct (te_line_ends e He) as (_ & _ & a & c & Ha & Hc).
  rewrite string_app_nil.
  unfold TrimSuffix. destruct (strip_suffix _ _) as [r|] eqn:Hr; [|done]. apply strip_suffix_Some in Hr.
  apply (f_equal last_char) in Hr. rewrite Ha, !last_char_app in Hr by done. cbn in Hr. injection Hr as ->. discriminate Hc.
Qed.

Lemma scan_print entries err : Forall entry_ok entries -> scan_lines (mkStream (print_list entries) err) = (te_line <$> entries, err).
Proof.
  intros He. unfold scan_lines. cbn [st_data st_err]. induction He as [|e entries He Hes IH]; [done|].
  cbn [print_list foldr]. rewrite split_line by by apply te_raw_free. change ("" +:+ te_raw e) with (te_raw e). cbn [scan_from].
  pose proof He as (_ & _ & Hlen & _). destruct (Z.leb_spec maxScanTokenSize (slen (te_raw e))); [lia|].
  fold (print_list entries). rewrite IH, dropCR_raw by done. done.
Qed.

(** The records of a printed list. *)
Definition entry_record (name protocol : string) (now : Z) (e : text_entry) : ProxyRecord := new_record protocol (te_host e) (te_port e) name now.

(** A text list is read completely.  A list of hosts and ports printed
    one per line, with or without a scheme in front and a carriage return at
    the end, makes the callback emit exactly one record per line, in order, with
    that host and port, and count them; and the reader's error, if the
    connection broke behind the last line, is the outcome. *)
Theorem text_list_roundtrip env name protocol entries err n (Hentries : Forall entry_ok entries) :
  forall S (emit : emitter S) s fetched,
  let records := entry_record name protocol (ne_clock env (n_ticks n)) <$> entries in
  (forall s', emit_all emit records s = (s', None) ->
    (textproxy_consume env name protocol emit 200 (mkStream (print_list entries) err) (n, (s, fetched))).2 = err /\
    (textproxy_consume env name protocol emit 200 (mkStream (print_list entries) err) (n, (s, fetched))).1.2
      = (s', fetched + Z.of_nat (length entries))) /\
  (forall s' e, emit_all emit records s = (s', Some e) ->
    (textproxy_consume env name protocol emit 200 (mkStream (print_list entries) err) (n, (s, fetched))).2
      = Some (ErrJoin [ErrSentinel ErrEmitFailed; e])).
Proof.
  intros S emit s fetched. cbv zeta. set (records := entry_record name protocol (ne_clock env (n_ticks n)) <$> entries).
  assert (Hrec : text_records name protocol (ne_clock env (n_ticks n)) (te_line <$> entries) = records).
  { unfold records. clear records. induction Hentries as [|e entries He Hes IH]; [done|]. cbn. rewrite textproxy_line_entry by done. cbn.
    f_equal. exact IH. }
  rewrite textproxy_consume_counted. unfold text_callback. cbn [negb Z.eqb Pos.eqb]. rewrite !ST_bind_eq. cbn [fst snd now_utc].
  rewrite scan_print by done. cbn [fst snd]. rewrite Hrec. unfold on_net. pose proof (counted_run emit records s fetched) as Hc.
  replace (length entries) with (length records) by (unfold records; apply length_fmap). split.
  - intros s' Hs. rewrite Hs in Hc. rewrite Hc. done.
  - intros s' e Hs. rewrite Hs in Hc. destruct Hc as (k' & ->). done.
Qed.

Definition sample_list : list text_entry :=
  [mkTextEntry None "10.0.0.1" 8080 true; mkTextEntry (Some "socks5") "proxy.example" 1080 false].
Lemma sample_list_ok : Forall entry_ok sample_list.
Proof. repeat constructor; vm_compute; done. Qed.

Lemma text_list_roundtrip_witness :
  let emit : emitter (list ProxyRecord) := fun rec seen => (seen ++ [rec], None) in
  (textproxy_consume list_env "list" "http" emit 200 (mkStream (print_list sample_list) None) (mkNet 0 0 0 [], ([], 0))).1.2
    = (entry_record "list" "http" 0 <$> sample_list, 2).
Proof.
  cbv zeta. apply (text_list_roundtrip list_env "list" "http" sample_list None (mkNet 0 0 0 []) sample_list_ok
    (list ProxyRecord) (fun rec seen => (seen ++ [rec], None)) [] 0). reflexivity.
Defined.

(** A connection that breaks inside a line leaves a line that still reads as a
    proxy: the record with the shortened port is emitted before the error is
    seen. *)
Lemma cut_line_is_emitted env n e :
  let emit : emitter (list (string * Z)) := fun rec seen => (seen ++ [(pr_IP rec, pr_Port rec)], None) in
  let '(w, r) := textproxy_consume env "list" "http" emit 200 (mkStream "10.0.0.1:80" (Some e)) (n, ([], 0)) in
  w.2 = ([("10.0.0.1", 80)], 1) /\ r = Some e.
Proof. vm_compute. done. Qed.

(** ** JSON lists *)

Module JsonStream.
Fixpoint tokens (v : json) : list token :=
  match v with
  | JStr s => [TStr s]
  | JArr l => ArrOpen :: (l ≫= tokens) ++ [ArrClose]
  | JObj l => ObjOpen :: (l ≫= (fun kv => TStr kv.1 :: tokens kv.2)) ++ [ObjClose]
  | _ => [TScalar v]
  end.
#[local] Abbreviation items := (fun l => l ≫= tokens).
Definition members (l : list (string * json)) : list token := l ≫= (fun kv => TStr kv.1 :: tokens kv.2).

Lemma tokens_head v : exists t ts, tokens v = t :: ts /\ t <> ArrClose /\ t <> ObjClose.
Proof. destruct v; eexists _, _; split; try reflexivity; done. Qed.

(** Enough fuel to read [n] tokens. *)
Lemma parse_tokens fuel :
  (forall v rest, (2 * length (tokens v) <= fuel)%nat -> parse_value fuel (tokens v ++ rest) = Some (v, rest)) /\
  (forall l rest, (2 * (length (items l) + 1) <= fuel)%nat -> parse_items fuel (items l ++ ArrClose :: rest) = Some (l, rest)) /\
  (forall l rest, (2 * (length (members l) + 1) <= fuel)%nat -> parse_members fuel (members l ++ ObjClose :: rest) = Some (l, rest)).
Proof.
  induction fuel as [|fuel (IHv & IHi & IHm)].
  { split; [|split]; [|intros; lia..]. intros v rest Hf. destruct (tokens_head v) as (t & ts & Ht & _). rewrite Ht in Hf. cbn in Hf. lia. }
  split; [|split].
  - intros v rest Hf. destruct v; try done; cbn [tokens app] in *; cbn [length] in Hf; rewrite ?length_app in Hf; cbn [length] in Hf.
    + cbn [parse_value]. rewrite <-app_assoc. cbn [app]. rewrite IHi by lia. done.
    + cbn [parse_value]. rewrite <-app_assoc. cbn [app]. change (l ≫= _) with (members l) in *. rewrite IHm by lia. done.
  - intros [|v l] rest Hf; [done|]. cbn [mbind list_bind] in *. rewrite length_app in Hf. rewrite <-app_assoc.
    destruct (tokens_head v) as (t & ts & Ht & Hna & _).
    assert (Hone : (1 <= length (tokens v))%nat) by (rewrite Ht; cbn; lia). specialize (IHv v (items l ++ ArrClose :: rest)).
    cbn [parse_items]. rewrite Ht in IHv |- *. cbn [app] in *. rewrite Ht in Hf, Hone. cbn [length] in *.
    rewrite IHv by lia. change (mbind tokens l) with (items l). destruct t; try done; cbn [mbind option_bind]; rewrite IHi by lia; done.
  - intros [|[k v] l] rest Hf; [done|]. unfold members in *. cbn [mbind list_bind fst snd app length] in *. rewrite length_app in Hf.
    assert (Hone : (1 <= length (tokens v))%nat) by (destruct (tokens_head v) as (t & ts & -> & _); cbn; lia).
    cbn [parse_members]. rewrite <-app_assoc, IHv by lia. cbn [mbind option_bind]. rewrite IHm by lia. done.
Qed.

Lemma Decode_tokens v rest fin : Decode (tokens v ++ rest) fin = Ok (v, rest).
Proof. unfold Decode. rewrite (proj1 (parse_tokens _)); [done|]. rewrite length_app. lia. Qed.

Lemma More_tokens v rest fin : More (tokens v ++ rest) fin = true.
Proof. destruct (tokens_head v) as (t & ts & -> & Ha & Ho). by destruct t. Qed.

Section Document.
Context (each : json -> result (option ProxyRecord)) (fin : stream_end).

(** The records of the list's elements. *)
Definition element_records (l : list json) : list ProxyRecord :=
  omap (fun v => match each v with Ok r => r | Err _ => None end) l.

Lemma stream_elements_read S (emit : emitter S) l rest : Forall (fun v => exists r, each v = Ok r) l -> forall fuel s,
  (length (items l) < fuel)%nat ->
  stream_elements fuel each emit (items l ++ ArrClose :: rest) fin s =
    let '(s', r) := emit_all emit (element_records l) s in (s', match r with None => Ok (ArrClose :: rest) | Some e => Err e end).
Proof.
  induction 1 as [|v l [r Hr] Hl IH]; intros fuel s Hf; (destruct fuel as [|fuel]; [lia|]).
  - done.
  - cbn [mbind list_bind] in *. rewrite length_app in Hf. cbn [stream_elements]. rewrite <-app_assoc, More_tokens, Decode_tokens, Hr.
    assert (Hone : (1 <= length (tokens v))%nat) by (destruct (tokens_head v) as (t & ts & -> & _); cbn; lia).
    unfold element_records. cbn [omap list_omap]. rewrite Hr. destruct r as [rec|]; [|apply IH; lia]. cbn [emit_all]. rewrite !ST_bind_eq.
    destruct (emit rec s) as [s' [e|]]; cbn [fst snd]; [done|]. apply IH. lia.
Qed.

Lemma skip_remaining_read l rest : forall fuel, (length (members l) < fuel)%nat -> skip_remaining fuel (members l ++ ObjClose :: rest) fin = None.
Proof.
  induction l as [|[k v] l IH]; intros fuel Hf; (destruct fuel as [|fuel]; [lia|]); [done|].
  unfold members in *. cbn [mbind list_bind fst snd app length] in *. rewrite length_app in Hf. cbn [skip_remaining More Token].
  rewrite <-app_assoc, Decode_tokens. apply IH. lia.
Qed.

Lemma find_field_read S (emit : emitter S) key before l after rest : Forall (fun kv => kv.1 <> key) before ->
  Forall (fun v => exists r, each v = Ok r) l -> forall fuel s, (length (members before) < fuel)%nat ->
  find_field fuel key each emit (members before ++ TStr key :: tokens (JArr l) ++ members after ++ ObjClose :: rest) fin s =
    emit_all emit (element_records l) s.
Proof.
  intros Hb Hl. induction Hb as [|[k v] before Hk Hb IH]; intros fuel s Hf; (destruct fuel as [|fuel]; [lia|]).
  - cbn [members mbind list_bind app find_field More Token]. rewrite bool_decide_true by done. cbn [tokens app]. unfold stream_field.
    cbn [Token]. rewrite <-app_assoc. cbn [app]. rewrite ST_bind_eq, stream_elements_read by (done || (rewrite length_app; lia)).
    destruct (emit_all emit _ s) as [s' [e|]]; cbn [fst snd]; [done|]. cbn [Token]. unfold mret, ST_ret.
    rewrite skip_remaining_read; [done|]. rewrite length_app. lia.
  - unfold members in *. cbn [mbind list_bind fst snd app length] in *. rewrite length_app in Hf. cbn [find_field More Token].
    rewrite bool_decide_false by done. rewrite <-app_assoc, Decode_tokens. apply IH. lia.
Qed.

(** A JSON list is read completely.  For a document that is an object,
    with the list under its field after fields of other names and before any
    fields, the streamed walk emits one record per element that describes one,
    in order, until the callback refuses one, and reads the document to its
    end without an error of its own; nothing behind it is looked at. *)
Theorem json_list_read S (emit : emitter S) key before l after rest s
    (Hbefore : Forall (fun kv => kv.1 <> key) before) (Hl : Forall (fun v => exists r, each v = Ok r) l) :
  stream_object key each emit (tokens (JObj (before ++ (key, JArr l) :: after)) ++ rest) fin s = emit_all emit (element_records l) s.
Proof.
  cbn [tokens app]. change (_ ≫= _) with (members (before ++ (key, JArr l) :: after)). unfold stream_object. cbn [Token].
  assert (Hm : members (before ++ (key, JArr l) :: after) = members before ++ TStr key :: tokens (JArr l) ++ members after).
  { unfold members. rewrite bind_app. cbn [mbind list_bind fst snd]. done. }
  rewrite Hm, <-!app_assoc. cbn [app]. rewrite <-!app_assoc. cbn [app].
  apply find_field_read; [done|done|]. rewrite !length_app. lia.
Qed.
End Document.

(** A response with a dead proxy, a live one, and fields around the list. *)
Definition sample_proxies : list json :=
  [JObj [("alive", JBool false); ("ip", JStr "10.0.0.1"); ("port", JInt 80)];
   JObj [("alive", JBool true); ("ip", JStr "10.0.0.2"); ("port", JInt 8080); ("protocol", JStr "SOCKS5")]].

Lemma json_list_read_witness :
  let each := proxyscrape_each (fun _ => None) ToLower 7 in
  let collect : emitter (list (string * string * Z)) := fun rec seen => (seen ++ [(pr_Protocol rec, pr_IP rec, pr_Port rec)], None) in
  stream_object "proxies" each collect
    (tokens (JObj ([("shown", JInt 2)] ++ ("proxies", JArr sample_proxies) :: [("next", JNull)])) ++ []) (Cut (ErrorString "EOF")) []
  = ([("socks5", "10.0.0.2", 8080)], None).
Proof.
  cbv zeta. rewrite json_list_read; [reflexivity|by repeat constructor|]. repeat constructor; eexists; reflexivity.
Defined.
End JsonStream.
