(* ===== verification/UiFormat.v ===== *)
(** * Formatting of the pages ([cmd/http/ui/template_helpers.go])

    Numbers, percentages, trends, dates and job categories.  Percentages are
    computed in IEEE double precision and rounded the way [%.1f] rounds: to the
    nearest tenth of the exact value, halves to even. *)
From Stdlib Require Import SpecFloat.
From stdpp Require Import pretty.
From S2P Require Import Prelude GoStrings Contract Dates Payloads ListFormats.

(** ** Numbers *)

(** The dynamic types of the type switch; a [uint] or [uint64] is converted to
    [int64]. *)
Inductive numeric := Signed (n : Z) | Unsigned (n : Z) | NotANumber.

(** The slices of three bytes from the start. *)
Fixpoint triples (fuel : nat) (s : string) : list string :=
  match fuel with
  | O => []
  | S fuel => if bool_decide (s = "") then [] else stake 3 s :: triples fuel (sdrop 3 s)
  end.
Fixpoint Join (parts : list string) (sep : string) : string :=
  match parts with
  | [] => ""
  | [p] => p
  | p :: parts => p +:+ sep +:+ Join parts sep
  end.
Definition group_digits (s : string) : string :=
  if (String.length s <=? 3)%nat then s
  else
    let lead := (String.length s mod 3)%nat in
    Join ((if (0 <? lead)%nat then [stake lead s] else []) ++ triples (String.length s) (sdrop lead s)) ",".
Definition format_int64 (n : Z) : string :=
  let sign := if n <? 0 then "-" else "" in
  let n := if n <? 0 then i64 (- n) else n in
  sign +:+ group_digits (pretty n).
Definition formatNumber (v : numeric) : string :=
  match v with
  | Signed n => format_int64 n
  | Unsigned n => format_int64 (i64 n)
  | NotANumber => "0"
  end.

(** ** Percentages *)

Abbreviation float64 := spec_float.
Definition prec64 : Z := 53.
Definition emax64 : Z := 1024.
Definition float_of_int (n : Z) : float64 := binary_normalize prec64 emax64 n 0 false.
Definition fdiv (a b : float64) : float64 := SFdiv prec64 emax64 a b.
Definition fmul (a b : float64) : float64 := SFmul prec64 emax64 a b.
Definition fsub (a b : float64) : float64 := SFsub prec64 emax64 a b.

(** [n / 2^k] to the nearest integer, halves to even. *)
Definition round_half_even (n k : Z) : Z :=
  let q := n / 2 ^ k in
  let r := n mod 2 ^ k in
  if 2 ^ k <? 2 * r then q + 1 else if (2 * r =? 2 ^ k) && Z.odd q then q + 1 else q.
(** The tenths of a positive finite double. *)
Definition tenths (m : positive) (e : Z) : Z := if 0 <=? e then Z.pos m * 2 ^ e * 10 else round_half_even (Z.pos m * 10) (- e).
(** [fmt.Sprintf("%.1f%%", f)]. *)
Definition percent_text (f : float64) : string :=
  match f with
  | S754_zero s => (if s then "-" else "") +:+ "0.0%"
  | S754_infinity s => (if s then "-" else "+") +:+ "Inf%"
  | S754_nan => "NaN%"
  | S754_finite s m e => (if s then "-" else "") +:+ pretty (tenths m e / 10) +:+ "." +:+ pretty (tenths m e mod 10) +:+ "%"
  end.
Definition percent_of (num denom : Z) : float64 := fmul (fdiv (float_of_int num) (float_of_int denom)) (float_of_int 100).
Definition formatPercent (num denom : Z) : string := if denom =? 0 then "0.0%" else percent_text (percent_of num denom).

(** The arrows are UTF-8 text. *)
Definition up_arrow : string := bytes [226; 150; 178]%nat.
Definition down_arrow : string := bytes [226; 150; 188]%nat.
Definition formatTrend (current previous : Z) : string :=
  let delta := i64 (current - previous) in
  if (delta =? 0) && (previous =? 0) then ""
  else if delta =? 0 then formatNumber (Signed 0) +:+ " (" +:+ formatPercent 0 previous +:+ ")"
  else
    let arrow := if delta <? 0 then down_arrow else up_arrow in
    let absolute := if delta <? 0 then i64 (- delta) else delta in
    if previous =? 0 then arrow +:+ " " +:+ formatNumber (Signed absolute)
    else arrow +:+ " " +:+ formatNumber (Signed absolute) +:+ " (" +:+ formatPercent absolute previous +:+ ")".

(** ** Dates *)

(** [nil], a [time.Time], a [*time.Time], anything else. *)
Inductive dateValue := DateNil | DateTime (t : Z) | DatePointer (t : option Z) | DateOther.
Definition date_value (v : dateValue) : option Z :=
  match v with
  | DateTime t | DatePointer (Some t) => if is_zero_time t then None else Some t
  | _ => None
  end.
Definition formatDate (v : dateValue) : string := match date_value v with Some t => format_day (day_of t) | None => "-" end.
Definition clock_text (t : Z) : string :=
  let s := t mod day in pad2 (s / hour) +:+ ":" +:+ pad2 (s mod hour / minute).
Definition formatDateTime (v : dateValue) : string :=
  match date_value v with Some t => format_day (day_of t) +:+ " " +:+ clock_text t | None => "-" end.

(** ** Jobs *)

Definition jobCategory (jobName : string) : string :=
  let name := TrimSpace jobName in
  if bool_decide (name ∈ ["Paladin"; "Gladiator"; "Warrior"; "Marauder"; "Dark Knight"; "Gunbreaker"]) then "tank"
  else if bool_decide (name ∈ ["White Mage"; "Conjurer"; "Scholar"; "Astrologian"; "Sage"]) then "healer"
  else if bool_decide (name ∈ ["Monk"; "Pugilist"; "Dragoon"; "Lancer"; "Ninja"; "Rogue"; "Samurai"; "Reaper"; "Viper"]) then "melee"
  else if bool_decide (name ∈ ["Bard"; "Archer"; "Machinist"; "Dancer"]) then "phys_ranged"
  else if bool_decide (name ∈ ["Black Mage"; "Thaumaturge"; "Summoner"; "Arcanist"; "Red Mage"; "Pictomancer"; "Blue Mage"]) then "magic_ranged"
  else if bool_decide (name ∈ ["Carpenter"; "Blacksmith"; "Armorer"; "Goldsmith"; "Leatherworker"; "Weaver"; "Alchemist"; "Culinarian"]) then "crafter"
  else if bool_decide (name ∈ ["Miner"; "Botanist"; "Fisher"]) then "gatherer"
  else "other".
Definition roleColor (role : string) : string :=
  if bool_decide (role = "tank") then "role-tank" else if bool_decide (role = "healer") then "role-healer"
  else if bool_decide (role = "melee") then "role-melee" else if bool_decide (role = "phys_ranged") then "role-phys-ranged"
  else if bool_decide (role = "magic_ranged") then "role-magic-ranged" else if bool_decide (role = "crafter") then "role-crafter"
  else if bool_decide (role = "gatherer") then "role-gatherer" else "role-other".

(** ** Template functions *)

Definition tf_add (a b : Z) : Z := i64 (a + b).
Definition tf_sub (a b : Z) : Z := i64 (a - b).
Definition tf_mul (a b : Z) : Z := i64 (a * b).
Definition tf_div (a b : Z) : Z := if b =? 0 then 0 else i64 (Z.quot a b).
(** Alternating keys and values; a key that is not a string is [None]. *)
Fixpoint tf_dict {A} (key : A -> option string) (values : list A) (d : gmap string A) : option (gmap string A) :=
  match values with
  | [] => Some d
  | [_] => None
  | k :: v :: values => match key k with Some name => tf_dict key values (<[name := v]> d) | None => None end
  end.

(** ** Examples of the package's tests *)

Example formatNumber_examples :
  formatNumber <$> [Signed 0; Signed 5; Signed 999; Signed 1000; Signed 1234567; Signed 1000000000; Signed (-1234)]
  = ["0"; "5"; "999"; "1,000"; "1,234,567"; "1,000,000,000"; "-1,234"].
Proof. vm_compute. reflexivity. Qed.
Example formatPercent_examples :
  (fun p => formatPercent p.1 p.2) <$> [(0, 0); (0, 100); (25, 100); (1, 3); (2, 3); (100, 100); (1, 1600)]
  = ["0.0%"; "0.0%"; "25.0%"; "33.3%"; "66.7%"; "100.0%"; "0.1%"].
Proof. vm_compute. reflexivity. Qed.

(** ** Grouping *)

Fixpoint concat_text (parts : list string) : string := match parts with [] => "" | p :: parts => p +:+ concat_text parts end.
Lemma stake_sdrop n : forall s, stake n s +:+ sdrop n s = s.
Proof. induction n as [|n IH]; intros [|a s]; try done. cbn [stake sdrop]. by rewrite string_cons_app, IH. Qed.

Lemma triples_spec k : forall fuel s, String.length s = (3 * k)%nat -> (k <= fuel)%nat ->
  concat_text (triples fuel s) = s /\ Forall (fun p => String.length p = 3%nat) (triples fuel s) /\ length (triples fuel s) = k.
Proof.
  induction k as [|k IH]; intros fuel s Hs Hf.
  - destruct s; [|done]. by destruct fuel.
  - destruct fuel as [|fuel]; [lia|]. cbn [triples]. rewrite bool_decide_false by (intros ->; cbn in Hs; lia).
    destruct (IH fuel (sdrop 3 s)) as (Hc & Hl & Hn); [rewrite length_sdrop; lia|lia|]. cbn [concat_text length]. rewrite Hc, Hn. split_and!.
    + apply stake_sdrop.
    + constructor; [apply stake_length; lia|done].
    + done.
Qed.

(** The digits of a number in groups: three per group, one to three in the first. *)
Definition grouped (digits : string) (parts : list string) : Prop :=
  concat_text parts = digits /\ exists first rest, parts = first :: rest /\ (1 <= String.length first <= 3)%nat
    /\ Forall (fun p => String.length p = 3%nat) rest.

Lemma group_digits_spec s : s <> "" -> exists parts, group_digits s = Join parts "," /\ grouped s parts.
Proof.
  intros Hne. assert (Hpos : (0 < String.length s)%nat) by (destruct s; [done|cbn; lia]). unfold group_digits.
  destruct (Nat.leb_spec (String.length s) 3) as [Hle|Hgt].
  { exists [s]. split; [done|]. split; [cbn; by rewrite string_app_nil|]. exists s, []. split; [done|]. split; [lia|constructor]. }
  pose proof (Nat.div_mod (String.length s) 3 ltac:(done)) as Hdm. pose proof (Nat.mod_upper_bound (String.length s) 3 ltac:(done)) as Hlt.
  set (lead := (String.length s mod 3)%nat) in *. set (k := (String.length s / 3)%nat) in *.
  assert (Hk : (0 < k)%nat) by lia.
  destruct (triples_spec k (String.length s) (sdrop lead s)) as (Hc & Hl & Hn); [rewrite length_sdrop; lia|lia|].
  eexists. split; [reflexivity|]. destruct (Nat.ltb_spec 0 lead) as [Hlead|Hlead].
  - split; [cbn [app concat_text]; rewrite Hc; apply stake_sdrop|]. do 2 eexists. split; [reflexivity|]. split; [rewrite stake_length by lia; lia|done].
  - assert (lead = 0%nat) as Hz by lia. rewrite Hz in *. cbn [sdrop] in *. destruct (triples (String.length s) s) as [|p ps] eqn:Ht; [rewrite <-Hn in Hk; by apply Nat.lt_irrefl in Hk|].
    split; [done|]. inversion Hl; subst. do 2 eexists. split; [reflexivity|]. split; [lia|done].
Qed.

Definition comma_char : Ascii.ascii := Ascii.ascii_of_nat 44.
Fixpoint without_commas (s : string) : string :=
  match s with
  | EmptyString => ""
  | String a s => if bool_decide (a = comma_char) then without_commas s else String a (without_commas s)
  end.
Lemma without_commas_app a b : without_commas (a +:+ b) = without_commas a +:+ without_commas b.
Proof. induction a as [|c a IH]; [done|]. rewrite string_cons_app. cbn [without_commas]. rewrite IH. by case_bool_decide. Qed.
Lemma without_commas_free s : free_of comma_char s = true -> without_commas s = s.
Proof.
  induction s as [|a s IH]; [done|]. cbn [free_of without_commas]. case_bool_decide; [done|]. cbn [negb andb]. intros H1. by rewrite IH.
Qed.
Lemma without_commas_Join parts : free_of comma_char (concat_text parts) = true -> without_commas (Join parts ",") = concat_text parts.
Proof.
  induction parts as [|p [|q parts] IH]; [done|..]; cbn [concat_text]; rewrite free_of_app, andb_true_iff; intros [Hp Hrest].
  - cbn [Join]. by rewrite without_commas_free, string_app_nil.
  - change (Join (p :: q :: parts) ",") with (p +:+ "," +:+ Join (q :: parts) ",").
    rewrite !without_commas_app, IH by done. by rewrite without_commas_free.
Qed.

(** The page shows every count in groups of three digits, and reading the text
    without its commas gives the count back; only the smallest machine integer
    is shown wrongly. *)
Theorem formatNumber_readable n : is_i64 n -> n <> min_int64 ->
  without_commas (formatNumber (Signed n)) = pretty n /\
  exists parts, formatNumber (Signed n) = (if n <? 0 then "-" else "") +:+ Join parts "," /\ grouped (pretty (Z.abs n)) parts.
Proof.
  intros Hn Hmin. cbn [formatNumber]. unfold format_int64.
  assert (Habs : (if n <? 0 then i64 (- n) else n) = Z.abs n).
  { destruct (Z.ltb_spec n 0); [|lia]. rewrite i64_id; unfold is_i64, min_int64, max_int64 in *; lia. }
  rewrite Habs. destruct (pretty_number (Z.abs n)) as (_ & _ & Hne); [lia|]. destruct (group_digits_spec (pretty (Z.abs n)) Hne) as (parts & -> & Hg).
  split; [|by exists parts]. assert (Hfree : free_of comma_char (pretty (Z.abs n)) = true) by (apply port_free; [done|lia]).
  rewrite without_commas_app, without_commas_Join by by rewrite (proj1 Hg). rewrite (proj1 Hg).
  destruct (Z.ltb_spec n 0) as [Hneg|Hpos]; [|by rewrite Z.abs_eq].
  destruct n as [|p|p]; [lia|lia|]. reflexivity.
Qed.
Example formatNumber_smallest : formatNumber (Signed min_int64) = "--9,223,372,036,854,775,808".
Proof. vm_compute. reflexivity. Qed.
