(* ===== verification/UiPages.v ===== *)
(** * The statistics pages ([cmd/http/ui])

    Every aggregate page reads one snapshot through [currentStats] and computes
    the data its template shows.  A reply is the data handed to the template
    before rendering; the statistics service's answer is part of the
    controller. *)
From Stdlib Require Import SpecFloat.
From stdpp Require Import pretty.
From S2P Require Import Prelude GoErrors GoStrings Contract Dates Payloads Worlds Snapshot StatsService Census UiFormat.

(** ** Sorting *)

(** [sort.Slice] with a strict weak order gives a sorted arrangement; which one
    of several is not specified. *)
Class SortSlice := sort_slice : forall A, (A -> A -> bool) -> list A -> list A.
Class SortSliceLaws `{SortSlice} := {
  sort_permutes A (less : A -> A -> bool) l : sort_slice A less l ≡ₚ l;
  sort_sorts A (less : A -> A -> bool) l : (forall a b, less a b = true -> less b a = false) ->
    (forall a b c, less b a = false -> less c b = false -> less c a = false) -> Sorted (fun a b => less b a = false) (sort_slice A less l);
}.

(** ** Requests and replies *)

(** [ur_query] is [r.URL.Query().Get], [ur_encoded] its canonical encoding. *)
Record uiRequest := mkUiRequest {
  ur_path : string; ur_query : string -> string; ur_encoded : string; ur_HXRequest : string; ur_IfNoneMatch : string; ur_world : string;
}.
(** [BaseURL] is added by [render]; the statistics pages have no search query. *)
Record PageData (A : Type) := mkPageData {
  pd_Title : string; pd_ActiveNav : string; pd_CanonicalPath : string; pd_Description : string; pd_StatsUpdated : string; pd_StatsStale : bool;
  pd_Data : A;
}.
Arguments mkPageData {A}. Arguments pd_Title {A}. Arguments pd_Data {A}. Arguments pd_CanonicalPath {A}. Arguments pd_StatsStale {A}.
Inductive uiReply (A : Type) :=
  | UiUnavailable                                  (* 503 with Retry-After: 60 *)
  | UiNotModified (etag : string)                  (* 304 *)
  | UiRedirect (location : string)                 (* 302 *)
  | UiPage (etag : string) (page : PageData A)
  | UiPartial (etag : string) (data : A).
Arguments UiUnavailable {A}. Arguments UiNotModified {A}. Arguments UiRedirect {A}. Arguments UiPage {A}. Arguments UiPartial {A}.

(** The controller: whether it has statistics and what they answer, the
    configured expansions of its service, and the base URL. *)
Record uiController := mkUiController {
  uc_stats : option (result (UIStatsSnapshot * UIStatsState));
  uc_expansions : option (list ExpansionConfig);
  uc_baseURL : string;
}.
Definition NewUIController (stats : option (result (UIStatsSnapshot * UIStatsState))) (expansions : option (list ExpansionConfig)) (baseURL : string) : uiController :=
  mkUiController stats expansions (TrimRight_slash baseURL).

(** ** currentStats *)

(** [hash/fnv] 64-bit FNV-1a. *)
Fixpoint fnv64a (h : Z) (s : string) : Z :=
  match s with
  | EmptyString => h
  | String a s => fnv64a (Z.lxor h (Z.of_N (Ascii.N_of_ascii a)) * 1099511628211 mod 2 ^ 64) s
  end.
Definition hex_digit (n : Z) : Ascii.ascii := Ascii.ascii_of_N (Z.to_N (if n <? 10 then 48 + n else 87 + n)).
Fixpoint hex_text (fuel : nat) (n : Z) (s : string) : string :=
  match fuel with
  | O => s
  | S fuel => let s := String (hex_digit (n mod 16)) s in if n / 16 =? 0 then s else hex_text fuel (n / 16) s
  end.
Definition quote_text (s : string) : string := bytes [34%nat] +:+ s +:+ bytes [34%nat].
Definition etag_of (s : UIStatsSnapshot) (r : uiRequest) : string :=
  quote_text ("ui-" +:+ hex_text 16 (fnv64a 14695981039346656037
    (pretty (ss_GeneratedAt s) +:+ "|" +:+ ur_path r +:+ "|" +:+ ur_encoded r +:+ "|" +:+ ToLower (ur_HXRequest r))) "").

Definition currentStats {A} (c : uiController) (r : uiRequest) (k : string -> UIStatsSnapshot -> UIStatsState -> uiReply A) : uiReply A :=
  match uc_stats c with
  | None | Some (Err _) => UiUnavailable
  | Some (Ok (snapshot, state)) =>
      let etag := etag_of snapshot r in
      if bool_decide (ur_IfNoneMatch r = etag) then UiNotModified etag else k etag snapshot state
  end.
Definition statsPageData {A} (title activeNav canonicalPath description : string) (state : UIStatsState) (data : A) : PageData A :=
  mkPageData title activeNav canonicalPath description (format_day (day_of (us_GeneratedAt state)) +:+ " " +:+ clock_text (us_GeneratedAt state) +:+ " UTC")
    (us_Stale state) data.

(** ** The hierarchy ([world_data.go]) *)

Definition WorldToDC (world : string) : string := let dc := WorldDatacenter world in if bool_decide (dc <> "") then dc else "Unknown".
Definition isIndexableWorld (world : string) : bool :=
  bool_decide (world <> "") && bool_decide (RegionForDatacenter (WorldToDC world) <> "").
Definition expansions_of (c : uiController) : list ExpansionConfig :=
  match uc_expansions c with Some (e :: es) => e :: es | _ => DefaultExpansions end.
Definition or_unknown (name : string) : string := if bool_decide (name = "") then "Unknown" else name.
(** [make(map[string]int64)] filled from rows; a missing key reads 0. *)
Definition count_map {A} (key : A -> string) (count : A -> Z) (rows : list A) : gmap string Z :=
  fold_left (fun m row => <[key row := count row]> m) rows ∅.
Definition count_of (m : gmap string Z) (key : string) : Z := default 0 (m !! key).

Section Pages.
Context `{SortSlice} (c : uiController) (r : uiRequest).
Definition query_param (name : string) : string := TrimSpace (ur_query r name).

(** ** Dashboard *)

Record ExpansionCard := mkExpansionCard { xc_Icon : string; xc_Name : string; xc_Count : Z; xc_Percent : string }.
Record RegionSummary := mkRegionSummary { rs_Region : string; rs_Total : Z; rs_Active : Z; rs_ActiveRatio : string }.
Record DashboardViewData := mkDashboard {
  dv_TotalCharacters : Z; dv_ActiveCharacters : Z; dv_ActivePercent : string; dv_MaxLevelCharacters : Z; dv_MaxLevel : Z;
  dv_NewCharacters30d : Z; dv_NewCharactersTrend : string; dv_ChartLabels : list string; dv_ChartData : list Z;
  dv_Regions : list RegionSummary; dv_RaceLabels : list string; dv_RaceData : list Z; dv_ExpansionCompletions : list ExpansionCard;
}.
Definition dashboard_data (s : UIStatsSnapshot) : DashboardViewData :=
  let total := su_Total (ss_Summary s) in
  let active := su_Active (ss_Summary s) in
  let maxLevel := if ss_MaxLevel s =? 0 then 100 else ss_MaxLevel s in
  let regions := (fun row => mkRegionSummary (or_unknown (gc_Key row)) (gc_Total row) (gc_Active row) (formatPercent (gc_Active row) (gc_Total row)))
                   <$> SnapshotGroups (Some s) "region" zeroScope in
  let races := filter (fun row => gc_Key row <> "") (SnapshotGroups (Some s) "race" zeroScope) in
  let countMap := count_map ec_Expansion ec_Count (SnapshotExpansions (Some s) zeroScope) in
  let cards := (fun e => let n := count_of countMap (ex_Name e) in mkExpansionCard (ex_Icon e) (ex_Name e) n (formatPercent n total)) <$> expansions_of c in
  let dailyMap := count_map dc_Day dc_Count (SnapshotDaily (Some s) zeroScope) in
  let days := (fun i => format_day (day_of (ss_GeneratedAt s) - i)) <$> reverse (seqZ 0 30) in
  let window := NewCharactersWindow (Some s) zeroScope in
  mkDashboard total active (formatPercent active total) (su_MaxLevel (ss_Summary s)) maxLevel
    (nt_Current window) (formatTrend (nt_Current window) (nt_Previous window)) (sdrop 5 <$> days) (count_of dailyMap <$> days)
    regions (gc_Key <$> races) (gc_Total <$> races) cards.
Definition Dashboard : uiReply DashboardViewData :=
  currentStats c r (fun etag s state => UiPage etag (statsPageData "Dashboard" "dashboard" "/"
    "Final Fantasy XIV population census: total characters, active players, race demographics, and 30-day growth trends across every region and datacenter." state (dashboard_data s))).

(** ** World drill-down *)

Record WorldRow := mkWorldRow {
  wr_Region : string; wr_Datacenter : string; wr_World : string; wr_Total : Z; wr_Active : Z; wr_NewCharacters30d : Z; wr_ActiveRatio : string;
}.
Record WorldDrilldownData := mkDrilldown { wd_Region : string; wd_Worlds : list WorldRow }.
Definition world_window (s : UIStatsSnapshot) (world : string) : Z := nt_Current (NewCharactersWindow (Some s) (mkStatsScope "" "" world)).
Definition world_row (s : UIStatsSnapshot) (wc : GroupCount) : WorldRow :=
  let wDC := WorldToDC (gc_Key wc) in
  mkWorldRow (or_unknown (RegionForDatacenter wDC)) wDC (gc_Key wc) (gc_Total wc) (gc_Active wc) (world_window s (gc_Key wc))
    (formatPercent (gc_Active wc) (gc_Total wc)).
Definition world_row_less (a b : WorldRow) : bool :=
  if bool_decide (wr_Datacenter a <> wr_Datacenter b) then String.ltb (wr_Datacenter a) (wr_Datacenter b) else wr_Total b <? wr_Total a.
Definition drilldown_data (s : UIStatsSnapshot) (region : string) : WorldDrilldownData :=
  mkDrilldown region (sort_slice _ world_row_less
    (filter (fun row => EqualFold (wr_Region row) region = true) (world_row s <$> SnapshotGroups (Some s) "world" zeroScope))).
Definition WorldDrilldown : uiReply WorldDrilldownData :=
  currentStats c r (fun etag s _ =>
    let region := query_param "region" in
    UiPartial etag (drilldown_data s (if bool_decide (region = "") then "NA" else region))).

(** ** Worlds *)

Record WorldDetailRow := mkWorldDetailRow {
  dr_World : string; dr_Datacenter : string; dr_Region : string; dr_Total : Z; dr_Active : Z; dr_ActiveRatio : string;
  dr_ActivePctVal : float64; dr_NewCharacters30d : Z;
}.
Record WorldsViewData := mkWorldsView {
  wv_TotalCharacters : Z; wv_ActiveCharacters : Z; wv_NewCharacters30d : Z; wv_NewCharactersTrend : string;
  wv_SelectedRegion : string; wv_SelectedDC : string; wv_Regions : list string; wv_Datacenters : list string; wv_Worlds : list WorldDetailRow;
}.
Definition share_value (part whole : Z) : float64 := if 0 <? whole then percent_of part whole else S754_zero false.
Definition world_detail_row (s : UIStatsSnapshot) (row : GroupCount) : WorldDetailRow :=
  let wDC := WorldToDC (gc_Key row) in
  mkWorldDetailRow (gc_Key row) wDC (RegionForDatacenter wDC) (gc_Total row) (gc_Active row) (formatPercent (gc_Active row) (gc_Total row))
    (share_value (gc_Active row) (gc_Total row)) (world_window s (gc_Key row)).
Definition all_worlds (s : UIStatsSnapshot) : list WorldDetailRow :=
  world_detail_row s <$> filter (fun row => isIndexableWorld (gc_Key row) = true) (SnapshotGroups (Some s) "world" zeroScope).
(** A selection that is not empty has to match. *)
Definition selects (selected value : string) : bool := bool_decide (selected = "") || EqualFold value selected.
Definition sum_int64 (l : list Z) : Z := fold_left (fun acc n => i64 (acc + n)) l 0.
Definition worlds_data (s : UIStatsSnapshot) (selectedRegion selectedDC : string) : WorldsViewData :=
  let rows := filter (fun row => selects selectedRegion (dr_Region row) && selects selectedDC (dr_Datacenter row) = true) (all_worlds s) in
  let regionList := sort_Strings (elements (list_to_set (dr_Region <$> all_worlds s) : gset string)) in
  let dcList := if bool_decide (selectedRegion <> "") then DatacentersForRegion selectedRegion
                else sort_Strings (elements (list_to_set (dr_Datacenter <$> all_worlds s) : gset string)) in
  let newWindow := NewCharactersWindow (Some s) (mkStatsScope selectedRegion selectedDC "") in
  mkWorldsView (sum_int64 (dr_Total <$> rows)) (sum_int64 (dr_Active <$> rows)) (nt_Current newWindow)
    (formatTrend (nt_Current newWindow) (nt_Previous newWindow)) selectedRegion selectedDC regionList dcList
    (sort_slice _ (fun a b => dr_Total b <? dr_Total a) rows).
Definition Worlds_page : uiReply WorldsViewData :=
  currentStats c r (fun etag s state =>
    UiPage etag (statsPageData "Worlds Census" "worlds" "/ui/worlds"
      "Final Fantasy XIV world rankings: total and active character counts for every world and datacenter, with region filters and 30-day activity ratios." state (worlds_data s (query_param "region") (query_param "dc")))).

(** ** Races *)

Record RaceRow := mkRaceRow {
  ra_Race : string; ra_Total : Z; ra_Active : Z; ra_ActiveRatio : string; ra_ShareOfTotal : string; ra_SharePercentVal : float64;
}.
Definition race_row (total : Z) (row : GroupCount) : RaceRow :=
  mkRaceRow (or_unknown (gc_Key row)) (gc_Total row) (gc_Active row) (formatPercent (gc_Active row) (gc_Total row))
    (formatPercent (gc_Total row) total) (share_value (gc_Total row) total).
(** Labels and data of the charts as pairs; the selection itself is the request's. *)
Record RacesViewData := mkRacesView {
  rv_TotalCharacters : Z; rv_ActiveCharacters : Z; rv_NewCharacters30d : Z; rv_NewCharactersTrend : string;
  rv_Datacenters : list string; rv_Worlds : list string; rv_Races : list RaceRow; rv_Chart : list (string * Z);
  rv_Tribes : list (string * Z); rv_Genders : list (string * Z); rv_RaceGenders : list (string * Z);
}.
Definition races_scope (region dc world : string) : StatsScope :=
  if bool_decide (world <> "") then mkStatsScope "" "" world
  else if bool_decide (dc <> "") then mkStatsScope "" dc ""
  else if bool_decide (region <> "") then mkStatsScope region "" "" else zeroScope.
Definition series (rows : list GroupCount) : list (string * Z) := (fun row => (gc_Key row, gc_Total row)) <$> rows.
Definition named_rows (rows : list GroupCount) : list GroupCount := filter (fun row => gc_Key row <> "") rows.
Definition races_data (s : UIStatsSnapshot) (region dc world : string) : RacesViewData :=
  let scope := races_scope region dc world in
  let newWindow := NewCharactersWindow (Some s) scope in
  let races := SnapshotGroups (Some s) "race" scope in
  let total := sum_int64 (gc_Total <$> races) in
  let rows := race_row total <$> races in
  let dcList := if bool_decide (region <> "") then DatacentersForRegion region else Datacenters in
  let worldList :=
    if bool_decide (dc <> "") then WorldsForDatacenter dc
    else if bool_decide (region <> "") then sort_Strings (DatacentersForRegion region ≫= WorldsForDatacenter)
    else Worlds in
  mkRacesView total (sum_int64 (gc_Active <$> races)) (nt_Current newWindow) (formatTrend (nt_Current newWindow) (nt_Previous newWindow))
    dcList worldList rows ((fun row => (ra_Race row, ra_Total row)) <$> rows) (series (named_rows (SnapshotGroups (Some s) "tribe" scope)))
    (series (SnapshotGroups (Some s) "gender" scope)) (series (named_rows (SnapshotGroups (Some s) "race_gender" scope))).
Definition races_title (region dc world : string) : string :=
  let base := "Race & Clan Demographics" in
  if bool_decide (world <> "") then base +:+ " - " +:+ world
  else if bool_decide (dc <> "") then base +:+ " - " +:+ dc +:+ " DC"
  else if bool_decide (region <> "") then base +:+ " - " +:+ region else base.
Definition Races : uiReply RacesViewData :=
  currentStats c r (fun etag s state =>
    let region := query_param "region" in let dc := query_param "dc" in let world := query_param "world" in
    UiPage etag (statsPageData (races_title region dc world) "races" "/ui/races"
      "Race and clan demographics for Final Fantasy XIV: population shares, active ratios, and tribe and gender breakdowns filterable by region, datacenter, and world." state (races_data s region dc world))).

(** ** Expansions *)

Record ExpansionProgression := mkProgression {
  pr_Name : string; pr_Version : string; pr_FinalQuest : string; pr_Icon : string; pr_Completions : Z; pr_PercentOfTotal : string;
  pr_PercentValue : float64; pr_RetentionRate : string; pr_DropOffRate : string;
}.
(** Retention against the expansion before, of which [prev] is the count; -1
    means there is none. *)
Definition retention (prev count : Z) : string * string :=
  if 0 <? prev then
    let retPct := percent_of count prev in
    let dropPct := fsub (float_of_int 100) retPct in
    (percent_text retPct, percent_text (if SFltb dropPct (S754_zero false) then S754_zero false else dropPct))
  else if prev =? 0 then ("0.0%", "100.0%")
  else ("-", "-").
Fixpoint progression (countMap : gmap string Z) (total prev : Z) (es : list ExpansionConfig) : list ExpansionProgression :=
  match es with
  | [] => []
  | info :: es =>
      let count := count_of countMap (ex_Name info) in
      mkProgression (ex_Name info) (ex_Version info) (ex_FinalQuest info) (ex_Icon info) count (formatPercent count total)
        (share_value count total) (retention prev count).1 (retention prev count).2
      :: progression countMap total count es
  end.
Definition expansions_data (s : UIStatsSnapshot) : Z * list ExpansionProgression :=
  let total := su_Total (ss_Summary s) in
  (total, progression (count_map ec_Expansion ec_Count (SnapshotExpansions (Some s) zeroScope)) total (-1) (expansions_of c)).
Definition Expansions : uiReply (Z * list ExpansionProgression) :=
  currentStats c r (fun etag s state =>
    UiPage etag (statsPageData "Expansion Progression" "expansions" "/ui/expansions"
      "Main scenario quest completion rates for every Final Fantasy XIV expansion from A Realm Reborn to Dawntrail, with retention and drop-off metrics." state (expansions_data s))).

(** ** World detail *)

Record MSQRow := mkMSQRow { mq_Expansion : string; mq_Count : Z; mq_PercentTotal : string }.
Record WorldDetailViewData := mkWorldDetailView {
  vd_World : string; vd_Datacenter : string; vd_Region : string; vd_TotalCharacters : Z; vd_ActiveCharacters : Z; vd_ActiveRatio : string;
  vd_ActivePercentVal : float64; vd_NewCharacters30d : Z; vd_NewCharactersTrend : string; vd_Races : list RaceRow; vd_RaceChart : list (string * Z);
  vd_MSQCompletions : list MSQRow; vd_Timeline : list DailyCount;
}.
(** World names are ASCII. *)
Definition world_totals (s : UIStatsSnapshot) (world : string) : Z * Z :=
  match head (filter (fun row => EqualFold (gc_Key row) world = true) (SnapshotGroups (Some s) "world" zeroScope)) with
  | Some row => (gc_Total row, gc_Active row)
  | None => (0, 0)
  end.
Definition world_detail_data (s : UIStatsSnapshot) (worldName : string) : WorldDetailViewData :=
  let '(total, active) := world_totals s worldName in
  let scope := mkStatsScope "" "" worldName in
  let window := NewCharactersWindow (Some s) scope in
  let windowDays := filter (fun d => String.leb (nt_StartDay window) (dc_Day d) = true) (SnapshotDaily (Some s) scope) in
  let dc := WorldToDC worldName in
  let races := race_row total <$> SnapshotGroups (Some s) "race" scope in
  let msqMap := count_map ec_Expansion ec_Count (SnapshotExpansions (Some s) scope) in
  let msq := (fun e => let n := count_of msqMap (ex_Name e) in mkMSQRow (ex_Name e) n (if 0 <? total then formatPercent n total else "0.0%")) <$> expansions_of c in
  mkWorldDetailView worldName dc (or_unknown (RegionForDatacenter dc)) total active (formatPercent active total) (share_value active total)
    (nt_Current window) (formatTrend (nt_Current window) (nt_Previous window)) (sort_slice _ (fun a b => ra_Total b <? ra_Total a) races)
    ((fun row => (ra_Race row, ra_Total row)) <$> races) msq windowDays.
Definition WorldDetail_page : uiReply WorldDetailViewData :=
  let worldName := TrimSpace (ur_world r) in
  if bool_decide (worldName = "") then UiRedirect "/ui/worlds"
  else currentStats c r (fun etag s state =>
    UiPage etag (statsPageData (worldName +:+ " - World Demographics") "worlds" ("/ui/worlds/" +:+ worldName)
      ("Character population for the FFXIV world " +:+ worldName +:+ ": active players, race demographics, MSQ completions, and new characters over the last 30 days.") state (world_detail_data s worldName))).

(** ** Methodology and sitemap *)

Definition Methodology : PageData (list ExpansionConfig) :=
  mkPageData "Methodology" "methodology" "/ui/methodology"
    "How the FFXIV Census builds its statistics: public Lodestone achievements as the activity signal, snapshot refreshes, data sources, and known limitations." "" false (expansions_of c).

Record sitemapURL := mkSitemapURL { sm_Loc : string; sm_LastMod : string }.
Definition sitemapStaticPaths : list string := ["/"; "/ui/races"; "/ui/worlds"; "/ui/expansions"; "/ui/methodology"].
(** [Format(time.RFC3339)]: whole seconds. *)
Definition rfc3339_seconds (t : Z) : string := format_rfc3339 (t - t mod second).
(** The entries of the document; the reply is always 200. *)
Definition Sitemap : list sitemapURL :=
  let '(lastmod, worldPaths) :=
    match uc_stats c with
    | Some (Ok (s, _)) =>
        (rfc3339_seconds (ss_GeneratedAt s),
         (fun row => "/ui/worlds/" +:+ gc_Key row) <$> filter (fun row => isIndexableWorld (gc_Key row) = true) (SnapshotGroups (Some s) "world" zeroScope))
    | _ => ("", [])
    end in
  (fun path => mkSitemapURL (uc_baseURL c +:+ path) lastmod) <$> (sitemapStaticPaths ++ worldPaths).
End Pages.
