(* ===== verification/UiFacts.v ===== *)
(** * What the statistics pages show

    The numbers of a page agree with each other and with the snapshot they are
    read from. *)
From Stdlib Require Import SpecFloat.
From stdpp Require Import pretty.
From S2P Require Import Prelude GoErrors GoStrings Contract Dates Payloads Worlds CharacterStore Snapshot StatsStore StatsStoreFacts StatsRefresh StatsWindow StatsService Census UiFormat UiPages.

(** ** Counting maps *)

Lemma count_map_notin {A} (key : A -> string) (count : A -> Z) rows (m : gmap string Z) k : k ∉ key <$> rows ->
  fold_left (fun m row => <[key row := count row]> m) rows m !! k = m !! k.
Proof.
  revert m. induction rows as [|row rows IH]; intros m Hk; [done|]. rewrite fmap_cons, not_elem_of_cons in Hk. cbn [fold_left].
  rewrite IH by tauto. apply lookup_insert_ne. intros Heq. by apply (proj1 Hk).
Qed.
(** With distinct keys a lookup is the sum over the rows with the key. *)
Lemma count_of_sum {A} (key : A -> string) (count : A -> Z) rows k : NoDup (key <$> rows) ->
  count_of (count_map key count rows) k = sumZ ((fun row => if bool_decide (key row = k) then count row else 0) <$> rows).
Proof.
  unfold count_of, count_map. assert (Hg : forall m : gmap string Z, (forall row, row ∈ rows -> m !! key row = None) -> NoDup (key <$> rows) ->
    default 0 (fold_left (fun m row => <[key row := count row]> m) rows m !! k) =
    default 0 (m !! k) + sumZ ((fun row => if bool_decide (key row = k) then count row else 0) <$> rows)).
  { induction rows as [|row rows IH]; intros m Hm Hnd; [cbn; lia|]. rewrite fmap_cons in Hnd. inversion Hnd as [|? ? Hn Hnd']; subst.
    cbn [fold_left]. rewrite IH; [|intros row' Hr|done].
    - rewrite fmap_cons, sumZ_cons. case_bool_decide as Hk.
      + subst k. rewrite lookup_insert_eq, (Hm row) by left. cbn. lia.
      + rewrite lookup_insert_ne by done. lia.
    - rewrite lookup_insert_ne; [apply Hm; by right|]. intros Heq. apply Hn. rewrite Heq. by apply list_elem_of_fmap_2. }
  intros Hnd. rewrite Hg; [by rewrite lookup_empty|by intros; apply lookup_empty|done].
Qed.

(** Sums can be exchanged. *)
Lemma sumZ_swap {A B} (f : A -> B -> Z) (la : list A) (lb : list B) :
  sumZ ((fun a => sumZ (f a <$> lb)) <$> la) = sumZ ((fun b => sumZ ((fun a => f a b) <$> la)) <$> lb).
Proof.
  induction la as [|a la IH]; [cbn; by induction lb as [|b lb IH]; [|rewrite fmap_cons, sumZ_cons, <-IH]|].
  rewrite fmap_cons, sumZ_cons, IH, <-sumZ_fmap_add. apply sumZ_ext. intros b _. by rewrite fmap_cons, sumZ_cons.
Qed.
(** A value counted once per element that equals it. *)
Lemma sumZ_once (l : list string) (k : string) (n : Z) : NoDup l ->
  sumZ ((fun x => if bool_decide (k = x) then n else 0) <$> l) = if bool_decide (k ∈ l) then n else 0.
Proof.
  induction l as [|x l IH]; intros Hnd; [done|]. inversion Hnd as [|? ? Hx Hl]; subst. rewrite fmap_cons, sumZ_cons, IH by done.
  destruct (decide (k = x)) as [->|Hne].
  - rewrite (bool_decide_true (x = x)) by done. rewrite (bool_decide_true (x ∈ x :: l)) by left. rewrite (bool_decide_false (x ∈ l)) by done. lia.
  - rewrite (bool_decide_false (k = x)) by done. rewrite Z.add_0_l. rewrite (bool_decide_ext (k ∈ x :: l) (k ∈ l)); [done|]. rewrite elem_of_cons. tauto.
Qed.

(** ** Daily rows of a scope *)

(** Rows with distinct keys keep a distinct part of the key once the rest is fixed. *)
Lemma selected_distinct {A C} (P : A -> Prop) `{forall x, Decision (P x)} (conv : A -> C) (part : C -> string) (key : A -> string) l :
  (forall x y, P x -> P y -> part (conv x) = part (conv y) -> key x = key y) -> NoDup (key <$> l) -> NoDup (part <$> (conv <$> filter P l)).
Proof.
  intros Hkey Hk. rewrite <-list_fmap_compose. induction l as [|x l IH]; [constructor|]. rewrite fmap_cons in Hk. inversion Hk as [|? ? Hx Hk']; subst.
  rewrite filter_cons. case_decide as Hs; [|by apply IH]. rewrite fmap_cons. constructor; [|by apply IH].
  rewrite list_elem_of_fmap. intros (y & Heq & [Hs' Hin]%list_elem_of_filter). apply Hx. apply list_elem_of_fmap. exists y. split; [by apply Hkey|done].
Qed.
Lemma scope_days_distinct s scope : snapshot_ok s -> NoDup (dc_Day <$> SnapshotDaily (Some s) scope).
Proof.
  intros Hok. cbn [SnapshotDaily]. rewrite merge_sort_Permutation. eapply selected_distinct, so_day_keys, Hok. cbn. unfold day_key. intros x y -> -> ->. done.
Qed.
Lemma scope_groups_distinct s dimension scope : snapshot_ok s -> NoDup (gc_Key <$> SnapshotGroups (Some s) dimension scope).
Proof.
  intros Hok. cbn [SnapshotGroups]. rewrite merge_sort_Permutation. eapply selected_distinct, so_group_keys, Hok. cbn. unfold group_key. intros x y [-> ->] [-> ->] ->. done.
Qed.
Lemma scope_expansions_distinct s scope : snapshot_ok s -> NoDup (ec_Expansion <$> SnapshotExpansions (Some s) scope).
Proof.
  intros Hok. cbn [SnapshotExpansions]. rewrite merge_sort_Permutation. eapply selected_distinct, so_expansion_keys, Hok. cbn. unfold expansion_key. intros x y -> -> ->. done.
Qed.

(** The days a chart shows. *)
Definition days_back (end_ n : Z) : list string := (fun i => format_day (end_ - i)) <$> reverse (seqZ 0 n).
Lemma elem_of_days_back end_ n text z : four_digit_day (end_ - n) -> four_digit_day end_ -> parse_day text = Some z ->
  text ∈ days_back end_ n <-> end_ - n < z <= end_.
Proof.
  intros Hlo Hhi Hp. unfold days_back. rewrite list_elem_of_fmap. setoid_rewrite elem_of_reverse. setoid_rewrite elem_of_seqZ. unfold four_digit_day in *. split.
  - intros (i & -> & Hi). rewrite parse_format_day in Hp by (unfold four_digit_day; lia). injection Hp as <-. lia.
  - intros Hz. exists (end_ - z). split; [|lia]. replace (end_ - (end_ - z)) with z by lia. symmetry. apply format_parse_day; [done|unfold four_digit_day; lia].
Qed.
Lemma NoDup_days_back end_ n : four_digit_day (end_ - n) -> four_digit_day end_ -> NoDup (days_back end_ n).
Proof.
  intros Hlo Hhi. unfold days_back. apply NoDup_fmap_2_strong; [|rewrite reverse_Permutation; apply NoDup_seqZ]. intros x y Hx Hy Heq.
  apply elem_of_reverse, elem_of_seqZ in Hx, Hy. apply (f_equal parse_day) in Heq. unfold four_digit_day in *.
  rewrite !parse_format_day in Heq by (unfold four_digit_day; lia). injection Heq as Heq. lia.
Qed.

Lemma chart_sum s end_ n : snapshot_ok s -> four_digit_day (end_ - n) -> four_digit_day end_ ->
  sumZ (count_of (count_map dc_Day dc_Count (SnapshotDaily (Some s) zeroScope)) <$> days_back end_ n) =
  window_sum zeroScope (end_ - (n - 1)) end_ (ss_NewCharacters s).
Proof.
  intros Hok Hlo Hhi. pose proof (scope_days_distinct s zeroScope Hok) as Hnd.
  rewrite (sumZ_ext _ (fun day => sumZ ((fun row => if bool_decide (dc_Day row = day) then dc_Count row else 0) <$> SnapshotDaily (Some s) zeroScope)))
    by (intros day _; by apply count_of_sum).
  rewrite sumZ_swap. rewrite (sumZ_ext _ (fun row => if bool_decide (dc_Day row ∈ days_back end_ n) then dc_Count row else 0))
    by (intros row _; by apply sumZ_once, NoDup_days_back).
  cbn [SnapshotDaily]. rewrite (sumZ_perm _ _ (fmap_Permutation _ _ _ (merge_sort_Permutation day_before _))).
  rewrite <-list_fmap_compose. unfold window_sum. pose proof (so_days s Hok) as Hd.
  induction (ss_NewCharacters s) as [|d ds IH]; [done|]. rewrite filter_cons, fmap_cons, sumZ_cons.
  rewrite <-IH by (intros x Hx; apply Hd; by right). destruct (Hd d (list_elem_of_here _ _)) as [_ [z Hz]].
  unfold day_value, day_selected, in_days. rewrite (bool_decide_true (zeroScope = zeroScope)) by done. rewrite Hz.
  case_decide as Hs; [|rewrite bool_decide_false by done; cbn; lia]. rewrite (bool_decide_true (sd_Scope d = zeroScope)) by done.
  rewrite fmap_cons, sumZ_cons. cbn [compose dc_Day dc_Count andb]. f_equal.
  rewrite (bool_decide_ext _ _ (elem_of_days_back end_ n (sd_Day d) z Hlo Hhi Hz)).
  destruct (bool_decide (end_ - n < z <= end_)) eqn:Hb; [apply bool_decide_eq_true in Hb|apply bool_decide_eq_false in Hb]; zbool; try done; lia.
Qed.

Lemma count_of_row {A} (key : A -> string) (count : A -> Z) rows row : NoDup (key <$> rows) -> row ∈ rows ->
  count_of (count_map key count rows) (key row) = count row.
Proof.
  intros Hnd Hin. rewrite count_of_sum by done. clear -Hnd Hin. induction rows as [|x rows IH]; [by apply not_elem_of_nil in Hin|].
  rewrite fmap_cons in Hnd. rewrite fmap_cons, sumZ_cons. inversion Hnd as [|? ? Hx Hnd']; subst. apply elem_of_cons in Hin as [->|Hin].
  - rewrite bool_decide_true by done. rewrite sumZ_zero; [lia|]. intros y Hy. case_bool_decide as He; [|done].
    destruct Hx. rewrite <-He. by apply list_elem_of_fmap_2.
  - rewrite IH by done. rewrite bool_decide_false; [lia|]. intros He. destruct Hx. rewrite He. by apply list_elem_of_fmap_2.
Qed.
Lemma window_sum_within scope lo hi lo' hi' ds : (forall d, d ∈ ds -> 0 <= sd_Count d) -> lo <= lo' -> hi' <= hi ->
  window_sum scope lo' hi' ds <= window_sum scope lo hi ds.
Proof.
  intros Hd Hlo Hhi. unfold window_sum. induction ds as [|d ds IH]; [done|]. rewrite !fmap_cons, !sumZ_cons.
  pose proof (Hd d (list_elem_of_here _ _)). specialize (IH (fun x Hx => Hd x (list_elem_of_further _ _ _ Hx))).
  enough (day_value scope lo' hi' d <= day_value scope lo hi d) by lia. unfold day_value, in_days. destruct (day_selected scope d); [|done].
  destruct (parse_day (sd_Day d)) as [p|]; [|done]. cbn [andb]. zbool; cbn; lia.
Qed.

(** ** The dashboard *)

Lemma window_current s scope : snapshot_ok s -> let end_ := day_of (ss_GeneratedAt s) in
  window_sum scope (end_ - 29) end_ (ss_NewCharacters s) <= max_int64 ->
  window_sum scope (end_ - 59) (end_ - 30) (ss_NewCharacters s) <= max_int64 ->
  nt_Current (NewCharactersWindow (Some s) scope) = window_sum scope (end_ - 29) end_ (ss_NewCharacters s).
Proof.
  intros Hok end_ H1 H2. unfold NewCharactersWindow. fold end_. rewrite fold_add_day; [cbn; lia|intros d Hd; by apply (so_days s Hok)|lia..].
Qed.

(** The dashboard's chart adds up.  For every snapshot that passes
    validation, of a date with four-digit years and with sums a machine integer
    holds, the chart has one bar for each of the thirty days up to the
    generation day, the bars sum up to the number of new characters shown
    beside it, no more characters are active or at the maximum level than there
    are, and a card shows the recorded count of its expansion. *)
Theorem dashboard_adds_up c s (end_ := day_of (ss_GeneratedAt s)) (Hok : snapshot_ok s)
    (Hdates : four_digit_day (end_ - 59) /\ four_digit_day end_)
    (Hfits : window_sum zeroScope (end_ - 59) end_ (ss_NewCharacters s) <= max_int64) :
  let v := dashboard_data c s in
  length (dv_ChartData v) = 30%nat /\ sumZ (dv_ChartData v) = dv_NewCharacters30d v /\
  0 <= dv_ActiveCharacters v <= dv_TotalCharacters v /\ 0 <= dv_MaxLevelCharacters v <= dv_TotalCharacters v /\
  Forall (fun card => forall e, e ∈ ss_Expansions s -> se_Scope e = zeroScope -> se_Expansion e = xc_Name card -> xc_Count card = se_Count e)
    (dv_ExpansionCompletions v).
Proof.
  unfold four_digit_day in Hdates. pose proof (so_summary s Hok) as Hsum.
  assert (Hd : forall d, d ∈ ss_NewCharacters s -> 0 <= sd_Count d) by (intros d Hd; by apply (so_days s Hok)).
  pose proof (window_sum_within zeroScope (end_ - 59) end_ (end_ - 29) end_ _ Hd ltac:(lia) ltac:(lia)) as H1.
  pose proof (window_sum_within zeroScope (end_ - 59) end_ (end_ - 59) (end_ - 30) _ Hd ltac:(lia) ltac:(lia)) as H2.
  cbv zeta. cbn [dashboard_data dv_ChartData dv_NewCharacters30d dv_ActiveCharacters dv_TotalCharacters dv_MaxLevelCharacters dv_ExpansionCompletions].
  split; [by rewrite !length_fmap, length_reverse, length_seqZ|]. split; [|split; [exact (proj1 Hsum)|split; [exact (proj2 Hsum)|]]].
  - rewrite (window_current s zeroScope Hok (Z.le_trans _ _ _ H1 Hfits) (Z.le_trans _ _ _ H2 Hfits)). fold end_. replace (end_ - 29) with (end_ - (30 - 1)) by lia.
    apply (chart_sum s end_ 30); [done|unfold four_digit_day; lia..].
  - apply Forall_fmap, Forall_forall. intros e _ x Hx Hscope Hname. cbn [compose xc_Name xc_Count] in *.
    rewrite <-Hname. apply (count_of_row ec_Expansion ec_Count _ (mkExpansionCount (se_Expansion x) (se_Count x))); [by apply scope_expansions_distinct|].
    cbn [SnapshotExpansions]. rewrite merge_sort_Permutation. apply (list_elem_of_fmap_2 (fun e => mkExpansionCount (se_Expansion e) (se_Count e))).
    by apply list_elem_of_filter.
Qed.

(** ** The worlds table *)

Lemma sum_int64_exact l : Forall (fun n => 0 <= n) l -> sumZ l <= max_int64 -> sum_int64 l = sumZ l.
Proof.
  intros Hl Hmax. unfold sum_int64.
  assert (Hg : forall acc, 0 <= acc -> acc + sumZ l <= max_int64 -> fold_left (fun acc n => i64 (acc + n)) l acc = acc + sumZ l).
  { clear Hmax. induction l as [|n l IH]; intros acc Ha Hm; [cbn; lia|]. inversion Hl as [|? ? Hn Hl']; subst. rewrite sumZ_cons in *.
    assert (0 <= sumZ l) by (clear -Hl'; induction Hl'; [done|rewrite sumZ_cons; lia]).
    cbn [fold_left]. rewrite i64_id by (unfold is_i64, min_int64; lia). rewrite IH; [lia|done|lia|lia]. }
  rewrite Hg; lia.
Qed.

Lemma elem_of_SnapshotGroups s dimension scope row : row ∈ SnapshotGroups (Some s) dimension scope <->
  exists g, g ∈ ss_Groups s /\ sg_Dimension g = dimension /\ sg_Scope g = scope /\ row = mkGroupCount (sg_Key g) (sg_Total g) (sg_Active g).
Proof.
  cbn [SnapshotGroups]. rewrite merge_sort_Permutation, list_elem_of_fmap. setoid_rewrite list_elem_of_filter. firstorder.
Qed.

Lemma Sorted_weaken {A} (R R' : A -> A -> Prop) l : (forall a b, R a b -> R' a b) -> Sorted R l -> Sorted R' l.
Proof. intros HR Hl. induction Hl as [|a l Hl IH Hh]; constructor; [done|]. destruct Hh; constructor; auto. Qed.

(** The row of a group is shown. *)
Definition shown (s : UIStatsSnapshot) (region dc : string) (g : ScopedGroupCount) : Prop :=
  g ∈ ss_Groups s /\ sg_Dimension g = "world" /\ sg_Scope g = zeroScope /\ isIndexableWorld (sg_Key g) = true /\
  (region = "" \/ EqualFold (RegionForDatacenter (WorldToDC (sg_Key g))) region = true) /\
  (dc = "" \/ EqualFold (WorldToDC (sg_Key g)) dc = true).

Lemma selects_iff selected value : selects selected value = true <-> selected = "" \/ EqualFold value selected = true.
Proof. unfold selects. rewrite orb_true_iff, bool_decide_eq_true. done. Qed.
Definition world_rows (s : UIStatsSnapshot) (region dc : string) : list WorldDetailRow :=
  filter (fun row => selects region (dr_Region row) && selects dc (dr_Datacenter row) = true) (all_worlds s).
Lemma elem_of_world_rows s region dc row : row ∈ world_rows s region dc <->
  exists g, shown s region dc g /\ row = world_detail_row s (mkGroupCount (sg_Key g) (sg_Total g) (sg_Active g)).
Proof.
  unfold world_rows, all_worlds. rewrite list_elem_of_filter, list_elem_of_fmap. setoid_rewrite list_elem_of_filter.
  setoid_rewrite elem_of_SnapshotGroups. unfold shown. rewrite andb_true_iff, !selects_iff. split.
  - intros [Hsel (gc & -> & Hidx & g & Hg & Hdim & Hsc & ->)]. cbn in *. exists g. tauto.
  - intros (g & (Hg & Hdim & Hsc & Hidx & Hr & Hd) & ->). split; [done|]. eexists. split; [reflexivity|]. split; [done|]. by exists g.
Qed.
Lemma world_rows_distinct s region dc : snapshot_ok s -> NoDup (dr_World <$> world_rows s region dc).
Proof.
  intros Hok. pose proof (scope_groups_distinct s "world" zeroScope Hok) as Hnd. unfold world_rows, all_worlds.
  rewrite <-(list_fmap_id (filter _ (world_detail_row s <$> _))). eapply (selected_distinct _ id dr_World dr_World); [done|].
  by eapply (selected_distinct _ (world_detail_row s) dr_World gc_Key).
Qed.
Lemma world_rows_counts s region dc : snapshot_ok s -> Forall (fun row => 0 <= dr_Active row <= dr_Total row) (world_rows s region dc).
Proof.
  intros Hok. apply Forall_forall. intros row Hrow%list_elem_of_In. apply elem_of_world_rows in Hrow as (g & Hg & ->). cbn.
  by apply (so_groups s Hok), Hg.
Qed.

(** The worlds page shows the worlds that were asked for.  For every
    snapshot that passes validation and every choice of region and data centre,
    the table has exactly one row for each world of the hierarchy the snapshot
    counts and the choice includes, whatever the case of its spelling; rows come
    with the largest population first; the totals above the table are the sums
    of its rows, if a machine integer holds them, and no more characters are
    active than there are. *)
Theorem worlds_page_complete `{SortSliceLaws} s region dc (Hok : snapshot_ok s) :
  let v := worlds_data s region dc in
  (forall row, row ∈ wv_Worlds v <-> exists g, shown s region dc g /\ row = world_detail_row s (mkGroupCount (sg_Key g) (sg_Total g) (sg_Active g))) /\
  NoDup (dr_World <$> wv_Worlds v) /\ Sorted (fun a b => dr_Total b <= dr_Total a) (wv_Worlds v) /\
  (sumZ (dr_Total <$> wv_Worlds v) <= max_int64 ->
     wv_TotalCharacters v = sumZ (dr_Total <$> wv_Worlds v) /\ wv_ActiveCharacters v = sumZ (dr_Active <$> wv_Worlds v) /\
     0 <= wv_ActiveCharacters v <= wv_TotalCharacters v).
Proof.
  cbv zeta. cbn [worlds_data wv_Worlds wv_TotalCharacters wv_ActiveCharacters]. fold (world_rows s region dc).
  set (less := fun a b : WorldDetailRow => dr_Total b <? dr_Total a). pose proof (sort_permutes _ less (world_rows s region dc)) as Hp.
  pose proof (world_rows_counts s region dc Hok) as Hc.
  split; [intros row; by rewrite Hp, elem_of_world_rows|]. split; [rewrite Hp; by apply world_rows_distinct|]. split.
  - eapply Sorted_weaken, sort_sorts; unfold less; intros; zbool; lia.
  - rewrite !(sumZ_perm _ _ (fmap_Permutation _ _ _ Hp)). intros Hmax.
    assert (Hle : 0 <= sumZ (dr_Active <$> world_rows s region dc) <= sumZ (dr_Total <$> world_rows s region dc)).
    { clear -Hc. induction Hc as [|x l Hx _ IH]; [done|]. rewrite !fmap_cons, !sumZ_cons. lia. }
    rewrite !sum_int64_exact; [done|..]; try lia; apply Forall_fmap; (eapply Forall_impl; [|exact Hc]); cbn; lia.
Qed.

(** ** The sitemap *)

Definition sitemap_paths (c : uiController) : list string :=
  sitemapStaticPaths ++ match uc_stats c with
                        | Some (Ok (s, _)) => (fun row => "/ui/worlds/" +:+ gc_Key row) <$> filter (fun row => isIndexableWorld (gc_Key row) = true) (SnapshotGroups (Some s) "world" zeroScope)
                        | _ => []
                        end.
Lemma sitemap_locs c : sm_Loc <$> Sitemap c = String.append (uc_baseURL c) <$> sitemap_paths c.
Proof. unfold Sitemap, sitemap_paths. destruct (uc_stats c) as [[[s state]|e]|]; by rewrite <-list_fmap_compose. Qed.
Lemma world_path_dynamic key : key <> "" -> "/ui/worlds/" +:+ key ∉ sitemapStaticPaths.
Proof. intros Hk. unfold sitemapStaticPaths. rewrite !elem_of_cons, elem_of_nil. cbn. intros H. decompose [or] H; try discriminate. done. Qed.

(** The sitemap never fails and lists every indexable page once: the
    static pages always, and with a validated snapshot one page for each world
    of the hierarchy it counts. *)
Theorem sitemap_lists_pages_once c (Hok : forall s state, uc_stats c = Some (Ok (s, state)) -> snapshot_ok s) :
  (forall path, path ∈ sitemapStaticPaths -> uc_baseURL c +:+ path ∈ sm_Loc <$> Sitemap c) /\
  (forall s state g, uc_stats c = Some (Ok (s, state)) -> shown s "" "" g -> uc_baseURL c +:+ "/ui/worlds/" +:+ sg_Key g ∈ sm_Loc <$> Sitemap c) /\
  NoDup (sm_Loc <$> Sitemap c).
Proof.
  rewrite sitemap_locs. split; [|split].
  - intros path Hp. apply list_elem_of_fmap_2, elem_of_app. by left.
  - intros s state g Hs (Hg & Hdim & Hsc & Hidx & _). apply (list_elem_of_fmap_2 (String.append (uc_baseURL c))), elem_of_app. right. rewrite Hs.
    apply (list_elem_of_fmap_2 (fun row => "/ui/worlds/" +:+ gc_Key row) _ (mkGroupCount (sg_Key g) (sg_Total g) (sg_Active g))).
    apply list_elem_of_filter. split; [done|]. apply elem_of_SnapshotGroups. by exists g.
  - apply NoDup_fmap_2_strong; [intros x y _ _; apply string_app_inj_l|]. unfold sitemap_paths. apply list.NoDup_app.
    destruct (uc_stats c) as [[[s state]|e]|] eqn:Hs; [|split_and!; [apply (bool_decide_unpack _); done|by intros x _ ?%elem_of_nil|constructor]..].
    split; [apply (bool_decide_unpack _); done|]. split.
    + intros path Hp (row & -> & [Hidx _]%list_elem_of_filter)%list_elem_of_fmap. revert Hp. apply world_path_dynamic.
      unfold isIndexableWorld in Hidx. by apply andb_true_iff in Hidx as [?%bool_decide_eq_true _].
    + rewrite <-(list_fmap_id ((fun row => _) <$> filter _ _)).
      eapply (selected_distinct _ _ id gc_Key); [|apply scope_groups_distinct; by eapply Hok]. cbn. by intros x y _ _ ?%string_app_inj_l.
Qed.

(** ** A sorting function *)

Fixpoint insert_by {A} (less : A -> A -> bool) (x : A) (l : list A) : list A :=
  match l with [] => [x] | y :: l => if less x y then x :: y :: l else y :: insert_by less x l end.
#[local] Instance insertion_sort : SortSlice := fun A less l => foldr (insert_by less) [] l.
Lemma insert_by_perm {A} (less : A -> A -> bool) x l : insert_by less x l ≡ₚ x :: l.
Proof. induction l as [|y l IH]; [done|]. cbn. destruct (less x y); [done|]. rewrite IH. apply Permutation_swap. Qed.
Lemma insert_by_sorted {A} (less : A -> A -> bool) x l : (forall a b, less a b = true -> less b a = false) ->
  Sorted (fun a b => less b a = false) l -> Sorted (fun a b => less b a = false) (insert_by less x l).
Proof.
  intros Hasym Hl. induction Hl as [|y l Hl IH Hh]; [by repeat constructor|]. cbn. destruct (less x y) eqn:Hxy.
  - constructor; [by constructor|]. constructor. auto.
  - constructor; [done|]. destruct l as [|z l]; cbn; [by constructor|]. destruct (less x z); constructor; [done|]. by inversion Hh.
Qed.
#[local] Instance insertion_sort_laws : SortSliceLaws.
Proof.
  split; intros A less l; unfold sort_slice, insertion_sort.
  - induction l as [|x l IH]; [done|]. cbn. by rewrite insert_by_perm, IH.
  - intros Hasym _. induction l as [|x l IH]; [constructor|]. cbn. by apply insert_by_sorted.
Qed.

(** ** A snapshot *)

Definition world_scope (world : string) : StatsScope := mkStatsScope "" "" world.
Definition page_snapshot : UIStatsSnapshot :=
  mkSnapshot UIStatsSchemaVersion (20000 * day) (19970 * day) 100 20 0
    [mkScopedGroup zeroScope "region" "EU" 12 5; mkScopedGroup zeroScope "world" "Cerberus" 12 5; mkScopedGroup zeroScope "world" "Gilgamesh" 8 2;
     mkScopedGroup (world_scope "Cerberus") "race" "Lalafell" 12 5]
    [mkScopedExpansion zeroScope "Heavensward" 7]
    [mkScopedDaily zeroScope (format_day 19999) 3; mkScopedDaily zeroScope (format_day 19990) 1; mkScopedDaily (world_scope "Gilgamesh") (format_day 19999) 3]
    (mkStatsSummary 20 7 4).
Lemma page_snapshot_ok : snapshot_ok page_snapshot.
Proof. apply ValidateUIStatsSnapshot_ok. vm_compute. reflexivity. Qed.
Definition page_controller : uiController := mkUiController (Some (Ok (page_snapshot, mkUIStatsState (20000 * day) 0 false))) None "https://census.example".

Lemma dashboard_adds_up_witness :
  let v := dashboard_data page_controller page_snapshot in sumZ (dv_ChartData v) = 4 /\ sumZ (dv_ChartData v) = dv_NewCharacters30d v.
Proof.
  split; [vm_compute; reflexivity|].
  apply (dashboard_adds_up page_controller page_snapshot page_snapshot_ok); [split; vm_compute; split; done|vm_compute; done].
Defined.
Lemma worlds_page_complete_witness :
  let v := worlds_data page_snapshot "eu" "" in dr_World <$> wv_Worlds v = ["Cerberus"] /\ wv_TotalCharacters v = sumZ (dr_Total <$> wv_Worlds v).
Proof. split; [vm_compute; reflexivity|]. apply (worlds_page_complete page_snapshot "eu" "" page_snapshot_ok). vm_compute. done. Defined.
Lemma sitemap_lists_pages_once_witness : length (Sitemap page_controller) = 7%nat /\ NoDup (sm_Loc <$> Sitemap page_controller).
Proof.
  split; [vm_compute; reflexivity|]. apply sitemap_lists_pages_once. intros s state [= <- _]. exact page_snapshot_ok.
Defined.

(** ** Selections that disagree *)

(** A world in another spelling is found in the table of worlds and in the new
    character window, and nowhere else. *)
Example world_page_spelling :
  let v := world_detail_data page_controller page_snapshot "cerberus" in
  vd_TotalCharacters v = 12 /\ vd_Races v = [] /\ length (vd_Races (world_detail_data page_controller page_snapshot "Cerberus")) = 1%nat.
Proof. vm_compute. done. Qed.
(** A data centre of another region leaves the table empty and counts the new
    characters of the data centre. *)
Example worlds_page_foreign_datacenter :
  let v := worlds_data page_snapshot "EU" "Aether" in wv_Worlds v = [] /\ wv_TotalCharacters v = 0 /\ wv_NewCharacters30d v = 3.
Proof. vm_compute. done. Qed.
