(* ===== verification/UiCharacters.v ===== *)
(** * The character pages ([cmd/http/ui/character.go])

    The profile of a character, the search and the paginated directory.  Their
    routes are commented out in [routes.go]; the handlers are complete.
    [configured] says whether the controller has a census service. *)
From S2P Require Import Prelude GoErrors GoStrings Contract LodestonePage CharacterStore Census Lodestone Reports UiFormat UiPages.

(** ** Job groups *)

Record JobDisplay := mkJobDisplay { jb_Name : string; jb_Level : Z; jb_ExpLevel : Z; jb_MaxLevel : bool; jb_RoleKey : string }.
Record JobGroup := mkJobGroup { jg_RoleTitle : string; jg_RoleKey : string; jg_Jobs : list JobDisplay }.
Definition job_categories : list (string * string * list string) := [
  ("Tank", "tank", ["Paladin"; "Warrior"; "Dark Knight"; "Gunbreaker"]);
  ("Healer", "healer", ["White Mage"; "Scholar"; "Astrologian"; "Sage"]);
  ("Melee DPS", "melee", ["Monk"; "Dragoon"; "Ninja"; "Samurai"; "Reaper"; "Viper"]);
  ("Physical Ranged DPS", "phys_ranged", ["Bard"; "Machinist"; "Dancer"]);
  ("Magic Ranged DPS", "magic_ranged", ["Black Mage"; "Summoner"; "Red Mage"; "Pictomancer"; "Blue Mage"]);
  ("Disciples of the Hand (Crafters)", "crafter",
    ["Carpenter"; "Blacksmith"; "Armorer"; "Goldsmith"; "Leatherworker"; "Weaver"; "Alchemist"; "Culinarian"]);
  ("Disciples of the Land (Gatherers)", "gatherer", ["Miner"; "Botanist"; "Fisher"])].
Definition job_map (jobs : list ClassJobRecord) : gmap string ClassJobRecord :=
  fold_left (fun m j => <[TrimSpace (cj_Name j) := j]> m) jobs ∅.
Definition job_display (jobMap : gmap string ClassJobRecord) (maxLevel : Z) (roleKey name : string) : JobDisplay :=
  let rec := jobMap !! name in
  let lvl := default 0 (cj_Level <$> rec) in
  mkJobDisplay name lvl (default 0 (cj_ExpLevel <$> rec)) ((maxLevel <=? lvl) && (0 <? lvl)) roleKey.
Definition buildJobGroups (jobs : list ClassJobRecord) (maxLevel : Z) : list JobGroup :=
  (fun cat => mkJobGroup cat.1.1 cat.1.2 (job_display (job_map jobs) maxLevel cat.1.2 <$> cat.2)) <$> job_categories.

(** ** Profile *)

Record MilestoneDisplay := mkMilestoneDisplay { ms_AchievementID : Z; ms_Kind : string; ms_Expansion : string; ms_Detail : string; ms_AchievedAt : Z }.
Record CharacterProfileViewData := mkProfileView {
  vp_Character : CharacterRecord; vp_GenderText : string; vp_IsActive : bool; vp_JobGroups : list JobGroup; vp_Milestones : list MilestoneDisplay; vp_MaxLevel : Z;
}.
Definition milestone_map (all : list MilestoneAchievement) : gmap Z MilestoneAchievement :=
  fold_left (fun m a => <[ma_AchievementID a := a]> m) all ∅.
Definition milestone_display (m : gmap Z MilestoneAchievement) (cm : CharacterMilestone) : MilestoneDisplay :=
  let meta := m !! cm_AchievementID cm in
  mkMilestoneDisplay (cm_AchievementID cm) (default "" (ma_Kind <$> meta)) (default "" (meta ≫= ma_Expansion)) (default "" (ma_Detail <$> meta)) (cm_AchievedAt cm).
Definition gender_text (gender : Z) : string :=
  if gender =? 1 then "Male " +:+ bytes [226; 153; 130]%nat else if gender =? 2 then "Female " +:+ bytes [226; 153; 128]%nat else "Unknown".

(** The reply: an error, a redirect, the profile, or the page of a character
    that is not known. *)
Inductive characterReply :=
  | InvalidID                                  (* 400 *)
  | DatabaseError                              (* 500 *)
  | CharacterNotFound (id : Z)                 (* 404 *)
  | CharacterPage (title : string) (data : CharacterProfileViewData).

Inductive listTitle := DirectoryTitle | SearchTitle (query : string).
Record CharacterRow := mkCharacterRow {
  cw_ID : Z; cw_Name : string; cw_World : string; cw_Datacenter : string; cw_Region : string; cw_Race : string; cw_Tribe : string;
  cw_GrandCompany : string; cw_FreeCompanyName : string; cw_IsActive : bool; cw_DeletedAt : option Z;
}.
Record CharacterListViewData := mkListView {
  cl_Title : listTitle; cl_Query : string; cl_GrandCompany : string; cl_ActiveOnly : bool; cl_SortBy : string; cl_SortOrder : string;
  cl_Characters : list CharacterRow; cl_TotalCount : Z; cl_CurrentPage : Z; cl_TotalPages : Z; cl_HasPrev : bool; cl_HasNext : bool;
  cl_PrevPage : Z; cl_NextPage : Z;
}.
Inductive searchReply := SearchRedirect (location : string) | SearchList (data : CharacterListViewData).

Section Characters.
Context {L : Type} `{SortSlice}.
Abbreviation M := (ST (CensusWorld L)).
Context (fold_case : string -> string) (configured : bool).

Definition is_active (latest : option Z) : M bool :=
  match latest with
  | Some at_ => if configured then s ← get_service; now ← now_; mret (IsActive s now at_) else mret false
  | None => mret false
  end.

Definition CharacterDetail_page (pathID queryID : string) : M characterReply :=
  let idStr := if bool_decide (pathID = "") then queryID else pathID in
  let '(id, ok) := ParseUint idStr max_uint32 in
  if negb ok || (id =? 0) then mret InvalidID
  else
    detail ← (if configured then CharacterDetail id else mret (Ok None));
    match detail with
    | Err _ => mret DatabaseError
    | Ok None => mret (CharacterNotFound id)
    | Ok (Some d) =>
        isActive ← is_active (cr_LatestAchievementAt (dt_Character d));
        s ← get_service;
        let maxLevel := if configured && (0 <? sv_maxLevel s) then sv_maxLevel s else 100 in
        let all := if configured then BuildMilestones (sv_expansions s) else [] in
        let all := match all with [] => BuildMilestones DefaultExpansions | _ => all end in
        let milestones := sort_slice _ (fun a b => ms_AchievedAt b <? ms_AchievedAt a) (milestone_display (milestone_map all) <$> dt_Milestones d) in
        mret (CharacterPage (cr_Name (dt_Character d))
          (mkProfileView (dt_Character d) (gender_text (cr_Gender (dt_Character d))) isActive (buildJobGroups (dt_Jobs d) maxLevel) milestones maxLevel))
    end.

(** ** Directory *)

Definition page_size : Z := 30.
Definition page_param (raw : string) : Z :=
  if bool_decide (raw = "") then 1 else match Atoi raw with Some p => if 0 <? p then p else 1 | None => 1 end.
Definition total_pages (total : Z) : Z :=
  let n := Z.quot (i64 (i64 (total + page_size) - 1)) page_size in if n =? 0 then 1 else n.
Definition character_row (ch : CharacterRecord) (isActive : bool) : CharacterRow :=
  mkCharacterRow (cr_ID ch) (cr_Name ch) (cr_World ch) (cr_Datacenter ch) (cr_Region ch) (cr_Race ch) (cr_Tribe ch) (cr_GrandCompany ch)
    (default "" (cr_FreeCompanyName ch)) isActive (cr_DeletedAt ch).
Fixpoint character_rows (chars : list CharacterRecord) : M (list CharacterRow) :=
  match chars with
  | [] => mret []
  | ch :: chars => a ← is_active (cr_LatestAchievementAt ch); rows ← character_rows chars; mret (character_row ch a :: rows)
  end.
Definition directory_name (query : string -> string) : string :=
  let q := TrimSpace (query "q") in if bool_decide (q = "") then TrimSpace (query "name") else q.
Definition CharacterList (arranged : sortColumn * bool -> list CharacterRecord -> list CharacterRecord) (query : string -> string) : M CharacterListViewData :=
  let page := page_param (query "page") in
  let offset := i64 ((page - 1) * page_size) in
  let qName := directory_name query in
  let grandCompany := TrimSpace (query "grand_company") in
  let activeOnly := bool_decide (query "active" = "true") || bool_decide (query "active" = "1") in
  let filter := zeroFilter{{ cf_Name := qName; cf_GrandCompany := grandCompany; cf_ActiveOnly := activeOnly; cf_SortBy := query "sort_by"; cf_SortOrder := query "sort_order" }} in
  filter ← (if activeOnly && configured then s ← get_service; now ← now_; mret (filter{{ cf_Since := Some (activitySince s now) }}) else mret filter);
  listed ← (if configured then ListCharacters fold_case arranged filter page_size offset else mret (Ok ([], 0)));
  (* an error is logged and shows an empty directory *)
  let '(chars, total) := match listed with Ok r => r | Err _ => ([], 0) end in
  rows ← character_rows chars;
  let totalPages := total_pages total in
  mret (mkListView (if bool_decide (qName = "") then DirectoryTitle else SearchTitle qName) qName grandCompany activeOnly (query "sort_by") (query "sort_order")
    rows total page totalPages (1 <? page) (page <? totalPages) (page - 1) (i64 (page + 1))).
Definition CharacterSearch (arranged : sortColumn * bool -> list CharacterRecord -> list CharacterRecord) (query : string -> string) : M searchReply :=
  let q := TrimSpace (query "q") in
  if bool_decide (q = "") then mret (SearchRedirect "/ui/characters")
  else if (ParseUint q max_uint32).2 then mret (SearchRedirect ("/ui/characters/" +:+ q))
  else data ← CharacterList arranged query; mret (SearchList data).
End Characters.

(** ** Properties *)

(** The groups of the profile agree with the job classification used elsewhere,
    and no job is shown twice. *)
Lemma job_groups_classified :
  Forall (fun cat => Forall (fun name => jobCategory name = cat.1.2) cat.2) job_categories /\ NoDup (job_categories ≫= snd).
Proof. split; [|by apply (bool_decide_unpack _)]. repeat constructor. Qed.

(** The level shown is that of the last record with the job's name. *)
Lemma job_map_last jobs j rest : Forall (fun j' => TrimSpace (cj_Name j') <> TrimSpace (cj_Name j)) rest ->
  job_map (jobs ++ j :: rest) !! TrimSpace (cj_Name j) = Some j.
Proof.
  unfold job_map. rewrite fold_left_app. cbn [fold_left]. set (m := fold_left _ jobs ∅). generalize m. clear m. intros m.
  assert (Hg : forall m' : gmap string ClassJobRecord, m' !! TrimSpace (cj_Name j) = Some j -> Forall (fun j' => TrimSpace (cj_Name j') <> TrimSpace (cj_Name j)) rest ->
    fold_left (fun m j => <[TrimSpace (cj_Name j) := j]> m) rest m' !! TrimSpace (cj_Name j) = Some j).
  { induction rest as [|x rest IH]; intros m' Hm Hr; [done|]. inversion Hr as [|? ? Hx Hr']; subst. cbn [fold_left]. apply IH; [|done]. by rewrite lookup_insert_ne. }
  intros Hr. apply Hg; [apply lookup_insert_eq|done].
Qed.

(** Pages: the last one is not empty, and there is a next page exactly as long
    as characters are left. *)
Lemma total_pages_spec total page : 0 <= total <= max_int64 - 30 -> 1 <= page ->
  (page <? total_pages total) = (page * page_size <? total).
Proof.
  intros Ht Hp. unfold total_pages, page_size. rewrite (i64_id (total + 30)), i64_id by (unfold is_i64, min_int64, max_int64 in *; lia).
  rewrite Z.quot_div_nonneg by lia. destruct (Z.eqb_spec ((total + 30 - 1) / 30) 0) as [H0|H0]; apply eq_true_iff_eq; rewrite !Z.ltb_lt.
  - assert (total = 0) by (Z.to_euclidean_division_equations; lia). lia.
  - Z.to_euclidean_division_equations; lia.
Qed.
