(* ===== verification/Config.v ===== *)
(** * Configuration ([config/config.go]) and how it reaches the components
      ([container/infrastructure.go], [container/domain.go])

    The settings, the addresses built from them, the environment file, the
    validation at start-up, and the policy, weights and providers the container
    derives.  The TOML reader and [url.Parse] are parameters. *)
From Stdlib Require Import SpecFloat.
From stdpp Require Import pretty.
From S2P Require Import Prelude GoErrors GoStrings Contract Scheduling Admission ProxyStore ProxyStoreFacts ProxyClaims Census Checks HttpClient Providers.

(** ** Settings *)

Record QueueConfig := mkQueueConfig { qc_MaxAttempts : Z }.
Record AppConfig := mkAppConfig { ac_Name : string; ac_Env : string; ac_BaseURL : string }.
Record LoggingConfig := mkLoggingConfig { lg_Default : string; lg_ServerDefault : string; lg_Level : string }.
Record HTTPConfig := mkHTTPConfig { hc_Host : string; hc_Port : Z; hc_ReadTimeout : string; hc_WriteTimeout : string; hc_IdleTimeout : string }.
Record AuthConfig := mkAuthConfig { au_Enabled : bool; au_Token : string; au_Routes : list string; au_Users : list string }.
Record MetricsConfig := mkMetricsConfig { mc_Endpoint : string; mc_Prefix : string }.
Record PostgresConfig := mkPostgresConfig {
  pg_DSN : string; pg_Host : string; pg_Port : Z; pg_User : string; pg_Password : string; pg_Database : string; pg_SSLMode : string;
  pg_MaxOpenConns : Z; pg_MaxIdleConns : Z;
}.
Record RabbitMQConfig := mkRabbitMQConfig { rm_URL : string; rm_Host : string; rm_AMQPPort : Z; rm_User : string; rm_Password : string; rm_Vhost : string }.
Record LodestoneConfig := mkLodestoneConfig { lc_RateLimit : spec_float; lc_MaxRetries : Z }.
Record UIStatsConfig := mkUIStatsConfig { uc_CacheTTL : string; uc_StaleWarning : string; uc_RefreshTimeout : string }.
Record CensusConfig := mkCensusConfig { cc_ActivityWindowDays : Z; cc_MaxLevel : Z; cc_Expansions : list ExpansionConfig; cc_UIStats : option UIStatsConfig }.
Record ProxyScanConfig := mkProxyScanConfig {
  ps_VerificationInterval : Z; ps_FreshnessTTL : Z; ps_RecoveryBase : Z; ps_RecoveryCap : Z; ps_RecoveryHorizon : Z;
  ps_WeightVerification : Z; ps_WeightRecovery : Z; ps_WeightBackground : Z; ps_LeaseDuration : Z; ps_MinRepeatInterval : Z;
  ps_InconclusiveRetry : Z; ps_ControlInterval : Z;
}.
Record ProxyConsumerConfig := mkProxyConsumerConfig {
  pc_LockTTL : string; pc_LodestoneRateLimit : spec_float; pc_RequestTimeout : string; pc_TestURL : string; pc_TestTimeout : Z; pc_Cooldown : Z;
}.
(** Each provider is a switch and a base address. *)
Record ProxyProviderConfig := mkProxyProviderConfig {
  pv_ProxyScrape : bool * string; pv_Geonode : bool * string; pv_PubProxy : bool * string; pv_Proxifly : bool * string;
  pv_TheSpeedX : bool * string; pv_Monosans : bool * string; pv_Gfpcom : bool * string; pv_Thordata : bool * string;
  pv_Hproxy : bool * string; pv_Sage520 : bool * string; pv_ErcinDedeoglu : bool * string;
}.
Record ProxyConfig := mkProxyConfig {
  px_TestURL : string; px_TestTimeout : Z; px_DeadThresholdDays : Z; px_FailCountThreshold : Z;
  px_Scan : ProxyScanConfig; px_Providers : ProxyProviderConfig; px_Consumer : ProxyConsumerConfig;
}.
Record Config := mkConfig {
  cfg_App : AppConfig; cfg_Logging : option LoggingConfig; cfg_HTTP : HTTPConfig; cfg_Auth : option AuthConfig; cfg_Metrics : option MetricsConfig;
  cfg_Postgres : option PostgresConfig; cfg_RabbitMQ : option RabbitMQConfig; cfg_Queue : option QueueConfig;
  cfg_Lodestone : option LodestoneConfig; cfg_Census : option CensusConfig; cfg_Proxy : option ProxyConfig;
}.

(** ** Addresses *)

Definition or_default (value fallback : string) : string := if bool_decide (value = "") then fallback else value.
Definition or_port (port fallback : Z) : Z := if port =? 0 then fallback else port.
Definition GetDSN (p : PostgresConfig) : string :=
  if bool_decide (pg_DSN p <> "") then pg_DSN p
  else "postgres://" +:+ or_default (pg_User p) "census" +:+ ":" +:+ pg_Password p +:+ "@" +:+ or_default (pg_Host p) "localhost" +:+ ":"
         +:+ pretty (or_port (pg_Port p) 5432) +:+ "/" +:+ or_default (pg_Database p) "ffxiv_census" +:+ "?sslmode=" +:+ or_default (pg_SSLMode p) "disable".
Definition GetURL (r : RabbitMQConfig) : string :=
  if bool_decide (rm_URL r <> "") then rm_URL r
  else "amqp://" +:+ or_default (rm_User r) "guest" +:+ ":" +:+ rm_Password r +:+ "@" +:+ or_default (rm_Host r) "localhost" +:+ ":"
         +:+ pretty (or_port (rm_AMQPPort r) 5672) +:+ "/" +:+ or_default (rm_Vhost r) "/".

(** ** The environment file *)

Abbreviation environment := (gmap string string).
Definition unquote (val : string) : string :=
  let quoted (q : string) := (2 <=? String.length val)%nat && HasPrefix val q && HasSuffix val q in
  if quoted (bytes [34%nat]) || quoted "'" then stake (String.length val - 2) (sdrop 1 val) else val.
Definition dotenv_entry (raw : string) : option (string * string) :=
  let line := TrimSpace raw in
  if bool_decide (line = "") || HasPrefix line "#" then None
  else match cut line "=" with
       | None => None
       | Some (k, v) => Some (TrimSpace k, unquote (TrimSpace v))
       end.
(** [setenv_fails] tells the names [os.Setenv] refuses; its error is ignored. *)
Definition setenv_fails (key : string) : bool := bool_decide (key = "") || Contains key (bytes [0%nat]).
Definition set_entry (env : environment) (raw : string) : environment :=
  match dotenv_entry raw with
  | None => env
  | Some (k, v) => match env !! k with Some _ => env | None => if setenv_fails k || Contains v (bytes [0%nat]) then env else <[k := v]> env end
  end.
(** [None] is a file that cannot be opened. *)
Definition loadDotEnv (file : option stream) (env : environment) : environment :=
  match file with None => env | Some body => fold_left set_entry (scan_lines body).1 env end.

(** ** Validation *)

Record parsedURL := mkParsedURL { pu_Scheme : string; pu_Host : string; pu_User : bool }.
Section Validation.
Context (url_Parse : string -> result parsedURL).

Definition invalid (text : string) : result unit := Err (ErrorString ("config: " +:+ text)).
Definition validateHTTPSURL (key raw : string) : result unit :=
  match url_Parse raw with
  | Err e => Err (ErrWrap ("config: " +:+ key +:+ ": invalid URL") e)
  | Ok u =>
      if bool_decide (pu_Scheme u <> "https") then invalid (key +:+ " must use https")
      else if bool_decide (pu_Host u = "") then invalid (key +:+ " must include a host")
      else if pu_User u then invalid (key +:+ " must not contain credentials")
      else Ok tt
  end.
Definition validatePositiveDuration (key : string) (d : Z) : result unit := if d <=? 0 then invalid (key +:+ " must be positive") else Ok tt.
Fixpoint validate_positives (l : list (string * Z)) : result unit :=
  match l with
  | [] => Ok tt
  | (key, d) :: l => _ ← validatePositiveDuration key d; validate_positives l
  end.
Definition scan_durations (scan : ProxyScanConfig) : list (string * Z) := [
  ("proxy.scan.verification_interval", ps_VerificationInterval scan); ("proxy.scan.freshness_ttl", ps_FreshnessTTL scan);
  ("proxy.scan.recovery_base", ps_RecoveryBase scan); ("proxy.scan.recovery_cap", ps_RecoveryCap scan);
  ("proxy.scan.recovery_horizon", ps_RecoveryHorizon scan); ("proxy.scan.lease_duration", ps_LeaseDuration scan);
  ("proxy.scan.min_repeat_interval", ps_MinRepeatInterval scan); ("proxy.scan.inconclusive_retry", ps_InconclusiveRetry scan);
  ("proxy.scan.control_interval", ps_ControlInterval scan)].
Definition scan_weights (scan : ProxyScanConfig) : list (string * Z) := [
  ("proxy.scan.weight_verification", ps_WeightVerification scan); ("proxy.scan.weight_recovery", ps_WeightRecovery scan);
  ("proxy.scan.weight_background", ps_WeightBackground scan)].
Definition require (ok : bool) (text : string) : result unit := if ok then Ok tt else invalid text.
Definition validateProxySettings (cfg : Config) : result unit :=
  match cfg_Proxy cfg with
  | None => invalid "[proxy] section missing"
  | Some proxy =>
      let scan := px_Scan proxy in
      _ ← validateHTTPSURL "proxy.test_url" (px_TestURL proxy);
      _ ← validatePositiveDuration "proxy.test_timeout" (px_TestTimeout proxy);
      _ ← require (0 <? px_DeadThresholdDays proxy) "proxy.dead_threshold_days must be positive";
      _ ← require (0 <? px_FailCountThreshold proxy) "proxy.fail_count_threshold must be positive";
      _ ← validate_positives (scan_durations scan);
      _ ← validate_positives (scan_weights scan);
      _ ← require (i64 (i64 (ps_WeightVerification scan + ps_WeightRecovery scan) + ps_WeightBackground scan) =? 100) "proxy.scan weights must sum to 100";
      _ ← require (i64 (ps_VerificationInterval scan + px_TestTimeout proxy) <? ps_FreshnessTTL scan)
            "proxy.scan.freshness_ttl must exceed verification_interval + test_timeout";
      _ ← require (px_TestTimeout proxy <? ps_LeaseDuration scan) "proxy.scan.lease_duration must exceed test_timeout";
      _ ← require (ps_RecoveryBase scan <=? ps_RecoveryCap scan) "proxy.scan.recovery_cap must be at least recovery_base";
      _ ← require (ps_MinRepeatInterval scan <=? ps_InconclusiveRetry scan) "proxy.scan.min_repeat_interval must not exceed inconclusive_retry";
      _ ← validateHTTPSURL "proxy.consumer.test_url" (pc_TestURL (px_Consumer proxy));
      _ ← validatePositiveDuration "proxy.consumer.test_timeout" (pc_TestTimeout (px_Consumer proxy));
      validatePositiveDuration "proxy.consumer.cooldown" (pc_Cooldown (px_Consumer proxy))
  end.

(** [NewConfig]; [load] reads the embedded file with the environment's overrides. *)
Definition NewConfig (load : environment -> result Config) (file : option stream) (env : environment) : environment * result Config :=
  let env := loadDotEnv file env in
  (env, cfg ← load env; _ ← validateProxySettings cfg; mret cfg).
End Validation.

(** ** What the container derives *)

(** [proxyScanPolicyUnlocked]. *)
Definition proxyScanPolicy (cfg : ProxyConfig) : ProxyScanPolicy :=
  let scan := px_Scan cfg in
  mkProxyScanPolicy (ps_VerificationInterval scan) (ps_FreshnessTTL scan) (ps_RecoveryBase scan) (ps_RecoveryCap scan) (ps_RecoveryHorizon scan)
    (ps_LeaseDuration scan) (ps_MinRepeatInterval scan) (ps_InconclusiveRetry scan) (i64 (i64 (px_DeadThresholdDays cfg * 24) * hour)) (px_FailCountThreshold cfg).
Definition ProxyScanWeights (cfg : ProxyConfig) : arr3 Z :=
  let scan := px_Scan cfg in Arr3 (ps_WeightVerification scan) (ps_WeightRecovery scan) (ps_WeightBackground scan).
Definition queue_attempts (cfg : Config) : Z :=
  match cfg_Queue cfg with Some q => if 0 <? qc_MaxAttempts q then qc_MaxAttempts q else 5 | None => 5 end.
Definition proxyConsumerCooldown (cfg : Config) : Z :=
  match cfg_Proxy cfg with Some p => if 0 <? pc_Cooldown (px_Consumer p) then pc_Cooldown (px_Consumer p) else minute | None => minute end.
(** [time.ParseDuration] of a setting that may be missing or malformed. *)
Definition duration_or (parse_duration : string -> option Z) (text : string) (fallback : Z) : Z :=
  match parse_duration text with Some d => if 0 <? d then d else fallback | None => fallback end.
Definition hub_lockTTL (parse_duration : string -> option Z) (cfg : Config) : Z :=
  match cfg_Proxy cfg with
  | Some p => if bool_decide (pc_LockTTL (px_Consumer p) <> "") then duration_or parse_duration (pc_LockTTL (px_Consumer p)) (5 * minute) else 5 * minute
  | None => 5 * minute
  end.
(** Cache lifetime and stale warning of [UIStatsService]. *)
Definition stats_durations (parse_duration : string -> option Z) (cfg : Config) : Z * Z :=
  match cfg_Census cfg ≫= cc_UIStats with
  | Some u => (duration_or parse_duration (uc_CacheTTL u) minute, duration_or parse_duration (uc_StaleWarning u) (12 * hour))
  | None => (minute, 12 * hour)
  end.

(** Address and prefix of the StatsD client; [address] is [STATSD_ADDRESS]. *)
Definition statsd_settings (cfg : Config) (address : string) : string * string :=
  let '(endpoint, prefix) :=
    match cfg_Metrics cfg with
    | Some m => (mc_Endpoint m, or_default (mc_Prefix m) "ffxiv-census")
    | None => ("", "ffxiv-census")
    end in
  let endpoint := or_default address endpoint in
  (or_default endpoint "127.0.0.1:8125", prefix).
(** The environment and the token the API routes are registered with. *)
Definition api_credentials (cfg : Config) : string * string :=
  (ac_Env (cfg_App cfg), match cfg_Auth cfg with Some a => au_Token a | None => "" end).

(** A provider and where it reads from. *)
Inductive providerSource := ApiSource (baseURL : string) | TextSource (urls : list (string * string)).
Definition text_source (base suffix : string) (protocols : list string) : providerSource :=
  TextSource ((fun p => (p, TrimRight_slash base +:+ "/" +:+ p +:+ suffix)) <$> protocols).
Definition three_lists : list string := ["http"; "socks4"; "socks5"].
(** A provider the container builds at its first use, or none when the proxy
    section is missing or the provider is switched off. *)
Definition container_provider (setting : ProxyProviderConfig -> bool * string) (name : string) (source : string -> providerSource) (cfg : option ProxyConfig)
  : option (string * providerSource) :=
  match cfg with
  | None => None
  | Some c => let (enabled, url) := setting (px_Providers c) in if enabled then Some (name, source url) else None
  end.
Definition ProxyScrapeProvider := container_provider pv_ProxyScrape "proxyscrape" (fun url => ApiSource (proxyscrape_New url)).
Definition GeonodeProvider := container_provider pv_Geonode "geonode" (fun url => ApiSource (geonode_New url)).
Definition PubProxyProvider := container_provider pv_PubProxy "pubproxy" (fun url => ApiSource (pubproxy_New url)).
Definition ProxiflyProvider := container_provider pv_Proxifly "proxifly" (fun base => text_source base "/data.txt" three_lists).
Definition TheSpeedXProvider := container_provider pv_TheSpeedX "thespeedx" (fun base => text_source base ".txt" three_lists).
Definition MonosansProvider := container_provider pv_Monosans "monosans" (fun base => text_source base ".txt" three_lists).
Definition GfpcomProvider := container_provider pv_Gfpcom "gfpcom" (fun base => text_source base ".txt" three_lists).
Definition ThordataProvider := container_provider pv_Thordata "thordata" (fun base => text_source base ".txt" ["http"]).
Definition HproxyProvider := container_provider pv_Hproxy "hproxy" (fun base => text_source base ".txt" three_lists).
Definition Sage520Provider := container_provider pv_Sage520 "sage520" (fun base => text_source base ".txt" three_lists).
Definition ErcinDedeogluProvider := container_provider pv_ErcinDedeoglu "ercindedeoglu" (fun base => text_source base ".txt" ["http"; "socks5"]).
(** The providers [ProxyService] collects, in its order. *)
Definition configured_providers (cfg : option ProxyConfig) : list (string * providerSource) :=
  omap id [ProxyScrapeProvider cfg; GeonodeProvider cfg; PubProxyProvider cfg; ProxiflyProvider cfg; TheSpeedXProvider cfg; MonosansProvider cfg; GfpcomProvider cfg; ThordataProvider cfg; HproxyProvider cfg; Sage520Provider cfg; ErcinDedeogluProvider cfg].

(** The settings of the census service. *)
Definition configure_service (cfg : Config) (s : Service) : Service :=
  match cfg_Census cfg with
  | None => s
  | Some c =>
      let s := if 0 <? cc_ActivityWindowDays c then SetActivityWindow (i64 (i64 (cc_ActivityWindowDays c * 24) * hour)) s else s in
      SetConfig (cc_MaxLevel c) (cc_Expansions c) s
  end.

(** ** Properties *)

Lemma validate_positives_ok l : validate_positives l = Ok tt -> Forall (fun kd => 0 < kd.2) l.
Proof.
  induction l as [|[key d] l IH]; [constructor|]. cbn. unfold validatePositiveDuration. destruct (Z.leb_spec d 0); [done|]. intros H1. constructor; [done|by apply IH].
Qed.
Lemma require_ok ok text : require ok text = Ok tt -> ok = true.
Proof. by destruct ok. Qed.
Lemma result_bind_ok {A B} (r : result A) (f : A -> result B) b : (x ← r; f x) = Ok b -> exists x, r = Ok x /\ f x = Ok b.
Proof. destruct r as [x|e]; [|done]. by exists x. Qed.

(** An address the validation accepts. *)
Definition https_address (url_Parse : string -> result parsedURL) (raw : string) : Prop :=
  exists u, url_Parse raw = Ok u /\ pu_Scheme u = "https" /\ pu_Host u <> "" /\ pu_User u = false.
Lemma validateHTTPSURL_ok url_Parse key raw : validateHTTPSURL url_Parse key raw = Ok tt -> https_address url_Parse raw.
Proof.
  unfold validateHTTPSURL. destruct (url_Parse raw) as [u|e] eqn:Hu; [|done]. case_bool_decide as Hs; [done|]. case_bool_decide as Hh; [done|].
  destruct (pu_User u) eqn:Huser; [done|]. intros _. exists u. split_and!; try done.
Qed.

(** What validated settings satisfy. *)
Record settings_ok (url_Parse : string -> result parsedURL) (p : ProxyConfig) : Prop := {
  sk_url : https_address url_Parse (px_TestURL p);
  sk_consumer_url : https_address url_Parse (pc_TestURL (px_Consumer p));
  sk_timeout : 0 < px_TestTimeout p;
  sk_thresholds : 0 < px_DeadThresholdDays p /\ 0 < px_FailCountThreshold p;
  sk_durations : Forall (fun kd => 0 < kd.2) (scan_durations (px_Scan p));
  sk_weights : Forall (fun kd => 0 < kd.2) (scan_weights (px_Scan p));
  sk_sum : i64 (i64 (ps_WeightVerification (px_Scan p) + ps_WeightRecovery (px_Scan p)) + ps_WeightBackground (px_Scan p)) = 100;
  sk_fresh : i64 (ps_VerificationInterval (px_Scan p) + px_TestTimeout p) < ps_FreshnessTTL (px_Scan p);
  sk_lease : px_TestTimeout p < ps_LeaseDuration (px_Scan p);
  sk_recovery : ps_RecoveryBase (px_Scan p) <= ps_RecoveryCap (px_Scan p);
  sk_repeat : ps_MinRepeatInterval (px_Scan p) <= ps_InconclusiveRetry (px_Scan p);
  sk_consumer : 0 < pc_TestTimeout (px_Consumer p) /\ 0 < pc_Cooldown (px_Consumer p);
}.
Lemma validateProxySettings_ok url_Parse cfg : validateProxySettings url_Parse cfg = Ok tt ->
  exists p, cfg_Proxy cfg = Some p /\ settings_ok url_Parse p.
Proof.
  unfold validateProxySettings. destruct (cfg_Proxy cfg) as [p|]; [|done]. cbv zeta. intros Hv. exists p. split; [done|].
  repeat match goal with H : (_ ← _; _) = Ok tt |- _ => apply result_bind_ok in H as ([] & ? & H) end.
  repeat match goal with H : require _ _ = Ok tt |- _ => apply require_ok in H end.
  repeat match goal with H : validateHTTPSURL _ _ _ = Ok tt |- _ => apply validateHTTPSURL_ok in H end.
  repeat match goal with H : validate_positives _ = Ok tt |- _ => apply validate_positives_ok in H end.
  assert (Hpos : forall key d, validatePositiveDuration key d = Ok tt -> 0 < d).
  { intros key d. unfold validatePositiveDuration. by destruct (Z.leb_spec d 0). }
  repeat match goal with H : validatePositiveDuration _ _ = Ok tt |- _ => apply Hpos in H end.
  split; try done; try lia.
Qed.

Lemma settings_policy_normal url_Parse p : settings_ok url_Parse p -> normalizeScanPolicy (proxyScanPolicy p) = proxyScanPolicy p.
Proof.
  intros [_ _ _ _ Hd _ _ _ _ _ _ _]. unfold scan_durations in Hd.
  repeat match goal with H : Forall _ (_ :: _) |- _ => apply Forall_cons_iff in H as [? H] end. cbn [fst snd] in *.
  assert (Hn : forall d, 0 < d -> (d <=? 0) = false) by (intros; lia).
  unfold normalizeScanPolicy, proxyScanPolicy. cbn [sp_FreshnessTTL]. rewrite (Hn (ps_FreshnessTTL _)) by done. cbn [sp_LeaseDuration].
  rewrite (Hn (ps_LeaseDuration _)) by done. cbn [sp_RecoveryHorizon]. by rewrite (Hn (ps_RecoveryHorizon _)).
Qed.

(** A successful check that is recorded within the timeout of its claim is
    stored, and the proxy is fresh until a check that starts when it is due is
    over. *)
Lemma success_is_recorded pol timeout db t skip token q limit db' leases l dbNow latency start finish :
  timeout < sp_LeaseDuration pol -> sp_VerifyInterval pol + timeout < sp_FreshnessTTL pol -> table_ok db ->
  ClaimScans pol db NoFault t skip (Ok token) q limit = (db', Ok leases) -> l ∈ leases ->
  dbNow <= clock_ts t (pr_ID (sl_Record l)) + timeout ->
  exists db'' row, CompleteScan db' NoFault dbNow l (MakeScanUpdate pol (sl_Record l) latency None start finish) = (db'', Ok true) /\
    db_rows db'' !! pr_ID (sl_Record l) = Some row /\ pr_NextAttemptAt row = Some (dbNow + sp_VerifyInterval pol) /\
    forall x, x <= dbNow + sp_VerifyInterval pol + timeout -> freshPredicate (sp_FreshnessTTL pol) x row = true.
Proof.
  intros Hlease Hfresh Hok Hclaim Hl Hnow.
  destruct (claimed_lease_stored _ _ _ _ _ _ _ _ _ _ Hok Hclaim Hl) as (r & _ & _ & Hrec & Htok & Hver & Hrow).
  rewrite Hrec in *. change (pr_ID (stamp_lease pol token (clock_ts t) r)) with (pr_ID r) in *.
  unfold CompleteScan. rewrite Hrec. change (pr_ID (stamp_lease pol token (clock_ts t) r)) with (pr_ID r). cbn [with_fault]. rewrite Hrow.
  assert (Hfence : fencedWhere l dbNow (stamp_lease pol token (clock_ts t) r) = true).
  { unfold fencedWhere. rewrite Htok, Hver. cbn. rewrite !bool_decide_true, Z.eqb_refl by done. cbn. apply Z.ltb_lt. lia. }
  unfold MakeScanUpdate, ClassifyCheck. cbn [su_Outcome]. unfold update_where. rewrite Hrow, Hfence.
  eexists _, _. split; [reflexivity|]. split; [apply lookup_insert_eq|]. split; [reflexivity|].
  intros x Hx. unfold freshPredicate. cbn. apply Z.ltb_lt. lia.
Qed.

(** C30: settings that pass validation keep the scheduler sound.  If the
    start-up accepts the configuration and its sums fit a machine integer, then
    with the policy and the weights the container derives: a failed proxy waits
    exactly the capped doubling of the base on every step; every number of
    slots from three on whose hundredfold fits a machine integer is reserved
    completely, each queue getting one slot and its percentage of the rest,
    rounded down or up; and a check that succeeds and is recorded within the
    test timeout of its claim, with the row as the claim left it, is always
    accepted by the store, which then
    counts the proxy as fresh until a verification that starts when it is due
    and takes the full timeout is over. *)
Theorem valid_settings_schedule url_Parse cfg (Hvalid : validateProxySettings url_Parse cfg = Ok tt) :
  exists proxy, cfg_Proxy cfg = Some proxy /\
  let policy := normalizeScanPolicy (proxyScanPolicy proxy) in let weights := ProxyScanWeights proxy in
  sp_RecoveryCap policy <= max_int64 -> asum weights <= max_int64 -> sp_VerifyInterval policy + px_TestTimeout proxy <= max_int64 ->
  (forall step, 0 <= step -> RecoveryDelay step (sp_RecoveryBase policy) (sp_RecoveryCap policy) = Z.min (sp_RecoveryCap policy) (sp_RecoveryBase policy * 2 ^ step)) /\
  (forall concurrency, 3 <= concurrency -> (concurrency - 3) * 100 <= max_int64 ->
     exists targets, reservationTargets concurrency weights = Some targets /\ asum targets = concurrency /\
       forall i, (i < 3)%nat -> let share := (concurrency - 3) * aget weights i / 100 in 1 + share <= aget targets i <= 2 + share) /\
  (forall db t skip token q limit db' leases l dbNow latency start finish, table_ok db ->
     ClaimScans policy db NoFault t skip (Ok token) q limit = (db', Ok leases) -> l ∈ leases ->
     dbNow <= clock_ts t (pr_ID (sl_Record l)) + px_TestTimeout proxy ->
     exists db'' row, CompleteScan db' NoFault dbNow l (MakeScanUpdate policy (sl_Record l) latency None start finish) = (db'', Ok true) /\
       db_rows db'' !! pr_ID (sl_Record l) = Some row /\ pr_NextAttemptAt row = Some (dbNow + sp_VerifyInterval policy) /\
       forall x, x <= dbNow + sp_VerifyInterval policy + px_TestTimeout proxy -> freshPredicate (sp_FreshnessTTL policy) x row = true).
Proof.
  apply validateProxySettings_ok in Hvalid as (p & Hp & Hset). exists p. split; [done|]. cbv zeta. rewrite (settings_policy_normal url_Parse p Hset).
  destruct Hset as [Hu Hcu Ht Hth Hd Hw Hsum Hf Hl Hr Hrep Hcons]. intros Hcap Hwsum Hfresh.
  unfold scan_durations, scan_weights in *. repeat match goal with H : Forall _ (_ :: _) |- _ => apply Forall_cons_iff in H as [? H] end. cbn [fst snd] in *.
  unfold asum, ProxyScanWeights in Hwsum. cbn [at0 at1 at2] in Hwsum. cbn [proxyScanPolicy sp_RecoveryCap sp_VerifyInterval] in Hcap, Hfresh.
  rewrite (i64_id (ps_WeightVerification (px_Scan p) + ps_WeightRecovery (px_Scan p))), i64_id in Hsum by (unfold is_i64, min_int64; lia). rewrite i64_id in Hf by (unfold is_i64, min_int64; lia).
  split; [intros step Hs; apply RecoveryDelay_correct; cbn; lia|]. split.
  - intros n Hn Hfits. destruct (reservationTargets_correct n (ProxyScanWeights p) Hn Hfits ltac:(unfold pos3; cbn; lia) Hsum) as (targets & Ht1 & Ht2 & Ht3).
    exists targets. split; [done|]. split; [done|]. intros i Hi. specialize (Ht3 i Hi). cbv zeta in Ht3 |- *.
    rewrite Z.quot_div_nonneg in Ht3; [done| |lia]. apply Z.mul_nonneg_nonneg; [lia|]. destruct i as [|[|[|i]]]; cbn; lia.
  - intros. eapply success_is_recorded; cbn; eauto.
Qed.

(** The repository's own settings. *)
Definition default_scan : ProxyScanConfig :=
  mkProxyScanConfig minute (2 * minute) minute (15 * minute) hour 10 45 45 (30 * second) second minute (30 * second).
Definition default_proxy (weights : Z * Z * Z) : ProxyConfig :=
  mkProxyConfig "https://na.finalfantasyxiv.com/lodestone/" (10 * second) 2 5
    (default_scan{{ ps_WeightVerification := weights.1.1; ps_WeightRecovery := weights.1.2; ps_WeightBackground := weights.2 }})
    (mkProxyProviderConfig (true, "") (true, "") (true, "") (true, "https://a/") (false, "") (false, "") (false, "") (false, "") (false, "") (false, "") (false, ""))
    (mkProxyConsumerConfig "5m" (S754_zero false) "30s" "https://na.finalfantasyxiv.com/lodestone/" (10 * second) minute).
Definition default_config (weights : Z * Z * Z) : Config :=
  mkConfig (mkAppConfig "census" "test" "") None (mkHTTPConfig "" 0 "" "" "") None None None None (Some (mkQueueConfig 50)) None None (Some (default_proxy weights)).
Definition https_only (raw : string) : result parsedURL :=
  match strip_prefix "https://" raw with Some host => Ok (mkParsedURL "https" host false) | None => Err (ErrorString "parse") end.

Lemma valid_settings_schedule_witness :
  exists targets, reservationTargets 10 (ProxyScanWeights (default_proxy (10, 45, 45))) = Some targets /\ asum targets = 10 /\
    1 <= at0 targets <= 2 /\ 4 <= at1 targets <= 5.
Proof.
  destruct (valid_settings_schedule https_only (default_config (10, 45, 45)) ltac:(vm_compute; reflexivity)) as (p & Hp & H).
  injection Hp as <-. destruct (proj1 (proj2 (H ltac:(vm_compute; discriminate) ltac:(vm_compute; discriminate) ltac:(vm_compute; discriminate))) 10 ltac:(lia) ltac:(vm_compute; discriminate)) as (t & H1 & H2 & H3).
  exists t. split; [exact H1|]. split; [exact H2|]. split; [exact (H3 0%nat ltac:(lia))|exact (H3 1%nat ltac:(lia))].
Defined.

(** The weights are summed in machine arithmetic: weights far above a hundred
    pass when the sum wraps around. *)
Example wrapped_weights_accepted : validateProxySettings https_only (default_config (max_int64, max_int64, 102)) = Ok tt.
Proof. vm_compute. reflexivity. Qed.

(** ** Providers *)

(** Whatever is switched on, the service never reads a provider twice, and
    it reads them in one fixed order. *)
Definition provider_names : list string :=
  ["proxyscrape"; "geonode"; "pubproxy"; "proxifly"; "thespeedx"; "monosans"; "gfpcom"; "thordata"; "hproxy"; "sage520"; "ercindedeoglu"].
Lemma container_provider_name setting name source cfg : 
  container_provider setting name source cfg = None \/ exists src, container_provider setting name source cfg = Some (name, src).
Proof. destruct cfg as [c|]; [|by left]. cbn. destruct (setting (px_Providers c)) as [[] url]; [right; by eexists|by left]. Qed.
Lemma omap_names_sublist {A} (names : list string) (l : list (option (string * A))) :
  Forall2 (fun name o => o = None \/ exists src, o = Some (name, src)) names l -> sublist (omap id l).*1 names.
Proof.
  induction 1 as [|name o names l Ho Hl IH]; [constructor|]. destruct Ho as [->|[src ->]]; cbn; by constructor.
Qed.
Lemma configured_providers_order cfg : sublist (configured_providers cfg).*1 provider_names.
Proof. apply omap_names_sublist. repeat (apply List.Forall2_cons; [apply container_provider_name|]). constructor. Qed.
Lemma configured_providers_once cfg : NoDup (configured_providers cfg).*1.
Proof.
  apply (sublist_NoDup _ provider_names); [|apply configured_providers_order].
  apply (bool_decide_unpack _). vm_compute. exact I.
Qed.

(** ** The environment file *)

(** A variable that is set keeps its value, and of several lines for one
    variable the first counts. *)
Lemma set_entry_keeps env raw k v : env !! k = Some v -> set_entry env raw !! k = Some v.
Proof.
  intros Hk. unfold set_entry. destruct (dotenv_entry raw) as [[k' v']|]; [|done]. destruct (env !! k') eqn:He; [done|].
  destruct (_ || _); [done|]. rewrite lookup_insert_ne; [done|]. by intros ->; rewrite Hk in He.
Qed.
Lemma loadDotEnv_keeps file env k v : env !! k = Some v -> loadDotEnv file env !! k = Some v.
Proof.
  unfold loadDotEnv. destruct file as [body|]; [|done]. generalize (scan_lines body).1. intros lines. revert env.
  induction lines as [|raw lines IH]; intros env Hk; [done|]. cbn [fold_left]. apply IH. by apply set_entry_keeps.
Qed.
Lemma loadDotEnv_first body env k v raw rest before : (scan_lines body).1 = before ++ raw :: rest ->
  env !! k = None -> Forall (fun r => forall v', dotenv_entry r <> Some (k, v')) before ->
  dotenv_entry raw = Some (k, v) -> setenv_fails k || Contains v (bytes [0%nat]) = false ->
  loadDotEnv (Some body) env !! k = Some v.
Proof.
  intros Hl Hk Hb Hr Hf. cbn [loadDotEnv]. rewrite Hl, fold_left_app. cbn [fold_left].
  assert (Hk1 : fold_left set_entry before env !! k = None).
  { clear Hl. revert env Hk. induction before as [|r before IH]; intros env Hk; [done|]. inversion Hb as [|? ? Hr' Hb']; subst. cbn [fold_left]. apply IH; [done|].
    unfold set_entry. destruct (dotenv_entry r) as [[k' v']|] eqn:He; [|done]. destruct (env !! k'); [done|].
    destruct (setenv_fails k' || Contains v' (bytes [0%nat])); [done|]. rewrite lookup_insert_ne; [done|]. intros ->. by apply (Hr' v'). }
  assert (Hset : set_entry (fold_left set_entry before env) raw !! k = Some v).
  { revert Hk1. generalize (fold_left set_entry before env). intros m Hk1. unfold set_entry. rewrite Hr, Hk1, Hf. apply lookup_insert_eq. }
  revert Hset. generalize (set_entry (fold_left set_entry before env) raw). clear -k. induction rest as [|r rest IH]; intros m Hm; [done|]. cbn [fold_left].
  apply IH. by apply set_entry_keeps.
Qed.
Example dotenv_lines :
  dotenv_entry <$> ["# comment"; ""; " KEY = 'a=b' "; "novalue"; "A="] = [None; None; Some ("KEY", "a=b"); None; Some ("A", "")].
Proof. vm_compute. reflexivity. Qed.
