(* ===== verification/Metrics.v ===== *)
(** * Metrics ([infrastructure/metrics])

    The in-memory registry of counters, gauges and histograms and its text
    exposition, the observer of the statistics service, the process collectors,
    and the StatsD client.  A metric handle is the name it is registered under;
    what collectors read (clock, pools, queue depth) is their environment.  The
    number formats [%g] and [%f] are parameters. *)
From Stdlib Require Import SpecFloat.
From stdpp Require Import pretty.
From S2P Require Import Prelude GoStrings UiFormat.

Definition fadd (a b : float64) : float64 := SFadd prec64 emax64 a b.
Definition feqb (a b : float64) : bool := SFeqb a b.

(** ** Series ([registry.go]) *)

Abbreviation Labels := (gmap string string).
Definition quote : string := bytes [34%nat].
Definition lf : string := bytes [10%nat].
Definition render_label (kv : string * string) : string := kv.1 +:+ "=" +:+ quote +:+ kv.2 +:+ quote.
Definition sort_strings (l : list string) : list string := merge_sort String.le l.
Definition labelsToKey (labels : Labels) : string :=
  if bool_decide (labels = ∅) then "" else Join (sort_strings (render_label <$> map_to_list labels)) ",".

Record Counter := mkCounter { co_name : string; co_help : string; co_values : gmap string float64 }.
Record Gauge := mkGauge { ga_name : string; ga_help : string; ga_values : gmap string float64 }.
(** [counts] maps a key to the counts by bucket, looked up by float equality. *)
Record Histogram := mkHistogram {
  hi_name : string; hi_help : string; hi_buckets : list float64;
  hi_counts : gmap string (list (float64 * Z)); hi_sums : gmap string float64; hi_totals : gmap string Z;
}.
Record Metrics := mkMetrics { mx_counters : gmap string Counter; mx_gauges : gmap string Gauge; mx_histograms : gmap string Histogram }.

Definition zero : float64 := S754_zero false.
Definition one : float64 := float_of_int 1.
Definition value_at (m : gmap string float64) (key : string) : float64 := default zero (m !! key).
Definition Counter_Add (c : Counter) (labels : Labels) (delta : float64) : Counter :=
  if SFltb delta zero then c
  else let key := labelsToKey labels in mkCounter (co_name c) (co_help c) (<[key := fadd (value_at (co_values c) key) delta]> (co_values c)).
Definition Counter_Inc (c : Counter) (labels : Labels) : Counter := Counter_Add c labels one.
Definition with_values (g : Gauge) (m : gmap string float64) : Gauge := mkGauge (ga_name g) (ga_help g) m.
Definition Gauge_Set (g : Gauge) (labels : Labels) (val : float64) : Gauge := with_values g (<[labelsToKey labels := val]> (ga_values g)).
Definition Gauge_Add (g : Gauge) (labels : Labels) (delta : float64) : Gauge :=
  let key := labelsToKey labels in with_values g (<[key := fadd (value_at (ga_values g) key) delta]> (ga_values g)).
Definition Gauge_Sub (g : Gauge) (labels : Labels) (delta : float64) : Gauge :=
  let key := labelsToKey labels in with_values g (<[key := fsub (value_at (ga_values g) key) delta]> (ga_values g)).
Definition Gauge_Inc (g : Gauge) (labels : Labels) : Gauge := Gauge_Add g labels one.
Definition Gauge_Dec (g : Gauge) (labels : Labels) : Gauge := Gauge_Sub g labels one.

Fixpoint bucket_count (b : float64) (counts : list (float64 * Z)) : Z :=
  match counts with [] => 0 | (b', n) :: counts => if feqb b b' then n else bucket_count b counts end.
Fixpoint bump_count (b : float64) (counts : list (float64 * Z)) : list (float64 * Z) :=
  match counts with
  | [] => [(b, 1)]
  | (b', n) :: counts => if feqb b b' then (b', u64 (n + 1)) :: counts else (b', n) :: bump_count b counts
  end.
Definition bump_buckets (val : float64) (buckets : list float64) (counts : list (float64 * Z)) : list (float64 * Z) :=
  fold_left (fun counts b => if SFleb val b then bump_count b counts else counts) buckets counts.
Definition counts_at (h : Histogram) (key : string) : list (float64 * Z) := default [] (hi_counts h !! key).
Definition total_at (h : Histogram) (key : string) : Z := default 0 (hi_totals h !! key).
Definition Observe (h : Histogram) (labels : Labels) (val : float64) : Histogram :=
  let key := labelsToKey labels in
  mkHistogram (hi_name h) (hi_help h) (hi_buckets h)
    (<[key := bump_buckets val (hi_buckets h) (counts_at h key)]> (hi_counts h))
    (<[key := fadd (value_at (hi_sums h) key) val]> (hi_sums h))
    (<[key := u64 (total_at h key + 1)]> (hi_totals h)).

(** ** Registration *)

Definition NewCounter (name help : string) (m : Metrics) : Metrics :=
  match mx_counters m !! name with
  | Some _ => m
  | None => mkMetrics (<[name := mkCounter name help ∅]> (mx_counters m)) (mx_gauges m) (mx_histograms m)
  end.
Definition NewGauge (name help : string) (m : Metrics) : Metrics :=
  match mx_gauges m !! name with
  | Some _ => m
  | None => mkMetrics (mx_counters m) (<[name := mkGauge name help ∅]> (mx_gauges m)) (mx_histograms m)
  end.
(** [sort.Float64s]: values that are not numbers come first. *)
Definition float_less (a b : float64) : bool :=
  SFltb a b || (match a, b with S754_nan, S754_nan => false | S754_nan, _ => true | _, _ => false end).
Definition float_le (a b : float64) : Prop := float_less b a = false.
Global Instance float_le_dec : RelDecision float_le.
Proof. intros a b. unfold float_le. apply _. Defined.
Definition sort_floats (l : list float64) : list float64 := merge_sort float_le l.
Definition fresh_histogram (name help : string) (buckets : list float64) : Histogram :=
  mkHistogram name help (sort_floats buckets) ∅ ∅ ∅.
Definition NewHistogram (name help : string) (buckets : list float64) (m : Metrics) : Metrics :=
  match mx_histograms m !! name with
  | Some _ => m
  | None => mkMetrics (mx_counters m) (mx_gauges m) (<[name := fresh_histogram name help buckets]> (mx_histograms m))
  end.

(** A call through the handle of a registered metric. *)
Definition on_counter (name : string) (f : Counter -> Counter) (m : Metrics) : Metrics :=
  mkMetrics (alter f name (mx_counters m)) (mx_gauges m) (mx_histograms m).
Definition on_gauge (name : string) (f : Gauge -> Gauge) (m : Metrics) : Metrics :=
  mkMetrics (mx_counters m) (alter f name (mx_gauges m)) (mx_histograms m).
Definition on_histogram (name : string) (f : Histogram -> Histogram) (m : Metrics) : Metrics :=
  mkMetrics (mx_counters m) (mx_gauges m) (alter f name (mx_histograms m)).

(** ** Exposition *)

Section Exposition.
Context (fmt_g : float64 -> string).

Definition sorted_keys {A} (m : gmap string A) : list string := sort_strings (map_to_list m).*1.
Definition each_key {A} (m : gmap string A) (f : string -> A -> string) : string :=
  String.concat "" (omap (fun k => f k <$> m !! k) (sorted_keys m)).
Definition preamble (name help type : string) : string :=
  "# HELP " +:+ name +:+ " " +:+ help +:+ lf +:+ "# TYPE " +:+ name +:+ " " +:+ type +:+ lf.
Definition sample (name key value : string) : string :=
  (if bool_decide (key = "") then name else name +:+ "{" +:+ key +:+ "}") +:+ " " +:+ value +:+ lf.
Definition expose_values (name help type : string) (values : gmap string float64) : string :=
  if bool_decide (values = ∅) then "" else preamble name help type +:+ each_key values (fun k val => sample name k (fmt_g val)).
Definition bucket_key (key le : string) : string :=
  let label := "le=" +:+ quote +:+ le +:+ quote in if bool_decide (key = "") then label else key +:+ "," +:+ label.
Definition expose_series (h : Histogram) (key : string) (total : Z) : string :=
  String.concat "" ((fun b => sample (hi_name h +:+ "_bucket") (bucket_key key (fmt_g b)) (pretty (bucket_count b (counts_at h key)))) <$> hi_buckets h) +:+
  sample (hi_name h +:+ "_bucket") (bucket_key key "+Inf") (pretty total) +:+
  sample (hi_name h +:+ "_sum") key (fmt_g (value_at (hi_sums h) key)) +:+
  sample (hi_name h +:+ "_count") key (pretty total).
Definition expose_histogram (h : Histogram) : string :=
  if bool_decide (hi_totals h = ∅) then ""
  else preamble (hi_name h) (hi_help h) "histogram" +:+ each_key (hi_totals h) (expose_series h).
Definition expose (m : Metrics) : string :=
  each_key (mx_counters m) (fun _ c => expose_values (co_name c) (co_help c) "counter" (co_values c)) +:+
  each_key (mx_gauges m) (fun _ g => expose_values (ga_name g) (ga_help g) "gauge" (ga_values g)) +:+
  each_key (mx_histograms m) (fun _ h => expose_histogram h).

Record Registry (E : Type) := mkRegistry { rg_metrics : Metrics; rg_collectors : list (E -> Metrics -> Metrics) }.
Arguments mkRegistry {E}. Arguments rg_metrics {E}. Arguments rg_collectors {E}.
Definition NewRegistry {E} : Registry E := mkRegistry (mkMetrics ∅ ∅ ∅) [].
Definition RegisterCollector {E} (fn : E -> Metrics -> Metrics) (r : Registry E) : Registry E :=
  mkRegistry (rg_metrics r) (rg_collectors r ++ [fn]).
Definition Gather {E} (env : E) (r : Registry E) : Registry E * string :=
  let m := fold_left (fun m fn => fn env m) (rg_collectors r) (rg_metrics r) in
  (mkRegistry m (rg_collectors r), expose m).
End Exposition.
Arguments mkRegistry {E}. Arguments rg_metrics {E}. Arguments rg_collectors {E}.

(** ** Collectors ([collectors.go]) and the observer ([ui_stats.go]) *)

(** [time.Duration.Seconds]. *)
Definition Seconds (d : Z) : float64 := fadd (float_of_int (Z.quot d second)) (fdiv (float_of_int (Z.rem d second)) (float_of_int second)).

(** What the collectors read when they run: the clock, the connection pool if
    there is a database, and the queue depth if there is a queue. *)
Record ProcessEnv := mkProcessEnv { pe_now : Z; pe_pool : option (Z * Z * Z); pe_depth : option Z }.
Definition RegisterProcessMetrics (startTime : Z) (r : Registry ProcessEnv) : Registry ProcessEnv :=
  let r := mkRegistry (NewGauge "process_uptime_seconds" "Total seconds since process start" (rg_metrics r)) (rg_collectors r) in
  RegisterCollector (fun env => on_gauge "process_uptime_seconds" (fun g => Gauge_Set g ∅ (Seconds (time_sub (pe_now env) startTime)))) r.
Definition RegisterSQLiteMetrics (r : Registry ProcessEnv) : Registry ProcessEnv :=
  let m := NewGauge "sqlite_idle_connections" "Count of idle SQLite connections"
             (NewGauge "sqlite_in_use_connections" "Count of SQLite connections currently in use"
                (NewGauge "sqlite_open_connections" "Count of established open SQLite connections" (rg_metrics r))) in
  let set name n := on_gauge name (fun g => Gauge_Set g ∅ (float_of_int n)) in
  RegisterCollector (fun env m =>
      match pe_pool env with
      | None => m
      | Some (open, in_use, idle) =>
          set "sqlite_idle_connections" idle (set "sqlite_in_use_connections" in_use (set "sqlite_open_connections" open m))
      end) (mkRegistry m (rg_collectors r)).
Definition RegisterQueueMetrics (r : Registry ProcessEnv) : Registry ProcessEnv :=
  let m := NewGauge "queue_jobs_depth" "Current queue jobs depth" (rg_metrics r) in
  RegisterCollector (fun env m =>
      match pe_depth env with
      | None => m
      | Some n => on_gauge "queue_jobs_depth" (fun g => Gauge_Set g ∅ (float_of_int n)) m
      end) (mkRegistry m (rg_collectors r)).

Definition refresh_buckets : list float64 := float_of_int <$> [1; 5; 15; 60; 300; 900; 3600; 7200].
Definition NewUIStatsObserver (m : Metrics) : Metrics :=
  NewGauge "ui_stats_last_refresh_duration_seconds" "Duration recorded by the currently served UI statistics snapshot"
    (NewGauge "ui_stats_payload_bytes" "Serialized UI statistics snapshot size in bytes"
       (NewGauge "ui_stats_snapshot_age_seconds" "Age of the UI statistics snapshot currently served"
          (NewHistogram "ui_stats_refresh_duration_seconds" "UI statistics refresh duration in seconds" refresh_buckets
             (NewCounter "ui_stats_refresh_total" "UI statistics refresh outcomes"
                (NewCounter "ui_stats_cache_total" "UI statistics cache outcomes" m))))).
(** A snapshot as the observer sees it: when it was generated, how long that
    took, and its encoded size if it can be encoded. *)
Definition ObserveUIStatsCache (result : string) (snapshot : option (Z * Z * option Z)) (now : Z) (m : Metrics) : Metrics :=
  let m := on_counter "ui_stats_cache_total" (fun c => Counter_Inc c {["result" := result]}) m in
  match snapshot with
  | Some (generatedAt, refreshDuration, payload) =>
      if is_zero_time generatedAt then m
      else
        let age := Seconds (time_sub now generatedAt) in
        let age := if SFltb age zero then zero else age in
        let m := on_gauge "ui_stats_snapshot_age_seconds" (fun g => Gauge_Set g ∅ age) m in
        let m := on_gauge "ui_stats_last_refresh_duration_seconds" (fun g => Gauge_Set g ∅ (Seconds refreshDuration)) m in
        match payload with
        | Some size => on_gauge "ui_stats_payload_bytes" (fun g => Gauge_Set g ∅ (float_of_int size)) m
        | None => m
        end
  | None => m
  end.
Definition ObserveUIStatsRefresh (result : string) (duration payloadBytes : Z) (m : Metrics) : Metrics :=
  let m := on_counter "ui_stats_refresh_total" (fun c => Counter_Inc c {["result" := result]}) m in
  let m := on_histogram "ui_stats_refresh_duration_seconds" (fun h => Observe h ∅ (Seconds duration)) m in
  if 0 <=? payloadBytes then on_gauge "ui_stats_payload_bytes" (fun g => Gauge_Set g ∅ (float_of_int payloadBytes)) m else m.

(** ** StatsD ([client.go]) *)

(** [strings.Trim] of one byte at both ends. *)
Fixpoint trim_left_byte (c : Ascii.ascii) (s : string) : string :=
  match s with String a s' => if bool_decide (a = c) then trim_left_byte c s' else s | EmptyString => "" end.
Fixpoint trim_right_byte (c : Ascii.ascii) (s : string) : string :=
  match s with
  | EmptyString => ""
  | String a s' => let r := trim_right_byte c s' in if bool_decide (a = c) && bool_decide (r = "") then "" else String a r
  end.
Definition Trim_byte (c : Ascii.ascii) (s : string) : string := trim_right_byte c (trim_left_byte c s).
(** The client: its prefix, and the datagrams it has sent; an error of the
    socket is logged and otherwise ignored. *)
Record statsdClient := mkStatsd { sd_prefix : string; sd_sent : list string }.
Definition statsd_New (prefix : string) : statsdClient := mkStatsd (Trim_byte (Ascii.ascii_of_nat 46) prefix) [].
Definition compose (c : statsdClient) (stat : string) : string :=
  let segment := Trim_byte (Ascii.ascii_of_nat 46) stat in
  if bool_decide (sd_prefix c = "") then segment
  else if bool_decide (segment = "") then sd_prefix c
  else sd_prefix c +:+ "." +:+ segment.
Definition statsd_send (c : statsdClient) (metric : string) : statsdClient := mkStatsd (sd_prefix c) (sd_sent c ++ [metric]).
Definition Timing (c : statsdClient) (stat : string) (d : Z) : statsdClient :=
  statsd_send c (compose c stat +:+ ":" +:+ pretty (Z.quot d millisecond) +:+ "|ms").
Definition Increment (c : statsdClient) (stat : string) : statsdClient := statsd_send c (compose c stat +:+ ":1|c").
Definition statsd_Count (c : statsdClient) (stat : string) (value : Z) : statsdClient :=
  statsd_send c (compose c stat +:+ ":" +:+ pretty value +:+ "|c").
Definition statsd_Gauge (fmt_f : float64 -> string) (c : statsdClient) (stat : string) (value : float64) : statsdClient :=
  statsd_send c (compose c stat +:+ ":" +:+ fmt_f value +:+ "|g").
