(* ===== verification/MetricsFacts.v ===== *)
(** * Properties of the metrics registry: histograms count their samples, and
      distinct label sets get distinct series. *)
From Stdlib Require Import SpecFloat.
From stdpp Require Import pretty.
From S2P Require Import Prelude GoStrings UiFormat Metrics.

(** ** The order of floating-point numbers *)

(** A key whose lexicographic order is the order of the numbers. *)
Definition frank (f : float64) : option (Z * Z * Z) :=
  match f with
  | S754_zero _ => Some (0, 0, 0)
  | S754_infinity s => Some (if s then (-2, 0, 0) else (2, 0, 0))
  | S754_nan => None
  | S754_finite s m e => Some (if s then (-1, - e, - Z.pos m) else (1, e, Z.pos m))
  end.
Definition le3 (a b : Z * Z * Z) : Prop :=
  a.1.1 < b.1.1 \/ (a.1.1 = b.1.1 /\ (a.1.2 < b.1.2 \/ (a.1.2 = b.1.2 /\ a.2 <= b.2))).
Definition lex3 (a b : Z * Z * Z) : comparison :=
  match a.1.1 ?= b.1.1 with Eq => match a.1.2 ?= b.1.2 with Eq => a.2 ?= b.2 | c => c end | c => c end.
Lemma SFcompare_rank f g : SFcompare f g = (a ← frank f; b ← frank g; Some (lex3 a b)).
Proof.
  destruct f as [s|s| |s m e], g as [s'|s'| |s' m' e']; try destruct s; try destruct s'; try done; cbn; unfold lex3; cbn;
    rewrite ?Z.compare_opp; f_equal.
  rewrite (Z.compare_antisym e' e). destruct (e' ?= e); cbn; [|done..]. symmetry. apply Pos.compare_antisym.
Qed.
Lemma lex3_spec a b : (lex3 a b <> Gt <-> le3 a b) /\ (lex3 a b = Eq <-> a = b).
Proof.
  destruct a as [[a1 a2] a3], b as [[b1 b2] b3]. unfold lex3, le3. cbn.
  destruct (Z.compare_spec a1 b1), (Z.compare_spec a2 b2), (Z.compare_spec a3 b3); split; split; try done; try lia; intros; try congruence; try (injection H2; lia).
Qed.
Lemma SFleb_rank f g : SFleb f g = true <-> exists a b, frank f = Some a /\ frank g = Some b /\ le3 a b.
Proof.
  unfold SFleb. rewrite SFcompare_rank. destruct (frank f) as [a|], (frank g) as [b|]; cbn.
  2-4: split; [done|intros (x & y & ? & ? & _); done].
  destruct (lex3_spec a b) as [H _]. split.
  - intros Hc. exists a, b. split_and!; [done..|]. apply H. by destruct (lex3 a b).
  - intros (x & y & [= <-] & [= <-] & Hle). apply H in Hle. by destruct (lex3 a b).
Qed.
Lemma feqb_rank f g : feqb f g = true <-> exists a, frank f = Some a /\ frank g = Some a.
Proof.
  unfold feqb, SFeqb. rewrite SFcompare_rank. destruct (frank f) as [a|], (frank g) as [b|]; cbn.
  2-4: split; [done|intros (x & ? & ?); done].
  destruct (lex3_spec a b) as [_ H]. split.
  - intros Hc. exists a. split; [done|]. f_equal. symmetry. apply H. by destruct (lex3 a b).
  - intros (x & [= <-] & [= <-]). by rewrite (proj2 H eq_refl).
Qed.
Lemma SFleb_trans f g h : SFleb f g = true -> SFleb g h = true -> SFleb f h = true.
Proof.
  rewrite !SFleb_rank. intros (a & b & Ha & Hb & H1) (b' & c & Hb' & Hc & H2). exists a, c. split_and!; [done..|].
  simplify_eq. unfold le3 in *. lia.
Qed.
Lemma feqb_sym f g : feqb f g = feqb g f.
Proof. apply eq_bool_prop_intro. rewrite !Is_true_true, !feqb_rank. naive_solver. Qed.
Lemma feqb_trans f g h : feqb f g = true -> feqb f h = feqb g h.
Proof. intros (a & Hf & Hg)%feqb_rank. apply eq_bool_prop_intro. rewrite !Is_true_true, !feqb_rank, Hf, Hg. naive_solver. Qed.
Lemma feqb_leb val f g : feqb f g = true -> SFleb val f = SFleb val g.
Proof. intros (a & Hf & Hg)%feqb_rank. apply eq_bool_prop_intro. rewrite !Is_true_true, !SFleb_rank, Hf, Hg. naive_solver. Qed.

(** ** Histograms *)

Lemma count_of_bump b b' counts : bucket_count b (bump_count b' counts) = if feqb b b' then u64 (bucket_count b counts + 1) else bucket_count b counts.
Proof.
  induction counts as [|[x n] counts IH]; cbn [bump_count bucket_count]; [by destruct (feqb b b')|].
  destruct (feqb b' x) eqn:Hx; cbn [bucket_count].
  - rewrite (feqb_sym b b'), (feqb_sym b x), (feqb_trans b' x b Hx). by destruct (feqb x b).
  - destruct (feqb b x) eqn:Hbx; [|exact IH]. destruct (feqb b b') eqn:Hb; [|done].
    rewrite (feqb_trans b b' x Hb) in Hbx. congruence.
Qed.
Lemma bump_buckets_other val b buckets counts : Forall (fun b' => feqb b b' = false) buckets ->
  bucket_count b (bump_buckets val buckets counts) = bucket_count b counts.
Proof.
  unfold bump_buckets. revert counts. induction buckets as [|b' buckets IH]; intros counts H; [done|]. apply Forall_cons_iff in H as [Hb H].
  cbn [fold_left]. rewrite IH by done. destruct (SFleb val b'); [|done]. by rewrite count_of_bump, Hb.
Qed.
(** No two buckets are equal. *)
Definition distinct_buckets (l : list float64) : Prop := ForallOrdPairs (fun a b => feqb a b = false) l.
Lemma count_of_bump_buckets val b buckets counts : distinct_buckets buckets -> b ∈ buckets ->
  bucket_count b (bump_buckets val buckets counts) = if SFleb val b then u64 (bucket_count b counts + 1) else bucket_count b counts.
Proof.
  intros Hd. revert counts. induction Hd as [|x buckets Hx Hd IH]; intros counts Hb; [by apply elem_of_nil in Hb|].
  apply elem_of_cons in Hb as [->|Hb].
  - unfold bump_buckets. cbn [fold_left]. fold (bump_buckets val buckets (if SFleb val x then bump_count x counts else counts)).
    rewrite bump_buckets_other by done. destruct (SFleb val x) eqn:Hv; [|done]. rewrite count_of_bump.
    assert (Hxx : feqb x x = true) by (apply SFleb_rank in Hv as (? & a & _ & Ha & _); apply feqb_rank; by exists a). by rewrite Hxx.
  - unfold bump_buckets. cbn [fold_left]. fold (bump_buckets val buckets (if SFleb val x then bump_count x counts else counts)).
    rewrite IH by done. assert (Hbx : feqb b x = false).
    { rewrite feqb_sym. apply list_elem_of_In in Hb. by apply (proj1 (Forall_forall _ _) Hx). }
    destruct (SFleb val x); [|done]. by rewrite count_of_bump, Hbx.
Qed.

Definition observe_all (h : Histogram) (samples : list (Labels * float64)) : Histogram := fold_left (fun h o => Observe h o.1 o.2) samples h.
(** The samples of one series, and those of them within a bucket. *)
Definition series_of (key : string) (samples : list (Labels * float64)) : list (Labels * float64) := filter (fun o => labelsToKey o.1 = key) samples.
Definition within (b : float64) (samples : list (Labels * float64)) : list (Labels * float64) := filter (fun o => SFleb o.2 b = true) samples.
Definition zlength {A} (l : list A) : Z := Z.of_nat (length l).
Lemma default_Some {A} (d x : A) : default d (Some x) = x.
Proof. done. Qed.
Lemma u64_succ n : u64 (u64 n + 1) = u64 (n + 1).
Proof. unfold u64. apply Zplus_mod_idemp_l. Qed.
Lemma u64_id n : 0 <= n < 18446744073709551616 -> u64 n = n.
Proof. apply Z.mod_small. Qed.

Lemma hi_buckets_observe_all h samples : hi_buckets (observe_all h samples) = hi_buckets h.
Proof. unfold observe_all. revert h. induction samples as [|o samples IH]; intros h; [done|]. cbn [fold_left]. by rewrite IH. Qed.
Lemma total_observe_all h samples key : hi_totals h = ∅ -> total_at (observe_all h samples) key = u64 (zlength (series_of key samples)).
Proof.
  intros Hh. induction samples as [|[l v] samples IH] using rev_ind; [by cbn; unfold total_at; rewrite Hh|].
  unfold observe_all, series_of in *. rewrite fold_left_app, list.filter_app. cbn [fold_left fst snd]. unfold zlength in *. rewrite length_app, Nat2Z.inj_add.
  set (h' := fold_left _ samples h) in *. unfold Observe, total_at in *. cbn [hi_totals]. rewrite filter_cons. cbn [fst]. case_decide as Hk.
  - subst key. rewrite lookup_insert_eq, default_Some, IH. apply u64_succ.
  - rewrite lookup_insert_ne by done. rewrite IH. f_equal. cbn. lia.
Qed.
Lemma counts_observe_all h samples key b : hi_counts h = ∅ -> distinct_buckets (hi_buckets h) -> b ∈ hi_buckets h ->
  bucket_count b (counts_at (observe_all h samples) key) = u64 (zlength (within b (series_of key samples))).
Proof.
  intros Hh Hd Hb. induction samples as [|[l v] samples IH] using rev_ind; [by cbn; unfold counts_at; rewrite Hh|].
  pose proof (hi_buckets_observe_all h samples) as Hbs.
  unfold observe_all, series_of, within in *. rewrite fold_left_app, !list.filter_app. cbn [fold_left fst snd]. unfold zlength in *. rewrite length_app, Nat2Z.inj_add.
  set (h' := fold_left _ samples h) in *. unfold Observe, counts_at in *. cbn [hi_counts]. rewrite filter_cons. cbn [fst]. case_decide as Hk.
  - subst key. rewrite lookup_insert_eq, default_Some, Hbs, count_of_bump_buckets by done. rewrite IH, filter_cons. cbn [snd].
    unfold counts_at. destruct (SFleb v b); case_decide; try done; rewrite ?IH; [apply u64_succ|f_equal; cbn; lia].
  - rewrite lookup_insert_ne by done. rewrite IH. f_equal. cbn. lia.
Qed.

(** ** The registry *)

(** The calls that change the registry. *)
Inductive metric_op :=
  | OpNewCounter (name help : string)
  | OpNewGauge (name help : string)
  | OpNewHistogram (name help : string) (buckets : list float64)
  | OpCounterAdd (name : string) (labels : Labels) (delta : float64)
  | OpGaugeSet (name : string) (labels : Labels) (val : float64)
  | OpGaugeAdd (name : string) (labels : Labels) (delta : float64)
  | OpGaugeSub (name : string) (labels : Labels) (delta : float64)
  | OpObserve (name : string) (labels : Labels) (val : float64).
Definition apply_op (m : Metrics) (op : metric_op) : Metrics :=
  match op with
  | OpNewCounter name help => NewCounter name help m
  | OpNewGauge name help => NewGauge name help m
  | OpNewHistogram name help buckets => NewHistogram name help buckets m
  | OpCounterAdd name labels delta => on_counter name (fun c => Counter_Add c labels delta) m
  | OpGaugeSet name labels val => on_gauge name (fun g => Gauge_Set g labels val) m
  | OpGaugeAdd name labels delta => on_gauge name (fun g => Gauge_Add g labels delta) m
  | OpGaugeSub name labels delta => on_gauge name (fun g => Gauge_Sub g labels delta) m
  | OpObserve name labels val => on_histogram name (fun h => Observe h labels val) m
  end.
Definition apply_ops (m : Metrics) (ops : list metric_op) : Metrics := fold_left apply_op ops m.
(** The samples a sequence of calls observes in one histogram. *)
Definition samples_of (name : string) (ops : list metric_op) : list (Labels * float64) :=
  omap (fun op => match op with OpObserve n labels val => if bool_decide (n = name) then Some (labels, val) else None | _ => None end) ops.
Definition registers (name : string) (op : metric_op) : bool :=
  match op with OpNewHistogram n _ _ => bool_decide (n = name) | _ => false end.

Lemma apply_op_registered name m op h : mx_histograms m !! name = Some h ->
  mx_histograms (apply_op m op) !! name = Some (observe_all h (samples_of name [op])).
Proof.
  intros Hh. destruct op as [n s|n s|n s bs|n l d|n l d|n l d|n l d|n l v]; cbn; try done.
  - unfold NewCounter. by destruct (mx_counters m !! n).
  - unfold NewGauge. by destruct (mx_gauges m !! n).
  - unfold NewHistogram. destruct (mx_histograms m !! n) eqn:Hn; [done|]. cbn. rewrite lookup_insert_ne; [done|]. intros ->. congruence.
  - case_bool_decide as Hn; [subst; by rewrite lookup_alter_eq, Hh|by rewrite lookup_alter_ne].
Qed.
Lemma apply_ops_registered name m ops h : mx_histograms m !! name = Some h ->
  mx_histograms (apply_ops m ops) !! name = Some (observe_all h (samples_of name ops)).
Proof.
  unfold apply_ops. revert m h. induction ops as [|op ops IH]; intros m h Hh; [done|]. cbn [fold_left].
  rewrite (IH _ _ (apply_op_registered name m op h Hh)). f_equal. unfold observe_all. rewrite <-fold_left_app. f_equal.
  change (op :: ops) with ([op] ++ ops). unfold samples_of. by rewrite <-list.omap_app.
Qed.
Lemma apply_ops_unregistered name m ops : mx_histograms m !! name = None -> Forall (fun op => registers name op = false) ops ->
  mx_histograms (apply_ops m ops) !! name = None.
Proof.
  unfold apply_ops. revert m. induction ops as [|op ops IH]; intros m Hm Hops; [done|]. apply Forall_cons_iff in Hops as [Hop Hops].
  cbn [fold_left]. apply IH; [|done]. destruct op as [n s|n s|n s bs|n l d|n l d|n l d|n l d|n l v]; cbn in *; try done.
  - unfold NewCounter. by destruct (mx_counters m !! n).
  - unfold NewGauge. by destruct (mx_gauges m !! n).
  - unfold NewHistogram. destruct (mx_histograms m !! n) eqn:Hn; [done|]. cbn. bsplit. by rewrite lookup_insert_ne.
  - rewrite lookup_alter_None. done.
Qed.

Lemma length_omap_le {A B} (f : A -> option B) l : (length (omap f l) <= length l)%nat.
Proof. induction l as [|x l IH]; cbn; [done|]. destruct (f x); cbn; lia. Qed.
Lemma within_mono b1 b2 samples : SFleb b1 b2 = true -> sublist (within b1 samples) (within b2 samples).
Proof.
  intros Hb. induction samples as [|o samples IH]; [constructor|]. unfold within in *. rewrite !filter_cons. repeat case_decide; try by constructor.
  - by exfalso; eauto using SFleb_trans.
  - done.
Qed.
Lemma within_sublist b samples : sublist (within b samples) samples.
Proof. apply sublist_filter. Qed.

(** Histograms count their samples.  Whatever else is done with the
    registry, registrations of the same name included, a histogram whose
    buckets differ reports, for every label key and bucket, the number of
    samples of that series observed since its first registration that do not
    exceed the bucket, and in total the number of samples of the series, both
    modulo 2^64; so with fewer than 2^64 samples the buckets are cumulative and
    none exceeds the total, as the exposition format demands. *)
Theorem histogram_counts_samples before after name help buckets
  (Hfirst : Forall (fun op => registers name op = false) before) (Hdistinct : distinct_buckets (sort_floats buckets)) :
  exists h, mx_histograms (apply_ops (mkMetrics ∅ ∅ ∅) (before ++ OpNewHistogram name help buckets :: after)) !! name = Some h /\
  forall key,
  let seen := series_of key (samples_of name after) in
  total_at h key = u64 (zlength seen) /\
  (forall b, b ∈ sort_floats buckets -> bucket_count b (counts_at h key) = u64 (zlength (within b seen))) /\
  (zlength after < 2 ^ 64 -> forall b1 b2, b1 ∈ sort_floats buckets -> b2 ∈ sort_floats buckets -> SFleb b1 b2 = true ->
     bucket_count b1 (counts_at h key) <= bucket_count b2 (counts_at h key) <= total_at h key).
Proof.
  exists (observe_all (fresh_histogram name help buckets) (samples_of name after)). split.
  { unfold apply_ops. rewrite fold_left_app. cbn [fold_left]. apply apply_ops_registered. cbn [apply_op]. unfold NewHistogram.
    fold (apply_ops (mkMetrics ∅ ∅ ∅) before). rewrite (apply_ops_unregistered name (mkMetrics ∅ ∅ ∅) before) by done. apply lookup_insert_eq. }
  intros key seen. set (h := observe_all _ _).
  assert (Ht : total_at h key = u64 (zlength seen)) by by apply total_observe_all.
  assert (Hc : forall b, b ∈ sort_floats buckets -> bucket_count b (counts_at h key) = u64 (zlength (within b seen))) by (intros b Hb; by apply counts_observe_all).
  split_and!; [done..|]. intros Hlen b1 b2 Hb1 Hb2 Hle. rewrite !Hc, Ht by done.
  assert (Hs : zlength seen <= zlength after).
  { unfold zlength, seen, series_of. apply inj_le. etransitivity; [apply length_filter|]. unfold samples_of. apply length_omap_le. }
  pose proof (sublist_length _ _ (within_mono b1 b2 seen Hle)). pose proof (sublist_length _ _ (within_sublist b2 seen)).
  unfold zlength in *. rewrite !u64_id by lia. lia.
Qed.

Lemma histogram_counts_samples_witness :
  exists h, mx_histograms (apply_ops (mkMetrics ∅ ∅ ∅)
    [OpNewHistogram "d" "help" [float_of_int 5; float_of_int 1]; OpObserve "d" ∅ (float_of_int 3); OpNewHistogram "d" "again" []; OpObserve "d" ∅ (float_of_int 7)]) !! "d" = Some h /\
  bucket_count (float_of_int 5) (counts_at h "") = 1 /\ total_at h "" = 2.
Proof.
  destruct (histogram_counts_samples [] [OpObserve "d" ∅ (float_of_int 3); OpNewHistogram "d" "again" []; OpObserve "d" ∅ (float_of_int 7)]
    "d" "help" [float_of_int 5; float_of_int 1] ltac:(constructor) ltac:(repeat constructor)) as (h & Hh & Hc).
  exists h. split; [exact Hh|]. destruct (Hc "") as (Ht & Hb & _). split; [|exact Ht].
  rewrite (Hb (float_of_int 5)); [vm_compute; reflexivity|].
  replace (sort_floats [float_of_int 5; float_of_int 1]) with [float_of_int 1; float_of_int 5] by (vm_compute; reflexivity). apply elem_of_cons. right. by apply list_elem_of_singleton.
Defined.

(** ** Label keys *)

Lemma free_of_split c a b s t : free_of c a = true -> free_of c b = true -> a +:+ String c s = b +:+ String c t -> a = b /\ s = t.
Proof.
  revert b. induction a as [|x a IH]; intros [|y b] Ha Hb; cbn [free_of] in *; bsplit; rewrite ?string_cons_app.
  - by intros [= ->].
  - by intros [= <- _].
  - by intros [= -> _].
  - intros [= <- He]. by destruct (IH b) as [-> ->].
Qed.
Definition clean_label (kv : string * string) : bool := free_of (Ascii.ascii_of_nat 61) kv.1 && free_of (Ascii.ascii_of_nat 34) kv.2.
Lemma render_label_inj kv kv' s t : clean_label kv = true -> clean_label kv' = true ->
  render_label kv +:+ s = render_label kv' +:+ t -> kv = kv' /\ s = t.
Proof.
  destruct kv as [k v], kv' as [k' v']. unfold clean_label, render_label. cbn [fst snd]. intros H H'. bsplit.
  rewrite !string_app_assoc. change "=" with (String (Ascii.ascii_of_nat 61) ""). change quote with (String (Ascii.ascii_of_nat 34) "").
  rewrite !string_cons_app. intros He. apply free_of_split in He as [-> He]; [|done..]. injection He as He. 
  change ("" +:+ ?x) with x in He. apply free_of_split in He as [-> He]; [|done..]. done.
Qed.
Lemma Join_cons x l sep : Join (x :: l) sep = x +:+ match l with [] => "" | _ => sep +:+ Join l sep end.
Proof. destruct l; [|done]. cbn. induction x as [|a x IH]; [done|]. rewrite string_cons_app. by rewrite <-IH. Qed.
Lemma join_labels_inj l l' : Forall (fun kv => clean_label kv = true) l -> Forall (fun kv => clean_label kv = true) l' ->
  Join (render_label <$> l) "," = Join (render_label <$> l') "," -> l = l'.
Proof.
  assert (Hne : forall kv s, "" <> render_label kv +:+ s).
  { intros kv s H. apply (f_equal String.length) in H. unfold render_label in H. rewrite !string_length_app in H. cbn in H. lia. }
  revert l'. induction l as [|kv l IH]; intros [|kv' l'] Hl Hl'; rewrite ?fmap_cons, ?Join_cons; try done.
  - intros H. by apply Hne in H.
  - intros H. symmetry in H. by apply Hne in H.
  - apply Forall_cons_iff in Hl as [Hkv Hl], Hl' as [Hkv' Hl']. intros H. apply render_label_inj in H as [-> H]; [|done..]. f_equal.
    destruct l as [|x l], l' as [|x' l']; try done. apply IH; [done..|]. cbn [fmap list_fmap] in H |- *. by apply string_app_inj_l in H.
Qed.
Lemma labelsToKey_sorted labels : exists l, labelsToKey labels = Join (render_label <$> l) "," /\ l ≡ₚ map_to_list labels.
Proof.
  unfold labelsToKey, sort_strings. case_bool_decide as He; [exists []; subst; by rewrite map_to_list_empty|].
  pose proof (merge_sort_Permutation String.le (render_label <$> map_to_list labels)) as Hs.
  destruct (Permutation_map_inv _ _ Hs) as (l & Hl & Hp). exists l. split; [by rewrite Hl|by symmetry].
Qed.
(** Label sets without a quote in a value and without an equals sign in a name
    are told apart by their keys. *)
Theorem labelsToKey_inj labels labels' :
  map_Forall (fun k v => clean_label (k, v) = true) labels -> map_Forall (fun k v => clean_label (k, v) = true) labels' ->
  labelsToKey labels = labelsToKey labels' -> labels = labels'.
Proof.
  intros Hc Hc' He. destruct (labelsToKey_sorted labels) as (l & Hk & Hp), (labelsToKey_sorted labels') as (l' & Hk' & Hp').
  assert (Hclean : forall (m : Labels) l, map_Forall (fun k v => clean_label (k, v) = true) m -> l ≡ₚ map_to_list m -> Forall (fun kv => clean_label kv = true) l).
  { intros m l0 Hm Hl. apply Forall_forall. intros [k v] Hin%list_elem_of_In. rewrite Hl, elem_of_map_to_list in Hin. by apply (Hm k v). }
  assert (l = l') as -> by (apply join_labels_inj; [by apply (Hclean labels)|by apply (Hclean labels')|congruence]).
  apply map_to_list_inj. by rewrite <-Hp, <-Hp'.
Qed.
(** Label values are not escaped: a value with quotes yields the key of
    another label set. *)
Example label_keys_collide :
  labelsToKey {["method" := "GET"; "path" := "/x" +:+ quote +:+ ",status=" +:+ quote +:+ "200"]} =
  labelsToKey {["method" := "GET"; "path" := "/x"; "status" := "200"]}.
Proof. vm_compute. reflexivity. Qed.
