(* ===== verification/Middleware.v ===== *)
(** * HTTP middleware ([cmd/http/middleware])

    A handler turns a request and the state of the server into the calls it
    makes on its response writer and whether it panicked.  The connection
    accepts every write in full; the process behind the handlers is a type
    parameter. *)
From Stdlib Require Import SpecFloat.
From stdpp Require Import pretty.
From S2P Require Import Prelude GoStrings Payloads Worlds UiFormat Metrics.

(** ** Requests, responses and the server *)

Record httpRequest := mkHttpRequest {
  hq_Method : string; hq_Path : string; hq_EscapedPath : string; hq_URL : string; hq_Header : string -> string; hq_Body : option string;
  hq_RemoteAddr : string; hq_UserAgent : string;
}.
Inductive wevent := SetHeader (key value : string) | WriteHeader (code : Z) | Write (b : string).
(** The calls on the writer in order, and whether the handler panicked. *)
Abbreviation answer := (list wevent * bool)%type.
(** What the client sees: the first status, 200 when the body comes first. *)
Fixpoint status_sent (evs : list wevent) : Z :=
  match evs with
  | [] => 200
  | SetHeader _ _ :: evs => status_sent evs
  | WriteHeader code :: _ => code
  | Write _ :: _ => 200
  end.
Definition written (evs : list wevent) : list string := omap (fun e => match e with Write b => Some b | _ => None end) evs.
Definition body_sent (evs : list wevent) : string := String.concat "" (written evs).

(** One line of the access log. *)
Record accessEntry := mkAccessEntry {
  al_method : string; al_url : string; al_status : Z; al_icon : string; al_duration : Z; al_request : string; al_response : string;
  al_remote : string; al_agent : string;
}.
Record Server (W : Type) := mkServer {
  se_world : W; se_now : Z; se_counter : Z; se_interrupts : Z; se_access : list accessEntry; se_panics : list (string * string);
  se_metrics : option Metrics; se_statsd : option statsdClient;
}.
Arguments mkServer {W}. Arguments se_world {W}. Arguments se_now {W}. Arguments se_counter {W}. Arguments se_interrupts {W}.
Arguments se_access {W}. Arguments se_panics {W}. Arguments se_metrics {W}. Arguments se_statsd {W}.
Definition handlerFunc (W : Type) : Type := httpRequest -> ST (Server W) answer.
Definition middleware (W : Type) : Type := handlerFunc W -> handlerFunc W.

Definition quoted (s : string) : string := quote +:+ s +:+ quote.
(** [http.Error]. *)
Definition http_Error (text : string) (code : Z) : list wevent :=
  [SetHeader "Content-Type" "text/plain; charset=utf-8"; SetHeader "X-Content-Type-Options" "nosniff"; WriteHeader code; Write (text +:+ lf)].

Section Middleware.
Context {W : Type}.
Implicit Types (next : handlerFunc W) (r : httpRequest) (s : Server W).

(** ** Authentication ([auth.go]) *)

Definition respondUnauthorized (message : string) : list wevent :=
  [SetHeader "Content-Type" "application/json"; WriteHeader 401; Write ("{" +:+ quoted "error" +:+ ":" +:+ quoted message +:+ "}" +:+ lf)].
(** The loop that strips [bearer] prefixes; each round removes seven bytes. *)
Fixpoint strip_bearer (fuel : nat) (hasBearerPrefix : bool) (providedToken : string) : bool * string :=
  match fuel with
  | O => (hasBearerPrefix, providedToken)
  | S fuel =>
      if (7 <=? String.length providedToken)%nat && EqualFold "bearer " (stake 7 providedToken)
      then strip_bearer fuel true (TrimSpace (sdrop 7 providedToken))
      else (hasBearerPrefix, providedToken)
  end.
(** [None] lets the request pass, [Some] is the message of the refusal. *)
Definition auth_refusal (env token : string) (header : string) : option string :=
  if EqualFold "development" env then None
  else
    let rawHeader := TrimSpace header in
    if bool_decide (rawHeader = "") then Some "unauthorized: missing authorization header"
    else if EqualFold "bearer" rawHeader then Some "unauthorized: invalid bearer token format"
    else
      let '(hasBearerPrefix, providedToken) := strip_bearer (String.length rawHeader) false rawHeader in
      if hasBearerPrefix && bool_decide (providedToken = "") then Some "unauthorized: invalid bearer token format"
      else if bool_decide (token = "") || negb (bool_decide (providedToken = token)) then Some "unauthorized: invalid token"
      else None.
Definition APIAuth (env token : string) : middleware W := fun next r s =>
  match auth_refusal env token (hq_Header r "Authorization") with
  | None => next r s
  | Some message => (s, (respondUnauthorized message, false))
  end.

(** ** Recovery ([recover.go]) and the request limit ([max_requests.go]) *)

Definition Recoverer : middleware W := fun next r s =>
  let '(s, (evs, panicked)) := next r s in
  if panicked then
    (mkServer (se_world s) (se_now s) (se_counter s) (se_interrupts s) (se_access s) (se_panics s ++ [(hq_Method r, hq_Path r)]) (se_metrics s) (se_statsd s),
     (evs ++ http_Error "internal server error" 500, false))
  else (s, (evs, false)).
(** [jitter] is the random number from 1 to 1000. *)
Definition NewMaxReqMiddleware (max jitter : Z) : Z := if max =? 0 then 0 else u64 (max + jitter).
(** [interrupts] counts the signals the process sends itself. *)
Definition MaxReq_Handler (max : Z) : middleware W := fun next r s =>
  if max =? 0 then next r s
  else
    let count := u64 (se_counter s + 1) in
    let signals := if max <=? count then se_interrupts s + 1 else se_interrupts s in
    next r (mkServer (se_world s) (se_now s) count signals (se_access s) (se_panics s) (se_metrics s) (se_statsd s)).

(** ** Access log ([logging.go]) *)

Definition maxLogBody : nat := 4096.
Definition truncation_mark : string := bytes [226; 128; 166]%nat +:+ "[truncated]".
Record loggingResponseWriter := mkLogWriter { lw_statusCode : Z; lw_body : string }.
Definition newLoggingResponseWriter : loggingResponseWriter := mkLogWriter 200 "".
Definition log_write (b body : string) : string :=
  if (String.length body <? maxLogBody)%nat then
    let n := String.length b in
    let toWrite := if (maxLogBody <? String.length body + n)%nat then (maxLogBody - String.length body)%nat else n in
    let body := body +:+ stake toWrite b in
    if (String.length body =? maxLogBody)%nat then body +:+ truncation_mark else body
  else body.
Definition lrw_event (lrw : loggingResponseWriter) (e : wevent) : loggingResponseWriter :=
  match e with
  | SetHeader _ _ => lrw
  | WriteHeader code => mkLogWriter code (lw_body lrw)
  | Write b => mkLogWriter (lw_statusCode lrw) (log_write b (lw_body lrw))
  end.
Definition log_answer (evs : list wevent) : loggingResponseWriter := fold_left lrw_event evs newLoggingResponseWriter.
Definition response_text (lrw : loggingResponseWriter) : string := if 300 <=? lw_statusCode lrw then lw_body lrw else "".

Definition truncatePath (path : string) : string := if (60 <? String.length path)%nat then stake 57 path +:+ "..." else path.
Definition inlinePayload (body : string) : string := if bool_decide (body = "") then "" else Join (Fields body) " ".
Definition status_icon (code : Z) : string :=
  if (200 <=? code) && (code <? 300) then bytes [240; 159; 159; 162]%nat
  else if (300 <=? code) && (code <? 400) then bytes [240; 159; 148; 181]%nat
  else if 400 <=? code then bytes [240; 159; 148; 180]%nat
  else bytes [240; 159; 159; 161]%nat.
(** The request body as the log shows it. *)
Definition shown_body (limit : nat) (mark : string) (body : option string) : string :=
  match body with None => "" | Some b => if (limit <? String.length b)%nat then stake limit b +:+ mark else b end.

(** The frame of the three logging middlewares: a panic of the handler goes
    past the log. *)
Definition with_log (entry : httpRequest -> loggingResponseWriter -> Z -> accessEntry) : middleware W := fun next r s =>
  let start := se_now s in
  let '(s, (evs, panicked)) := next r s in
  if panicked then (s, (evs, true))
  else
    let e := entry r (log_answer evs) (time_sub (se_now s) start) in
    (mkServer (se_world s) (se_now s) (se_counter s) (se_interrupts s) (se_access s ++ [e]) (se_panics s) (se_metrics s) (se_statsd s), (evs, false)).
Definition simple_entry (r : httpRequest) (lrw : loggingResponseWriter) (d : Z) : accessEntry :=
  mkAccessEntry (hq_Method r) (hq_URL r) (lw_statusCode lrw) "" d (shown_body maxLogBody truncation_mark (hq_Body r)) (response_text lrw)
    (hq_RemoteAddr r) (hq_UserAgent r).
Definition LoggingSimple : middleware W := with_log simple_entry.
Definition colored_entry (r : httpRequest) (lrw : loggingResponseWriter) (d : Z) : accessEntry :=
  mkAccessEntry (hq_Method r) (hq_URL r) (lw_statusCode lrw) (status_icon (lw_statusCode lrw)) d (shown_body 65536 "" (hq_Body r)) (response_text lrw)
    (hq_RemoteAddr r) (hq_UserAgent r).
Definition LoggingColored : middleware W := with_log colored_entry.
Definition color_simple_entry (r : httpRequest) (lrw : loggingResponseWriter) (d : Z) : accessEntry :=
  mkAccessEntry (hq_Method r) (truncatePath (hq_URL r)) (lw_statusCode lrw) (status_icon (lw_statusCode lrw)) d
    (inlinePayload (shown_body maxLogBody truncation_mark (hq_Body r))) (inlinePayload (response_text lrw)) (hq_RemoteAddr r) (hq_UserAgent r).
Definition LoggingColorSimple : middleware W := with_log color_simple_entry.

(** ** Metrics ([metrics.go]) *)

(** The status the wrapped writer remembers: the last one set. *)
Definition recorded_status (evs : list wevent) : Z :=
  fold_left (fun code e => match e with WriteHeader c => c | _ => code end) evs 200.
Definition request_buckets : list float64 :=
  (fun '(n, d) => fdiv (float_of_int n) (float_of_int d)) <$>
    [(1, 1000); (5, 1000); (1, 100); (25, 1000); (5, 100); (1, 10); (25, 100); (5, 10); (1, 1); (25, 10); (5, 1); (10, 1)].
Definition register_http (m : Metrics) : Metrics :=
  NewHistogram "http_request_duration_seconds" "Histogram of HTTP request latencies partitioned by method and path" request_buckets
    (NewCounter "http_requests_total" "Total number of HTTP requests processed partitioned by method, path, and status code" m).
Definition stat_segment (path : string) : string :=
  let segment := Trim_byte (Ascii.ascii_of_nat 95) (ReplaceAll path "/" "_") in if bool_decide (segment = "") then "root" else segment.
Definition count_request (r : httpRequest) (status duration : Z) (m : Metrics) : Metrics :=
  let path := if bool_decide (hq_Path r = "") then "/" else hq_Path r in
  on_histogram "http_request_duration_seconds" (fun h => Observe h {["method" := hq_Method r; "path" := path]} (Seconds duration))
    (on_counter "http_requests_total" (fun c => Counter_Inc c {["method" := hq_Method r; "path" := path; "status" := pretty status]}) m).
(** The registry has been prepared by [register_http]. *)
Definition MetricsWithRegistry : middleware W := fun next r s =>
  let start := se_now s in
  let '(s, (evs, panicked)) := next r s in
  if panicked then (s, (evs, true))
  else
    let duration := time_sub (se_now s) start in
    (mkServer (se_world s) (se_now s) (se_counter s) (se_interrupts s) (se_access s) (se_panics s)
       (count_request r (recorded_status evs) duration <$> se_metrics s)
       ((fun c => Timing c ("http." +:+ stat_segment (hq_Path r)) duration) <$> se_statsd s), (evs, false)).

(** ** Composition ([middleware.go], [cmd/http/server.go]) *)

(** [Chain] wraps from the last registered middleware to the first. *)
Definition Chain (mws : list (middleware W)) (handler : handlerFunc W) : handlerFunc W := foldr (fun mw h => mw h) handler mws.
Definition initLoggingMiddleware (serverDefault : option string) : middleware W :=
  let kind := match serverDefault with Some d => if bool_decide (d <> "") then d else "color" | None => "color" end in
  if bool_decide (kind ∈ ["color"; "color-simple"]) then LoggingColored
  else if bool_decide (kind ∈ ["json"; "pretty-json"]) then LoggingSimple
  else LoggingColored.
(** The handler [StartServer] serves. *)
Definition server_handler (serverDefault : option string) (max : Z) (mux : handlerFunc W) : handlerFunc W :=
  Chain [Recoverer; initLoggingMiddleware serverDefault; MaxReq_Handler max; MetricsWithRegistry] mux.
End Middleware.
