(* ===== verification/Router.v ===== *)
(** * Routes and probes ([cmd/http/router.go], [cmd/http/app/census/routes.go],
      [cmd/http/ui/routes.go], [cmd/http/swagger.go], [cmd/http/app/root])

    The routes the server registers, the matching of [http.ServeMux], the health
    and metrics handlers.  [path.Clean] and [url.PathUnescape] are parameters;
    the body of a redirect is not modelled. *)
From Stdlib Require Import SpecFloat.
From stdpp Require Import pretty.
From S2P Require Import Prelude GoErrors GoStrings Payloads Worlds UiFormat Metrics Middleware.

(** ** Patterns *)

Inductive seg := Lit (s : string) | Wild | Multi.
Record pattern := mkPattern { pt_method : string; pt_segs : list seg }.
(** The segments of a pattern that starts with a slash; every round consumes
    the slash. *)
Fixpoint parse_segments (fuel : nat) (rest : string) : list seg :=
  match fuel with
  | O => []
  | S fuel =>
      if bool_decide (rest = "") then []
      else
        let rest := sdrop 1 rest in
        if bool_decide (rest = "") then [Multi]
        else
          let '(s, rest) := match Index rest "/" with Some i => (stake i rest, sdrop i rest) | None => (rest, "") end in
          if HasPrefix s "{" then if bool_decide (s = "{$}") then [Lit "/"] else Wild :: parse_segments fuel rest
          else Lit s :: parse_segments fuel rest
  end.
Definition parsePattern (p : string) : pattern :=
  match cut p " " with
  | Some (method, path) => mkPattern method (parse_segments (String.length path) path)
  | None => mkPattern "" (parse_segments (String.length p) p)
  end.

(** ** Matching *)

Section Matching.
Context (clean unescape : string -> string).
Context {H : Type}.

Definition firstSegment (path : string) : string * string :=
  if bool_decide (path = "/") then ("/", "")
  else
    let path := sdrop 1 path in
    match Index path "/" with Some i => (unescape (stake i path), sdrop i path) | None => (unescape path, "") end.
(** A node of the routing tree is the list of the routes below it. *)
Definition literal_child (s : string) (routes : list (list seg * H)) : list (list seg * H) :=
  omap (fun '(segs, h) => match segs with Lit s' :: segs => if bool_decide (s' = s) then Some (segs, h) else None | _ => None end) routes.
Definition wild_child (routes : list (list seg * H)) : list (list seg * H) :=
  omap (fun '(segs, h) => match segs with Wild :: segs => Some (segs, h) | _ => None end) routes.
Definition multi_child (routes : list (list seg * H)) : option H :=
  head (omap (fun '(segs, h) => match segs with [Multi] => Some h | _ => None end) routes).
Definition leaf (routes : list (list seg * H)) : option H :=
  head (omap (fun '(segs, h) => match segs with [] => Some h | _ => None end) routes).
Definition or_else {A} (a b : option A) : option A := match a with Some _ => a | None => b end.
(** Each round consumes the slash that starts the path. *)
Fixpoint matchPath (fuel : nat) (routes : list (list seg * H)) (path : string) : option (H * list string) :=
  if bool_decide (path = "") then (fun h => (h, [])) <$> leaf routes
  else
    match fuel with
    | O => None
    | S fuel =>
        let '(s, rest) := firstSegment path in
        or_else (matchPath fuel (literal_child s routes) rest)
          (or_else (if bool_decide (s = "/") then None else (fun '(h, ms) => (h, s :: ms)) <$> matchPath fuel (wild_child routes) rest)
             ((fun h => (h, [])) <$> multi_child routes))
    end.

Definition of_method (method : string) (routes : list (pattern * H)) : list (list seg * (pattern * H)) :=
  omap (fun '(p, h) => if bool_decide (pt_method p = method) then Some (pt_segs p, (p, h)) else None) routes.
End Matching.

Section Mux.
Context (clean unescape : string -> string).
Context {H : Type} (routes : list (pattern * H)).

Definition match_under (method path : string) : option (pattern * H * list string) :=
  matchPath unescape (String.length path) (of_method method routes) path.
Definition matchMethodAndPath (method path : string) : option (pattern * H * list string) :=
  or_else (match_under method path)
    (or_else (if bool_decide (method = "HEAD") then match_under "GET" path else None) (match_under "" path)).
Definition slashes (path : string) : nat := length (filter (fun c => c = Ascii.ascii_of_nat 47) (String.list_ascii_of_string path)).
Definition exactMatch (n : option (pattern * H * list string)) (path : string) : bool :=
  match n with
  | None => false
  | Some (p, _, _) =>
      match list.last (pt_segs p) with
      | Some Multi => (bool_decide (path = "") || HasSuffix path "/") && (length (pt_segs p) =? slashes path)%nat
      | _ => true
      end
  end.
Inductive dispatch := Handle (h : H) (matches : list string) | Redirect (to : string) | MethodNotAllowed (allow : list string) | NotFound.
Definition found (n : option (pattern * H * list string)) : option (H * list string) := (fun '(_, h, ms) => (h, ms)) <$> n.
(** The methods a path is registered for. *)
Definition methods : list string := remove_dups (omap (fun '(p, _) => if bool_decide (pt_method p = "") then None else Some (pt_method p)) routes).
Definition matchingMethods (path : string) : list string :=
  let hits path := filter (fun m => is_Some (match_under m path)) methods in
  let ms := hits path ++ (if HasSuffix path "/" then [] else hits (path +:+ "/")) in
  sort_strings (remove_dups (ms ++ if bool_decide ("GET" ∈ ms) then ["HEAD"] else [])).
Definition findHandler (r : httpRequest) : dispatch :=
  let escaped := hq_EscapedPath r in
  let path := if bool_decide (hq_Method r = "CONNECT") then escaped else clean escaped in
  let n := matchMethodAndPath (hq_Method r) path in
  let slashed := matchMethodAndPath (hq_Method r) (path +:+ "/") in
  if negb (exactMatch n path) && negb (HasSuffix path "/") && exactMatch slashed (path +:+ "/") then Redirect (clean (hq_Path r) +:+ "/")
  else if negb (bool_decide (path = escaped)) then Redirect path
  else match found n with
       | Some (h, ms) => Handle h ms
       | None => match matchingMethods path with [] => NotFound | allow => MethodNotAllowed allow end
       end.
End Mux.

(** ** The routes *)

Inductive endpoint :=
  | HealthCheck | HealthReady | MetricsPage | SwaggerFiles | SwaggerUI | DocsRedirect
  | ApiLatest | ApiList | ApiExport | ApiGet | ApiBreakdown | ApiNewCharacters | ApiExpansion
  | UiDashboard | UiWorldDrilldown | UiRaces | UiWorldDetail | UiWorlds | UiExpansions | UiMethodology | UiSitemap | UiFavicon | UiAssets
  | UiCharacterDetail | UiCharacterList | UiCharacterSearch.
Global Instance endpoint_eq_dec : EqDecision endpoint.
Proof. solve_decision. Defined.
(** A registered handler and whether it is wrapped in [APIAuth]. *)
Record registration := mkRegistration { rn_auth : bool; rn_endpoint : endpoint }.
Definition route (pattern : string) (auth : bool) (e : endpoint) := (parsePattern pattern, mkRegistration auth e).
Definition RegisterSwagger := [
  route "/docs/swagger.json" false SwaggerFiles; route "/docs/swagger.yaml" false SwaggerFiles; route "/docs/" false SwaggerUI; route "/docs" false DocsRedirect].
Definition root_routes := [
  route "/health" false HealthCheck; route "/health/live" false HealthCheck; route "/health/ready" false HealthReady; route "/metrics" false MetricsPage].
Definition census_Register := [
  route "GET /api/v1/census/latest" true ApiLatest; route "GET /api/v1/census/characters" true ApiList; route "GET /api/v1/census/export" true ApiExport;
  route "GET /api/v1/census/characters/{id}" true ApiGet; route "GET /api/v1/stats/breakdown" true ApiBreakdown;
  route "GET /api/v1/stats/new-characters" true ApiNewCharacters; route "GET /api/v1/stats/expansion" true ApiExpansion].
Definition ui_RegisterRoutes := [
  route "GET /{$}" false UiDashboard; route "GET /ui/dashboard" false UiDashboard; route "GET /ui/partials/world-breakdown" false UiWorldDrilldown;
  route "GET /ui/races" false UiRaces; route "GET /ui/worlds/{world}" false UiWorldDetail; route "GET /ui/worlds" false UiWorlds;
  route "GET /ui/expansions" false UiExpansions; route "GET /ui/methodology" false UiMethodology; route "GET /sitemap.xml" false UiSitemap;
  route "GET /favicon.ico" false UiFavicon].
Definition ui_Register := ui_RegisterRoutes ++ [route "GET /ui/assets/" false UiAssets].
Definition RegisterRoutes := RegisterSwagger ++ root_routes ++ census_Register ++ ui_Register.

(** ** The probes *)

(** [dbPinger]: none, or what its ping returns; an uninitialised driver fails. *)
Definition PingContext (driver : option (result unit)) : result unit :=
  match driver with None => Err (ErrorString "database driver uninitialized") | Some r => r end.
Section Probes.
Context (error_text : gerror -> string) (json_string : string -> string) (json_float : float64 -> string).
Definition Check (uptime : Z) : list wevent :=
  [SetHeader "Content-Type" "application/json";
   Write ("{" +:+ quoted "status" +:+ ":" +:+ quoted "ok" +:+ "," +:+ quoted "uptime_seconds" +:+ ":" +:+ json_float (Seconds uptime) +:+ "}" +:+ lf)].
Definition Ready (pinger : option (result unit)) : list wevent :=
  let '(database, isHealthy) :=
    match pinger with
    | None => ("unconfigured", true)
    | Some (Ok _) => ("healthy", true)
    | Some (Err e) => ("unhealthy: " +:+ error_text e, false)
    end in
  let status := if isHealthy then "ready" else "unhealthy" in
  [SetHeader "Content-Type" "application/json"; WriteHeader (if isHealthy then 200 else 503);
   Write ("{" +:+ quoted "checks" +:+ ":{" +:+ quoted "database" +:+ ":" +:+ json_string database +:+ "}," +:+ quoted "status" +:+ ":" +:+ quoted status +:+ "}" +:+ lf)].
Definition MetricsPage_answer (gathered : option string) : list wevent :=
  [SetHeader "Content-Type" "text/plain; version=0.0.4; charset=utf-8"; WriteHeader 200] ++ match gathered with Some data => [Write data] | None => [] end.
End Probes.

(** ** The served handler *)

Section Serve.
Context {W : Type} (clean unescape : string -> string) (env token : string).
(** [run] is the handler of every endpoint; it also receives the wildcards. *)
Context (run : endpoint -> list string -> handlerFunc W).

Definition registered_handler (reg : registration) (matches : list string) : handlerFunc W :=
  let h := run (rn_endpoint reg) matches in if rn_auth reg then APIAuth env token h else h.
Definition mux_ServeHTTP : handlerFunc W := fun r s =>
  match findHandler clean unescape RegisterRoutes r with
  | Handle reg matches => registered_handler reg matches r s
  | Redirect to => (s, ([SetHeader "Location" to; WriteHeader 301], false))
  | MethodNotAllowed allow => (s, (SetHeader "Allow" (Join allow ", ") :: http_Error "Method Not Allowed" 405, false))
  | NotFound => (s, (http_Error "404 page not found" 404, false))
  end.
Definition StartServer_handler (serverDefault : option string) (max : Z) : handlerFunc W := server_handler serverDefault max mux_ServeHTTP.
End Serve.
