(* ===== verification/RouterFacts.v ===== *)
(** * Properties of the served handler: the API needs its token, every request
      is answered, and the log shows a prefix of the answer. *)
From Stdlib Require Import SpecFloat.
From stdpp Require Import pretty.
From S2P Require Import Prelude GoErrors GoStrings Payloads Worlds UiFormat Metrics Middleware Router.

(** ** Matching *)

Section MatchingFacts.
Context (unescape : string -> string) {H : Type}.
Implicit Types routes : list (list seg * H).

Lemma head_omap_inv {A B} (f : A -> option B) l b : head (omap f l) = Some b -> exists a, a ∈ l /\ f a = Some b.
Proof. intros Hh%list.head_Some_elem_of. by apply list_elem_of_omap in Hh. Qed.
Lemma or_else_inv {A} (a b : option A) x : or_else a b = Some x -> a = Some x \/ b = Some x.
Proof. destruct a; [by left|by right]. Qed.
Lemma literal_child_sub s routes segs h : (segs, h) ∈ literal_child s routes -> exists segs', (segs', h) ∈ routes.
Proof.
  intros ([segs' h'] & Hin & Hm)%list_elem_of_omap. destruct segs' as [|[s'| |] segs']; try done. case_bool_decide; [|done].
  injection Hm as _ <-. by eexists.
Qed.
Lemma wild_child_sub routes segs h : (segs, h) ∈ wild_child routes -> exists segs', (segs', h) ∈ routes.
Proof. intros ([segs' h'] & Hin & Hm)%list_elem_of_omap. destruct segs' as [|[s'| |] segs']; try done. injection Hm as _ <-. by eexists. Qed.
(** Only registered handlers are found. *)
Lemma matchPath_sound fuel routes path h ms : matchPath unescape fuel routes path = Some (h, ms) -> exists segs, (segs, h) ∈ routes.
Proof.
  assert (Hleaf : forall routes, leaf routes = Some h -> exists segs, (segs, h) ∈ routes).
  { intros rs ([segs h'] & Hin & Hm)%head_omap_inv. destruct segs; [|done]. injection Hm as <-. by eexists. }
  revert routes path ms. induction fuel as [|fuel IH]; intros routes path ms; cbn [matchPath]; case_bool_decide; try done.
  1, 2: destruct (leaf routes) eqn:Hl; [|done]; intros [= -> <-]; by apply Hleaf.
  destruct (firstSegment unescape path) as [s rest].
  intros [Hm|[Hm|Hm]%or_else_inv]%or_else_inv.
  - apply IH in Hm as [segs Hm]. by apply literal_child_sub in Hm.
  - case_bool_decide; [done|]. destruct (matchPath _ _ (wild_child routes) rest) as [[h' ms']|] eqn:Hw; [|done]. injection Hm as -> _.
    apply IH in Hw as [segs Hw]. by apply wild_child_sub in Hw.
  - destruct (multi_child routes) as [h'|] eqn:Hmc; [|done]. injection Hm as -> _.
    apply head_omap_inv in Hmc as ([segs h'] & Hin & Hm). destruct segs as [|[| |] [|]]; try done. injection Hm as <-. by eexists.
Qed.
End MatchingFacts.

Lemma match_under_sound {H} unescape (routes : list (pattern * H)) method path p h ms :
  match_under unescape routes method path = Some (p, h, ms) -> (p, h) ∈ routes.
Proof.
  intros (segs & Hm)%matchPath_sound. apply list_elem_of_omap in Hm as ([p' h'] & Hin & Hm). case_bool_decide; [|done]. by injection Hm as _ <- <-.
Qed.
Lemma findHandler_sound {H} clean unescape (routes : list (pattern * H)) r h ms :
  findHandler clean unescape routes r = Handle h ms -> exists p, (p, h) ∈ routes.
Proof.
  unfold findHandler. set (path := if bool_decide (hq_Method r = "CONNECT") then _ else _). cbv zeta.
  destruct (_ && exactMatch _ _); [done|]. destruct (negb _); [done|].
  destruct (matchMethodAndPath unescape routes (hq_Method r) path) as [[[p h'] ms']|] eqn:Hm; cbn [found fmap option_fmap option_map]; [|by destruct (matchingMethods _ _ _)].
  intros [= -> ->]. exists p. unfold matchMethodAndPath in Hm. apply or_else_inv in Hm as [Hm|[Hm|Hm]%or_else_inv]; [by apply match_under_sound in Hm| |by apply match_under_sound in Hm].
  case_bool_decide; [by apply match_under_sound in Hm|done].
Qed.

(** ** Authentication *)

Lemma trim_left_length fuel s : (String.length (trim_left fuel s) <= String.length s)%nat.
Proof.
  revert s. induction fuel as [|fuel IH]; intros s; cbn [trim_left]; [done|].
  assert (Hm : forall l r, first_match (fun p => strip_prefix p s) l = Some r -> (String.length r <= String.length s)%nat).
  { induction l as [|p l IHl]; intros r; cbn [first_match]; [done|]. destruct (strip_prefix p s) as [r'|] eqn:Hp; [|apply IHl].
    intros [= <-]. apply strip_prefix_Some in Hp as ->. rewrite string_length_app. lia. }
  destruct (first_match _ _) as [r|] eqn:Hr; [|done]. specialize (Hm _ _ Hr). specialize (IH r). lia.
Qed.
Lemma trim_right_length fuel s : (String.length (trim_right fuel s) <= String.length s)%nat.
Proof.
  revert s. induction fuel as [|fuel IH]; intros s; cbn [trim_right]; [done|].
  assert (Hm : forall l r, first_match (fun p => strip_suffix p s) l = Some r -> (String.length r <= String.length s)%nat).
  { induction l as [|p l IHl]; intros r; cbn [first_match]; [done|]. destruct (strip_suffix p s) as [r'|] eqn:Hp; [|apply IHl].
    intros [= <-]. apply strip_suffix_Some in Hp as ->. rewrite string_length_app. lia. }
  destruct (first_match _ _) as [r|] eqn:Hr; [|done]. specialize (Hm _ _ Hr). specialize (IH r). lia.
Qed.
Lemma TrimSpace_length s : (String.length (TrimSpace s) <= String.length s)%nat.
Proof. unfold TrimSpace. etransitivity; [apply trim_right_length|apply trim_left_length]. Qed.

Definition bearer_prefixed (h : string) : bool := (7 <=? String.length h)%nat && EqualFold "bearer " (stake 7 h).
(** The token a header carries: what is left when every [bearer] prefix is
    taken off. *)
Inductive carries : string -> string -> Prop :=
  | carries_raw t : bearer_prefixed t = false -> carries t t
  | carries_bearer h t : bearer_prefixed h = true -> carries (TrimSpace (sdrop 7 h)) t -> carries h t.
Lemma carries_functional h t t' : carries h t -> carries h t' -> t = t'.
Proof. intros H. revert t'. induction H as [t Hb|h t Hb H IH]; intros t' H'; inversion H'; subst; try congruence. by apply IH. Qed.
Lemma strip_bearer_carries fuel b h : (String.length h <= fuel)%nat ->
  carries h (strip_bearer fuel b h).2 /\ ((strip_bearer fuel b h).1 = false -> b = false /\ (strip_bearer fuel b h).2 = h).
Proof.
  revert b h. induction fuel as [|fuel IH]; intros b h Hl.
  - destruct h; [|cbn in Hl; lia]. cbn. split; [by constructor|done].
  - cbn [strip_bearer]. fold (bearer_prefixed h). destruct (bearer_prefixed h) eqn:Hb; [|split; [by constructor|done]].
    destruct (IH true (TrimSpace (sdrop 7 h))) as [Hc Hf].
    { unfold bearer_prefixed in Hb. apply andb_true_iff in Hb as [Hb%Nat.leb_le _]. pose proof (TrimSpace_length (sdrop 7 h)) as Ht.
      rewrite length_sdrop in Ht. lia. }
    split; [by apply carries_bearer|]. intros Hff. by destruct (Hf Hff).
Qed.
(** What a request must present to pass. *)
Definition presents_token (token header : string) : Prop :=
  token <> "" /\ EqualFold "bearer" (TrimSpace header) = false /\ carries (TrimSpace header) token.
Lemma auth_refusal_correct env token header : EqualFold "development" env = false ->
  (auth_refusal env token header = None <-> presents_token token header).
Proof.
  intros Henv. unfold auth_refusal, presents_token. rewrite Henv. set (raw := TrimSpace header).
  case_bool_decide as Hraw.
  { split; [done|]. intros (Ht & _ & Hc). rewrite Hraw in Hc. inversion Hc; subst; done. }
  destruct (EqualFold "bearer" raw); [split; [done|by intros (_ & ? & _)]|].
  destruct (strip_bearer_carries (String.length raw) false raw) as [Hc Hf]; [lia|].
  destruct (strip_bearer (String.length raw) false raw) as [b t] eqn:Hs. cbn [fst snd] in *.
  split.
  - destruct (b && _) eqn:Hb; [done|]. destruct (_ || _) eqn:He; [done|]. intros _. bsplit. by subst.
  - intros (Ht & _ & Hc'). rewrite (carries_functional _ _ _ Hc Hc') in *. rewrite !bool_decide_false, andb_false_r by done. by rewrite bool_decide_true.
Qed.

(** ** The middleware chain *)

Section ChainFacts.
Context {W : Type}.
Implicit Types (h : handlerFunc W) (r : httpRequest) (s : Server W).

Lemma initLogging_frame d : exists entry, initLoggingMiddleware (W := W) d = with_log entry.
Proof. unfold initLoggingMiddleware. repeat case_bool_decide; eexists; reflexivity. Qed.
(** The chain only runs the handler it wraps, on the request it gets. *)
Lemma server_handler_ext d max h h' r s : (forall s, h r s = h' r s) -> server_handler d max h r s = server_handler d max h' r s.
Proof.
  intros He. unfold server_handler. cbn [Chain foldr]. destruct (initLogging_frame d) as [entry ->].
  unfold Recoverer, with_log, MaxReq_Handler, MetricsWithRegistry. destruct (max =? 0); by rewrite He.
Qed.
Definition counted max s : Server W :=
  if max =? 0 then s
  else mkServer (se_world s) (se_now s) (u64 (se_counter s + 1)) (if max <=? u64 (se_counter s + 1) then se_interrupts s + 1 else se_interrupts s)
         (se_access s) (se_panics s) (se_metrics s) (se_statsd s).
(** What the server makes of the answer of the handler. *)
Lemma server_handler_cases d max h r s : exists e : accessEntry,
  let inner := h r (counted max s) in
  let duration := time_sub (se_now inner.1) (se_now s) in
  let out := server_handler d max h r s in
  if inner.2.2 then
    out.2 = (inner.2.1 ++ http_Error "internal server error" 500, false) /\
    se_world out.1 = se_world inner.1 /\ se_access out.1 = se_access inner.1 /\ se_metrics out.1 = se_metrics inner.1 /\
    se_panics out.1 = se_panics inner.1 ++ [(hq_Method r, hq_Path r)]
  else
    out.2 = (inner.2.1, false) /\
    se_world out.1 = se_world inner.1 /\ se_access out.1 = se_access inner.1 ++ [e] /\ al_status e = lw_statusCode (log_answer inner.2.1) /\
    se_metrics out.1 = count_request r (recorded_status inner.2.1) duration <$> se_metrics inner.1 /\ se_panics out.1 = se_panics inner.1.
Proof.
  unfold server_handler. cbn [Chain foldr]. set (inner := h r (counted max s)).
  assert (Hnow : se_now (counted max s) = se_now s) by (unfold counted; by destruct (max =? 0)).
  assert (Hm : MaxReq_Handler max (MetricsWithRegistry h) r s = MetricsWithRegistry h r (counted max s)) by (unfold MaxReq_Handler, counted; by destruct (max =? 0)).
  assert (Hl : exists entry, initLoggingMiddleware (W := W) d = with_log entry /\ forall lrw dur, al_status (entry r lrw dur) = lw_statusCode lrw).
  { unfold initLoggingMiddleware. repeat case_bool_decide; eexists; (split; [reflexivity|done]). }
  destruct Hl as (entry & -> & Hst). exists (entry r (log_answer inner.2.1) (time_sub (se_now inner.1) (se_now s))). cbv zeta.
  unfold Recoverer, with_log. rewrite Hm. unfold MetricsWithRegistry. fold inner. rewrite Hnow. destruct inner as [s' [evs [|]]]; cbn [fst snd]; [done|].
  cbn. split_and!; try done; apply Hst.
Qed.
End ChainFacts.

(** ** The API needs its token *)

(** The endpoints that serve data of characters or of the API. *)
Definition protected (e : endpoint) : bool :=
  bool_decide (e ∈ [ApiLatest; ApiList; ApiExport; ApiGet; ApiBreakdown; ApiNewCharacters; ApiExpansion; UiCharacterDetail; UiCharacterList; UiCharacterSearch]).
Lemma protected_registered p reg : (p, reg) ∈ RegisterRoutes -> protected (rn_endpoint reg) = true -> rn_auth reg = true.
Proof.
  assert (Hall : forallb (fun '(_, reg) => negb (protected (rn_endpoint reg)) || rn_auth reg) RegisterRoutes = true) by (vm_compute; reflexivity).
  intros Hin%list_elem_of_In Hp. rewrite forallb_forall in Hall. specialize (Hall _ Hin). cbn in Hall. rewrite Hp in Hall. exact Hall.
Qed.
Lemma token_refused env token r : EqualFold "development" env = false -> ~ presents_token token (hq_Header r "Authorization") ->
  exists message, auth_refusal env token (hq_Header r "Authorization") = Some message.
Proof.
  intros Henv Hauth. destruct (auth_refusal env token (hq_Header r "Authorization")) as [m|] eqn:Hr; [by exists m|].
  exfalso. apply Hauth. by apply (auth_refusal_correct env).
Qed.
Lemma registered_refused {W} env token (run : endpoint -> list string -> handlerFunc W) reg ms r s p message : (p, reg) ∈ RegisterRoutes ->
  protected (rn_endpoint reg) = true -> auth_refusal env token (hq_Header r "Authorization") = Some message ->
  registered_handler env token run reg ms r s = (s, (respondUnauthorized message, false)).
Proof. intros Hin Hp Hr. unfold registered_handler, APIAuth. by rewrite (protected_registered p reg Hin Hp), Hr. Qed.

(** C14: the API needs its token, and characters are behind it.  Outside
    development, a request without the configured token is answered by the
    whole server without any endpoint that serves API or character data: the
    answer and the state of the server are the same whatever those endpoints
    do, for every path, method and way of cleaning and unescaping paths; and a
    request that is routed to one of them gets status 401 and leaves the data
    alone. *)
Theorem api_needs_token {W} clean unescape env token (run run' : endpoint -> list string -> handlerFunc W) logger max r s
  (Hagree : forall e ms r s, protected e = false -> run e ms r s = run' e ms r s)
  (Henv : EqualFold "development" env = false)
  (Hauth : ~ presents_token token (hq_Header r "Authorization")) :
  StartServer_handler clean unescape env token run logger max r s = StartServer_handler clean unescape env token run' logger max r s /\
  (forall reg ms, findHandler clean unescape RegisterRoutes r = Handle reg ms -> protected (rn_endpoint reg) = true ->
     let out := StartServer_handler clean unescape env token run logger max r s in
     status_sent out.2.1 = 401 /\ se_world out.1 = se_world s).
Proof.
  destruct (token_refused env token r Henv Hauth) as [message Hr]. split.
  - apply server_handler_ext. intros s'. unfold mux_ServeHTTP. destruct (findHandler clean unescape RegisterRoutes r) as [reg ms| | |] eqn:Hf; try done.
    destruct (findHandler_sound _ _ _ _ _ _ Hf) as [p Hin]. destruct (protected (rn_endpoint reg)) eqn:Hp.
    + by rewrite !(registered_refused env token _ reg ms r s' p message).
    + unfold registered_handler. destruct (rn_auth reg); [unfold APIAuth; by rewrite Hr|by apply Hagree].
  - intros reg ms Hf Hp out. destruct (findHandler_sound _ _ _ _ _ _ Hf) as [p Hin].
    destruct (server_handler_cases logger max (mux_ServeHTTP clean unescape env token run) r s) as [e He]. cbv zeta in He.
    assert (Hi : mux_ServeHTTP clean unescape env token run r (counted max s) = (counted max s, (respondUnauthorized message, false))).
    { unfold mux_ServeHTTP. rewrite Hf. by apply (registered_refused env token run reg ms r _ p). }
    rewrite Hi in He. cbn [fst snd] in He. destruct He as (Ho & Hw & _). unfold out, StartServer_handler. rewrite Ho, Hw. split; [done|].
    unfold counted. by destruct (max =? 0).
Qed.

(** A handler that answers everything. *)
Definition answer_all {W} (text : string) : endpoint -> list string -> handlerFunc W := fun e ms r s => (s, ([Write text], false)).
Definition get_request (path auth : string) : httpRequest :=
  mkHttpRequest "GET" path path path (fun k => if bool_decide (k = "Authorization") then auth else "") None "" "".
Definition idle_server : Server unit := mkServer tt 0 0 0 [] [] None None.
Lemma api_needs_token_witness :
  status_sent (StartServer_handler id id "production" "secret" (answer_all "data") None 0 (get_request "/api/v1/census/characters/7" "Bearer guess") idle_server).2.1 = 401.
Proof.
  assert (Hauth : ~ presents_token "secret" "Bearer guess").
  { intros H. apply (auth_refusal_correct "production") in H; [|vm_compute; reflexivity]. vm_compute in H. discriminate. }
  refine (proj1 (proj2 (api_needs_token id id "production" "secret" (answer_all "data") (answer_all "data") None 0
    (get_request "/api/v1/census/characters/7" "Bearer guess") idle_server (fun _ _ _ _ _ => eq_refl) eq_refl Hauth) (mkRegistration true ApiGet) ["7"] _ eq_refl)).
  vm_compute. reflexivity.
Defined.
(** With the token the endpoint itself answers. *)
Lemma api_token_accepted {W} env token (run : endpoint -> list string -> handlerFunc W) reg ms r s :
  presents_token token (hq_Header r "Authorization") -> registered_handler env token run reg ms r s = run (rn_endpoint reg) ms r s.
Proof.
  intros Hp. unfold registered_handler, APIAuth. destruct (rn_auth reg); [|done].
  destruct (EqualFold "development" env) eqn:Henv; [unfold auth_refusal; by rewrite Henv|].
  by rewrite (proj2 (auth_refusal_correct env token _ Henv) Hp).
Qed.
Example routes_found :
  (fun path => findHandler id id RegisterRoutes (get_request path "")) <$>
    ["/"; "/ui/worlds/Cerberus"; "/ui/worlds"; "/api/v1/census/characters/12"; "/docs/x"; "/docs"; "/ui/assets"; "/ui/characters/12"; "/api/v1/census/latest/"] =
  [Handle (mkRegistration false UiDashboard) []; Handle (mkRegistration false UiWorldDetail) ["Cerberus"]; Handle (mkRegistration false UiWorlds) [];
   Handle (mkRegistration true ApiGet) ["12"]; Handle (mkRegistration false SwaggerUI) []; Handle (mkRegistration false DocsRedirect) [];
   Redirect "/ui/assets/"; NotFound; NotFound].
Proof. vm_compute. reflexivity. Qed.

(** ** The log *)

(** The logged body is the answer, cut at the limit and marked there. *)
Definition logged (body : string) : string := if (maxLogBody <=? String.length body)%nat then stake maxLogBody body +:+ truncation_mark else body.
Lemma stake_all n s : (String.length s <= n)%nat -> stake n s = s.
Proof. revert s. induction n as [|n IH]; intros [|a s]; cbn; try done; [lia|]. intros Hl. rewrite IH; [done|lia]. Qed.
Lemma stake_app_le n a b : (n <= String.length a)%nat -> stake n (a +:+ b) = stake n a.
Proof. revert a. induction n as [|n IH]; intros [|x a]; cbn; try done; [lia|]. intros Hl. f_equal. apply IH. lia. Qed.
Lemma stake_app_ge n a b : (String.length a <= n)%nat -> stake n (a +:+ b) = a +:+ stake (n - String.length a) b.
Proof.
  revert a. induction n as [|n IH]; intros [|x a] Hl; cbn in Hl; try lia; [done|done|]. rewrite string_cons_app. cbn. rewrite string_cons_app. f_equal. apply IH. lia.
Qed.
Lemma log_write_logged b body : log_write b (logged body) = logged (body +:+ b).
Proof.
  unfold log_write, logged. assert (Hpos : (0 < maxLogBody)%nat) by (unfold maxLogBody; lia). generalize dependent maxLogBody. intros limit Hpos.
  rewrite (string_length_app body b). destruct (Nat.leb_spec limit (String.length body)) as [Hl|Hl].
  - rewrite string_length_app, stake_length by done. destruct (Nat.ltb_spec (limit + String.length truncation_mark) limit) as [|_]; [lia|].
    destruct (Nat.leb_spec limit (String.length body + String.length b)); [|lia]. by rewrite stake_app_le.
  - destruct (Nat.ltb_spec (String.length body) limit) as [_|]; [|lia]. cbv zeta.
    destruct (Nat.leb_spec limit (String.length body + String.length b)) as [Hb|Hb].
    + rewrite stake_app_ge by lia. destruct (Nat.ltb_spec limit (String.length body + String.length b)) as [Hlt|Hge].
      * rewrite string_length_app, stake_length by lia. destruct (Nat.eqb_spec (String.length body + (limit - String.length body)) limit); [done|lia].
      * assert (He : (limit - String.length body)%nat = String.length b) by lia. rewrite He, string_length_app, stake_length by done.
        destruct (Nat.eqb_spec (String.length body + String.length b) limit); [done|lia].
    + destruct (Nat.ltb_spec limit (String.length body + String.length b)) as [|_]; [lia|]. rewrite stake_all by done. rewrite string_length_app.
      destruct (Nat.eqb_spec (String.length body + String.length b) limit); [lia|done].
Qed.
Lemma body_sent_app evs e : body_sent (evs ++ [e]) = body_sent evs +:+ match e with Write b => b | _ => "" end.
Proof.
  assert (Hc : forall l b, String.concat "" (l ++ [b]) = String.concat "" l +:+ b).
  { induction l as [|x l IH]; intros b; [done|]. destruct l as [|y l]; [done|]. cbn [app String.concat] in *. specialize (IH b).
    rewrite !string_app_assoc. f_equal. change ("" +:+ ?x) with x. exact IH. }
  assert (He : forall t : string, t +:+ "" = t) by (induction t as [|a t IH]; [done|]; by rewrite string_cons_app, IH).
  unfold body_sent, written. rewrite list.omap_app. destruct e; cbn [omap list_omap]; rewrite ?app_nil_r, ?He; [done..|apply Hc].
Qed.
Theorem log_shows_prefix evs : lw_body (log_answer evs) = logged (body_sent evs) /\ lw_statusCode (log_answer evs) = recorded_status evs.
Proof.
  unfold log_answer, recorded_status. induction evs as [|e evs [IH1 IH2]] using rev_ind.
  { split; [|done]. unfold logged. assert (Hpos : (0 < maxLogBody)%nat) by (unfold maxLogBody; lia). by destruct (Nat.leb_spec maxLogBody (String.length (body_sent []))) as [Hl|]; [cbn in Hl; lia|]. }
  rewrite !fold_left_app, body_sent_app. cbn [fold_left]. assert (He : forall t : string, t +:+ "" = t) by (induction t as [|a t IH]; [done|]; by rewrite string_cons_app, IH).
  destruct e; cbn [lrw_event lw_body lw_statusCode]; rewrite ?IH1, ?IH2, ?He; [done..|]. by rewrite log_write_logged.
Qed.
