(* ===== verification/Container.v ===== *)
(** * The service container ([container/main.go], [infrastructure.go],
      [domain.go])

    Every accessor with its lock: the container builds a part at its first use
    and keeps it.  What is modelled of a part is whether it was built; what the
    parts do is in their own files.  Locking a held mutex is a deadlock. *)
From S2P Require Import Prelude GoErrors Config.

(** ** State *)

Inductive component :=
  | HTTPClientC | DiscoveryC | StatsdC | RegistryC | LimiterC | DatabaseC | QueueC | LodestoneC
  | CharacterRepositoryC | AchievementRepositoryC | CensusRunRepositoryC | UIStatsRepositoryC | ProxyRepositoryC | ProxyCheckerC | DestinationCheckerC
  | ProviderC (index : nat) | CensusServiceC | UIStatsServiceC | ProxyServiceC.
Global Instance component_eq_dec : EqDecision component.
Proof. solve_decision. Defined.
(** [ct_made] are the parts that were built, [ct_tries] counts the attempts. *)
Record Container := mkContainer { ct_mu : bool; ct_config : option Config; ct_made : list component; ct_tries : nat }.
Definition NewServiceContainer : Container := mkContainer false None [] 0.
Inductive outcome (A : Type) := Done (a : A) | Panicked | Deadlock.
Arguments Done {A}. Arguments Panicked {A}. Arguments Deadlock {A}.
Definition CM (A : Type) : Type := Container -> Container * outcome A.
Global Instance CM_ret : MRet CM := fun A a s => (s, Done a).
Global Instance CM_bind : MBind CM := fun A B f m s =>
  match m s with (s, Done a) => f a s | (s, Panicked) => (s, Panicked) | (s, Deadlock) => (s, Deadlock) end.

Definition set_mu (b : bool) (s : Container) : Container := mkContainer b (ct_config s) (ct_made s) (ct_tries s).
Definition Lock : CM unit := fun s => if ct_mu s then (s, Deadlock) else (set_mu true s, Done tt).
Definition Unlock : CM unit := fun s => (set_mu false s, Done tt).
(** [s.mu.Lock(); defer s.mu.Unlock()]. *)
Definition locked {A} (body : CM A) : CM A := fun s =>
  match Lock s with
  | (s, Done _) => let '(s, r) := body s in match r with Deadlock => (s, Deadlock) | _ => (set_mu false s, r) end
  | (s, _) => (s, Deadlock)
  end.
Definition panic {A} : CM A := fun s => (s, Panicked).
Definition has (c : component) : CM bool := fun s => (s, Done (bool_decide (c ∈ ct_made s))).
Definition keep (c : component) : CM unit := fun s => (mkContainer (ct_mu s) (ct_config s) (ct_made s ++ [c]) (ct_tries s), Done tt).

Section Accessors.
(** [load] is [config.NewConfig]; [builds] tells whether an attempt to build a
    part succeeds. *)
Context (load : result Config) (builds : component -> nat -> bool).

Definition attempt (c : component) : CM bool := fun s => (mkContainer (ct_mu s) (ct_config s) (ct_made s) (S (ct_tries s)), Done (builds c (ct_tries s))).
Definition configUnlocked : CM Config := fun s =>
  match ct_config s with
  | Some cfg => (s, Done cfg)
  | None => match load with Ok cfg => (mkContainer (ct_mu s) (Some cfg) (ct_made s) (ct_tries s), Done cfg) | Err _ => (s, Panicked) end
  end.
Definition Config_ : CM Config := locked configUnlocked.
(** The part if it is there, and otherwise what [build] yields, kept when it
    is not nil; the result tells whether the accessor returns a part. *)
Definition once (c : component) (build : CM bool) : CM bool :=
  there ← has c;
  if there : bool then mret true
  else ok ← build; if ok : bool then _ ← keep c; mret true else mret false.
Definition proxyConfig : CM ProxyConfig := cfg ← configUnlocked; match cfg_Proxy cfg with Some p => mret p | None => panic end.

Definition HTTPClient_ : CM bool := once HTTPClientC (mret true).
Definition databaseUnlocked : CM bool :=
  once DatabaseC (cfg ← configUnlocked; match cfg_Postgres cfg with None => mret false | Some _ => attempt DatabaseC end).
Definition Database : CM bool := locked databaseUnlocked.
Definition proxyScanPolicyUnlocked : CM unit := _ ← proxyConfig; mret tt.
Definition ProxyScanPolicy_ : CM unit := locked proxyScanPolicyUnlocked.
Definition ProxyScanWeights_ : CM unit := locked (_ ← proxyConfig; mret tt).
Definition destinationCheckerUnlocked : CM bool := once DestinationCheckerC (_ ← proxyConfig; mret true).
Definition DestinationChecker : CM bool := locked destinationCheckerUnlocked.
Definition proxyConsumerCooldownUnlocked : CM unit := _ ← configUnlocked; mret tt.
Definition discoveryHTTPClientUnlocked : CM bool :=
  there ← has DiscoveryC;
  if there : bool then mret true
  else
    driver ← databaseUnlocked;
    if negb driver then HTTPClient_
    else
      _ ← once ProxyRepositoryC (_ ← proxyScanPolicyUnlocked; mret true);
      _ ← configUnlocked;
      _ ← destinationCheckerUnlocked;
      _ ← proxyConsumerCooldownUnlocked;
      _ ← proxyScanPolicyUnlocked;
      _ ← HTTPClient_;
      _ ← keep DiscoveryC;
      mret true.
Definition DiscoveryHTTPClient : CM bool := locked discoveryHTTPClientUnlocked.
Definition Statsd : CM bool := locked (once StatsdC (_ ← configUnlocked; attempt StatsdC)).
Definition PrometheusRegistry : CM bool := locked (once RegistryC (mret true)).
Definition providerRateLimiterUnlocked : CM bool := once LimiterC (mret true).
Definition ProviderRateLimiter_ : CM bool := locked providerRateLimiterUnlocked.
Definition Queue_ : CM bool :=
  locked (once QueueC (cfg ← configUnlocked; match cfg_RabbitMQ cfg with None => mret false | Some _ => attempt QueueC end)).
Definition LodestoneClient_ : CM bool :=
  locked (once LodestoneC (cfg ← configUnlocked; match cfg_Lodestone cfg with None => mret false | Some _ => _ ← providerRateLimiterUnlocked; attempt LodestoneC end)).
Definition CharacterRepository_ : CM bool := locked (once CharacterRepositoryC databaseUnlocked).
Definition AchievementRepository_ : CM bool := locked (once AchievementRepositoryC databaseUnlocked).
Definition CensusRunRepository_ : CM bool := locked (once CensusRunRepositoryC databaseUnlocked).
Definition UIStatsRepository_ : CM bool := locked (once UIStatsRepositoryC databaseUnlocked).
Definition ProxyRepository_ : CM bool :=
  locked (once ProxyRepositoryC (driver ← databaseUnlocked; if negb driver then mret false else _ ← proxyScanPolicyUnlocked; mret true)).
Definition ProxyChecker_ : CM bool := locked (once ProxyCheckerC (_ ← proxyConfig; mret true)).
(** The eleven providers share their accessor; [enabled] is their switch. *)
Definition provider_accessor (i : nat) (enabled : ProxyConfig -> bool) : CM bool :=
  locked (once (ProviderC i)
    (cfg ← configUnlocked;
     match cfg_Proxy cfg with
     | None => mret false
     | Some p => if negb (enabled p) then mret false else _ ← discoveryHTTPClientUnlocked; mret true
     end)).
(** [ProxyHub] locks by hand after its repository is there; it keeps nothing. *)
Definition ProxyHub_ : CM bool :=
  repo ← ProxyRepository_;
  if negb repo then mret false
  else
    _ ← Lock;
    _ ← (_ ← configUnlocked; _ ← destinationCheckerUnlocked; _ ← proxyConsumerCooldownUnlocked; proxyScanPolicyUnlocked);
    _ ← Unlock;
    mret true.

(** ** Domain services ([domain.go])

    These accessors take no lock of their own.  What they set on a new census
    service is [configure_service] of [Config], its milestones are in
    [Census]; a failed synchronisation is logged and the service kept. *)

Definition CensusService_ : CM bool :=
  once CensusServiceC
    (achievements ← AchievementRepository_;
     if negb achievements then mret false
     else _ ← CharacterRepository_; _ ← CensusRunRepository_; _ ← Config_; mret true).
(** The service is kept before its observer asks for the registry. *)
Definition UIStatsService_ : CM bool :=
  there ← has UIStatsServiceC;
  if there : bool then mret true
  else
    repo ← UIStatsRepository_;
    if negb repo then mret false
    else _ ← Config_; _ ← keep UIStatsServiceC; _ ← PrometheusRegistry; mret true.
Fixpoint collect_providers (i : nat) (switches : list (ProxyConfig -> bool)) : CM nat :=
  match switches with
  | [] => mret 0%nat
  | enabled :: switches => p ← provider_accessor i enabled; n ← collect_providers (S i) switches; mret (if p : bool then S n else n)
  end.
Definition provider_switches : list (ProxyConfig -> bool) :=
  (fun (f : ProxyProviderConfig -> bool * string) (c : ProxyConfig) => (f (px_Providers c)).1) <$>
    [pv_ProxyScrape; pv_Geonode; pv_PubProxy; pv_Proxifly; pv_TheSpeedX; pv_Monosans; pv_Gfpcom; pv_Thordata; pv_Hproxy; pv_Sage520; pv_ErcinDedeoglu].
Definition ProxyService_ : CM bool :=
  once ProxyServiceC
    (repo ← ProxyRepository_;
     if negb repo then mret false else _ ← collect_providers 0 provider_switches; mret true).
(** The handlers a registry gets: with a service the three census events. *)
Definition Handlers_ : CM nat :=
  svc ← CensusService_;
  if negb svc then mret 0%nat
  else _ ← LodestoneClient_; _ ← LodestoneClient_; _ ← ProviderRateLimiter_; _ ← LodestoneClient_; mret 3%nat.
Definition ProxyCensusHandlers_ : CM nat := svc ← CensusService_; mret (if svc : bool then 3%nat else 0%nat).
Definition ProxyHandlers_ : CM nat := svc ← ProxyService_; mret (if svc : bool then 1%nat else 0%nat).

(** ** Nothing deadlocks, and every part is built once *)

Inductive accessor : forall A, CM A -> Prop :=
  | A_Config : accessor _ Config_ | A_HTTPClient : accessor _ HTTPClient_ | A_Discovery : accessor _ DiscoveryHTTPClient | A_Statsd : accessor _ Statsd
  | A_Registry : accessor _ PrometheusRegistry | A_Limiter : accessor _ ProviderRateLimiter_ | A_Database : accessor _ Database | A_Queue : accessor _ Queue_
  | A_Lodestone : accessor _ LodestoneClient_ | A_Characters : accessor _ CharacterRepository_ | A_Achievements : accessor _ AchievementRepository_
  | A_Runs : accessor _ CensusRunRepository_ | A_Stats : accessor _ UIStatsRepository_ | A_Proxies : accessor _ ProxyRepository_
  | A_Checker : accessor _ ProxyChecker_ | A_Destination : accessor _ DestinationChecker | A_Policy : accessor _ ProxyScanPolicy_ | A_Weights : accessor _ ProxyScanWeights_
  | A_Provider i enabled : accessor _ (provider_accessor i enabled) | A_Hub : accessor _ ProxyHub_ | A_Census : accessor _ CensusService_
  | A_UIStats : accessor _ UIStatsService_ | A_Proxy : accessor _ ProxyService_ | A_Handlers : accessor _ Handlers_
  | A_ProxyCensus : accessor _ ProxyCensusHandlers_ | A_ProxyHandlers : accessor _ ProxyHandlers_.

(** A part is built after the parts of lower rank. *)
Definition rank (c : component) : nat :=
  match c with
  | HTTPClientC | DatabaseC | RegistryC | LimiterC | DestinationCheckerC | StatsdC | QueueC | ProxyCheckerC => 0
  | LodestoneC | CharacterRepositoryC | AchievementRepositoryC | CensusRunRepositoryC | UIStatsRepositoryC | ProxyRepositoryC => 1
  | DiscoveryC => 2
  | ProviderC _ => 3
  | CensusServiceC | UIStatsServiceC | ProxyServiceC => 4
  end.
Context (cfg : Config) (proxy : ProxyConfig) (Hload : load = Ok cfg) (Hproxy : cfg_Proxy cfg = Some proxy).
Definition container_ok (s : Container) : Prop := NoDup (ct_made s) /\ (ct_config s = None \/ ct_config s = Some cfg).
(** From a good container with the mutex at [b], the computation finishes with
    the mutex at [b], and builds only parts of a rank below [n]. *)
Definition runs (b : bool) (n : nat) {A} (m : CM A) : Prop := forall s, container_ok s -> ct_mu s = b ->
  exists s' a extra, m s = (s', Done a) /\ ct_mu s' = b /\ container_ok s' /\ ct_made s' = ct_made s ++ extra /\ Forall (fun c => (rank c < n)%nat) extra.

Lemma runs_ret b n {A} (a : A) : runs b n (mret a).
Proof. intros s Hs Hb. exists s, a, []. rewrite app_nil_r. split_and!; done || constructor. Qed.
Lemma runs_bind b n {A B} (m : CM A) (f : A -> CM B) : runs b n m -> (forall a, runs b n (f a)) -> runs b n (m ≫= f).
Proof.
  intros Hm Hf s Hs Hb. destruct (Hm s Hs Hb) as (s1 & a & e1 & H1 & Hb1 & Hs1 & Hmade1 & He1).
  destruct (Hf a s1 Hs1 Hb1) as (s2 & a2 & e2 & H2 & Hb2 & Hs2 & Hmade2 & He2).
  exists s2, a2, (e1 ++ e2). unfold mbind, CM_bind. rewrite H1, Hmade2, Hmade1, app_assoc. split_and!; try done. by apply Forall_app.
Qed.
Lemma runs_weaken b n n' {A} (m : CM A) : runs b n m -> (n <= n')%nat -> runs b n' m.
Proof.
  intros Hm Hn s Hs Hb. destruct (Hm s Hs Hb) as (s1 & a & e1 & H1 & Hb1 & Hs1 & Hmade1 & He1). exists s1, a, e1. split_and!; try done.
  eapply Forall_impl; [|exact He1]. cbn. lia.
Qed.
Lemma runs_config b n : runs b n configUnlocked.
Proof.
  intros s Hs Hb. pose proof Hs as [Hnd Hc]. unfold configUnlocked. destruct (ct_config s) as [c|] eqn:Hcfg.
  - exists s, c, []. by rewrite app_nil_r.
  - rewrite Hload. eexists _, cfg, []. rewrite app_nil_r. split_and!; [done|done|split; [done|by right]|done|constructor].
Qed.
Lemma runs_proxyConfig b n : runs b n proxyConfig.
Proof.
  intros s Hs Hb. destruct (runs_config b n s Hs Hb) as (s' & c & extra & Hr & Hb' & Hs' & Hm & He).
  assert (c = cfg) as ->.
  { unfold configUnlocked in Hr. destruct Hs as [_ [Hc|Hc]]; rewrite Hc in Hr; [rewrite Hload in Hr|]; congruence. }
  exists s', proxy, extra. unfold proxyConfig, mbind, CM_bind. rewrite Hr, Hproxy. done.
Qed.
Lemma runs_attempt b n c : runs b n (attempt c).
Proof. intros s Hs Hb. eexists _, _, []. rewrite app_nil_r. split_and!; [done|done|exact Hs|done|constructor]. Qed.
(** The same while [c] is still to be built: what runs before is of a lower
    rank, so [c] may be kept afterwards. *)
Definition runs_fresh (c : component) (b : bool) (n : nat) {A} (m : CM A) : Prop := forall s, container_ok s -> ct_mu s = b -> c ∉ ct_made s ->
  exists s' a extra, m s = (s', Done a) /\ ct_mu s' = b /\ container_ok s' /\ ct_made s' = ct_made s ++ extra /\ Forall (fun c => (rank c < n)%nat) extra.
Lemma fresh_runs c b n {A} (m : CM A) : runs b n m -> runs_fresh c b n m.
Proof. intros Hm s Hs Hb _. by apply Hm. Qed.
Lemma fresh_bind c b n {A B} (m : CM A) (f : A -> CM B) : (rank c <= n)%nat -> runs b (rank c) m -> (forall a, runs_fresh c b n (f a)) -> runs_fresh c b n (m ≫= f).
Proof.
  intros Hn Hm Hf s Hs Hb Hc. destruct (Hm s Hs Hb) as (s1 & a & e1 & H1 & Hb1 & Hs1 & Hmade1 & He1).
  destruct (Hf a s1 Hs1 Hb1) as (s2 & a2 & e2 & H2 & Hb2 & Hs2 & Hmade2 & He2).
  { rewrite Hmade1, elem_of_app. intros [Hx|Hx]; [done|]. apply list_elem_of_In in Hx. pose proof (proj1 (Forall_forall _ _) He1 _ Hx). cbn in *. lia. }
  exists s2, a2, (e1 ++ e2). unfold mbind, CM_bind. rewrite H1, Hmade2, Hmade1, app_assoc. split_and!; try done.
  apply Forall_app. split; [|done]. eapply Forall_impl; [|exact He1]. cbn. lia.
Qed.
Lemma fresh_keep c b n {A} (k : CM A) : (rank c < n)%nat -> runs b n k -> runs_fresh c b n (_ ← keep c; k).
Proof.
  intros Hn Hk s [Hnd Hcfg] Hb Hc. unfold mbind, CM_bind, keep.
  edestruct (Hk (mkContainer (ct_mu s) (ct_config s) (ct_made s ++ [c]) (ct_tries s))) as (s' & a & e & H1 & Hb1 & Hs1 & Hmade & He); [|done|].
  { split; [|done]. cbn. apply list.NoDup_app. split_and!; [done| |apply NoDup_singleton]. intros x Hx Hxc. apply list_elem_of_singleton in Hxc as ->. done. }
  exists s', a, (c :: e). rewrite H1, Hmade. cbn. rewrite <-app_assoc. split_and!; try done. by constructor.
Qed.
Lemma runs_has c b n {A} (m m' : CM A) : runs b n m -> runs_fresh c b n m' -> runs b n (there ← has c; if there : bool then m else m').
Proof. intros Hm Hm' s Hs Hb. unfold has, mbind, CM_bind. case_bool_decide as Hin; [by apply Hm|by apply Hm']. Qed.
Lemma runs_once b n c build : (rank c < n)%nat -> runs b (rank c) build -> runs b n (once c build).
Proof.
  intros Hn Hm. apply runs_has; [apply runs_ret|]. apply fresh_bind; [lia|done|]. intros [|]; [apply fresh_keep|apply fresh_runs]; try apply runs_ret. lia.
Qed.
Lemma runs_locked n {A} (m : CM A) : runs true n m -> runs false n (locked m).
Proof.
  intros Hm s Hs Hb. unfold locked, Lock. rewrite Hb. destruct (Hm (set_mu true s) Hs eq_refl) as (s1 & a & e & H1 & Hb1 & Hs1 & Hmade & He).
  rewrite H1. by exists (set_mu false s1), a, e.
Qed.
Create HintDb container.
(** One rule per shape of program; the ranks are numbers, so [lia] compares
    them. *)
Ltac run := repeat match goal with
  | |- forall _, _ => intro
  | |- runs _ _ (mret _) => apply runs_ret
  | |- runs _ _ configUnlocked => apply runs_config
  | |- runs _ _ proxyConfig => apply runs_proxyConfig
  | |- runs _ _ (attempt _) => apply runs_attempt
  | |- runs _ _ (once _ _) => apply runs_once; [cbn; lia|cbn [rank]]
  | |- runs _ _ (locked _) => apply runs_locked
  | |- runs _ _ (if ?b then _ else _) => destruct b
  | |- runs _ _ (match ?b with Some _ => _ | None => _ end) => destruct b
  | |- runs _ _ (has _ ≫= _) => apply runs_has
  | |- runs_fresh _ _ _ (keep _ ≫= _) => apply fresh_keep; [cbn; lia|]
  | |- runs_fresh _ _ _ (if ?b then _ else _) => destruct b
  | |- runs_fresh _ _ _ (mret _) => apply fresh_runs
  | |- runs_fresh _ _ _ (_ ≫= _) => apply fresh_bind; [cbn; lia|cbn [rank]|]
  | |- runs _ _ (_ ≫= _) => apply runs_bind
  | |- _ => solve [eauto with container]
  end.
Lemma runs_HTTPClient b n : (0 < n)%nat -> runs b n HTTPClient_.
Proof. intros Hn. unfold HTTPClient_. run. Qed.
Lemma runs_database b n : (0 < n)%nat -> runs b n databaseUnlocked.
Proof. intros Hn. unfold databaseUnlocked. run. Qed.
Lemma runs_policy b n : runs b n proxyScanPolicyUnlocked.
Proof. unfold proxyScanPolicyUnlocked. run. Qed.
Lemma runs_destination b n : (0 < n)%nat -> runs b n destinationCheckerUnlocked.
Proof. intros Hn. unfold destinationCheckerUnlocked. run. Qed.
Lemma runs_cooldown b n : runs b n proxyConsumerCooldownUnlocked.
Proof. unfold proxyConsumerCooldownUnlocked. run. Qed.
Lemma runs_limiter b n : (0 < n)%nat -> runs b n providerRateLimiterUnlocked.
Proof. intros Hn. unfold providerRateLimiterUnlocked. run. Qed.
Local Hint Resolve runs_HTTPClient runs_database runs_policy runs_destination runs_cooldown runs_limiter : container.
Local Hint Extern 1 (_ < _)%nat => lia : container.

Lemma runs_discovery b n : (2 < n)%nat -> runs b n discoveryHTTPClientUnlocked.
Proof. intros Hn. unfold discoveryHTTPClientUnlocked. run. apply fresh_runs. run. Qed.
Local Hint Resolve runs_discovery : container.
Lemma runs_provider i enabled n : (3 < n)%nat -> runs false n (provider_accessor i enabled).
Proof. intros Hn. unfold provider_accessor. run. Qed.
Lemma runs_providers switches : forall i, runs false 4 (collect_providers i switches).
Proof.
  induction switches as [|e rest IH]; intros i; cbn; [apply runs_ret|].
  apply runs_bind; [by apply runs_provider; lia|]. intros p. apply runs_bind; [apply IH|]. intros m. apply runs_ret.
Qed.
Local Hint Resolve runs_provider runs_providers : container.
Ltac lock_free := intros; unfold CharacterRepository_, AchievementRepository_, CensusRunRepository_, UIStatsRepository_, ProxyRepository_, LodestoneClient_, Config_, PrometheusRegistry, ProviderRateLimiter_; run.
Lemma runs_repositories n : (1 < n)%nat ->
  runs false n CharacterRepository_ /\ runs false n AchievementRepository_ /\ runs false n CensusRunRepository_ /\ runs false n UIStatsRepository_ /\
  runs false n ProxyRepository_ /\ runs false n LodestoneClient_.
Proof. intros Hn; split_and!; lock_free. Qed.
Lemma runs_census n : (4 < n)%nat -> runs false n CensusService_.
Proof. unfold CensusService_. lock_free. Qed.
Lemma runs_stats n : (4 < n)%nat -> runs false n UIStatsService_.
Proof. unfold UIStatsService_. lock_free. Qed.
Lemma runs_proxy n : (4 < n)%nat -> runs false n ProxyService_.
Proof. unfold ProxyService_. lock_free. Qed.
Local Hint Resolve runs_census runs_stats runs_proxy : container.
(** [ProxyHub] holds the mutex by hand around its middle part. *)
Lemma runs_by_hand n {A} (m : CM unit) (k : CM A) : runs true n m -> runs false n k -> runs false n (_ ← Lock; _ ← m; _ ← Unlock; k).
Proof.
  intros Hm Hk s Hs Hb. unfold mbind, CM_bind at 1, Lock. rewrite Hb. unfold CM_bind at 1.
  destruct (Hm (set_mu true s) Hs eq_refl) as (s1 & a & e & H1 & Hb1 & Hs1 & Hmade & He). rewrite H1. unfold CM_bind, Unlock.
  destruct (Hk (set_mu false s1) Hs1 eq_refl) as (s2 & a2 & e2 & H2 & Hb2 & Hs2 & Hmade2 & He2).
  exists s2, a2, (e ++ e2). rewrite H2, Hmade2. cbn in *. rewrite Hmade, app_assoc. split_and!; try done. by apply Forall_app.
Qed.
Lemma runs_hub n : (1 < n)%nat -> runs false n ProxyHub_.
Proof.
  intros Hn. unfold ProxyHub_. apply runs_bind; [by lock_free|]. intros [|]; cbn; [|apply runs_ret]. apply runs_by_hand; run.
Qed.
Local Hint Resolve runs_hub : container.
Lemma runs_accessor A (m : CM A) : accessor A m -> runs false 5 m.
Proof.
  destruct 1; try by (auto with container; unfold Database, DiscoveryHTTPClient, Statsd, Queue_, ProxyChecker_, DestinationChecker, ProxyScanPolicy_, ProxyScanWeights_,
    Handlers_, ProxyCensusHandlers_, ProxyHandlers_; lock_free).
Qed.

(** The containers a program can have: any sequence of accessor calls. *)
Inductive called : Container -> Prop :=
  | R_new : called NewServiceContainer
  | R_call s A (m : CM A) s' r : called s -> accessor A m -> m s = (s', r) -> called s'.
Lemma container_reachable_ok s : called s -> container_ok s /\ ct_mu s = false.
Proof.
  induction 1 as [|s A m s' r Hr [IH Hmu] Ha Hm]; [split; [split; [constructor|by left]|done]|].
  destruct (runs_accessor A m Ha s IH Hmu) as (s1 & a & e & H1 & Hb1 & Hs1 & _). rewrite Hm in H1. injection H1 as -> _. done.
Qed.

(** Whatever was called before, with a configuration that loads and has its
    proxy section every accessor returns: it neither waits for the container's
    own mutex nor panics, leaves the mutex free, drops no part, and builds no
    part a second time; for calls one after another. *)
Theorem accessors_return s A (m : CM A) : called s -> accessor A m ->
  exists s' a extra, m s = (s', Done a) /\ ct_mu s' = false /\ ct_made s' = ct_made s ++ extra /\ NoDup (ct_made s').
Proof.
  intros Hr Ha. destruct (container_reachable_ok s Hr) as [Hs Hmu].
  destruct (runs_accessor A m Ha s Hs Hmu) as (s1 & a & e & H1 & Hb1 & [Hnd _] & Hmade & _). by exists s1, a, e.
Qed.

(** A part that an accessor returned is there, and asking again changes
    nothing. *)
Lemma once_again c build s s' : once c build s = (s', Done true) -> once c build s' = (s', Done true).
Proof.
  assert (Hin : forall t, c ∈ ct_made t -> once c build t = (t, Done true)).
  { intros t Ht. unfold once, has, mbind, CM_bind. by rewrite bool_decide_true by done. }
  intros H. apply Hin. revert H. unfold once, has, mbind, CM_bind. case_bool_decide; [by intros [= <-]|].
  destruct (build s) as [s1 [[|]| |]]; cbn; [|done..]. intros [= <-]. cbn. apply elem_of_app. right. by apply list_elem_of_singleton.
Qed.
(** The proxy consumer asks for the census service before it starts its
    workers, so that their calls of [ProxyCensusHandlers], which take no lock,
    find the service and only read. *)
Lemma prewarmed_handlers s s' : CensusService_ s = (s', Done true) -> ProxyCensusHandlers_ s' = (s', Done 3%nat).
Proof. intros H. apply once_again in H. fold CensusService_ in H. unfold ProxyCensusHandlers_, mbind, CM_bind. by rewrite H. Qed.
End Accessors.
