(* ===== verification/Consume.v ===== *)
(** * The consume commands and their clients ([cmd/cli/consume.go],
      [cmd/cli/proxy.go], [NewCustomClient] of [infrastructure/lodestone])

    How the commands choose a mode and build the Lodestone client; the worker
    loops themselves are in [EventWorker], [Hub], [Discovery] and [ScanWorker]
    and appear here as the results of their runs. *)
From Stdlib Require Import SpecFloat.
From S2P Require Import Prelude GoErrors GoStrings Contract Payloads UiFormat Metrics MetricsFacts EventWorker Config.

(** ** The Lodestone client *)

Definition requestTimeout : Z := 30 * second.
Definition maxSafeRate : float64 := float_of_int 1.
(** The limiter's rate, at a burst of one. *)
Definition client_rate (configured : float64) : float64 :=
  let rps := if SFleb configured zero then maxSafeRate else configured in
  if SFltb maxSafeRate rps then maxSafeRate else rps.
Record CustomClient := mkCustomClient { cu_rate : float64; cu_maxRetries : Z; cu_backoffBase : Z; cu_proxyURL : string; cu_proxied : bool }.
Definition CustomClientOption : Type := CustomClient -> CustomClient.
Definition WithProxy (proxyURL : string) : CustomClientOption := fun c =>
  mkCustomClient (cu_rate c) (cu_maxRetries c) (cu_backoffBase c) proxyURL (cu_proxied c).
(** [transport] builds the transport of a proxy address with a timeout. *)
Definition NewCustomClient (transport : string -> Z -> result unit) (cfg : option LodestoneConfig) (opts : list CustomClientOption) : result CustomClient :=
  match cfg with
  | None => Err (ErrorString "lodestone config is nil")
  | Some cfg =>
      let c := mkCustomClient (client_rate (lc_RateLimit cfg)) (lc_MaxRetries cfg) (500 * millisecond) "" false in
      let c := fold_left (fun c (opt : CustomClientOption) => opt c) opts c in
      if bool_decide (cu_proxyURL c = "") then Ok c
      else _ ← wrap_err "lodestone proxy transport" (transport (cu_proxyURL c) requestTimeout);
           mret (mkCustomClient (cu_rate c) (cu_maxRetries c) (cu_backoffBase c) (cu_proxyURL c) true)
  end.

(** ** [consume] *)

(** The client factory of the proxy mode. *)
Definition newLodestoneClient (transport : string -> Z -> result unit) (cfg : Config) (proxyURL : string) : result CustomClient :=
  let rate := match cfg_Proxy cfg with Some p => pc_LodestoneRateLimit (px_Consumer p) | None => zero end in
  match cfg_Lodestone cfg with
  | None => Err (ErrorString "lodestone config missing")
  | Some l =>
      let l := if SFltb zero rate then mkLodestoneConfig rate (lc_MaxRetries l) else l in
      NewCustomClient transport (Some l) [WithProxy proxyURL]
  end.
Section Consume.
(** The runs of the two modes and of the failed consumer. *)
Context (run_direct run_failed : list string -> Z -> result unit) (run_proxy : list string -> Z -> string -> result unit).
Definition runProxyConsumer (service hub : bool) (hostname : string) (pid : Z) (eventTypes : list string) (concurrency : Z) : result unit :=
  if negb service then Err (ErrorString "census service not initialised")
  else if negb hub then Err (ErrorString "proxy hub not initialised (database unavailable?)")
  else run_proxy eventTypes concurrency (ownerPrefix_of hostname pid).
Definition consumeCmd (queue service hub : bool) (hostname : string) (pid : Z) (arg : option string) (eventsFlag : string) (concurrency : Z) (proxyMode : bool) : result unit :=
  let eventTypes := consume_events arg eventsFlag in
  if negb queue then Err (ErrorString "queue not initialised")
  else if proxyMode then runProxyConsumer service hub hostname pid eventTypes concurrency
  else run_direct eventTypes concurrency.
Definition consumeFailedCmd (queue : bool) (eventsFlag : string) (concurrency : Z) : result unit :=
  if negb queue then Err (ErrorString "queue not initialised") else run_failed (consume_failed_events eventsFlag) concurrency.

(** ** [proxy discover] and [proxy scan] *)

(** [discover] is the discovery run with its limit. *)
Definition proxyDiscoverCmd (queue repository service : bool) (providers : nat) (limit : Z) (discover : Z -> result Z) : result unit :=
  if negb queue then Err (ErrorString "queue not initialised")
  else if negb repository then Err (ErrorString "proxy repository not initialised")
  else if negb service then Err (ErrorString "proxy service not initialised")
  else if (providers =? 0)%nat then Err (ErrorString "no proxy providers configured")
  else _ ← discover (if limit <? 0 then 0 else limit); mret tt.
(** [scan] is the scan run; the guard's own error is only logged. *)
Definition runScanWorker (concurrency : Z) (repository scan_store : bool) (scan : Z -> result unit) : result unit :=
  if concurrency <=? 0 then Err (ErrorString "proxy scan: concurrency must be positive")
  else if negb repository then Err (ErrorString "proxy repository not initialised")
  else if negb scan_store then Err (ErrorString "proxy repository does not support the scan store contract")
  else scan concurrency.
End Consume.

(** ** Properties *)

Lemma SFltb_total a b : a <> S754_nan -> b <> S754_nan -> SFltb a b = false -> SFleb b a = true.
Proof.
  intros Ha Hb. assert (Hr : forall f, f <> S754_nan -> exists x, frank f = Some x) by (intros [| | |]; try done; by eexists).
  destruct (Hr a Ha) as [x Hx], (Hr b Hb) as [y Hy]. unfold SFltb. rewrite SFcompare_rank, Hx, Hy, SFleb_rank. cbn. intros H. exists y, x. split_and!; [done..|].
  destruct x as [[x1 x2] x3], y as [[y1 y2] y3]. unfold lex3, le3 in *. cbn in *.
  destruct (Z.compare_spec x1 y1), (Z.compare_spec x2 y2), (Z.compare_spec x3 y3); try done; lia.
Qed.
(** Whatever the settings say, a client sends more than nothing and at most
    one request per second, in both modes. *)
Lemma client_rate_safe configured : configured <> S754_nan -> SFltb zero (client_rate configured) = true /\ SFleb (client_rate configured) maxSafeRate = true.
Proof.
  intros Hn. unfold client_rate. destruct (SFleb configured zero) eqn:Hz; [by vm_compute|].
  destruct (SFltb maxSafeRate configured) eqn:Hm; [by vm_compute|]. split; [|by apply SFltb_total].
  destruct (SFltb zero configured) eqn:Hp; [done|]. apply SFltb_total in Hp; [congruence|done|done].
Qed.
Theorem clients_keep_the_rate transport cfg proxyURL c
  (Hnan : forall l, cfg_Lodestone cfg = Some l -> lc_RateLimit l <> S754_nan)
  (Hnan' : forall p, cfg_Proxy cfg = Some p -> pc_LodestoneRateLimit (px_Consumer p) <> S754_nan) :
  NewCustomClient transport (cfg_Lodestone cfg) [] = Ok c \/ newLodestoneClient transport cfg proxyURL = Ok c ->
  SFltb zero (cu_rate c) = true /\ SFleb (cu_rate c) maxSafeRate = true.
Proof.
  assert (Hclient : forall l opts, lc_RateLimit l <> S754_nan -> (opts = [] \/ opts = [WithProxy proxyURL]) -> NewCustomClient transport (Some l) opts = Ok c ->
    SFltb zero (cu_rate c) = true /\ SFleb (cu_rate c) maxSafeRate = true).
  { intros l opts Hl Hopts. unfold NewCustomClient. destruct Hopts as [-> | ->]; cbn [fold_left WithProxy cu_proxyURL cu_rate cu_maxRetries cu_backoffBase].
    - rewrite bool_decide_true by done. intros [= <-]. by apply client_rate_safe.
    - case_bool_decide; [intros [= <-]; by apply client_rate_safe|]. destruct (wrap_err _ _); [|done]. intros [= <-]. by apply client_rate_safe. }
  intros [Hc|Hc].
  - destruct (cfg_Lodestone cfg) as [l|] eqn:Hl; [|done]. apply (Hclient l []); auto.
  - unfold newLodestoneClient in Hc. destruct (cfg_Lodestone cfg) as [l|] eqn:Hl; [|done].
    destruct (cfg_Proxy cfg) as [p|] eqn:Hp.
    + destruct (SFltb zero (pc_LodestoneRateLimit (px_Consumer p))); (eapply Hclient; [|by right|exact Hc]); [by apply Hnan'|by apply Hnan].
    + eapply Hclient; [|by right|exact Hc]. by apply Hnan.
Qed.
