(* ===== verification/Rows.v ===== *)
(** * Rows and the connection ([infrastructure/postgres/repository/scan.go],
      [scanProxy], [scanCharacter], [infrastructure/postgres/driver.go])

    The store models keep Go records; this file relates them to table rows:
    the arguments of the INSERT statements by column, the values a column of the
    schema accepts and what it keeps of them, and the scan of a selected row.
    What the server alone decides (the rounding of REAL, the encoding of texts,
    the range of its calendar, a text longer than its column) is a parameter.
    The driver's one-time initialisation is at the end. *)
From S2P Require Import Prelude GoErrors GoStrings Contract ProxyStore CharacterStore.

(** ** Values *)

Inductive sqlValue := SNull | SInt (n : Z) | SText (s : string) | SReal (x : Z) | STime (t : Z) | SBool (b : bool).
Definition nullableString (s : option string) : sqlValue := match s with None => SNull | Some s => SText s end.
Definition nullableUint32 (v : option Z) : sqlValue := match v with None => SNull | Some v => SInt v end.
Definition nullableInt (v : option Z) : sqlValue := match v with None => SNull | Some v => SInt v end.
Definition nullableTime (t : option Z) : sqlValue := match t with None => SNull | Some t => STime t end.
Definition nullableFloat64 (v : option Z) : sqlValue := match v with None => SNull | Some v => SReal v end.
Definition boolInt (b : bool) : Z := if b then 1 else 0.

(** Scan destinations: the plain types refuse NULL, the [sql.Null] types keep
    it. *)
Definition cannot_scan {A} : result A := Err (ErrorString "sql: Scan error on column").
Definition scan_int (v : sqlValue) : result Z := match v with SInt n => Ok n | _ => cannot_scan end.
Definition scan_text (v : sqlValue) : result string := match v with SText s => Ok s | _ => cannot_scan end.
Definition scan_time (v : sqlValue) : result Z := match v with STime t => Ok t | _ => cannot_scan end.
Definition scan_bool (v : sqlValue) : result bool := match v with SBool b => Ok b | _ => cannot_scan end.
Definition scan_real (v : sqlValue) : result Z := match v with SReal x => Ok x | _ => cannot_scan end.
Definition scan_null {A} (scan : sqlValue -> result A) (v : sqlValue) : result (option A) :=
  match v with SNull => Ok None | _ => a ← scan v; mret (Some a) end.
(** An unsigned destination refuses a value out of its range. *)
Definition scan_uint (bound : Z) (v : sqlValue) : result Z :=
  match v with SInt n => if (0 <=? n) && (n <=? bound) then Ok n else cannot_scan | _ => cannot_scan end.
Definition sqlStringPtr (ns : option string) : option string := ns.
Definition sqlFloat64Ptr (nf : option Z) : option Z := nf.
Definition sqlIntPtr (ni : option Z) : option Z := i64 <$> ni.
Definition sqlUint32Ptr (ni : option Z) : option Z := u32 <$> ni.
Definition sqlTimePtr (nt : option Z) : option Z := nt.
Definition sqlInt64Ptr (ni : option Z) : option Z := ni.

(** ** Rows *)

(** A row by column; a column that was not written holds its default. *)
Abbreviation tableRow := (list (string * sqlValue)).
Fixpoint column (row : tableRow) (name : string) : option sqlValue :=
  match row with [] => None | (c, v) :: row => if String.eqb c name then Some v else column row name end.

(** ** Columns *)

Inductive columnType := ColInteger (low high : Z) | ColText | ColVarchar (n : Z) | ColReal | ColTimestamptz | ColBoolean.
Definition smallint : columnType := ColInteger (-32768) 32767.
Definition integer : columnType := ColInteger (-2147483648) 2147483647.
Definition bigint : columnType := ColInteger min_int64 max_int64.
(** Type and [NOT NULL] of each column. *)
Abbreviation tableSchema := (list (string * (columnType * bool))).
Definition proxies_schema : tableSchema := [
  ("id", (integer, true)); ("protocol", (ColText, true)); ("ip", (ColText, true)); ("port", (integer, true)); ("country", (ColText, false));
  ("anonymity", (ColText, false)); ("latency_ms", (integer, false)); ("uptime_percent", (ColReal, false)); ("status", (ColText, true));
  ("last_scanned_at", (ColTimestamptz, false)); ("last_alive_at", (ColTimestamptz, false)); ("first_seen_at", (ColTimestamptz, true));
  ("source", (ColText, true)); ("fail_count", (integer, true)); ("created_at", (ColTimestamptz, true)); ("updated_at", (ColTimestamptz, true));
  ("locked_by", (ColText, false)); ("locked_at", (ColTimestamptz, false)); ("general_healthy", (ColBoolean, true));
  ("last_completed_at", (ColTimestamptz, false)); ("last_verified_at", (ColTimestamptz, false)); ("next_attempt_at", (ColTimestamptz, false));
  ("scan_not_before", (ColTimestamptz, false)); ("recovery_step", (integer, true)); ("observation_version", (bigint, true)); ("scan_token", (ColText, false));
  ("scan_lease_until", (ColTimestamptz, false)); ("claimed_version", (bigint, false)); ("destination_cooldown_until", (ColTimestamptz, false))].
Definition characters_schema : tableSchema := [
  ("id", (bigint, true)); ("name", (ColVarchar 255, true)); ("world", (ColVarchar 100, true)); ("datacenter", (ColVarchar 100, true));
  ("region", (ColVarchar 100, true)); ("race", (ColVarchar 100, false)); ("tribe", (ColVarchar 100, false)); ("gender", (smallint, true));
  ("grand_company", (ColVarchar 100, false)); ("fc_id", (ColVarchar 100, false)); ("fc_name", (ColVarchar 255, false));
  ("achievements_private", (smallint, true)); ("latest_achievement_id", (integer, false)); ("latest_achievement_at", (ColTimestamptz, false));
  ("first_seen_at", (ColTimestamptz, true)); ("last_census_at", (ColTimestamptz, false)); ("deleted_at", (ColTimestamptz, false));
  ("bio", (ColText, false)); ("active_job", (ColVarchar 100, false)); ("item_level", (integer, true)); ("max_job_level", (smallint, true))].
Fixpoint column_type (schema : tableSchema) (name : string) : option (columnType * bool) :=
  match schema with [] => None | (c, ty) :: schema => if String.eqb c name then Some ty else column_type schema name end.
(** The characters of a text in UTF-8: every byte but the continuation bytes
    starts one. *)
Fixpoint characters (s : string) : Z :=
  match s with EmptyString => 0 | String a s => (if (128 <=? Ascii.nat_of_ascii a)%nat && (Ascii.nat_of_ascii a <? 192)%nat then 0 else 1) + characters s end.

(** What the server decides: the single-precision value of a REAL or that it
    overflows, whether a text is valid in its encoding, what it does with a text
    longer than its column, whether a time is in its calendar. *)
Record dbServer := mkDbServer {
  dv_real : Z -> option Z; dv_encodes : string -> bool; dv_overlong : Z -> string -> option string; dv_calendar : Z -> bool;
}.
Section Rows.
Context (server : dbServer).
(** The value a column keeps, or its refusal. *)
Definition stored (ty : columnType * bool) (v : sqlValue) : option sqlValue :=
  match ty.1, v with
  | _, SNull => if ty.2 then None else Some SNull
  | ColInteger low high, SInt n => if (low <=? n) && (n <=? high) then Some (SInt n) else None
  | ColText, SText s => if dv_encodes server s then Some (SText s) else None
  | ColVarchar n, SText s =>
      if negb (dv_encodes server s) then None else if characters s <=? n then Some (SText s) else SText <$> dv_overlong server n s
  | ColReal, SReal x => SReal <$> dv_real server x
  | ColTimestamptz, STime t => if dv_calendar server t then Some (STime (timestamptz t)) else None
  | ColBoolean, SBool b => Some (SBool b)
  | _, _ => None
  end.
Definition store_row (schema : tableSchema) (cells : tableRow) : option tableRow :=
  mapM (fun cell : string * sqlValue => ty ← column_type schema cell.1; v ← stored ty cell.2; Some (cell.1, v)) cells.
(** The row an INSERT writes: its arguments and the defaults; [None] is a
    statement the server refuses. *)
Definition insert_row (schema : tableSchema) (columns : list string) (args : list sqlValue) (defaults : tableRow) : option tableRow :=
  store_row schema (zip columns args ++ defaults).
(** A row with its values in the order of the select list. *)
Definition select_row (columns : list string) (row : tableRow) : list sqlValue := default SNull ∘ column row <$> columns.

(** ** Proxies *)

Definition proxyColumns : list string := [
  "id"; "protocol"; "ip"; "port"; "country"; "anonymity"; "latency_ms"; "uptime_percent"; "status"; "last_scanned_at"; "last_alive_at"; "first_seen_at";
  "source"; "fail_count"; "locked_by"; "locked_at"; "created_at"; "updated_at"; "general_healthy"; "last_completed_at"; "last_verified_at"; "next_attempt_at";
  "scan_not_before"; "recovery_step"; "observation_version"; "scan_token"; "scan_lease_until"; "claimed_version"; "destination_cooldown_until"].
Definition scanProxy (row : list sqlValue) : result ProxyRecord :=
  match row with
  | [v0; v1; v2; v3; v4; v5; v6; v7; v8; v9; v10; v11; v12; v13; v14; v15; v16; v17; v18; v19; v20; v21; v22; v23; v24; v25; v26; v27; v28] =>
      id ← scan_int v0; protocol ← scan_text v1; ip ← scan_text v2; port ← scan_int v3;
      country ← scan_null scan_text v4; anonymity ← scan_null scan_text v5; latencyMS ← scan_null scan_int v6; uptimePercent ← scan_null scan_real v7;
      status ← scan_text v8; lastScannedAt ← scan_null scan_time v9; lastAliveAt ← scan_null scan_time v10; firstSeenAt ← scan_time v11;
      source ← scan_text v12; failCount ← scan_int v13; lockedBy ← scan_null scan_text v14; lockedAt ← scan_null scan_time v15;
      createdAt ← scan_time v16; updatedAt ← scan_time v17;
      generalHealthy ← scan_bool v18; lastCompletedAt ← scan_null scan_time v19; lastVerifiedAt ← scan_null scan_time v20; nextAttemptAt ← scan_null scan_time v21;
      scanNotBefore ← scan_null scan_time v22; recoveryStep ← scan_int v23; observationVersion ← scan_int v24; scanToken ← scan_null scan_text v25;
      scanLeaseUntil ← scan_null scan_time v26; claimedVersion ← scan_null scan_int v27; destinationCooldownUntil ← scan_null scan_time v28;
      mret (mkProxyRecord id protocol ip port (sqlStringPtr country) (sqlStringPtr anonymity) (sqlIntPtr latencyMS) (sqlFloat64Ptr uptimePercent)
        status (sqlTimePtr lastScannedAt) (sqlTimePtr lastAliveAt) firstSeenAt source failCount (sqlStringPtr lockedBy) (sqlTimePtr lockedAt)
        createdAt updatedAt generalHealthy (sqlTimePtr lastCompletedAt) (sqlTimePtr lastVerifiedAt) (sqlTimePtr nextAttemptAt) (sqlTimePtr scanNotBefore)
        recoveryStep observationVersion (sqlStringPtr scanToken) (sqlTimePtr scanLeaseUntil) (sqlInt64Ptr claimedVersion) (sqlTimePtr destinationCooldownUntil))
  | _ => Err (ErrorString "sql: expected destination arguments in Scan")
  end.
(** The statement of [InsertIfAbsent] and the defaults of the schema. *)
Definition proxy_insert_columns : list string := [
  "protocol"; "ip"; "port"; "country"; "anonymity"; "latency_ms"; "uptime_percent"; "status"; "last_scanned_at"; "last_alive_at"; "first_seen_at"; "source";
  "fail_count"; "created_at"; "updated_at"].
Definition proxy_insert_args (now : Z) (rec : ProxyRecord) : list sqlValue := [
  SText (pr_Protocol rec); SText (pr_IP rec); SInt (pr_Port rec); nullableString (pr_Country rec); nullableString (pr_Anonymity rec);
  nullableInt (pr_LatencyMS rec); nullableFloat64 (pr_UptimePercent rec); SText ProxyStatusInactive; SNull; SNull; STime now; SText (pr_Source rec); SInt 0;
  STime now; STime now].
Definition proxy_defaults (id : Z) : tableRow := [
  ("id", SInt id); ("general_healthy", SBool false); ("recovery_step", SInt 0); ("observation_version", SInt 0)].
Definition inserted_proxy (id now : Z) (rec : ProxyRecord) : option tableRow := insert_row proxies_schema proxy_insert_columns (proxy_insert_args now rec) (proxy_defaults id).

(** The row of any proxy, as the schema names its columns. *)
Definition row_of_proxy (p : ProxyRecord) : tableRow := [
  ("id", SInt (pr_ID p)); ("protocol", SText (pr_Protocol p)); ("ip", SText (pr_IP p)); ("port", SInt (pr_Port p)); ("country", nullableString (pr_Country p));
  ("anonymity", nullableString (pr_Anonymity p)); ("latency_ms", nullableInt (pr_LatencyMS p)); ("uptime_percent", nullableFloat64 (pr_UptimePercent p));
  ("status", SText (pr_Status p)); ("last_scanned_at", nullableTime (pr_LastScannedAt p)); ("last_alive_at", nullableTime (pr_LastAliveAt p));
  ("first_seen_at", STime (pr_FirstSeenAt p)); ("source", SText (pr_Source p)); ("fail_count", SInt (pr_FailCount p)); ("created_at", STime (pr_CreatedAt p));
  ("updated_at", STime (pr_UpdatedAt p)); ("locked_by", nullableString (pr_LockedBy p)); ("locked_at", nullableTime (pr_LockedAt p));
  ("general_healthy", SBool (pr_GeneralHealthy p)); ("last_completed_at", nullableTime (pr_LastCompletedAt p)); ("last_verified_at", nullableTime (pr_LastVerifiedAt p));
  ("next_attempt_at", nullableTime (pr_NextAttemptAt p)); ("scan_not_before", nullableTime (pr_ScanNotBefore p)); ("recovery_step", SInt (pr_RecoveryStep p));
  ("observation_version", SInt (pr_ObservationVersion p)); ("scan_token", nullableString (pr_ScanToken p)); ("scan_lease_until", nullableTime (pr_ScanLeaseUntil p));
  ("claimed_version", nullableInt (pr_ClaimedVersion p)); ("destination_cooldown_until", nullableTime (pr_DestinationCooldownUntil p))].

(** ** Characters *)

Definition characterColumns : list string := [
  "id"; "name"; "world"; "datacenter"; "region"; "race"; "tribe"; "gender"; "grand_company"; "fc_id"; "fc_name"; "bio"; "active_job"; "item_level";
  "achievements_private"; "latest_achievement_id"; "latest_achievement_at"; "first_seen_at"; "last_census_at"; "deleted_at"].
(** [sql.NullString.String] of NULL is empty. *)
Definition null_string (s : option string) : string := default "" s.
Definition scanCharacter (row : list sqlValue) : result CharacterRecord :=
  match row with
  | [v0; v1; v2; v3; v4; v5; v6; v7; v8; v9; v10; v11; v12; v13; v14; v15; v16; v17; v18; v19] =>
      id ← scan_uint max_uint32 v0; name ← scan_text v1; world ← scan_text v2; datacenter ← scan_text v3; region ← scan_text v4;
      race ← scan_null scan_text v5; tribe ← scan_null scan_text v6; gender ← scan_uint 255 v7; grandCompany ← scan_null scan_text v8;
      fcID ← scan_null scan_text v9; fcName ← scan_null scan_text v10; bio ← scan_null scan_text v11; activeJob ← scan_null scan_text v12; itemLevel ← scan_null scan_int v13;
      achievementsPrivate ← scan_int v14; latestAchievementID ← scan_null scan_int v15; latestAchievementAt ← scan_null scan_time v16;
      firstSeenAt ← scan_time v17; lastCensusAt ← scan_null scan_time v18; deletedAt ← scan_null scan_time v19;
      mret (mkCharacterRecord id name world datacenter region (null_string race) (null_string tribe) gender (null_string grandCompany)
        (sqlStringPtr fcID) (sqlStringPtr fcName) (null_string bio) (null_string activeJob) (default 0 (sqlIntPtr itemLevel))
        (achievementsPrivate =? 1) (sqlUint32Ptr latestAchievementID) (sqlTimePtr latestAchievementAt) firstSeenAt (sqlTimePtr lastCensusAt) (sqlTimePtr deletedAt))
  | _ => Err (ErrorString "sql: expected destination arguments in Scan")
  end.
(** The statement of [Upsert]. *)
Definition character_insert_columns : list string := characterColumns ++ ["max_job_level"].
Definition character_insert_args (rec : CharacterRecord) (maxLevel : Z) : list sqlValue := [
  SInt (cr_ID rec); SText (cr_Name rec); SText (cr_World rec); SText (cr_Datacenter rec); SText (cr_Region rec); SText (cr_Race rec); SText (cr_Tribe rec);
  SInt (cr_Gender rec); SText (cr_GrandCompany rec); nullableString (cr_FreeCompanyID rec); nullableString (cr_FreeCompanyName rec);
  SText (cr_Bio rec); SText (cr_ActiveJob rec); SInt (cr_ItemLevel rec);
  SInt (boolInt (cr_AchievementsPrivate rec)); nullableUint32 (cr_LatestAchievementID rec); nullableTime (cr_LatestAchievementAt rec);
  STime (cr_FirstSeenAt rec); nullableTime (cr_LastCensusAt rec); nullableTime (cr_DeletedAt rec); SInt maxLevel].
Definition inserted_character (rec : CharacterRecord) (maxLevel : Z) : option tableRow :=
  insert_row characters_schema character_insert_columns (character_insert_args rec maxLevel) [].

(** ** What is read back *)

(** The values that fit their column, type by type. *)
Definition fits (ty : columnType * bool) (v : sqlValue) : Prop :=
  match ty.1, v with
  | _, SNull => ty.2 = false
  | ColInteger low high, SInt n => low <= n <= high
  | ColText, SText s => dv_encodes server s = true
  | ColVarchar n, SText s => dv_encodes server s = true /\ characters s <= n
  | ColReal, SReal x => is_Some (dv_real server x)
  | ColTimestamptz, STime t => dv_calendar server t = true
  | ColBoolean, SBool _ => True
  | _, _ => False
  end.
Definition cell_fits (schema : tableSchema) (cell : string * sqlValue) : Prop :=
  match column_type schema cell.1 with Some ty => fits ty cell.2 | None => False end.
(** What is kept of a value that fits. *)
Definition real (x : Z) : Z := default x (dv_real server x).
Definition kept (v : sqlValue) : sqlValue := match v with STime t => STime (timestamptz t) | SReal x => SReal (real x) | v => v end.

Lemma stored_fits ty v : fits ty v -> stored ty v = Some (kept v).
Proof.
  destruct ty as [ty nn]. unfold fits, stored, real, kept. cbn [fst snd].
  destruct v, ty; cbn; try done; try (by intros ->); try (intros H; by destruct nn).
  - intros H. by rewrite (proj2 (Z.leb_le _ _)), (proj2 (Z.leb_le _ _)) by lia.
  - intros [-> H]. cbn. by rewrite (proj2 (Z.leb_le _ _)).
  - intros [y Hy]. unfold real. by rewrite Hy.
Qed.
Lemma store_row_fits schema cells : Forall (cell_fits schema) cells ->
  store_row schema cells = Some ((fun cell => (cell.1, kept cell.2)) <$> cells).
Proof.
  induction 1 as [|[c v] cells Hc Hall IH]; [done|]. unfold store_row in *. cbn [mapM fmap list_fmap fst snd].
  unfold cell_fits in Hc. cbn [fst snd] in Hc. destruct (column_type schema c) as [ty|]; [|done]. cbn.
  rewrite (stored_fits _ _ Hc). cbn. by rewrite IH.
Qed.
Lemma store_row_accepts schema cells row : store_row schema cells = Some row -> forall c v, (c, v) ∈ cells ->
  exists ty v', column_type schema c = Some ty /\ stored ty v = Some v'.
Proof.
  intros Hs c v Hin. apply mapM_Some_1 in Hs. destruct (list_elem_of_lookup_1 _ _ Hin) as [i Hi].
  destruct (Forall2_lookup_l _ _ _ _ _ Hs Hi) as (cell & _ & Hc). cbn in Hc.
  destruct (column_type schema c) as [ty|]; [|done]. cbn in Hc. destruct (stored ty v) as [v'|] eqn:Hv; [|done]. eauto.
Qed.
(** Only a text longer than its column may be stored without fitting. *)
Lemma stored_inv ty v v' : stored ty v = Some v' -> (forall n, ty.1 <> ColVarchar n) -> fits ty v.
Proof.
  destruct ty as [ty nn]. unfold fits, stored. cbn [fst snd]. destruct v, ty; cbn; try done; try (by destruct nn).
  - destruct (Z.leb_spec low n), (Z.leb_spec n high); cbn; done || lia.
  - by destruct (dv_encodes server s).
  - intros _ H. by destruct (H n).
  - destruct (dv_real server x); [by eexists|done].
  - by destruct (dv_calendar server t).
Qed.
Lemma store_row_inv schema cells row : store_row schema cells = Some row ->
  Forall (fun cell => forall ty, column_type schema cell.1 = Some ty -> (forall n, ty.1 <> ColVarchar n) -> cell_fits schema cell) cells.
Proof.
  intros Hs. apply list.Forall_forall. intros [c v] Hin ty Hty Hn. destruct (store_row_accepts _ _ _ Hs c v Hin) as (ty' & v' & Hty' & Hv).
  cbn in Hty. unfold cell_fits. cbn. rewrite Hty. rewrite Hty' in Hty. injection Hty as ->. by eapply stored_inv.
Qed.

(** ** The records that fit *)

Definition int4 (n : Z) : Prop := -2147483648 <= n <= 2147483647.
Definition int8 (n : Z) : Prop := min_int64 <= n <= max_int64.
Definition all_of {A} (P : A -> Prop) (o : option A) : Prop := forall a, o = Some a -> P a.
Abbreviation text := (fun s => dv_encodes server s = true).
Abbreviation varchar n := (fun s => dv_encodes server s = true /\ characters s <= n).
Abbreviation instant := (fun t => dv_calendar server t = true).

(** A new proxy, its id and the time of its insertion. *)
Record proxy_in_range (id now : Z) (p : ProxyRecord) : Prop := {
  pi_numbers : int4 id /\ int4 (pr_Port p) /\ all_of int4 (pr_LatencyMS p) /\ all_of (fun x => is_Some (dv_real server x)) (pr_UptimePercent p);
  pi_texts : text (pr_Protocol p) /\ text (pr_IP p) /\ text (pr_Source p) /\ all_of text (pr_Country p) /\ all_of text (pr_Anonymity p);
  pi_time : instant now;
}.
(** Any proxy record. *)
Record proxy_fits (p : ProxyRecord) : Prop := {
  pf_new : proxy_in_range (pr_ID p) (pr_FirstSeenAt p) p;
  pf_numbers : int4 (pr_FailCount p) /\ int4 (pr_RecoveryStep p) /\ int8 (pr_ObservationVersion p) /\ all_of int8 (pr_ClaimedVersion p);
  pf_texts : text (pr_Status p) /\ all_of text (pr_LockedBy p) /\ all_of text (pr_ScanToken p);
  pf_times : instant (pr_CreatedAt p) /\ instant (pr_UpdatedAt p) /\ all_of instant (pr_LastScannedAt p) /\ all_of instant (pr_LastAliveAt p) /\
    all_of instant (pr_LockedAt p) /\ all_of instant (pr_LastCompletedAt p) /\ all_of instant (pr_LastVerifiedAt p) /\ all_of instant (pr_NextAttemptAt p) /\
    all_of instant (pr_ScanNotBefore p) /\ all_of instant (pr_ScanLeaseUntil p) /\ all_of instant (pr_DestinationCooldownUntil p);
}.
(** The numbers of a character; a Go [uint32], [uint8] or [int] may exceed its
    column. *)
Record character_numbers_fit (c : CharacterRecord) (maxLevel : Z) : Prop := {
  cn_item : int4 (cr_ItemLevel c);
  cn_latest : all_of int4 (cr_LatestAchievementID c);
  cn_level : -32768 <= maxLevel <= 32767;
}.
Record character_in_range (c : CharacterRecord) (maxLevel : Z) : Prop := {
  ci_go : is_u32 (cr_ID c) /\ 0 <= cr_Gender c <= 255 /\ all_of is_u32 (cr_LatestAchievementID c);
  ci_numbers : character_numbers_fit c maxLevel;
  ci_texts : varchar 255 (cr_Name c) /\ varchar 100 (cr_World c) /\ varchar 100 (cr_Datacenter c) /\ varchar 100 (cr_Region c) /\ varchar 100 (cr_Race c) /\
    varchar 100 (cr_Tribe c) /\ varchar 100 (cr_GrandCompany c) /\ all_of (varchar 100) (cr_FreeCompanyID c) /\ all_of (varchar 255) (cr_FreeCompanyName c) /\
    text (cr_Bio c) /\ varchar 100 (cr_ActiveJob c);
  ci_times : instant (cr_FirstSeenAt c) /\ all_of instant (cr_LatestAchievementAt c) /\ all_of instant (cr_LastCensusAt c) /\ all_of instant (cr_DeletedAt c);
}.

(** The record as its columns keep it. *)
Definition proxy_kept (p : ProxyRecord) : ProxyRecord :=
  p{{ pr_UptimePercent := real <$> pr_UptimePercent p; pr_LastScannedAt := timestamptz <$> pr_LastScannedAt p; pr_LastAliveAt := timestamptz <$> pr_LastAliveAt p;
      pr_FirstSeenAt := timestamptz (pr_FirstSeenAt p); pr_LockedAt := timestamptz <$> pr_LockedAt p; pr_CreatedAt := timestamptz (pr_CreatedAt p);
      pr_UpdatedAt := timestamptz (pr_UpdatedAt p); pr_LastCompletedAt := timestamptz <$> pr_LastCompletedAt p; pr_LastVerifiedAt := timestamptz <$> pr_LastVerifiedAt p;
      pr_NextAttemptAt := timestamptz <$> pr_NextAttemptAt p; pr_ScanNotBefore := timestamptz <$> pr_ScanNotBefore p;
      pr_ScanLeaseUntil := timestamptz <$> pr_ScanLeaseUntil p; pr_DestinationCooldownUntil := timestamptz <$> pr_DestinationCooldownUntil p }}.

(** ** Scanning kept values *)

Lemma scan_nullableString o : scan_null scan_text (kept (nullableString o)) = Ok o.
Proof. by destruct o. Qed.
Lemma scan_nullableInt o : scan_null scan_int (kept (nullableInt o)) = Ok o.
Proof. by destruct o. Qed.
Lemma scan_nullableUint32 o : scan_null scan_int (kept (nullableUint32 o)) = Ok o.
Proof. by destruct o. Qed.
Lemma scan_nullableFloat64 o : scan_null scan_real (kept (nullableFloat64 o)) = Ok (real <$> o).
Proof. by destruct o. Qed.
Lemma scan_nullableTime o : scan_null scan_time (kept (nullableTime o)) = Ok (timestamptz <$> o).
Proof. by destruct o. Qed.
Create Rewrite HintDb rows.
Hint Rewrite scan_nullableString scan_nullableInt scan_nullableUint32 scan_nullableFloat64 scan_nullableTime : rows.
Lemma scan_uint_in bound n : 0 <= n <= bound -> scan_uint bound (SInt n) = Ok n.
Proof. intros H. unfold scan_uint. by rewrite (proj2 (Z.leb_le 0 n)), (proj2 (Z.leb_le n bound)) by lia. Qed.
Lemma sqlIntPtr_fits o : all_of int4 o -> sqlIntPtr o = o.
Proof.
  destruct o as [n|]; [|done]. intros H. specialize (H n eq_refl). unfold int4 in H. cbn. rewrite i64_id; [done|].
  unfold is_i64, min_int64, max_int64. lia.
Qed.

Lemma fits_nullableString ty o : (forall s, o = Some s -> fits (ty, false) (SText s)) -> fits (ty, false) (nullableString o).
Proof. destruct o as [s|]; [intros H; exact (H s eq_refl)|]. intros _. by destruct ty. Qed.
Lemma fits_nullableInt ty o : (forall n, o = Some n -> fits (ty, false) (SInt n)) -> fits (ty, false) (nullableInt o).
Proof. destruct o as [n|]; [intros H; exact (H n eq_refl)|]. intros _. by destruct ty. Qed.
Lemma fits_nullableTime o : all_of instant o -> fits (ColTimestamptz, false) (nullableTime o).
Proof. destruct o; [intros H; exact (H _ eq_refl)|]. by intros _. Qed.
Lemma fits_nullableFloat64 o : all_of (fun x => is_Some (dv_real server x)) o -> fits (ColReal, false) (nullableFloat64 o).
Proof. destruct o; [intros H; exact (H _ eq_refl)|]. by intros _. Qed.

(** Each cell of a row fits its column. *)
#[local] Ltac cell := unfold cell_fits; cbn [column_type String.eqb Ascii.eqb Bool.eqb fst snd];
  first [done | assumption | (apply fits_nullableTime; assumption) | (apply fits_nullableFloat64; assumption)
        | (apply fits_nullableString; intros ? E; match goal with H : all_of _ _ |- _ => exact (H _ E) end)
        | (apply fits_nullableInt; intros ? E; match goal with H : all_of _ _ |- _ => exact (H _ E) end)
        | (cbn; unfold int4, int8 in *; lia)].
#[local] Ltac cells := repeat (apply List.Forall_cons; [cell|]); apply List.Forall_nil.

Lemma store_proxy_row p : proxy_fits p ->
  store_row proxies_schema (row_of_proxy p) = Some ((fun cell => (cell.1, kept cell.2)) <$> row_of_proxy p).
Proof.
  intros [[(? & ? & ? & ?) (? & ? & ? & ? & ?) ?] (? & ? & ? & ?) (? & ? & ?) (? & ? & ? & ? & ? & ? & ? & ? & ? & ? & ?)].
  apply store_row_fits. unfold row_of_proxy. cells.
Qed.
Lemma store_new_proxy id now p : proxy_in_range id now p -> text ProxyStatusInactive ->
  inserted_proxy id now p = Some ((fun cell => (cell.1, kept cell.2)) <$> (zip proxy_insert_columns (proxy_insert_args now p) ++ proxy_defaults id)).
Proof.
  intros [(? & ? & ? & ?) (? & ? & ? & ? & ?) ?] Hst.
  apply store_row_fits. unfold proxy_insert_columns, proxy_insert_args, proxy_defaults. cbn [zip zip_with app]. cells.
Qed.
Lemma store_character c maxLevel : character_in_range c maxLevel ->
  inserted_character c maxLevel = Some ((fun cell => (cell.1, kept cell.2)) <$> (zip character_insert_columns (character_insert_args c maxLevel) ++ [])).
Proof.
  intros [(Hid & ? & ?) [? ? ?] (? & ? & ? & ? & ? & ? & ? & ? & ? & ? & ?) (? & ? & ? & ?)].
  assert (min_int64 <= cr_ID c <= max_int64) by (unfold is_u32, max_uint32, min_int64, max_int64 in *; lia).
  assert (0 <= boolInt (cr_AchievementsPrivate c) <= 1) by (destruct (cr_AchievementsPrivate c); cbn; lia).
  apply store_row_fits. unfold character_insert_columns, characterColumns, character_insert_args. cbn [zip zip_with app]. cells.
Qed.

(** The cells of a stored row whose column is no VARCHAR. *)
#[local] Ltac open_cells H := apply store_row_inv in H; repeat (apply Forall_cons_iff in H as [?Hcell H]);
  repeat match goal with Hc : forall ty, column_type _ _ = Some ty -> _ |- _ => first [specialize (Hc _ eq_refl ltac:(done)) | clear Hc] end.
Lemma opened {A} (P : A -> Prop) (wrap : A -> sqlValue) ty o (null : option A -> sqlValue) :
  (forall a, null (Some a) = wrap a) -> (forall a, fits ty (wrap a) -> P a) -> fits ty (null o) -> all_of P o.
Proof. intros Hn HP Hf a ->. rewrite Hn in Hf. by apply HP. Qed.

Lemma new_proxy_fits id now p row : inserted_proxy id now p = Some row -> proxy_in_range id now p.
Proof.
  intros H. unfold inserted_proxy, insert_row, proxy_insert_columns, proxy_insert_args, proxy_defaults in H. cbn [zip zip_with app] in H.
  open_cells H. split; [split_and!|split_and!|]; try assumption.
  - by eapply (opened int4 SInt (integer, false) _ nullableInt).
  - by eapply (opened _ SReal (ColReal, false) _ nullableFloat64).
  - by eapply (opened text SText (ColText, false) _ nullableString).
  - by eapply (opened text SText (ColText, false) _ nullableString).
Qed.
Lemma stored_character_numbers c maxLevel row : inserted_character c maxLevel = Some row -> character_numbers_fit c maxLevel.
Proof.
  intros H. unfold inserted_character, insert_row, character_insert_columns, characterColumns, character_insert_args in H. cbn [zip zip_with app] in H.
  open_cells H. split; try assumption. by eapply (opened int4 SInt (integer, false) _ nullableUint32).
Qed.

Lemma select_proxy_row p : select_row proxyColumns ((fun cell => (cell.1, kept cell.2)) <$> row_of_proxy p) = [
  SInt (pr_ID p); SText (pr_Protocol p); SText (pr_IP p); SInt (pr_Port p); kept (nullableString (pr_Country p)); kept (nullableString (pr_Anonymity p));
  kept (nullableInt (pr_LatencyMS p)); kept (nullableFloat64 (pr_UptimePercent p)); SText (pr_Status p); kept (nullableTime (pr_LastScannedAt p)); kept (nullableTime (pr_LastAliveAt p));
  STime (timestamptz (pr_FirstSeenAt p)); SText (pr_Source p); SInt (pr_FailCount p); kept (nullableString (pr_LockedBy p)); kept (nullableTime (pr_LockedAt p));
  STime (timestamptz (pr_CreatedAt p)); STime (timestamptz (pr_UpdatedAt p));
  SBool (pr_GeneralHealthy p); kept (nullableTime (pr_LastCompletedAt p)); kept (nullableTime (pr_LastVerifiedAt p)); kept (nullableTime (pr_NextAttemptAt p));
  kept (nullableTime (pr_ScanNotBefore p)); SInt (pr_RecoveryStep p); SInt (pr_ObservationVersion p); kept (nullableString (pr_ScanToken p)); kept (nullableTime (pr_ScanLeaseUntil p));
  kept (nullableInt (pr_ClaimedVersion p)); kept (nullableTime (pr_DestinationCooldownUntil p))].
Proof. reflexivity. Qed.
Lemma select_proxy id now p :
  select_row proxyColumns ((fun cell => (cell.1, kept cell.2)) <$> (zip proxy_insert_columns (proxy_insert_args now p) ++ proxy_defaults id)) = [
  SInt id; SText (pr_Protocol p); SText (pr_IP p); SInt (pr_Port p); kept (nullableString (pr_Country p)); kept (nullableString (pr_Anonymity p));
  kept (nullableInt (pr_LatencyMS p)); kept (nullableFloat64 (pr_UptimePercent p)); SText ProxyStatusInactive; SNull; SNull; STime (timestamptz now); SText (pr_Source p);
  SInt 0; SNull; SNull; STime (timestamptz now); STime (timestamptz now); SBool false; SNull; SNull; SNull; SNull; SInt 0; SInt 0; SNull; SNull; SNull; SNull].
Proof. reflexivity. Qed.
Lemma select_character c maxLevel :
  select_row characterColumns ((fun cell => (cell.1, kept cell.2)) <$> (zip character_insert_columns (character_insert_args c maxLevel) ++ [])) = [
  SInt (cr_ID c); SText (cr_Name c); SText (cr_World c); SText (cr_Datacenter c); SText (cr_Region c); SText (cr_Race c); SText (cr_Tribe c);
  SInt (cr_Gender c); SText (cr_GrandCompany c); kept (nullableString (cr_FreeCompanyID c)); kept (nullableString (cr_FreeCompanyName c));
  SText (cr_Bio c); SText (cr_ActiveJob c); SInt (cr_ItemLevel c); SInt (boolInt (cr_AchievementsPrivate c)); kept (nullableUint32 (cr_LatestAchievementID c));
  kept (nullableTime (cr_LatestAchievementAt c)); STime (timestamptz (cr_FirstSeenAt c)); kept (nullableTime (cr_LastCensusAt c)); kept (nullableTime (cr_DeletedAt c))].
Proof. reflexivity. Qed.

Lemma scan_proxy_row p : all_of int4 (pr_LatencyMS p) ->
  scanProxy (select_row proxyColumns ((fun cell => (cell.1, kept cell.2)) <$> row_of_proxy p)) = Ok (proxy_kept p).
Proof.
  intros Hl. rewrite select_proxy_row. unfold scanProxy. autorewrite with rows.
  transitivity (Ok (mkProxyRecord (pr_ID p) (pr_Protocol p) (pr_IP p) (pr_Port p) (pr_Country p) (pr_Anonymity p) (sqlIntPtr (pr_LatencyMS p)) (real <$> pr_UptimePercent p)
    (pr_Status p) (timestamptz <$> pr_LastScannedAt p) (timestamptz <$> pr_LastAliveAt p) (timestamptz (pr_FirstSeenAt p)) (pr_Source p) (pr_FailCount p) (pr_LockedBy p)
    (timestamptz <$> pr_LockedAt p) (timestamptz (pr_CreatedAt p)) (timestamptz (pr_UpdatedAt p))
    (pr_GeneralHealthy p) (timestamptz <$> pr_LastCompletedAt p) (timestamptz <$> pr_LastVerifiedAt p) (timestamptz <$> pr_NextAttemptAt p)
    (timestamptz <$> pr_ScanNotBefore p) (pr_RecoveryStep p) (pr_ObservationVersion p)
    (pr_ScanToken p) (timestamptz <$> pr_ScanLeaseUntil p) (pr_ClaimedVersion p) (timestamptz <$> pr_DestinationCooldownUntil p))); [reflexivity|].
  rewrite (sqlIntPtr_fits _ Hl). reflexivity.
Qed.
Lemma scan_new_proxy id now p : all_of int4 (pr_LatencyMS p) ->
  scanProxy (select_row proxyColumns ((fun cell => (cell.1, kept cell.2)) <$> (zip proxy_insert_columns (proxy_insert_args now p) ++ proxy_defaults id))) =
    Ok (zeroProxyRecord{{ pr_ID := id; pr_Protocol := pr_Protocol p; pr_IP := pr_IP p; pr_Port := pr_Port p; pr_Country := pr_Country p;
          pr_Anonymity := pr_Anonymity p; pr_LatencyMS := pr_LatencyMS p; pr_UptimePercent := real <$> pr_UptimePercent p; pr_Status := ProxyStatusInactive;
          pr_FirstSeenAt := timestamptz now; pr_Source := pr_Source p; pr_CreatedAt := timestamptz now; pr_UpdatedAt := timestamptz now }}).
Proof.
  intros Hl. rewrite select_proxy. unfold scanProxy. autorewrite with rows.
  transitivity (Ok (mkProxyRecord id (pr_Protocol p) (pr_IP p) (pr_Port p) (pr_Country p) (pr_Anonymity p) (sqlIntPtr (pr_LatencyMS p)) (real <$> pr_UptimePercent p)
    ProxyStatusInactive None None (timestamptz now) (pr_Source p) 0 None None (timestamptz now) (timestamptz now) false None None None None 0 0 None None None None));
    [reflexivity|]. by rewrite (sqlIntPtr_fits _ Hl).
Qed.
Lemma scan_character c maxLevel : character_in_range c maxLevel ->
  scanCharacter (select_row characterColumns ((fun cell => (cell.1, kept cell.2)) <$> (zip character_insert_columns (character_insert_args c maxLevel) ++ []))) =
    Ok (c{{ cr_LatestAchievementAt := timestamptz <$> cr_LatestAchievementAt c; cr_FirstSeenAt := timestamptz (cr_FirstSeenAt c);
            cr_LastCensusAt := timestamptz <$> cr_LastCensusAt c; cr_DeletedAt := timestamptz <$> cr_DeletedAt c }}).
Proof.
  intros [(Hid & Hg & Ha) [Hi _ _] _ _]. rewrite select_character. unfold scanCharacter. autorewrite with rows. rewrite !scan_uint_in by done.
  assert (Hl' : sqlUint32Ptr (cr_LatestAchievementID c) = cr_LatestAchievementID c) by (destruct (cr_LatestAchievementID c) as [n|] eqn:Hn; [cbn; by rewrite u32_id by (by apply Ha)|done]).
  assert (Hb : (boolInt (cr_AchievementsPrivate c) =? 1) = cr_AchievementsPrivate c) by by destruct (cr_AchievementsPrivate c).
  transitivity (Ok (mkCharacterRecord (cr_ID c) (cr_Name c) (cr_World c) (cr_Datacenter c) (cr_Region c) (cr_Race c) (cr_Tribe c) (cr_Gender c) (cr_GrandCompany c)
    (cr_FreeCompanyID c) (cr_FreeCompanyName c) (cr_Bio c) (cr_ActiveJob c) (i64 (cr_ItemLevel c)) (boolInt (cr_AchievementsPrivate c) =? 1)
    (sqlUint32Ptr (cr_LatestAchievementID c)) (timestamptz <$> cr_LatestAchievementAt c) (timestamptz (cr_FirstSeenAt c)) (timestamptz <$> cr_LastCensusAt c)
    (timestamptz <$> cr_DeletedAt c))); [reflexivity|].
  rewrite Hl', Hb, i64_id by (unfold int4, is_i64, min_int64, max_int64 in *; lia). by destruct c.
Qed.

(** C31: a row is read back as it was written, and what does not fit is
    refused.  With the select lists of the repositories, storing and scanning
    the row of a proxy whose values fit the schema gives that proxy, every field
    from its own column and NULL for what is missing.  The insert statement of a
    new proxy is accepted exactly when its id, port and latency fit 32-bit
    INTEGER columns, its uptime single precision, its texts the encoding and its
    time the calendar, and the row it writes scans to the record with the
    schema's defaults for what the statement leaves out.  The statement of a
    character whose values fit (32-bit item level and latest achievement,
    16-bit maximum level, texts within the lengths of their VARCHAR columns)
    writes a row that scans to that character, and no statement with one of
    these numbers out of range is accepted.  Times are kept in microseconds and
    the uptime in single precision.  The server is assumed to encode the status
    text of new proxies. *)
Theorem rows_roundtrip id now (p : ProxyRecord) (c : CharacterRecord) maxLevel (Hstatus : dv_encodes server ProxyStatusInactive = true) :
  (proxy_fits p -> exists row, store_row proxies_schema (row_of_proxy p) = Some row /\
     scanProxy (select_row proxyColumns row) = Ok (proxy_kept p)) /\
  ((exists row, inserted_proxy id now p = Some row) <-> proxy_in_range id now p) /\
  (forall row, inserted_proxy id now p = Some row -> scanProxy (select_row proxyColumns row) =
    Ok (zeroProxyRecord{{ pr_ID := id; pr_Protocol := pr_Protocol p; pr_IP := pr_IP p; pr_Port := pr_Port p; pr_Country := pr_Country p;
          pr_Anonymity := pr_Anonymity p; pr_LatencyMS := pr_LatencyMS p; pr_UptimePercent := real <$> pr_UptimePercent p; pr_Status := ProxyStatusInactive;
          pr_FirstSeenAt := timestamptz now; pr_Source := pr_Source p; pr_CreatedAt := timestamptz now; pr_UpdatedAt := timestamptz now }})) /\
  (character_in_range c maxLevel -> exists row, inserted_character c maxLevel = Some row /\
     scanCharacter (select_row characterColumns row) =
       Ok (c{{ cr_LatestAchievementAt := timestamptz <$> cr_LatestAchievementAt c; cr_FirstSeenAt := timestamptz (cr_FirstSeenAt c);
               cr_LastCensusAt := timestamptz <$> cr_LastCensusAt c; cr_DeletedAt := timestamptz <$> cr_DeletedAt c }})) /\
  (forall row, inserted_character c maxLevel = Some row -> character_numbers_fit c maxLevel).
Proof.
  assert (Hlat : forall i n, proxy_in_range i n p -> all_of int4 (pr_LatencyMS p)) by (intros i n [(_ & _ & H & _) _ _]; exact H).
  split; [|split; [|split; [|split]]].
  - intros Hf. rewrite (store_proxy_row p Hf). eexists. split; [reflexivity|]. apply scan_proxy_row. exact (Hlat _ _ (pf_new _ Hf)).
  - split; [intros [row H]; by eapply new_proxy_fits|]. intros Hr. rewrite (store_new_proxy id now p Hr Hstatus). by eexists.
  - intros row H. pose proof (new_proxy_fits _ _ _ _ H) as Hr. rewrite (store_new_proxy id now p Hr Hstatus) in H. injection H as <-.
    apply scan_new_proxy. exact (Hlat _ _ Hr).
  - intros Hc. rewrite (store_character c maxLevel Hc). eexists. split; [reflexivity|]. by apply scan_character.
  - intros row H. by eapply stored_character_numbers.
Qed.
End Rows.

(** A server that keeps every text and time; a character, and a port that does
    not fit. *)
Definition demo_server : dbServer := mkDbServer Some (fun _ => true) (fun _ _ => None) (fun _ => true).
Definition demo_character : CharacterRecord :=
  mkCharacterRecord 42 "A B" "Cerberus" "Chaos" "Europe" "Hyur" "" 1 "" None (Some "FC") "" "" 700 true (Some 1129) (Some 1234567) 1999 None None.
Lemma rows_roundtrip_witness :
  (exists row, inserted_character demo_server demo_character 100 = Some row /\ scanCharacter (select_row characterColumns row) =
    Ok (demo_character{{ cr_LatestAchievementAt := Some 1234000; cr_FirstSeenAt := 1000 }})) /\
  (forall row, inserted_proxy demo_server 1 0 (zeroProxyRecord{{ pr_Port := 4294967296 }}) <> Some row).
Proof.
  destruct (rows_roundtrip demo_server 1 0 (zeroProxyRecord{{ pr_Port := 4294967296 }}) demo_character 100 eq_refl) as (_ & Hp & _ & Hc & _). split.
  - apply Hc. split; [|split|split_and!|split_and!]; try done; unfold all_of, is_u32, int4, max_uint32; cbn; [split_and!; try lia|..|];
      try lia; intros ? [= <-]; try split; try done; cbn; lia.
  - intros row Hrow. destruct (proj1 Hp (ex_intro _ row Hrow)) as [(_ & Hport & _) _ _]. cbn in Hport. unfold int4 in Hport. lia.
Defined.

(** ** The driver ([driver.go]) *)

Record poolSettings := mkPool { po_maxOpen : Z; po_maxIdle : Z; po_maxLifetime : Z; po_maxIdleTime : Z }.
Definition applyPoolSettings (maxOpenConns maxIdleConns : Z) : poolSettings :=
  mkPool (if maxOpenConns <=? 0 then 10 else maxOpenConns) (if maxIdleConns <=? 0 then 5 else maxIdleConns) (30 * minute) (5 * minute).
(** What opening the database and migrating it answer, and the pools that are
    open in the process. *)
Record startup := mkStartup { su_open : result unit; su_provider : result unit; su_up : result unit }.
Record Driver := mkDriver { dr_maxOpen : Z; dr_maxIdle : Z; dr_once : bool; dr_db : option poolSettings; dr_err : option gerror }.
(** [migrateUp]: the driver afterwards and its error. *)
Definition migrateUp (env : startup) (d : Driver) : Driver * option gerror :=
  match su_open env with
  | Err e => (d, Some (ErrWrap "open postgres" e))
  | Ok _ =>
      let d := mkDriver (dr_maxOpen d) (dr_maxIdle d) (dr_once d) (Some (applyPoolSettings (dr_maxOpen d) (dr_maxIdle d))) (dr_err d) in
      match su_provider env with
      | Err e => (d, Some (ErrWrap "create goose provider" e))
      | Ok _ => match su_up env with Err e => (d, Some (ErrWrap "goose up" e)) | Ok _ => (d, None) end
      end
  end.
(** [sync.Once]: only the first call migrates, and its error stays. *)
Definition initialise (env : startup) (d : Driver) : Driver * option gerror :=
  if dr_once d then (d, dr_err d)
  else
    let '(d, e) := migrateUp env d in
    (mkDriver (dr_maxOpen d) (dr_maxIdle d) true (dr_db d) e, e).
Definition NewDriver (env : startup) (cfg : option (Z * Z)) (migrations : bool) : result Driver :=
  match cfg with
  | None => Err (ErrorString "postgres config is nil")
  | Some (maxOpen, maxIdle) =>
      if negb migrations then Err (ErrorString "postgres migrations fs is nil")
      else match initialise env (mkDriver maxOpen maxIdle false None None) with (d, None) => Ok d | (_, Some e) => Err e end
  end.
Definition Acquire (env : startup) (d : Driver) : Driver * result (option poolSettings) :=
  let '(d, e) := initialise env d in (d, match e with Some e => Err e | None => Ok (dr_db d) end).
(** [Execute], [FetchOne] and [FetchMany] run their statement on the acquired
    pool; [MigrateUp] and [MigrateDown] run goose on it. *)
Definition on_pool {A} (env : startup) (d : Driver) (statement : poolSettings -> result A) : Driver * result A :=
  match Acquire env d with
  | (d, Err e) => (d, Err e)
  | (d, Ok None) => (d, Err (ErrorString "nil pool"))
  | (d, Ok (Some pool)) => (d, statement pool)
  end.
Definition goose_run (provider : result unit) (text : string) (run : result unit) : result unit :=
  match provider with
  | Err e => Err (ErrWrap "create goose provider" e)
  | Ok _ => match run with Err e => Err (ErrWrap text e) | Ok _ => Ok tt end
  end.
Definition MigrateUp (env : startup) (d : Driver) (provider up : result unit) : Driver * result unit := on_pool env d (fun _ => goose_run provider "goose up" up).
Definition MigrateDown (env : startup) (d : Driver) (provider down : result unit) : Driver * result unit := on_pool env d (fun _ => goose_run provider "goose down" down).

(** A driver that was built always has its pool, whatever the database answers
    later, and every statement reaches it. *)
Lemma driver_usable env maxOpen maxIdle d : NewDriver env (Some (maxOpen, maxIdle)) true = Ok d ->
  forall env' A (statement : poolSettings -> result A), on_pool env' d statement = (d, statement (applyPoolSettings maxOpen maxIdle)).
Proof.
  unfold NewDriver, initialise, migrateUp. cbn. destruct (su_open env), (su_provider env), (su_up env); try done. intros [= <-] env' A statement. reflexivity.
Qed.
(** A migration that fails leaves an open pool behind: the driver that holds it
    is dropped without being closed. *)
Example failed_migration_leaks_pool :
  let env := mkStartup (Ok tt) (Ok tt) (Err (ErrorString "lock timeout")) in
  (exists e, NewDriver env (Some (0, 0)) true = Err e) /\ dr_db (initialise env (mkDriver 0 0 false None None)).1 = Some (mkPool 10 5 (30 * minute) (5 * minute)).
Proof. split; [by eexists|reflexivity]. Qed.
