(* ===== verification/Commands.v ===== *)
(** * The publishing, migration and refresh commands ([cmd/cli/publish.go],
      [cmd/cli/migrate.go], [cmd/cli/refresh.go])

    What the commands do once their flags are parsed.  The ticker and signals
    of the daemon are the list of its ticks; every call to the database carries
    its driver [fault], and the queue is any publishing computation. *)
From S2P Require Import Prelude GoErrors GoStrings Contract Payloads CharacterStore Reports Publish.

(** ** The legacy queue table *)

Record pgQueueJob := mkPgQueueJob {
  pj_ID : Z; pj_Type : string; pj_Payload : json; pj_Status : string; pj_Attempts : Z; pj_MaxAttempts : Z; pj_LastError : string;
}.
(** The legacy table, by row id. *)
Abbreviation queueTable := (gmap Z pgQueueJob).
Definition job_id_le (a b : pgQueueJob) : Prop := pj_ID a <= pj_ID b.
Global Instance job_id_le_dec : RelDecision job_id_le.
Proof. intros a b. unfold job_id_le. apply _. Defined.
Definition open_status (status : string) : bool := bool_decide (status ∈ ["pending"; "claimed"; "failed"]).
Definition fetch_jobs (table : queueTable) : list pgQueueJob := merge_sort job_id_le (filter (fun j => open_status (pj_Status j) = true) (map_to_list table).*2).

Section Commands.
Context {Q : Type} (publish : QueueJob -> ST Q (result unit)).

(** ** [publish id-sweep] *)

Record sweepFlags := mkSweepFlags {
  sf_auto : bool; sf_from : Z; sf_to : Z; sf_count : Z; sf_batchSize : option Z; sf_chunkSize : Z; sf_source : string;
  sf_fillGaps : bool; sf_daemon : bool; sf_daemonInterval : Z; sf_minID : Z;
}.
(** [batch-size] counts only when it was given. *)
Definition sweep_count (fl : sweepFlags) : Z := default (sf_count fl) (sf_batchSize fl).
(** The driver's answers to the calls of one batch. *)
Record batchFaults := mkBatchFaults { bf_max : fault; bf_cursor : fault; bf_wrap : fault; bf_gaps : fault; bf_advance : fault }.
Definition publishBatch (fl : sweepFlags) (fs : batchFaults) (db : CensusDB) : ST Q (option (CensusDB * result unit)) :=
  if sf_fillGaps fl then
    publishFillGapsIDSweep publish (bf_max fs) (bf_cursor fs) (bf_wrap fs) (bf_gaps fs) (bf_advance fs) (sweep_count fl) (sf_chunkSize fl) (sf_source fl) (sf_minID fl) db
  else if sf_auto fl || ((sf_from fl =? 0) && (sf_to fl =? 0)) then
    publishAutoIDSweep publish (bf_cursor fs) (bf_advance fs) (sweep_count fl) (sf_chunkSize fl) (sf_source fl) db
  else
    match computeIDSweepRange (sf_from fl) (sf_to fl) (sweep_count fl) (sf_auto fl) (Some (MaxID db (bf_max fs))) with
    | Err e => mret (Some (db, Err e))
    | Ok (from, to) =>
        match buildIDSweepJobs from to (sf_chunkSize fl) (sf_source fl) with
        | None => mret None
        | Some [] => mret (Some (db, Ok tt))
        | Some jobs => r ← publishAll publish jobs 0; mret (Some (db, match r.2 with Some e => Err e | None => Ok tt end))
        end
    end.
(** The ticks of the daemon; an error of a batch is logged. *)
Fixpoint daemon_loop (fl : sweepFlags) (ticks : list batchFaults) (db : CensusDB) : ST Q (option (CensusDB * result unit)) :=
  match ticks with
  | [] => mret (Some (db, Ok tt))
  | fs :: ticks =>
      r ← publishBatch fl fs db;
      match r with None => mret None | Some (db, _) => daemon_loop fl ticks db end
  end.
(** [repository] and [queue] tell whether the container has them; [first] and
    [ticks] are the batches of the run. *)
Definition publishIDSweepCmd (fl : sweepFlags) (repository queue : bool) (first : batchFaults) (ticks : list batchFaults) (db : CensusDB)
  : ST Q (option (CensusDB * result unit)) :=
  let refuse text := mret (Some (db, Err (ErrorString text))) in
  if sf_daemon fl && (sf_daemonInterval fl <=? 0) then refuse "invalid --daemon-interval: must be positive"
  else if negb (bool_decide (sf_source fl ∈ ["auto"; "lodestone"])) then refuse "invalid --source: must be one of 'auto', 'lodestone'"
  else if negb repository then refuse "character repository not initialised"
  else if negb queue then refuse "queue not initialised"
  else if negb (sf_daemon fl) then publishBatch fl first db
  else daemon_loop fl (first :: ticks) db.

(** ** [publish character-census] and [publish achievement-census] *)

Definition publish_result (r : Z * option gerror) : result unit := match r.2 with Some e => Err e | None => Ok tt end.
Definition publishCharacterCensusCmd (now olderThan limit : Z) (repository queue : bool) (f_stale : fault) (db : CensusDB) : ST Q (result unit) :=
  if limit <=? 0 then mret (Err (ErrorString "--limit must be positive"))
  else if negb repository then mret (Err (ErrorString "character repository not initialised"))
  else
    match ListStale db f_stale (characterCensusCutoff now olderThan) limit with
    | Err e => mret (Err (ErrWrap "list stale" e))
    | Ok stale =>
        if negb queue then mret (Err (ErrorString "queue not initialised"))
        else r ← publishAll publish ((fun c => CharacterCensusJob (cr_ID c)) <$> stale) 0; mret (publish_result r)
    end.
(** [list] is the repository's list of characters with an empty filter. *)
Definition publishAchievementCensusCmd (charID limit : Z) (repository queue : bool) (list : Z -> Z -> result (list CharacterRecord)) : ST Q (result unit) :=
  if negb queue then mret (Err (ErrorString "queue not initialised"))
  else if 0 <? charID then publish (AchievementCensusJob charID)
  else
    let limit := if limit <=? 0 then 1000 else limit in
    if negb repository then mret (Err (ErrorString "character repository not initialised"))
    else
      match list limit 0 with
      | Err e => mret (Err (ErrWrap "list characters" e))
      | Ok chars => r ← publishAll publish ((fun c => AchievementCensusJob (cr_ID c)) <$> chars) 0; mret (publish_result r)
      end.

(** ** [migrate queue] *)

(** The answers of the queue to every job, in order: a failure does not stop
    the loop. *)
Fixpoint publish_jobs (jobs : list pgQueueJob) : ST Q (list (result unit)) :=
  match jobs with
  | [] => mret []
  | j :: jobs => r ← publish (mkQueueJob (pj_Type j) (pj_Payload j)); rs ← publish_jobs jobs; mret (r :: rs)
  end.
Definition failed_of (rs : list (result unit)) : list (result unit) := List.filter (fun r => match r with Ok _ => false | Err _ => true end) rs.
Definition delete_migrated (table : queueTable) : queueTable := filter (fun kv => pj_Status kv.2 = "done") table.
(** [others] is what other processes do to the table between the two
    statements. *)
Definition runMigrateQueue (dryRun : bool) (f_fetch f_delete : fault) (others : queueTable -> queueTable) (table : queueTable) : ST Q (queueTable * result unit) :=
  match read_fault f_fetch (Ok (fetch_jobs table)) with
  | Err e => mret (table, Err (ErrWrap "fetch queue_jobs" e))
  | Ok [] => mret (table, Ok tt)
  | Ok jobs =>
      if dryRun then mret (table, Ok tt)
      else
        rs ← publish_jobs jobs;
        let table := others table in
        match failed_of rs with
        | [] => mret (let '(table, r) := with_fault f_delete table (delete_migrated table, Ok tt) in (table, wrap_err "delete migrated queue_jobs" r))
        | _ => mret (table, Err (ErrorString "failed to publish jobs"))
        end
  end.
End Commands.

(** ** [migrate] and [refresh ui-stats] *)

(** [driver] is the container's driver with its two migrations. *)
Definition runMigrate (direction : string) (driver : option (result unit * result unit)) : result unit :=
  if negb (bool_decide (direction ∈ ["up"; "down"])) then Err (ErrorString "invalid direction, use up or down")
  else match driver with
       | None => Err (ErrorString "database driver not initialised (check config/postgres)")
       | Some (up, down) => if bool_decide (direction = "up") then up else down
       end.
(** The outcome of a refresh: nothing, skipped, or done. *)
Inductive refreshOutcome := NoOutcome | SkippedRefresh | Refreshed.
Definition runRefreshUIStatsWithService (svc : option (result refreshOutcome)) : result string :=
  match svc with
  | None => Err (ErrorString "UI statistics service unavailable")
  | Some (Err e) => Err (ErrWrap "refresh UI statistics" e)
  | Some (Ok NoOutcome) => Err (ErrorString "refresh UI statistics returned no result")
  | Some (Ok SkippedRefresh) => Ok "UI statistics refresh skipped: another refresh is already running"
  | Some (Ok Refreshed) => Ok "UI statistics refresh complete"
  end.
