(* ===== verification/CommandsFacts.v ===== *)
(** * Properties of the commands: the queue migration loses no job, and the
      sweep daemon skips no id. *)
From S2P Require Import Prelude GoErrors GoStrings Contract Payloads CharacterStore Reports Publish PublishFacts Commands.

(** ** The queue migration *)

#[local] Instance job_id_le_trans : Transitive job_id_le.
Proof. intros a b c. unfold job_id_le. lia. Qed.
#[local] Instance job_id_le_total : Total job_id_le.
Proof. intros a b. unfold job_id_le. lia. Qed.
(** The statuses of a job that is still to be done. *)
Definition to_do (j : pgQueueJob) : Prop := pj_Status j ∈ ["pending"; "claimed"; "failed"].
#[local] Instance to_do_dec j : Decision (to_do j).
Proof. unfold to_do. apply _. Defined.
(** The statuses the table documents. *)
Definition known_statuses (table : queueTable) : Prop := map_Forall (fun _ j => to_do j \/ pj_Status j = "done") table.
Definition job_of (j : pgQueueJob) : QueueJob := mkQueueJob (pj_Type j) (pj_Payload j).

Lemma fetch_jobs_perm table : fetch_jobs table ≡ₚ filter to_do (map_to_list table).*2.
Proof.
  unfold fetch_jobs. rewrite merge_sort_Permutation. erewrite (list_filter_iff _ to_do); [done|]. intros j. unfold open_status, to_do.
  apply bool_decide_eq_true.
Qed.
Lemma fetch_jobs_elem table j : j ∈ fetch_jobs table <-> to_do j /\ exists id, table !! id = Some j.
Proof.
  rewrite fetch_jobs_perm, list_elem_of_filter, list_elem_of_fmap. split.
  - intros [Ho ([id j'] & -> & Hin)]. split; [done|]. exists id. by apply elem_of_map_to_list.
  - intros [Ho [id Hid]]. split; [done|]. exists (id, j). split; [done|]. by apply elem_of_map_to_list.
Qed.
Section Migration.
Context {Q : Type} (publish : QueueJob -> ST Q (result unit)).
(** The queue, watched: every job it is offered, and whether it accepted it. *)
Definition watched_publish (job : QueueJob) : ST (Q * list (QueueJob * bool)) (result unit) := fun ql =>
  let '(q, r) := publish job ql.1 in ((q, ql.2 ++ [(job, is_ok r)]), r).
Lemma publish_jobs_watched jobs : forall q log, exists q' answers,
  publish_jobs watched_publish jobs (q, log) = ((q', log ++ zip (job_of <$> jobs) (is_ok <$> answers)), answers) /\ length answers = length jobs.
Proof.
  induction jobs as [|j jobs IH]; intros q log; cbn [publish_jobs]; [exists q, []; by rewrite app_nil_r|]. rewrite ST_bind_eq.
  assert (Hw : watched_publish (job_of j) (q, log) = (let '(q1, r) := publish (job_of j) q in ((q1, log ++ [(job_of j, is_ok r)]), r))) by done.
  fold (job_of j). rewrite Hw. destruct (publish (job_of j) q) as [q1 r]. cbn [fst snd].
  destruct (IH q1 (log ++ [(job_of j, is_ok r)])) as (q' & rs & Hrun & Hlen). rewrite ST_bind_eq, Hrun. cbn [fst snd].
  exists q', (r :: rs). split; [|cbn; lia]. cbn. by rewrite <-app_assoc.
Qed.
Lemma failed_of_nil rs : failed_of rs = [] <-> Forall (fun r => is_ok r = true) rs.
Proof.
  induction rs as [|[[]|e] rs IH]; cbn; [done| |].
  - rewrite IH. split; [by constructor|]. by inversion 1.
  - split; [done|]. by inversion 1.
Qed.
Lemma zip_accepted jobs (answers : list (result unit)) : length answers = length jobs -> Forall (fun r => is_ok r = true) answers ->
  zip (job_of <$> jobs) (is_ok <$> answers) = (fun j => (job_of j, true)) <$> jobs.
Proof.
  intros Hlen Hall. revert jobs Hlen. induction Hall as [|r rs Hr _ IH]; intros [|j jobs] Hlen; try done. cbn in *. rewrite Hr, IH by lia. done.
Qed.

(** C12: the migration of the queue loses no job.  When no other process
    changes the table and its statuses are the documented ones, whatever the
    queue and the database answer: a run that is not a dry run and could read
    the table offers the queue the job of every row still to be done, each row
    once and in the order of their ids, with the row's type and payload, also
    after refusals; a row leaves the table only if it was to be done and the
    queue accepted every job it was offered; a dry run offers nothing and
    changes nothing; and a run without error that is not a dry run leaves
    exactly the done rows, the job of every other row having been accepted. *)
Theorem migrate_queue_loses_nothing dryRun f_fetch f_delete (table : queueTable) (q : Q) (Hstatus : known_statuses table) :
  exists q' offers table' r rows,
    runMigrateQueue watched_publish dryRun f_fetch f_delete id table (q, []) = ((q', offers), (table', r)) /\
    rows ≡ₚ filter to_do (map_to_list table).*2 /\ StronglySorted job_id_le rows /\
    offers.*1 = (if dryRun then [] else if f_fetch is NoFault then job_of <$> rows else []) /\
    (dryRun = true -> q' = q /\ table' = table) /\
    (forall id j, table !! id = Some j -> table' !! id = None ->
       to_do j /\ Forall (fun o => o.2 = true) offers /\ forall row, row ∈ rows -> (job_of row, true) ∈ offers) /\
    (r = Ok tt -> dryRun = false ->
       table' = filter (fun kv => pj_Status kv.2 = "done") table /\
       forall id j, table !! id = Some j -> pj_Status j <> "done" -> (job_of j, true) ∈ offers).
Proof.
  assert (Hopen : forall id j, table !! id = Some j -> pj_Status j <> "done" -> j ∈ fetch_jobs table).
  { intros id j Hj Hn. apply fetch_jobs_elem. destruct (Hstatus id j Hj) as [?|?]; [eauto|done]. }
  assert (Hnone : fetch_jobs table = [] -> filter (fun kv : Z * pgQueueJob => pj_Status kv.2 = "done") table = table).
  { intros Hf. apply map_filter_id. intros id j Hj. destruct (decide (pj_Status j = "done")) as [|Hn]; [done|]. apply (Hopen id j Hj) in Hn.
    rewrite Hf in Hn. by apply elem_of_nil in Hn. }
  pose proof (fetch_jobs_perm table) as Hperm. assert (Hsorted : StronglySorted job_id_le (fetch_jobs table)) by apply (StronglySorted_merge_sort job_id_le).
  unfold runMigrateQueue. destruct f_fetch as [|e|e]; cbn [read_fault].
  2-3: exists q, [], table; eexists; exists (fetch_jobs table); split; [reflexivity|]; split_and!; try done; [by destruct dryRun|congruence].
  destruct (fetch_jobs table) as [|j0 jobs] eqn:Hfetch.
  { exists q, [], table, (Ok tt), []. split; [reflexivity|]. split_and!; try done; [by destruct dryRun|congruence|].
    intros _ _. split; [by rewrite Hnone|]. intros id j Hj Hn. apply (Hopen id j Hj) in Hn. by apply elem_of_nil in Hn. }
  rewrite <-Hfetch in *. destruct dryRun.
  { exists q, [], table, (Ok tt), (fetch_jobs table). split; [reflexivity|]. split_and!; try done. congruence. }
  rewrite ST_bind_eq. destruct (publish_jobs_watched (fetch_jobs table) q []) as (q' & rs & Hrun & Hlen). rewrite Hrun. cbn [fst snd app].
  assert (Hfst : (zip (job_of <$> fetch_jobs table) (is_ok <$> rs)).*1 = job_of <$> fetch_jobs table) by (apply fst_zip; rewrite !length_fmap; lia).
  destruct (failed_of rs) as [|r rs'] eqn:Hfail.
  2: { do 4 eexists. exists (fetch_jobs table). split; [reflexivity|]. split_and!; try done. cbn. congruence. }
  apply failed_of_nil in Hfail. rewrite (zip_accepted _ _ Hlen Hfail) in *. set (offers := (fun j => (job_of j, true)) <$> fetch_jobs table) in *.
  assert (Hoff : forall row, row ∈ fetch_jobs table -> (job_of row, true) ∈ offers).
  { intros row Hin. apply list_elem_of_fmap. eauto. }
  assert (Hacc : Forall (fun o : QueueJob * bool => o.2 = true) offers) by (apply Forall_fmap, Forall_true; done).
  assert (Hdel : forall id j, table !! id = Some j -> delete_migrated table !! id = None -> to_do j).
  { intros id j Hj Hn. destruct (Hstatus id j Hj) as [?|Hd]; [done|]. unfold delete_migrated in Hn. rewrite map_lookup_filter, Hj in Hn. cbn in Hn. by rewrite option_guard_True in Hn. }
  destruct f_delete as [|e|e]; do 4 eexists; exists (fetch_jobs table); (split; [reflexivity|]); split_and!; try done; cbn; try congruence; eauto 6.
Qed.
End Migration.

Definition legacy_job (id : Z) (status : string) : pgQueueJob := mkPgQueueJob id EventCharacterCensus JNull status 0 5 "".
Definition legacy_table : queueTable := {[1 := legacy_job 1 "pending"; 2 := legacy_job 2 "done"]}.
Definition accept_all (job : QueueJob) : ST (list QueueJob) (result unit) := fun q => (q ++ [job], Ok tt).
Lemma migrate_queue_loses_nothing_witness :
  exists q' offers, runMigrateQueue (watched_publish accept_all) false NoFault NoFault id legacy_table ([], []) =
    ((q', offers), ({[2 := legacy_job 2 "done"]}, Ok tt)) /\ (mkQueueJob EventCharacterCensus JNull, true) ∈ offers.
Proof.
  assert (Hs : known_statuses legacy_table).
  { unfold known_statuses, legacy_table. intros id j Hj. apply lookup_insert_Some in Hj as [[_ <-]|[_ Hj]]; [left; left|].
    apply lookup_singleton_Some in Hj as [_ <-]. by right. }
  destruct (migrate_queue_loses_nothing accept_all false NoFault NoFault legacy_table [] Hs) as (q' & offers & table' & r & rows & Hrun & _ & _ & _ & _ & _ & H).
  assert (Hr : r = Ok tt) by (apply (f_equal (fun x => x.2.2)) in Hrun; vm_compute in Hrun; by rewrite <-Hrun). subst r.
  destruct (H eq_refl eq_refl) as [-> Hall]. exists q', offers. rewrite Hrun. split; [do 2 f_equal; vm_compute; reflexivity|].
  apply (Hall 1 (legacy_job 1 "pending")); [reflexivity|discriminate].
Defined.
(** The deletion takes every row that is not done: a job another process adds
    while the jobs are published is deleted without having been published. *)
Example migrate_queue_deletes_new_jobs :
  runMigrateQueue accept_all false NoFault NoFault (fun t => <[3 := legacy_job 3 "pending"]> t) legacy_table [] =
  ([mkQueueJob EventCharacterCensus JNull], ({[2 := legacy_job 2 "done"]}, Ok tt)).
Proof. vm_compute. reflexivity. Qed.

(** ** The sweep daemon *)

Section Daemon.
Context {Q : Type} (publish : QueueJob -> ST Q (result unit)).
(** An id is swept when a job the queue accepted covers it. *)
Definition swept (log : list QueueJob) (id : Z) : Prop := exists job p, job ∈ log /\ carries job p /\ is_From p <= id <= is_To p.
Lemma swept_log_app log log' id : swept log id \/ swept log' id -> swept (log ++ log') id.
Proof. intros [(job & p & Hin & H)|(job & p & Hin & H)]; exists job, p; (split; [apply elem_of_app; auto|done]). Qed.
Lemma swept_jobs jobs ps id : Forall2 carries jobs ps -> id ∈ payload_ids ps -> swept jobs id.
Proof.
  intros Hc Hid. unfold payload_ids in Hid. apply list_elem_of_bind in Hid as (p & Hid & Hp). apply elem_of_zrange in Hid.
  apply list_elem_of_lookup in Hp as [i Hp]. destruct (list.Forall2_lookup_r _ _ _ _ _ Hc Hp) as (job & Hj & Hcarry).
  exists job, p. split; [by apply list_elem_of_lookup_2 in Hj|done].
Qed.

Definition no_faults : batchFaults := mkBatchFaults NoFault NoFault NoFault NoFault NoFault.
(** The flags of an automatic sweep that runs as a daemon. *)
Definition auto_daemon (fl : sweepFlags) : Prop :=
  sf_daemon fl = true /\ 0 < sf_daemonInterval fl /\ sf_fillGaps fl = false /\ sf_source fl ∈ ["auto"; "lodestone"] /\
  (sf_auto fl = true \/ (sf_from fl = 0 /\ sf_to fl = 0)) /\ 1 <= sweep_count fl /\ is_u32 (sf_chunkSize fl).

Lemma auto_batch fl db q log cursor : auto_daemon fl -> cdb_id_sweep db = Some cursor -> 1 <= cursor -> cursor + sweep_count fl <= max_uint32 -> max_char_id db < max_uint32 ->
  exists q' extra (moved : bool) r,
    publishBatch (logged_publish publish) fl no_faults db (q, log) = ((q', log ++ extra), Some (db{{ cdb_id_sweep := Some (if moved then cursor + sweep_count fl else cursor) }}, r)) /\
    (moved = true -> forall id, cursor <= id < cursor + sweep_count fl -> swept extra id).
Proof.
  intros (_ & _ & Hgaps & _ & Hauto & Hcount & Hchunk) Hcur H1 H2 Hmax.
  assert (Hb : sf_auto fl || ((sf_from fl =? 0) && (sf_to fl =? 0)) = true).
  { destruct Hauto as [->|[-> ->]]; [done|]. by rewrite orb_true_r. }
  destruct (auto_sweep_run (logged_publish publish) db (q, log) cursor (sweep_count fl) (sf_chunkSize fl) (sf_source fl) Hcur) as (jobs & ps & ql & n & e & Hj & Hc & Hids & Hp & Hr);
    [lia|done|lia|done|].
  destruct (publishAll_logged publish jobs 0 q log) as (q' & n' & e' & Hp' & _ & He). rewrite Hp in Hp'. injection Hp' as -> -> ->.
  exists q', (take n' jobs), (match e' with None => true | Some _ => false end), (match e' with None => Ok tt | Some e => Err e end).
  unfold publishBatch. rewrite Hgaps, Hb. cbn [no_faults bf_cursor bf_advance]. rewrite Hr. split; [by destruct e'|].
  destruct e'; [done|]. intros _ id Hid. rewrite (He eq_refl), take_ge by lia. apply (swept_jobs jobs ps); [done|]. rewrite Hids. apply elem_of_zrange. lia.
Qed.
Lemma daemon_loop_covers fl n : forall db q log cursor, auto_daemon fl -> cdb_id_sweep db = Some cursor -> 1 <= cursor ->
  cursor + Z.of_nat n * sweep_count fl <= max_uint32 -> max_char_id db < max_uint32 ->
  exists q' extra k,
    daemon_loop (logged_publish publish) fl (replicate n no_faults) db (q, log) = ((q', log ++ extra), Some (db{{ cdb_id_sweep := Some (cursor + k * sweep_count fl) }}, Ok tt)) /\
    0 <= k <= Z.of_nat n /\ forall id, cursor <= id < cursor + k * sweep_count fl -> swept extra id.
Proof.
  induction n as [|n IH]; intros db q log cursor Hfl Hcur H1 H2 Hmax; cbn [replicate daemon_loop].
  - exists q, [], 0. rewrite app_nil_r. split_and!; [|lia|lia|lia]. replace (cursor + 0 * sweep_count fl) with cursor by lia. rewrite <-Hcur. by destruct db.
  - assert (Hcount : 1 <= sweep_count fl) by apply Hfl.
    destruct (auto_batch fl db q log cursor Hfl Hcur H1) as (q1 & extra1 & moved & r & Hb & Hs1); [nia|done|]. rewrite ST_bind_eq, Hb. cbn [fst snd].
    set (cursor' := if moved then cursor + sweep_count fl else cursor) in *.
    destruct (IH (db{{ cdb_id_sweep := Some cursor' }}) q1 (log ++ extra1) cursor' Hfl ltac:(by destruct db)) as (q' & extra & k & Hd & Hk & Hs).
    + unfold cursor'; destruct moved; lia.
    + unfold cursor'; destruct moved; nia.
    + by destruct db.
    + exists q', (extra1 ++ extra), (if moved then k + 1 else k). rewrite Hd, app_assoc. split_and!.
      * destruct db. unfold cursor'. destruct moved; [|done]. by replace (cursor + sweep_count fl + k * sweep_count fl) with (cursor + (k + 1) * sweep_count fl) by lia.
      * destruct moved; lia.
      * destruct moved; lia.
      * intros id Hid. apply swept_log_app. unfold cursor' in *. destruct moved; [|right; by apply Hs].
        destruct (Z.lt_ge_cases id (cursor + sweep_count fl)); [left; apply Hs1; [done|lia]|right; apply Hs; lia].
Qed.

(** C28: the sweep daemon skips no id.  Over any number of ticks, whatever
    the queue answers to each job, the daemon ends without error, its cursor
    has moved by whole batches, and every id the cursor has passed is covered
    by a job the queue accepted. *)
Theorem sweep_daemon_skips_nothing fl ticks db (q : Q) from
    (Hflags : auto_daemon fl) (Hcur : cdb_id_sweep db = Some from) (Hfrom : 1 <= from) (Hmax : max_char_id db < max_uint32)
    (Hroom : from + (Z.of_nat ticks + 1) * sweep_count fl <= max_uint32) :
  exists q' accepted k,
    publishIDSweepCmd (logged_publish publish) fl true true no_faults (replicate ticks no_faults) db (q, []) =
      ((q', accepted), Some (db{{ cdb_id_sweep := Some (from + k * sweep_count fl) }}, Ok tt)) /\
    0 <= k <= Z.of_nat ticks + 1 /\ (forall id, from <= id < from + k * sweep_count fl -> swept accepted id).
Proof.
  destruct (daemon_loop_covers fl (S ticks) db q [] from) as (q' & extra & k & Hd & Hk & Hs); [done..|lia|done|].
  exists q', extra, k. split_and!; [|lia|lia|done]. unfold publishIDSweepCmd. destruct Hflags as (Hdm & Hi & _ & Hsrc & _).
  rewrite Hdm, (proj2 (Z.leb_gt _ _) Hi), bool_decide_true by done. cbn [andb negb]. exact Hd.
Qed.
End Daemon.

Definition daemon_flags : sweepFlags := mkSweepFlags true 0 0 250 None 100 "auto" false true second 0.
Lemma sweep_daemon_skips_nothing_witness :
  exists q' accepted k, publishIDSweepCmd (logged_publish demo_publish) daemon_flags true true no_faults [no_faults; no_faults]
      (empty_census{{ cdb_id_sweep := Some 1001 }}) (mkDemoQueue [] (Some 4%nat), []) =
    ((q', accepted), Some (empty_census{{ cdb_id_sweep := Some (1001 + k * 250) }}, Ok tt)) /\ 0 <= k <= 3.
Proof.
  destruct (sweep_daemon_skips_nothing demo_publish daemon_flags 2 (empty_census{{ cdb_id_sweep := Some 1001 }}) (mkDemoQueue [] (Some 4%nat)) 1001)
    as (q' & acc & k & H & Hk & _).
  - unfold auto_daemon. cbn. unfold second, is_u32, max_uint32. split_and!; try lia; try done; apply list_elem_of_In; cbn; tauto.
  - reflexivity.
  - lia.
  - vm_compute. reflexivity.
  - cbn. unfold max_uint32. lia.
  - exists q', acc, k. split; [exact H|]. cbn in Hk. lia.
Defined.
