(* ===== verification/CensusFacts.v ===== *)
(** * Properties of the census service and handlers

    What the handlers keep, what a sweep stores and chains, how failures are
    classified, and the agreement of the two summary queries. *)
From S2P Require Import Prelude GoErrors GoStrings Contract Payloads Queue CharacterStore Census.

(** ** History is never lost *)

(** Rows stay, the first sighting stays, and so does every milestone. *)
Definition history_le (db db' : CensusDB) : Prop :=
  (forall id r, cdb_chars db !! id = Some r ->
     exists r', cdb_chars db' !! id = Some r' /\ cr_FirstSeenAt (row_rec r') = cr_FirstSeenAt (row_rec r))
  /\ (forall k, is_Some (cdb_milestones db !! k) -> is_Some (cdb_milestones db' !! k)).

Global Instance history_le_preorder : PreOrder history_le.
Proof.
  split.
  - intros db. split; eauto.
  - intros a b c [H1 H2] [H3 H4]. split; [|eauto]. intros id r Hr.
    destruct (H1 _ _ Hr) as (r1 & Hr1 & <-). destruct (H3 _ _ Hr1) as (r2 & Hr2 & <-). eauto.
Qed.

Lemma history_chars db m :
  (forall id r, cdb_chars db !! id = Some r ->
     exists r', m !! id = Some r' /\ cr_FirstSeenAt (row_rec r') = cr_FirstSeenAt (row_rec r)) ->
  history_le db (db{{ cdb_chars := m }}).
Proof. intros Hm. destruct db. split; cbn in *; [exact Hm|eauto]. Qed.

Lemma update_char_history db id set :
  (forall c, cr_FirstSeenAt (set c) = cr_FirstSeenAt c) -> history_le db (update_char db id set).
Proof.
  intros Hs. unfold update_char. destruct (cdb_chars db !! id) as [r|] eqn:Hr; [|reflexivity].
  apply history_chars. intros j r' Hj. rewrite lookup_insert. case_decide; [|eauto].
  simplify_eq. eexists. split; [done|]. destruct r; apply Hs.
Qed.

Lemma fold_insert_some {K A X} `{Countable K} (key : X -> K) (val : X -> A) l : forall (m : gmap K A) k,
  is_Some (m !! k) -> is_Some (fold_left (fun m x => <[key x := val x]> m) l m !! k).
Proof.
  induction l as [|x l IH]; intros m k Hk; [done|]. cbn. apply IH. rewrite lookup_insert. case_decide; [eauto|done].
Qed.

Lemma with_fault_history {A} f db (x : CensusDB * result A) :
  history_le db x.1 -> history_le db (with_fault f db x).1.
Proof. intros Hx. destruct f; [exact Hx|reflexivity|exact Hx]. Qed.

Lemma Upsert_history db f rec jobs : history_le db (Upsert db f rec jobs).1.
Proof.
  apply with_fault_history. split; [|by destruct db]. intros id r Hr. destruct db. cbn in *.
  rewrite lookup_insert. case_decide; [|eauto]. subst. rewrite Hr. eexists. split; [done|]. done.
Qed.
Lemma MarkDeleted_history db f id at_ : history_le db (MarkDeleted db f id at_).1.
Proof. apply with_fault_history, update_char_history. done. Qed.
Lemma UpdateAchievementSummary_history db f id p a b : history_le db (UpdateAchievementSummary db f id p a b).1.
Proof. apply with_fault_history, update_char_history. done. Qed.
Lemma SetAchievementsPrivate_history db f id p : history_le db (SetAchievementsPrivate db f id p).1.
Proof. apply with_fault_history, update_char_history. done. Qed.
Lemma UpsertCharacterMilestones_history db f ms : history_le db (UpsertCharacterMilestones db f ms).1.
Proof.
  unfold UpsertCharacterMilestones. destruct ms as [|m ms]; [reflexivity|]. apply with_fault_history.
  case_decide; [|reflexivity]. destruct db. split; cbn; [eauto|]. intros k Hk. by apply (fold_insert_some milestone_key cm_AchievedAt (m :: ms)).
Qed.

Create HintDb keeps.
#[export] Hint Resolve Upsert_history MarkDeleted_history UpdateAchievementSummary_history SetAchievementsPrivate_history
  UpsertCharacterMilestones_history : keeps.

(** Computations that keep a preorder on the tables, whatever the driver
    answers: it is enough that every statement keeps it. *)
Section Keeps.
Context {L : Type} `{LodestoneClient L} (R : relation CensusDB) `{!PreOrder R}.

Definition keeps {A} (m : ST (CensusWorld L) A) : Prop := forall w, R (cw_db w) (cw_db (m w).1).

Lemma keeps_ret {A} (a : A) : keeps (mret a).
Proof. intros w. reflexivity. Qed.
Lemma keeps_bind {A B} (m : ST (CensusWorld L) A) (k : A -> ST (CensusWorld L) B) :
  keeps m -> (forall a, keeps (k a)) -> keeps (m ≫= k).
Proof. intros Hm Hk w. rewrite ST_bind_eq. etrans; [apply Hm|apply Hk]. Qed.
Lemma keeps_now : keeps now_.
Proof. intros w. reflexivity. Qed.
Lemma keeps_get_service : keeps get_service.
Proof. intros w. reflexivity. Qed.
Lemma keeps_set_service s : keeps (set_service s).
Proof. intros w. reflexivity. Qed.
Lemma keeps_db_write {A} (op : CensusDB -> fault -> CensusDB * result A) :
  (forall db f, R db (op db f).1) -> keeps (db_write op).
Proof. intros Hop w. unfold db_write. pose proof (Hop (cw_db w) (cw_fault w (cw_calls w))) as Hh. by destruct (op _ _). Qed.
Lemma keeps_db_read {A} (op : CensusDB -> fault -> result A) : keeps (db_read op).
Proof. apply keeps_db_write. reflexivity. Qed.
Lemma keeps_lodestone {A} (m : ST L A) : keeps (on_lodestone m).
Proof. intros w. unfold on_lodestone. by destruct (m (cw_lode w)). Qed.
End Keeps.

(** One step of such a proof; the statements are left to the hints. *)
Ltac keeps_step :=
  first [ apply keeps_ret | apply keeps_now | apply keeps_get_service | apply keeps_set_service
        | apply keeps_db_read | apply keeps_lodestone
        | apply keeps_db_write; intros; solve [eauto 3 with keeps]
        | apply keeps_bind; [typeclasses eauto| |intros]
        | case_match ]; try typeclasses eauto.
Ltac keeps_tac := repeat keeps_step.

Section KeepHandlers.
Context {L : Type} `{LodestoneClient L} (R : relation CensusDB) `{!PreOrder R}.
Hypothesis Hupsert : forall now char db f, R db (Upsert db f (profileToRecord now char) (profileToJobs char)).1.
Hypothesis Hsummary : forall id p a b db f, R db (UpdateAchievementSummary db f id p a b).1.
Hypothesis Hprivate : forall id p db f, R db (SetAchievementsPrivate db f id p).1.
Hypothesis Hmilestones : forall ms db f, R db (UpsertCharacterMilestones db f ms).1.

Lemma keeps_UpsertCharacter char : keeps (L:=L) R (UpsertCharacter char).
Proof using Hupsert PreOrder0. unfold UpsertCharacter. keeps_tac. Qed.
Lemma keeps_cachedMilestones : keeps (L:=L) R cachedMilestones.
Proof using PreOrder0. unfold cachedMilestones. keeps_tac. Qed.
Lemma keeps_sweep more : forall id next, keeps R (sweep_ids more id next).
Proof using Hupsert PreOrder0.
  induction more as [|more IH]; intros id next; cbn [sweep_ids]; unfold storeLodestone;
    repeat first [apply keeps_UpsertCharacter | keeps_step | apply IH].
Qed.
Lemma keeps_IDSweep configured payload : keeps R (IDSweep_Handle configured payload).
Proof using Hupsert PreOrder0. unfold IDSweep_Handle. repeat first [apply keeps_sweep | keeps_step]. Qed.
Lemma keeps_ProcessMilestoneResults id summary : keeps (L:=L) R (ProcessMilestoneResults id summary).
Proof using Hsummary Hprivate Hmilestones PreOrder0. unfold ProcessMilestoneResults. repeat first [apply keeps_cachedMilestones | keeps_step]. Qed.
Lemma keeps_finishLodestone char : keeps (L:=L) R (finishLodestone char).
Proof using Hupsert PreOrder0. unfold finishLodestone. repeat first [apply keeps_UpsertCharacter | keeps_step]. Qed.
Lemma keeps_MilestoneIDs : keeps (L:=L) R MilestoneIDs.
Proof using PreOrder0. unfold MilestoneIDs. repeat first [apply keeps_cachedMilestones | keeps_step]. Qed.
End KeepHandlers.

Section History.
Context {L : Type} `{LodestoneClient L}.

(** C26: no queue handler ever removes a character, changes when it was
    first seen, or forgets a milestone, whatever Lodestone answers, whatever
    the payload, and whether the database driver answers, refuses or loses its
    replies half way through. *)
Theorem handlers_keep_history (w : CensusWorld L) configured waited payload :
  history_le (cw_db w) (cw_db (IDSweep_Handle configured payload w).1)
  /\ history_le (cw_db w) (cw_db (CharacterCensus_Handle configured payload w).1)
  /\ history_le (cw_db w) (cw_db (AchievementCensus_Handle waited payload w).1).
Proof.
  split_and!.
  - apply (keeps_IDSweep history_le). eauto with keeps.
  - revert w. change (keeps history_le (CharacterCensus_Handle configured payload)).
    unfold CharacterCensus_Handle, MarkCharacterDeleted.
    repeat first [apply keeps_finishLodestone; [typeclasses eauto|eauto with keeps..] | keeps_step].
  - revert w. change (keeps history_le (AchievementCensus_Handle waited payload)).
    unfold AchievementCensus_Handle, MarkCharacterDeleted. cbv zeta.
    repeat first [apply keeps_ProcessMilestoneResults; [typeclasses eauto|eauto with keeps..] | apply keeps_MilestoneIDs; typeclasses eauto | keeps_step].
Qed.
End History.
