(* ===== verification/Deletions.v ===== *)
(** * When the census marks a character deleted

    The handlers over the Lodestone client: a row becomes deleted only when
    the site itself answered that the character is gone.  Failed proxies,
    challenges, time-outs, exhausted retries and pages that do not parse never
    delete a character. *)
From stdpp Require Import pretty.
From S2P Require Import Prelude GoErrors GoStrings Contract Limiter Worlds Payloads LodestonePage CharacterStore Census Lodestone LodestoneFacts CensusFacts.

(** ** Tables in which no further character is deleted *)

Definition no_new_deleted (db db' : CensusDB) : Prop := forall id r',
  cdb_chars db' !! id = Some r' -> cr_DeletedAt (row_rec r') <> None ->
  exists r, cdb_chars db !! id = Some r /\ cr_DeletedAt (row_rec r) = cr_DeletedAt (row_rec r').

Global Instance no_new_deleted_preorder : PreOrder no_new_deleted.
Proof.
  split; [intros db id r' Hr Hd; eauto|].
  intros a b c Hab Hbc id r' Hr Hd. destruct (Hbc id r' Hr Hd) as (r & Hr1 & E). rewrite <-E in Hd |- *. exact (Hab id r Hr1 Hd).
Qed.

Lemma with_fault_undeleted {A} f db (x : CensusDB * result A) : no_new_deleted db x.1 -> no_new_deleted db (with_fault f db x).1.
Proof. intros Hx. destruct f; [exact Hx|reflexivity|exact Hx]. Qed.

Lemma Upsert_undeleted now char db f : no_new_deleted db (Upsert db f (profileToRecord now char) (profileToJobs char)).1.
Proof.
  apply with_fault_undeleted. destruct db. intros id r'. cbn. rewrite lookup_insert_Some. intros [[<- <-]|[_ Hr]] Hd; [|eauto].
  exfalso. apply Hd. unfold upsert_row. by destruct (_ !! _).
Qed.
Lemma update_char_undeleted db id set :
  (forall c, cr_DeletedAt (set c) = cr_DeletedAt c) -> no_new_deleted db (update_char db id set).
Proof.
  intros Hs. unfold update_char. destruct (cdb_chars db !! id) as [r|] eqn:Hr; [|reflexivity].
  destruct db. intros j r'. cbn in *. rewrite lookup_insert_Some. intros [[<- <-]|[_ Hj]] Hd; [|eauto].
  exists r. split; [done|]. destruct r. cbn. by rewrite Hs.
Qed.
Lemma UpdateAchievementSummary_undeleted id p a b db f : no_new_deleted db (UpdateAchievementSummary db f id p a b).1.
Proof. apply with_fault_undeleted, update_char_undeleted. by intros []. Qed.
Lemma SetAchievementsPrivate_undeleted id p db f : no_new_deleted db (SetAchievementsPrivate db f id p).1.
Proof. apply with_fault_undeleted, update_char_undeleted. by intros []. Qed.
Lemma UpsertCharacterMilestones_undeleted ms db f : no_new_deleted db (UpsertCharacterMilestones db f ms).1.
Proof.
  unfold UpsertCharacterMilestones. destruct ms; [reflexivity|]. apply with_fault_undeleted.
  case_decide; [|reflexivity]. destruct db. intros id r' Hr Hd. eauto.
Qed.
#[export] Hint Resolve Upsert_undeleted UpdateAchievementSummary_undeleted SetAchievementsPrivate_undeleted
  UpsertCharacterMilestones_undeleted : keeps.

(** Marking one character leaves the others. *)
Lemma MarkDeleted_others db f id at_ j : j <> id -> cdb_chars (MarkDeleted db f id at_).1 !! j = cdb_chars db !! j.
Proof.
  intros Hj. unfold MarkDeleted, update_char. destruct (cdb_chars db !! id); destruct f; destruct db; cbn;
    rewrite ?lookup_insert_ne; done.
Qed.

Section Client.
Context (http_ParseTime : string -> option Z) (html_Parse : string -> result htmlNode).
Context (order : list (string * string)).
Context {S : Type} (limiter : ProviderRateLimiter S).

#[local] Abbreviation doRequest := (doRequest http_ParseTime limiter).
#[local] Abbreviation FetchCharacter := (FetchCharacter http_ParseTime order limiter).
#[local] Abbreviation FetchAchievements := (FetchAchievements http_ParseTime html_Parse limiter).
#[local] Abbreviation checkSingleAchievement := (checkSingleAchievement http_ParseTime html_Parse limiter).
#[local] Abbreviation check_milestones := (check_milestones http_ParseTime html_Parse limiter).

(** ** Errors that are not [ErrCharacterNotFound] *)

Definition neutral (e : gerror) : Prop := errors_Is e ErrCharacterNotFound = false.
Definition neutral_opt (e : option gerror) : Prop := forall x, e = Some x -> neutral x.
Definition neutral_result {A} (r : result A) : Prop := forall e, r = Err e -> neutral e.

(** The sentinel belongs to the client: the context, the limiters, the
    transport and the body reader do not return it. *)
Record neutral_exchange (ex : exchange) : Prop := {
  ne_ctx : neutral_opt (ex_ctx ex);
  ne_wait : neutral_opt (ex_wait ex);
  ne_token : neutral_opt (ex_token ex);
  ne_build : neutral_opt (ex_build ex);
  ne_transport : forall e nt, ex_reply ex = TransportError e nt -> neutral e;
  ne_body : forall resp e, ex_reply ex = Response resp (Err e) -> neutral e;
  ne_backoff : neutral_opt (ex_backoff ex);
}.
Definition neutral_net (net : nat -> string -> exchange) : Prop := forall n url, neutral_exchange (net n url).

Lemma stops_neutral ex limited e : neutral_exchange ex -> stops ex limited e -> neutral e.
Proof.
  intros [H1 H2 H3 H4 _ _ _] Hs. inversion Hs as [? He|? ? ? He|? ? ? He|e' ? ? ? He]; subst;
    [by apply H1|by apply H2|by apply H3|exact (H4 e' He)].
Qed.
Lemma proxy_dead_neutral e e' : neutral e -> proxy_dead e e' -> neutral e'.
Proof. intros He Hd. inversion Hd; subst; exact He. Qed.

Lemma request_run_neutral url net lim left i k j r lim' : neutral_net net ->
  request_run http_ParseTime limiter url net lim left i k j r lim' -> neutral_result r.
Proof.
  intros Hnet Hrun. induction Hrun as [|left i resp body|left i resp body|left i e nt e'|left i e nt|left i e nt e'|i e ? He| |]; [..|done|];
    intros x [= <-]; try done.
  - by eapply stops_neutral; [apply Hnet|].
  - change (neutral e'). eapply (proxy_dead_neutral e); [|done]. by eapply ne_transport; [apply Hnet|].
  - change (neutral e). by eapply ne_transport; [apply Hnet|].
  - by eapply ne_backoff; [apply Hnet|].
  - change (neutral e). destruct He as [(nt & He & _)|[resp He]]; [by eapply ne_transport; [apply Hnet|]|by eapply ne_body; [apply Hnet|]].
Qed.
Lemma request_run_answer url net lim left i k j body status lim' :
  request_run http_ParseTime limiter url net lim left i k j (Ok (body, status)) lim' ->
  exists n resp, (i <= n)%nat /\ (n < j)%nat /\ ex_reply (net n url) = Response resp (Ok body) /\ genuine resp body /\ rp_status resp = status.
Proof.
  remember (Ok (body, status)) as r eqn:E. induction 1 as [|left i resp b| | | | | |left i k j r lim' ? ? ? IH|]; try done.
  - injection E as -> <-. exists i, resp. split_and!; [lia|lia|done..].
  - destruct (IH E) as (n & resp & Hn & ?). exists n, resp. split; [lia|done].
Qed.

(** A computation of the client that keeps the network and the sentinel to
    itself. *)
Definition neutral_run {A} (m : ST (@lodeWorld S) (result A)) : Prop := forall w, neutral_net (lw_net w) ->
  lw_net (m w).1 = lw_net w /\ (lw_attempts w <= lw_attempts (m w).1)%nat /\ neutral_result (m w).2.

Lemma doRequest_neutral url : neutral_run (doRequest url).
Proof.
  intros w Hnet. pose proof (doRequest_spec http_ParseTime limiter url w) as H. destruct (doRequest url w) as [w' r].
  destruct H as (Hn & _ & k & _ & Hrun). destruct (request_run_bound _ _ _ _ _ _ _ _ _ _ _ Hrun). split_and!; [done|done|].
  by eapply request_run_neutral.
Qed.

Lemma doRequest_answer url w body status : (doRequest url w).2 = Ok (body, status) ->
  exists n resp, (lw_attempts w <= n)%nat /\ (n < lw_attempts (doRequest url w).1)%nat /\
    ex_reply (lw_net w n url) = Response resp (Ok body) /\ genuine resp body /\ rp_status resp = status.
Proof.
  pose proof (doRequest_spec http_ParseTime limiter url w) as H. destruct (doRequest url w) as [w' r]. cbn. intros ->.
  destruct H as (_ & _ & k & _ & Hrun). by eapply request_run_answer.
Qed.

Lemma neutral_ret {A} (r : result A) : neutral_result r -> neutral_run (mret r).
Proof. intros Hr w _. done. Qed.
Lemma neutral_bind {A B} (m : ST (@lodeWorld S) (result A)) (k : result A -> ST (@lodeWorld S) (result B)) :
  neutral_run m -> (forall r, neutral_result r -> neutral_run (k r)) -> neutral_run (m ≫= k).
Proof.
  intros Hm Hk w Hw. rewrite ST_bind_eq. destruct (Hm w Hw) as (H1 & H2 & H3).
  destruct (Hk _ H3 (m w).1) as (H4 & H5 & H6); [by rewrite H1|]. split; [congruence|]. split; [lia|done].
Qed.

(** ** Answers that a character is gone *)

(** Between two states of the client, the site answered a request for the page
    of [id] with 404 or with a 403 that is no challenge, or a request for the
    achievement list of [id] with 404. *)
Definition answered_gone (id : Z) (w w' : @lodeWorld S) : Prop := exists n url resp body,
  (lw_attempts w <= n)%nat /\ (n < lw_attempts w')%nat /\ ex_reply (lw_net w n url) = Response resp (Ok body) /\ genuine resp body /\
  (url = character_url id /\ (rp_status resp = StatusNotFound \/ rp_status resp = StatusForbidden)
   \/ url = achievement_list_url id /\ rp_status resp = StatusNotFound).

Lemma parseCharacterProfile_neutral body id : neutral_result (parseCharacterProfile order body id).
Proof. unfold parseCharacterProfile. intros e. repeat case_match; congruence || by intros [= <-]. Qed.

Lemma FetchCharacter_gone id w e : neutral_net (lw_net w) ->
  (FetchCharacter id w).2 = Err e -> neutral e \/ answered_gone id w (FetchCharacter id w).1.
Proof.
  intros Hnet. unfold Lodestone.FetchCharacter. rewrite ST_bind_eq.
  destruct (doRequest_neutral (character_url id) w Hnet) as (_ & _ & Hn). pose proof (doRequest_answer (character_url id) w) as Ha.
  destruct (doRequest (character_url id) w) as [w' [[body status]|e']]; cbn [fst snd] in *.
  - destruct (Ha body status eq_refl) as (n & resp & Hr & Hr2 & Hx & Hg & Hs).
    destruct ((status =? StatusNotFound) || (status =? StatusForbidden)) eqn:Hst.
    + intros _. right. exists n, (character_url id), resp, body. apply orb_true_iff in Hst as [Hst%Z.eqb_eq|Hst%Z.eqb_eq]; subst; cbn; auto 10.
    + intros H. left. destruct (negb _); [by injection H as <-|]. revert H. cbn.
      pose proof (parseCharacterProfile_neutral body id) as Hp. unfold wrap_err. destruct (parseCharacterProfile order body id); [done|].
      intros [= <-]. exact (Hp _ eq_refl).
  - intros [= <-]. left. exact (Hn e' eq_refl).
Qed.

(** The HTML parser does not return the sentinel either. *)
Context (Hparse : forall body, neutral_result (html_Parse body)).

Lemma row_time_neutral row missing : neutral_result (row_time row missing).
Proof. unfold row_time. intros e. repeat case_match; congruence || by intros [= <-]. Qed.
Lemma extractAchievementTimestamp_neutral body : neutral_result (extractAchievementTimestamp html_Parse body).
Proof using Hparse.
  unfold extractAchievementTimestamp. intros e. pose proof (Hparse body) as Hp. destruct (html_Parse body); [|intros [= <-]; exact (Hp _ eq_refl)].
  case_match; [apply row_time_neutral|by intros [= <-]].
Qed.
Lemma extractLatestAchievement_neutral body : neutral_result (extractLatestAchievement html_Parse body).
Proof using Hparse.
  unfold extractLatestAchievement. intros e. pose proof (Hparse body) as Hp. destruct (html_Parse body); [|intros [= <-]; exact (Hp _ eq_refl)].
  case_match; [|done]. pose proof (row_time_neutral h "latest completed achievement timestamp not found") as Hrow.
  destruct (row_time h _); cbn [mbind result_bind]; [|intros [= <-]; exact (Hrow _ eq_refl)].
  repeat case_match; congruence || by intros [= <-].
Qed.

Lemma checkSingleAchievement_neutral charID id : neutral_run (checkSingleAchievement charID id).
Proof using Hparse.
  unfold Lodestone.checkSingleAchievement. apply neutral_bind; [apply doRequest_neutral|]. intros [[body status]|e] Hr; [|apply neutral_ret; intros e' [= <-]; exact (Hr _ eq_refl)].
  pose proof (extractAchievementTimestamp_neutral body) as Ht.
  repeat case_match; apply neutral_ret; intros e'; (congruence || intros [= <-]); [done|done|]. exact (Ht _ eq_refl).
Qed.

(** The milestone loop returns an error only as the function's result. *)
Lemma check_milestones_neutral charID ids : forall results w, neutral_net (lw_net w) ->
  forall r, (check_milestones charID ids results w).2 = inl r -> neutral_result r.
Proof using Hparse.
  induction ids as [|id ids IH]; intros results w Hw r; cbn [Lodestone.check_milestones]; [done|]. rewrite ST_bind_eq.
  destruct (checkSingleAchievement_neutral charID id w Hw) as (Hn & _ & He).
  destruct (checkSingleAchievement charID id w) as [w1 [result|e]]; cbn [fst snd] in *.
  - destruct (ar_Earned result); [|done]. apply IH. by rewrite Hn.
  - case_match; intros [= <-]; [done|]. intros e' [= <-]. exact (He e eq_refl).
Qed.

Lemma FetchAchievements_gone id ids w e : neutral_net (lw_net w) ->
  (FetchAchievements id ids w).2 = Err e -> neutral e \/ answered_gone id w (FetchAchievements id ids w).1.
Proof using Hparse.
  intros Hnet. unfold Lodestone.FetchAchievements. rewrite ST_bind_eq.
  destruct (doRequest_neutral (achievement_list_url id) w Hnet) as (Hn & _ & He).
  pose proof (doRequest_answer (achievement_list_url id) w) as Ha.
  destruct (doRequest (achievement_list_url id) w) as [w' [[body status]|e']]; cbn [fst snd] in *.
  2: { intros [= <-]. left. exact (He e' eq_refl). }
  destruct (Ha body status eq_refl) as (n & resp & Hr & Hr2 & Hx & Hg & Hs).
  destruct (Z.eqb_spec status StatusNotFound) as [Hst|_].
  { intros _. right. exists n, (achievement_list_url id), resp, body. subst status. auto 10. }
  destruct (status =? StatusForbidden); [done|]. destruct (negb _); [intros [= <-]; by left|].
  pose proof (extractLatestAchievement_neutral body) as Hl. destruct (extractLatestAchievement html_Parse body) as [latest|e'].
  2: { intros [= <-]. left. exact (Hl e' eq_refl). }
  rewrite ST_bind_eq. pose proof (check_milestones_neutral id ids [] w') as Hm. rewrite Hn in Hm. specialize (Hm Hnet).
  destruct (check_milestones id ids [] w') as [w2 [r|results]]; cbn [fst snd] in *; [|done].
  intros H. left. exact (Hm r eq_refl e H).
Qed.

(** ** The handlers *)

#[local] Existing Instance CustomClient.
#[local] Abbreviation World := (CensusWorld (@lodeWorld S)).
#[local] Instance client : LodestoneClient (@lodeWorld S) := CustomClient http_ParseTime html_Parse order limiter.

(** Rows that are deleted in [db'] are deleted in [db], or their id is in [gone]. *)
Definition deleted_only (gone : Z -> Prop) (db db' : CensusDB) : Prop := forall id r',
  cdb_chars db' !! id = Some r' -> cr_DeletedAt (row_rec r') <> None ->
  (exists r, cdb_chars db !! id = Some r /\ cr_DeletedAt (row_rec r) = cr_DeletedAt (row_rec r')) \/ gone id.
Lemma deleted_only_weaken gone db db' : no_new_deleted db db' -> deleted_only gone db db'.
Proof. intros H id r' Hr Hd. left. by apply H. Qed.
Lemma MarkDeleted_only db f id at_ (gone : Z -> Prop) : gone id -> deleted_only gone db (MarkDeleted db f id at_).1.
Proof.
  intros Hid j r' Hr Hd. destruct (decide (j = id)) as [->|Hj]; [by right|]. left. rewrite MarkDeleted_others in Hr by done. eauto.
Qed.

(** The branch both handlers take when the fetch failed. *)
Definition fetch_failed (id : Z) (e : gerror) (msg1 msg2 : string) : ST World (result (list QueueJob)) :=
  if errors_Is e ErrCharacterNotFound then
    at_ ← now_;
    r ← MarkCharacterDeleted id at_;
    match r with
    | Err e => mret (Err (ErrWrap msg1 e))
    | Ok _ => mret (Ok [])
    end
  else mret (Err (ErrWrap msg2 e)).
Lemma fetch_failed_deletes id e msg1 msg2 (gone : Z -> Prop) w : neutral e \/ gone id ->
  let w' := (fetch_failed id e msg1 msg2 w).1 in deleted_only gone (cw_db w) (cw_db w') /\ cw_lode w' = cw_lode w.
Proof.
  unfold fetch_failed. intros Hg. destruct (errors_Is e _) eqn:He; [|split; [by apply deleted_only_weaken|done]].
  destruct Hg as [Hn|Hg]; [unfold neutral in Hn; congruence|].
  rewrite ST_bind_eq. unfold MarkCharacterDeleted, now_. rewrite ST_bind_eq. cbn [fst snd]. unfold db_write.
  pose proof (MarkDeleted_only (cw_db w) (cw_fault w (cw_calls w)) id (cw_clock w (cw_ticks w)) gone Hg) as H.
  cbn [cw_db cw_fault cw_calls]. destruct (MarkDeleted _ _ _ _) as [db [[]|e']]; (split; [exact H|done]).
Qed.

(** A fetch from [w] that ends in [l], and what its handler does with it. *)
Lemma fetch_failed_gone id e msg1 msg2 (w : World) l : neutral e \/ answered_gone id (cw_lode w) l ->
  let w' := (fetch_failed id e msg1 msg2 (mkCensusWorld (cw_db w) (cw_svc w) (cw_clock w) (cw_ticks w) (cw_fault w) (cw_calls w) l)).1 in
  deleted_only (fun id => answered_gone id (cw_lode w) (cw_lode w')) (cw_db w) (cw_db w').
Proof.
  intros Hg. set (w1 := mkCensusWorld _ _ _ _ _ _ l).
  destruct (fetch_failed_deletes id e msg1 msg2 (fun id => answered_gone id (cw_lode w) l) w1 Hg) as [Hd Hl].
  cbv zeta. by rewrite Hl.
Qed.

Lemma CharacterCensus_deletes configured payload (w : World) : neutral_net (lw_net (cw_lode w)) ->
  let w' := (CharacterCensus_Handle configured payload w).1 in
  deleted_only (fun id => answered_gone id (cw_lode w) (cw_lode w')) (cw_db w) (cw_db w').
Proof.
  intros Hnet. unfold CharacterCensus_Handle. destruct (unmarshal_CharacterID payload) as [p|e]; [|by apply deleted_only_weaken].
  destruct configured; cbn [negb]; [|by apply deleted_only_weaken]. rewrite ST_bind_eq. unfold on_lodestone. cbn [ld_FetchCharacter client CustomClient].
  pose proof (FetchCharacter_gone (ci_CharacterID p) (cw_lode w)) as Hg.
  destruct (FetchCharacter (ci_CharacterID p) (cw_lode w)) as [l [char|e]]; cbn [fst snd] in *.
  - apply deleted_only_weaken. apply (keeps_finishLodestone no_new_deleted Upsert_undeleted char (mkCensusWorld (cw_db w) _ _ _ _ _ l)).
  - apply (fetch_failed_gone (ci_CharacterID p) e "character-census mark-deleted" "character-census fetch"). by apply Hg.
Qed.

(** The reads before the achievements are fetched leave the client alone. *)
Lemma MilestoneIDs_frame (w : World) : let w' := (MilestoneIDs w).1 in cw_lode w' = cw_lode w /\ cw_db w' = cw_db w.
Proof.
  destruct w as [db svc clock ticks fault calls lode].
  unfold MilestoneIDs, cachedMilestones, get_service, now_, set_service, db_read, db_write, mret, ST_ret, mbind, ST_bind.
  cbn -[time_sub]. destruct (bool_decide _ && _); [done|]. by destruct (ListMilestones _ _).
Qed.

Lemma AchievementCensus_deletes waited payload (w : World) : neutral_net (lw_net (cw_lode w)) ->
  let w' := (AchievementCensus_Handle waited payload w).1 in
  deleted_only (fun id => answered_gone id (cw_lode w) (cw_lode w')) (cw_db w) (cw_db w').
Proof using Hparse.
  intros Hnet. unfold AchievementCensus_Handle. destruct (unmarshal_CharacterID payload) as [p|e]; [|by apply deleted_only_weaken].
  cbv zeta. destruct waited; [|by apply deleted_only_weaken]. rewrite ST_bind_eq. unfold db_read, db_write. cbn [fst snd].
  rewrite ST_bind_eq. set (w1 := mkCensusWorld _ _ _ _ _ _ _). destruct (MilestoneIDs_frame w1) as [Hl Hdb].
  destruct (MilestoneIDs w1) as [w2 [ids|e]]; cbn [fst snd] in *; [|apply deleted_only_weaken; unfold mret, ST_ret; cbn [fst]; rewrite Hdb; reflexivity].
  rewrite ST_bind_eq. unfold on_lodestone. cbn [ld_FetchAchievements client CustomClient].
  change (cw_lode w1) with (cw_lode w) in Hl. change (cw_db w1) with (cw_db w) in Hdb. rewrite <-Hl in Hnet |- *. rewrite <-Hdb.
  match goal with |- context [FetchAchievements ?i ?l _] => pose proof (FetchAchievements_gone i l (cw_lode w2)) as Hg;
    destruct (FetchAchievements i l (cw_lode w2)) as [l' [summary|e]] end; cbn [fst snd] in *.
  - apply deleted_only_weaken. set (w3 := mkCensusWorld _ _ _ _ _ _ l'). change (cw_db w2) with (cw_db w3). revert w3.
    match goal with |- let w3 := _ in no_new_deleted _ (cw_db (?m _).1) => intros w3; apply (fun H : keeps no_new_deleted m => H w3) end.
    repeat first [apply keeps_ProcessMilestoneResults; [typeclasses eauto|eauto with keeps..] | keeps_step].
  - apply (fetch_failed_gone (ci_CharacterID p) e "achievement-census mark-deleted" "achievement-census fetch"). by apply Hg.
Qed.

(** C13: only the site deletes.  Over the Lodestone client, an id sweep
    never marks a character deleted, and the character and achievement
    handlers mark one deleted only if, while they ran, the site answered for
    that character's page with 404 or with a 403 that is no Cloudflare
    challenge, or for its achievement list with 404.  A dead proxy, a 429, a
    202, a challenge, a time-out, exhausted retries, a failing database or a
    page that does not parse delete nobody. *)
Theorem only_the_site_deletes (w : World) configured waited payload (Hnet : neutral_net (lw_net (cw_lode w))) :
  no_new_deleted (cw_db w) (cw_db (IDSweep_Handle configured payload w).1)
  /\ (let w' := (CharacterCensus_Handle configured payload w).1 in
      deleted_only (fun id => answered_gone id (cw_lode w) (cw_lode w')) (cw_db w) (cw_db w'))
  /\ (let w' := (AchievementCensus_Handle waited payload w).1 in
      deleted_only (fun id => answered_gone id (cw_lode w) (cw_lode w')) (cw_db w) (cw_db w')).
Proof using Hparse.
  split; [|split; [by apply CharacterCensus_deletes|by apply AchievementCensus_deletes]].
  apply (keeps_IDSweep no_new_deleted). exact Upsert_undeleted.
Qed.
End Client.

(** A site on which every page is missing, and a census with character 10. *)
Definition gone_site : @lodeWorld RateLimiter :=
  mkLodeWorld 3 None (fun _ _ => mkExchange None None None None (Response (mkResponse 404 (fun _ => "")) (Ok "")) None 100 100 100) 0 [].
Definition gone_census : CensusDB :=
  (Upsert empty_census NoFault (profileToRecord 1 (mkCharacterProfile 10 "Aya" "Omega" "Chaos" 1 "" "Hyur" "Midlander" "" "" "" "" [])) []).1.
Definition gone_world : CensusWorld (@lodeWorld RateLimiter) :=
  mkCensusWorld gone_census NewService Z.of_nat 7 (fun _ => NoFault) 0 gone_site.
#[local] Instance gone_client : LodestoneClient (@lodeWorld RateLimiter) :=
  CustomClient (fun _ => None) (fun _ => Err (ErrorString "html")) entityMap (global_limiter map_to_list).

(** Character 10 is marked deleted by its 404. *)
Lemma only_the_site_deletes_witness :
  let w' := (CharacterCensus_Handle true (marshal_CharacterID (mkCharacterIDPayload 10)) gone_world).1 in
  (cr_DeletedAt ∘ row_rec <$> cdb_chars (cw_db w') !! 10) = Some (Some 7) /\ answered_gone 10 gone_site (cw_lode w').
Proof.
  split; [vm_compute; reflexivity|].
  destruct (only_the_site_deletes (fun _ => None) (fun _ => Err (ErrorString "html")) entityMap (global_limiter map_to_list)
    ltac:(intros body e [= <-]; reflexivity) gone_world true (Ok tt) (marshal_CharacterID (mkCharacterIDPayload 10))) as (_ & Hchar & _).
  - intros n url. constructor; intros; discriminate.
  - set (row := mkCharRow ((profileToRecord 1 (mkCharacterProfile 10 "Aya" "Omega" "Chaos" 1 "" "Hyur" "Midlander" "" "" "" "" [])){{ cr_DeletedAt := Some 7 }}) 0).
    destruct (Hchar 10 row) as [(r & Hr & Hd)|Hg]; [vm_compute; reflexivity|discriminate| |exact Hg].
    vm_compute in Hr. injection Hr as <-. discriminate.
Defined.
