(* ===== verification/CensusResults.v ===== *)
(** * What the census handlers compute

    A sweep over an id range against a site that answers deterministically,
    the classification of handler errors by the queue, and the agreement of
    the two summary queries. *)
From S2P Require Import Prelude GoErrors GoStrings Contract Payloads Worlds Queue CharacterStore CharacterStoreFacts Census.

Section Results.
Context {L : Type} `{LC : LodestoneClient L}.

(** The driver answers every call. *)
Definition clean (w : CensusWorld L) : Prop := forall n, cw_fault w n = NoFault.

(** ** The two summaries *)

Section Summaries.
Context (fold_case : string -> string).

Lemma where_min_level db id r m :
  census_ok db -> cdb_chars db !! id = Some r ->
  characterFilterWhere fold_case db (zeroFilter{{ cf_MinLevel := m }}) r = true <-> m <= row_MaxJobLevel r.
Proof.
  intros [Hid Hlv Hjob] Hr. destruct (Hlv id r Hr) as (H0 & Hle & Hin).
  assert (characterFilterWhere fold_case db (zeroFilter{{ cf_MinLevel := m }}) r
    = ((m <=? 0) || existsb (fun kv => (kv.1.1 =? cr_ID (row_rec r)) && (m <=? cj_Level kv.2)) (map_to_list (cdb_jobs db))))
    as -> by reflexivity.
  rewrite orb_true_iff, Z.leb_le, existsb_exists. split.
  - intros [?|([[i c] j] & Hj & [Hi Hl]%andb_true_iff)]; [lia|]. cbn in *.
    apply list_elem_of_In, elem_of_map_to_list in Hj. apply Z.eqb_eq in Hi. apply Z.leb_le in Hl.
    rewrite (Hid id r Hr) in Hi. subst. specialize (Hle c j Hj). lia.
  - intros Hm. destruct (Z.le_gt_cases m 0); [by left|right].
    destruct Hin as [?|(c & j & Hj & Hl)]; [lia|]. exists ((id, c), j). split.
    + by apply list_elem_of_In, elem_of_map_to_list.
    + cbn. rewrite (Hid id r Hr). apply andb_true_iff. split; [apply Z.eqb_refl|apply Z.leb_le; lia].
Qed.

Lemma matching_min_level db m :
  census_ok db ->
  length (matching fold_case db (zeroFilter{{ cf_MinLevel := m }}))
  = length (filter (fun r => m <= row_MaxJobLevel r) (filter (fun r => not_deleted r = true) (chars_list db))).
Proof.
  intros Hok. unfold matching. rewrite list_filter_filter. f_equal. apply filter_ext_in. intros r Hr.
  unfold chars_list in Hr. apply list_elem_of_fmap in Hr as ([id r'] & -> & Hr%elem_of_map_to_list). cbn.
  rewrite (where_min_level db id r' m) by done. tauto.
Qed.

(** the three concurrent counts of [Summary] and the single query
    of [SummaryCounts] agree on every database the repositories can produce,
    including the number of characters at the level cap, which one counts
    through the job table and the other through the denormalised column. *)
Theorem summaries_agree (w : CensusWorld L) ops
    (Hwf : Forall op_wf ops) (Hdb : cw_db w = run_census empty_census ops) (Hclean : clean w) :
  (Summary fold_case w).2 = (svc_SummaryCounts w).2 /\ is_ok (svc_SummaryCounts w).2 = true.
Proof.
  assert (Hok : census_ok (cw_db w)) by (rewrite Hdb; apply run_census_ok; [done|exact empty_census_ok]).
  unfold Summary, svc_SummaryCounts, db_read, db_write, get_service, now_.
  repeat (rewrite ST_bind_eq; cbn -[Count CountActive SummaryCounts]). rewrite !Hclean.
  unfold Count, CountActive, SummaryCounts, read_fault. cbn -[matching]. split; [|done].
  pose proof (matching_min_level (cw_db w) (sv_maxLevel (cw_svc w)) Hok) as Hmax.
  cbn -[matching] in Hmax |- *. rewrite Hmax. do 2 f_equal. f_equal.
  - unfold matching. apply (f_equal Z.of_nat), (f_equal length), filter_ext_in. intros r _.
    assert (characterFilterWhere fold_case (cw_db w) zeroFilter r = true) as -> by reflexivity. tauto.
  - rewrite list_filter_filter. apply (f_equal Z.of_nat), (f_equal length), filter_ext_in. intros r _. tauto.
Qed.
End Summaries.

(** ** What a profile looks like in the tables *)

(** The record of a profile that was first seen at [first] and last censused at
    [at_]; what the site does not say is kept from the row there was. *)
Definition census_record (old : option CharacterRecord) (p : CharacterProfile) (first at_ : Z) : CharacterRecord := {|
  cr_ID := cp_ID p; cr_Name := cp_Name p; cr_World := cp_World p; cr_Datacenter := cp_Datacenter p;
  cr_Region := RegionForDatacenter (cp_Datacenter p); cr_Race := cp_Race p; cr_Tribe := cp_Tribe p;
  cr_Gender := cp_Gender p; cr_GrandCompany := cp_GrandCompany p;
  cr_FreeCompanyID := if bool_decide (cp_FreeCompanyID p = "") then None else Some (cp_FreeCompanyID p);
  cr_FreeCompanyName := if bool_decide (cp_FreeCompanyName p = "") then None else Some (cp_FreeCompanyName p);
  cr_Bio := cp_Bio p; cr_ActiveJob := cp_ActiveJob p; cr_ItemLevel := 0;
  cr_AchievementsPrivate := from_option cr_AchievementsPrivate false old;
  cr_LatestAchievementID := old ≫= cr_LatestAchievementID; cr_LatestAchievementAt := old ≫= cr_LatestAchievementAt;
  cr_FirstSeenAt := first; cr_LastCensusAt := Some at_; cr_DeletedAt := None |}.
(** The class of a profile, as it is stored: the last entry counts. *)
Definition class_job (p : CharacterProfile) (c : Z) : option ClassJobRecord :=
  (fun j => mkClassJobRecord (cp_ID p) c (cj_Name j) (cj_Level j) (cj_ExpLevel j)) <$>
    list.last (filter (fun j => cj_ClassJobID j = c) (cp_ClassJobs p)).
(** The highest of some levels, 0 without any. *)
Definition highest (levels : list Z) (l : Z) : Prop := (forall x, x ∈ levels -> x <= l) /\ 0 <= l /\ (l = 0 \/ l ∈ levels).

(** The tables [db] show the profile of [id], over the row of [db0]. *)
Definition pictured (db0 db : CensusDB) (id : Z) (p : CharacterProfile) (first at_ : Z) : Prop :=
  (exists row, cdb_chars db !! id = Some row /\ row_rec row = census_record (row_rec <$> cdb_chars db0 !! id) p first at_ /\
     highest (cj_Level <$> cp_ClassJobs p) (row_MaxJobLevel row)) /\
  (forall old, cdb_chars db0 !! id = Some old -> first = cr_FirstSeenAt (row_rec old)) /\
  (forall c, cdb_jobs db !! (id, c) = class_job p c).
Definition same_character (id : Z) (db db' : CensusDB) : Prop :=
  cdb_chars db' !! id = cdb_chars db !! id /\ forall c, cdb_jobs db' !! (id, c) = cdb_jobs db !! (id, c).

#[global] Instance same_character_equiv id : Equivalence (same_character id).
Proof.
  split.
  - by split.
  - intros db db' [Hc Hj]. by split.
  - intros db db' db'' [Hc Hj] [Hc' Hj']. split; [by rewrite Hc'|]. intros c. by rewrite Hj'.
Qed.
Lemma pictured_same_l db0 db1 db id p first at_ : same_character id db0 db1 -> pictured db1 db id p first at_ -> pictured db0 db id p first at_.
Proof. intros [Hc _]. unfold pictured. by rewrite Hc. Qed.
Lemma pictured_same_r db0 db db' id p first at_ : same_character id db db' -> pictured db0 db id p first at_ -> pictured db0 db' id p first at_.
Proof. intros [Hc Hj] (Hrow & Hf & Hjobs). split; [by rewrite Hc|]. split; [done|]. intros c. by rewrite Hj. Qed.
(** A later census keeps what the first one kept. *)
Lemma pictured_trans db0 db1 db2 id p p' f1 t1 f2 t2 :
  pictured db0 db1 id p f1 t1 -> pictured db1 db2 id p' f2 t2 -> pictured db0 db2 id p' f1 t2.
Proof.
  intros ((r1 & H1 & He1 & _) & Hf1 & _) ((r2 & H2 & He2 & Hl) & Hf2 & Hjobs). split_and!; [|done|done]. exists r2. split_and!; try done.
  rewrite He2, H1. cbn. rewrite (Hf2 _ H1), He1. cbn. unfold census_record. by destruct (cdb_chars db0 !! id).
Qed.

Lemma upsert_row_record old at_ p l :
  row_rec (upsert_row old (profileToRecord at_ p) l) = census_record (row_rec <$> old) p (from_option (cr_FirstSeenAt ∘ row_rec) at_ old) at_.
Proof. by destruct old as [[o lvl]|]. Qed.
Lemma profileToJobs_levels p : cj_Level <$> profileToJobs p = cj_Level <$> cp_ClassJobs p.
Proof. unfold profileToJobs. by rewrite <-list_fmap_compose. Qed.
Lemma maxJobLevel_highest p : highest (cj_Level <$> cp_ClassJobs p) (maxJobLevel (profileToJobs p)).
Proof.
  rewrite maxJobLevel_max, profileToJobs_levels. destruct (fold_max_spec (cj_Level <$> cp_ClassJobs p) 0) as (H0 & Hle & Hin). by split_and!.
Qed.
Lemma fold_insert_jobs (p : CharacterProfile) (c : Z) (m : gmap (Z * Z) ClassJobRecord) : m !! (cp_ID p, c) = None ->
  fold_left insert_job (profileToJobs p) m !! (cp_ID p, c) = class_job p c.
Proof.
  intros Hm. unfold profileToJobs, class_job. induction (cp_ClassJobs p) as [|j jobs IH] using rev_ind; [done|].
  rewrite fmap_app, fold_left_app. cbn. unfold insert_job at 1. cbn. rewrite list.filter_app, lookup_insert. case_decide as Hd.
  - injection Hd as Hd. subst c. rewrite list.filter_cons_True by done. by rewrite list.filter_nil, last_snoc.
  - rewrite list.filter_cons_False by congruence. by rewrite list.filter_nil, app_nil_r.
Qed.
Lemma fold_insert_jobs_other (p : CharacterProfile) (id c : Z) : forall m : gmap (Z * Z) ClassJobRecord, id <> cp_ID p ->
  fold_left insert_job (profileToJobs p) m !! (id, c) = m !! (id, c).
Proof.
  unfold profileToJobs. intros m Hne. revert m. induction (cp_ClassJobs p) as [|j jobs IH]; intros m; [done|].
  rewrite fmap_cons. cbn [fold_left]. rewrite IH. unfold insert_job. rewrite lookup_insert_ne; [done|]. cbn. naive_solver.
Qed.

(** Whatever the driver answers, an upsert writes its character or nothing. *)
Lemma Upsert_pictures db f at_ p db' r : Upsert db f (profileToRecord at_ p) (profileToJobs p) = (db', r) ->
  let first := from_option (cr_FirstSeenAt ∘ row_rec) at_ (cdb_chars db !! cp_ID p) in
  (forall id, same_character id db db' \/ (id = cp_ID p /\ pictured db db' id p first at_)) /\
  match r with Ok _ => pictured db db' (cp_ID p) p first at_ | Err e => f = Refused e \/ f = LostReply e end.
Proof.
  unfold Upsert. cbv zeta. set (new := db{{ cdb_chars := _; cdb_jobs := _ }}).
  assert (Hother : forall id, id <> cp_ID p -> same_character id db new).
  { intros id Hne. subst new. destruct db. split; cbn; [by rewrite lookup_insert_ne|]. intros c.
    rewrite fold_insert_jobs_other by done. destruct (_ !! (id, c)) as [j|] eqn:Hj at 2; [by apply map_lookup_filter_Some|].
    apply map_lookup_filter_None. by left. }
  assert (Hself : pictured db new (cp_ID p) p (from_option (cr_FirstSeenAt ∘ row_rec) at_ (cdb_chars db !! cp_ID p)) at_).
  { subst new. destruct db as [chars]. split_and!; cbn.
    - eexists. rewrite lookup_insert_eq. split; [done|]. split; [apply upsert_row_record|]. destruct (chars !! cp_ID p); apply maxJobLevel_highest.
    - by intros old ->.
    - intros c. apply fold_insert_jobs. apply map_lookup_filter_None. right. cbn. naive_solver. }
  assert (Hnew : forall id, same_character id db new \/ (id = cp_ID p /\ pictured db new id p (from_option (cr_FirstSeenAt ∘ row_rec) at_ (cdb_chars db !! cp_ID p)) at_)).
  { intros id. destruct (decide (id = cp_ID p)) as [->|Hne]; [by right|left; auto]. }
  clearbody new. destruct f; cbn [with_fault fst]; intros [= <- <-]; split; auto; intros id; left; reflexivity.
Qed.

(** ** A sweep against a deterministic site *)

Section Sweep.
(** What Lodestone answers for each id, independently of earlier requests. *)
Context (site : Z -> result CharacterProfile)
        (Hsite : forall id l, (ld_FetchCharacter id l).2 = site id).

(** The profile a sweep stores for an id: none when the site has none or does
    not show its race. *)
Definition hides_race (p : CharacterProfile) : bool := bool_decide (TrimSpace (cp_Race p) ∈ [""; "----"]).
Definition censused (id : Z) : option CharacterProfile :=
  match site id with
  | Ok p => if hides_race p then None else Some p
  | Err _ => None
  end.
Lemma hides_race_code p : hiddenRace (cp_Race p) = hides_race p.
Proof.
  unfold hiddenRace, hides_race. apply eq_true_iff_eq. rewrite orb_true_iff, !bool_decide_eq_true, !elem_of_cons, elem_of_nil. tauto.
Qed.

(** The site has the named profile of [id], or says it does not exist. *)
Definition answerable (id : Z) : Prop :=
  match site id with
  | Ok p => cp_ID p = id /\ TrimSpace (cp_Name p) <> ""
  | Err e => errors_Is e ErrCharacterNotFound = true
  end.

(** The jobs chained for a list of swept ids: the achievement census of every
    character that was stored. *)
Definition follow_up (id : Z) : QueueJob := mkQueueJob "achievement-census" (JObj [("character_id", JInt id)]).
Definition chained (ids : list Z) : list QueueJob := follow_up <$> filter (fun id => is_Some (censused id)) ids.

(** The clock is read once for every character that is stored, in order. *)
Definition probe_time (w : CensusWorld L) (ids : list Z) (id : Z) : Z :=
  cw_clock w (cw_ticks w + length (filter (fun x => (x < id)%Z /\ is_Some (censused x)) ids))%nat.
(** The characters after sweeping the ascending [ids]: a censused id shows its
    profile, over what was there before and with the time of its probe; every
    other character is as before. *)
Definition swept (w w' : CensusWorld L) (ids : list Z) : Prop :=
  forall id,
    match (if decide (id ∈ ids) then censused id else None) with
    | Some p =>
        let t := probe_time w ids id in
        pictured (cw_db w) (cw_db w') id p (from_option (cr_FirstSeenAt ∘ row_rec) t (cdb_chars (cw_db w) !! id)) t
    | None => same_character id (cw_db w) (cw_db w')
    end.

(** The state of the clock after a sweep. *)
Definition clock_after (w w' : CensusWorld L) (ids : list Z) : Prop :=
  cw_clock w' = cw_clock w /\ cw_ticks w' = (cw_ticks w + length (filter (fun x => is_Some (censused x)) ids))%nat.

Lemma swept_none (w w' : CensusWorld L) id : censused id = None -> cw_db w' = cw_db w -> swept w w' [id].
Proof.
  intros Hn Hdb j. rewrite Hdb. case_decide as Hj; [|reflexivity]. apply list_elem_of_singleton in Hj. subst. by rewrite Hn.
Qed.
Lemma chained_one id : chained [id] = if censused id is Some _ then [follow_up id] else [].
Proof. unfold chained. cbn. destruct (censused id) eqn:Hc; [rewrite decide_True by eauto|rewrite decide_False by (by intros [??])]; done. Qed.
Lemma count_one id : length (filter (fun x => is_Some (censused x)) [id]) = if censused id is Some _ then 1%nat else 0%nat.
Proof. cbn. destruct (censused id) eqn:Hc; [rewrite decide_True by eauto|rewrite decide_False by (by intros [??])]; done. Qed.

(** One probe and store of the loop. *)
Definition probe (id : Z) : ST (CensusWorld L) (result (list QueueJob)) :=
  r ← on_lodestone (ld_FetchCharacter id);
  match r with
  | Ok char => storeLodestone char
  | Err e => if errors_Is e ErrCharacterNotFound then mret (Ok [])
             else mret (Err (ErrWrap "id-sweep lodestone fetch" e))
  end.

Lemma sweep_ids_probe more id next w :
  sweep_ids more id next w =
    match probe id w with
    | (w', Err e) => (w', Err e)
    | (w', Ok jobs) =>
        match more with
        | O => (w', Ok (next ++ jobs))
        | S more => sweep_ids more (u32 (id + 1)) (next ++ jobs) w'
        end
    end.
Proof.
  unfold probe. rewrite ST_bind_eq. destruct more as [|more]; cbn [sweep_ids]; rewrite ST_bind_eq;
    destruct (on_lodestone (ld_FetchCharacter id) w) as [w1 [char|e]]; cbn [fst snd]; rewrite ST_bind_eq;
    first [destruct (storeLodestone char w1) as [w2 [jobs|e]] | destruct (errors_Is e ErrCharacterNotFound)]; reflexivity.
Qed.

Lemma on_lodestone_fetch id w :
  exists l, on_lodestone (ld_FetchCharacter id) w
    = (mkCensusWorld (cw_db w) (cw_svc w) (cw_clock w) (cw_ticks w) (cw_fault w) (cw_calls w) l, site id).
Proof.
  unfold on_lodestone. pose proof (Hsite id (cw_lode w)) as Hs. destruct (ld_FetchCharacter id (cw_lode w)) as [l r].
  cbn in Hs. subst. by exists l.
Qed.

Lemma probe_answerable id w :
  clean w -> answerable id ->
  exists w', probe id w = (w', Ok (chained [id])) /\ clean w' /\ clock_after w w' [id] /\ swept w w' [id].
Proof.
  intros Hc Ha. unfold probe, clock_after. rewrite ST_bind_eq, chained_one, count_one. destruct (on_lodestone_fetch id w) as [l ->]. cbn [fst snd].
  unfold answerable in Ha. destruct (site id) as [p|e] eqn:Hid.
  - destruct Ha as [<- Hname]. unfold storeLodestone, UpsertCharacter. rewrite ST_bind_eq, hides_race_code.
    destruct (hides_race p) eqn:Hh.
    + assert (Hn : censused (cp_ID p) = None) by (unfold censused; by rewrite Hid, Hh). rewrite Hn.
      eexists. split; [reflexivity|]. split; [done|]. split; [split; [done|cbn; lia]|]. by apply swept_none.
    + assert (Hn : censused (cp_ID p) = Some p) by (unfold censused; by rewrite Hid, Hh). rewrite Hn.
      rewrite bool_decide_eq_false_2 by done. rewrite ST_bind_eq. unfold now_, db_write.
      cbn [fst snd cw_db cw_fault cw_calls cw_svc cw_clock cw_ticks cw_lode]. rewrite Hc.
      destruct (Upsert _ _ _ _) as [db r] eqn:Hu. apply Upsert_pictures in Hu as [Hany Hok]. destruct r as [[]|e]; [|naive_solver].
      eexists. split; [reflexivity|]. split; [exact Hc|]. split; [split; [done|cbn; lia]|].
      intros j. cbn [cw_db cw_clock cw_ticks]. case_decide as Hj.
      * apply list_elem_of_singleton in Hj. subst j. rewrite Hn. unfold probe_time. rewrite list.filter_cons_False by lia. cbn. by rewrite Nat.add_0_r.
      * destruct (Hany j) as [|[-> _]]; [done|]. exfalso. by apply Hj, list_elem_of_singleton.
  - assert (Hn : censused id = None) by (unfold censused; by rewrite Hid). rewrite Hn, Ha.
    eexists. split; [reflexivity|]. split; [done|]. split; [split; [done|cbn; lia]|]. by apply swept_none.
Qed.

Lemma swept_nil w : swept w w [].
Proof. intros id. by rewrite decide_False by apply not_elem_of_nil. Qed.

Lemma probe_time_l w ids ids' id : (forall a b, a ∈ ids -> b ∈ ids' -> a < b) -> id ∈ ids -> probe_time w (ids ++ ids') id = probe_time w ids id.
Proof.
  intros Hord Hid. unfold probe_time. rewrite list.filter_app, (filter_none _ ids'); [by rewrite app_nil_r|].
  intros x Hx [Hlt _]. specialize (Hord id x Hid Hx). lia.
Qed.
Lemma probe_time_r w w1 ids ids' id : (forall a b, a ∈ ids -> b ∈ ids' -> a < b) -> clock_after w w1 ids -> id ∈ ids' ->
  probe_time w (ids ++ ids') id = probe_time w1 ids' id.
Proof.
  intros Hord [Hclk Ht] Hid. unfold probe_time. rewrite Hclk, Ht, list.filter_app, length_app, <-Nat.add_assoc. do 3 f_equal.
  f_equal. apply filter_ext_in. intros x Hx. specialize (Hord x id Hx Hid). tauto.
Qed.
Lemma swept_app w w1 w2 ids ids' :
  clock_after w w1 ids -> (forall a b, a ∈ ids -> b ∈ ids' -> a < b) ->
  swept w w1 ids -> swept w1 w2 ids' -> swept w w2 (ids ++ ids').
Proof.
  intros Hclk Hord H1 H2 j. specialize (H1 j). specialize (H2 j).
  erewrite (decide_ext (j ∈ ids ++ ids') (j ∈ ids \/ j ∈ ids')) by apply elem_of_app.
  destruct (decide (j ∈ ids)) as [Hj|Hj].
  - rewrite decide_False in H2 by (intros Hj'; specialize (Hord j j Hj Hj'); lia). rewrite decide_True by auto.
    destruct (censused j); [rewrite probe_time_l by done; by eapply pictured_same_r|by etrans].
  - erewrite (decide_ext (j ∈ ids \/ j ∈ ids') (j ∈ ids')) by tauto. destruct (decide (j ∈ ids')) as [Hj'|]; [|by etrans].
    destruct (censused j); [|by etrans]. rewrite (probe_time_r w w1) by done. cbv zeta in *. destruct H1 as [Hc Hjobs]. rewrite Hc in H2.
    eapply pictured_same_l; [by split|exact H2].
Qed.
Lemma clock_after_app w w1 w2 ids ids' : clock_after w w1 ids -> clock_after w1 w2 ids' -> clock_after w w2 (ids ++ ids').
Proof. intros [Hc Ht] [Hc' Ht']. split; [congruence|]. rewrite list.filter_app, length_app. lia. Qed.
Lemma chained_app ids ids' : chained (ids ++ ids') = chained ids ++ chained ids'.
Proof. unfold chained. by rewrite list.filter_app, fmap_app. Qed.

(** The first [n] ids of a sweep, when the site answers for them. *)
Lemma sweep_prefix n : forall more id next w,
  clean w -> 0 <= id -> id + Z.of_nat n <= max_uint32 ->
  (forall x, id <= x < id + Z.of_nat n -> answerable x) ->
  exists w', sweep_ids (n + more) id next w
      = sweep_ids more (id + Z.of_nat n) (next ++ chained (zrange id (id + Z.of_nat n - 1))) w'
    /\ clean w' /\ clock_after w w' (zrange id (id + Z.of_nat n - 1)) /\ swept w w' (zrange id (id + Z.of_nat n - 1)).
Proof.
  induction n as [|n IH]; intros more id next w Hc H0 Hmax Ha.
  - exists w. rewrite zrange_empty by lia. rewrite Z.add_0_r, app_nil_r. split_and!; [done|done|split; [done|cbn; lia]|apply swept_nil].
  - destruct (probe_answerable id w Hc) as (w1 & Hp & Hc1 & Hclk & Hs1); [apply Ha; lia|].
    rewrite sweep_ids_probe, Hp. cbn [Nat.add]. rewrite u32_id by (unfold is_u32; lia).
    edestruct (IH more (id + 1)) as (w' & -> & Hc' & Hclk' & Hs'); [done|lia|lia|intros; apply Ha; lia|].
    exists w'. rewrite (zrange_cons id) by lia.
    replace (id + 1 + Z.of_nat n) with (id + Z.of_nat (S n)) in * by lia.
    set (rest := zrange (id + 1) _) in *. change (id :: rest) with ([id] ++ rest). rewrite (chained_app [id]).
    split; [by rewrite <- app_assoc|]. split; [done|]. split; [by eapply clock_after_app|].
    apply (swept_app w w1 w' [id]); auto. intros x y ->%list_elem_of_singleton. unfold rest. rewrite elem_of_zrange. lia.
Qed.

(** C16: a sweep job whose range the site answers for, with the database
    answering, stores exactly the censusable characters of the range: each shows
    the profile the site shows, field by field, its class jobs and their highest
    level, and the time of its own probe, the clock being read once per stored
    character in id order; a character that was there keeps when it was first
    seen and its achievements, and is no longer marked deleted; every other
    character is untouched; and the job chains one achievement job per stored
    character in id order.  Ids that do not exist and hidden profiles are passed
    over without failing the job.  Ranges that end at the largest id terminate. *)
Theorem id_sweep_stores_range (w : CensusWorld L) payload from to src
    (Hpayload : unmarshal_IDSweep payload = Ok (mkIDSweepPayload from to src))
    (Hrange : 0 <= from <= to) (Hmax : to <= max_uint32)
    (Hanswer : forall id, from <= id <= to -> answerable id) (Hclean : clean w) :
  exists w', IDSweep_Handle true payload w = (w', Ok (chained (zrange from to))) /\ swept w w' (zrange from to).
Proof.
  unfold IDSweep_Handle. rewrite Hpayload. cbn [is_From is_To].
  rewrite (proj2 (Z.ltb_ge to from)) by lia. cbn [negb].
  destruct (sweep_prefix (Z.to_nat (to - from)) 0 from [] w) as (w1 & Hrun & Hc1 & Hclk & Hs); [done|lia|lia|intros; apply Hanswer; lia|].
  rewrite Nat.add_0_r in Hrun. rewrite Hrun. clear Hrun.
  replace (from + Z.of_nat (Z.to_nat (to - from))) with to in * by lia.
  destruct (probe_answerable to w1 Hc1) as (w2 & Hp & _ & _ & Hs2); [apply Hanswer; lia|].
  rewrite sweep_ids_probe, Hp. exists w2.
  assert (Hz : zrange from to = zrange from (to - 1) ++ [to]).
  { rewrite (zrange_split from (to - 1) to) by lia. replace (to - 1 + 1) with to by lia.
    rewrite (zrange_cons to to) by lia. rewrite (zrange_empty (to + 1) to) by lia. done. }
  rewrite Hz. split; [by rewrite chained_app|].
  apply swept_app with w1; [done| |done|done]. intros x y Hx%elem_of_zrange ->%list_elem_of_singleton. lia.
Qed.


(** a sweep never skips an id on anything but a genuine "does
    not exist".  When the site fails for an id with any other error, the job
    fails at that id with the queue's verdict on that very error (so a
    transient failure is retried), the ids before it are stored, and the rows
    from it on are untouched. *)
Theorem id_sweep_stops_at_error (w : CensusWorld L) payload from to src bad e
    (Hpayload : unmarshal_IDSweep payload = Ok (mkIDSweepPayload from to src))
    (Hrange : 0 <= from <= bad) (Hbad : bad <= to) (Hmax : to <= max_uint32)
    (Hanswer : forall id, from <= id < bad -> answerable id)
    (Herror : site bad = Err e) (Hreal : errors_Is e ErrCharacterNotFound = false) (Hclean : clean w) :
  exists w' e', IDSweep_Handle true payload w = (w', Err e') /\ swept w w' (zrange from (bad - 1))
    /\ forall attempts, failureDecision e' attempts = failureDecision e attempts.
Proof.
  unfold IDSweep_Handle. rewrite Hpayload. cbn [is_From is_To].
  rewrite (proj2 (Z.ltb_ge to from)) by lia. cbn [negb].
  destruct (sweep_prefix (Z.to_nat (bad - from)) (Z.to_nat (to - bad)) from [] w) as (w1 & Hrun & Hc1 & Hclk & Hs);
    [done|lia|lia|intros; apply Hanswer; lia|].
  replace (Z.to_nat (bad - from) + Z.to_nat (to - bad))%nat with (Z.to_nat (to - from)) in Hrun by lia.
  rewrite Hrun. clear Hrun. replace (from + Z.of_nat (Z.to_nat (bad - from))) with bad in * by lia.
  rewrite sweep_ids_probe. unfold probe. rewrite ST_bind_eq. destruct (on_lodestone_fetch bad w1) as [l ->].
  cbn [fst snd]. rewrite Herror, Hreal. eexists _, _. split; [reflexivity|]. split; [exact Hs|]. done.
Qed.
End Sweep.

(** ** Poison payloads *)

Lemma poison_is_dead e attempts : failureDecision (poison e) attempts = mkFailureOutcome true 0.
Proof. unfold failureDecision, poison. cbn. by rewrite bool_decide_eq_true_2. Qed.

(** The payloads a handler can never process. *)
Definition sweep_poison (payload : json) : bool :=
  match unmarshal_IDSweep payload with Ok p => is_To p <? is_From p | Err _ => true end.

(** A payload that does not decode, or a sweep range that runs
    backwards, is dead-lettered at once by the queue whatever its attempt
    count, without a request to Lodestone or a database call; and when a
    handler's fetch or database call fails, the error it returns gets the
    verdict of its cause, so a failure that is not poison is never
    dead-lettered by the handler. *)
Theorem poison_is_parked (w : CensusWorld L) payload configured waited attempts :
  (sweep_poison payload = true ->
     exists e, IDSweep_Handle configured payload w = (w, Err e) /\ fo_dead (failureDecision e attempts) = true)
  /\ (is_ok (unmarshal_CharacterID payload) = false ->
     (exists e, CharacterCensus_Handle configured payload w = (w, Err e) /\ fo_dead (failureDecision e attempts) = true)
     /\ (exists e, AchievementCensus_Handle waited payload w = (w, Err e) /\ fo_dead (failureDecision e attempts) = true))
  /\ (forall p e, unmarshal_CharacterID payload = Ok p ->
       (ld_FetchCharacter (ci_CharacterID p) (cw_lode w)).2 = Err e -> errors_Is e ErrCharacterNotFound = false ->
       exists e', (CharacterCensus_Handle true payload w).2 = Err e'
         /\ cw_db (CharacterCensus_Handle true payload w).1 = cw_db w
         /\ failureDecision e' attempts = failureDecision e attempts).
Proof.
  split_and!.
  - unfold sweep_poison, IDSweep_Handle. destruct (unmarshal_IDSweep payload) as [p|e]; [intros ->|intros _];
      eexists; (split; [reflexivity|by rewrite poison_is_dead]).
  - intros Hp. unfold CharacterCensus_Handle, AchievementCensus_Handle.
    destruct (unmarshal_CharacterID payload) as [p|e]; [done|].
    split; eexists; (split; [reflexivity|by rewrite poison_is_dead]).
  - intros p e Hp Hf He. unfold CharacterCensus_Handle. rewrite Hp. cbn [negb]. rewrite ST_bind_eq.
    unfold on_lodestone. destruct (ld_FetchCharacter (ci_CharacterID p) (cw_lode w)) as [l r]. cbn in Hf. subst r.
    cbn -[failureDecision]. rewrite He. eexists. split; [reflexivity|]. done.
Qed.

(** ** Achievements *)

Definition registry_list (db : CensusDB) : list MilestoneAchievement :=
  merge_sort registry_le (map_to_list (cdb_registry db)).*2.

(** The cached registry is the stored one, or absent. *)
Definition coherent (w : CensusWorld L) : Prop :=
  sv_milestoneCache (cw_svc w) = [] \/ sv_milestoneCache (cw_svc w) = registry_list (cw_db w).

Lemma cachedMilestones_clean w :
  clean w -> coherent w ->
  exists w', cachedMilestones w = (w', Ok (registry_list (cw_db w)))
    /\ cw_db w' = cw_db w /\ clean w' /\ coherent w' /\ cw_lode w' = cw_lode w.
Proof.
  intros Hc Hco. unfold cachedMilestones, get_service, now_. rewrite !ST_bind_eq. cbn -[ListMilestones bool_decide].
  case_match eqn:Hv.
  - apply andb_true_iff in Hv as [Hv _]. apply bool_decide_eq_true in Hv.
    destruct Hco as [?|Hco]; [done|]. rewrite Hco. eexists. split; [reflexivity|]. split_and!; [done|done|by right|done].
  - rewrite ST_bind_eq. unfold db_read, db_write. cbn -[ListMilestones]. rewrite Hc.
    unfold ListMilestones. cbn [read_fault]. fold (registry_list (cw_db w)). cbn.
    eexists. split; [reflexivity|]. split_and!; [done|done| |done]. right. by destruct (cw_svc w).
Qed.

Lemma MilestoneIDs_clean w :
  clean w -> coherent w ->
  exists w', MilestoneIDs w = (w', Ok (list_to_set (ma_AchievementID <$> registry_list (cw_db w))))
    /\ cw_db w' = cw_db w /\ clean w' /\ coherent w' /\ cw_lode w' = cw_lode w.
Proof.
  intros Hc Hco. unfold MilestoneIDs. rewrite ST_bind_eq.
  destruct (cachedMilestones_clean w Hc Hco) as (w' & -> & Hw'). by exists w'.
Qed.

(** The milestones the registry table names. *)
Definition tracked (db : CensusDB) (a : Z) : Prop := exists k m, cdb_registry db !! k = Some m /\ ma_AchievementID m = a.
Lemma tracked_list db a : tracked db a <-> a ∈ (ma_AchievementID <$> registry_list db).
Proof.
  unfold tracked, registry_list. rewrite list_elem_of_fmap. split.
  - intros (k & m & Hm & <-). exists m. split; [done|]. rewrite (merge_sort_Permutation registry_le). apply list_elem_of_fmap. exists (k, m).
    split; [done|]. by apply elem_of_map_to_list.
  - intros (m & -> & Hm). rewrite (merge_sort_Permutation registry_le) in Hm. apply list_elem_of_fmap in Hm as ([k m'] & -> & Hm).
    apply elem_of_map_to_list in Hm. eauto.
Qed.

(** The ids the handler asks Lodestone about. *)
Definition asked (db : CensusDB) (id : Z) : list Z :=
  missingMilestoneIDs (list_to_set (ma_AchievementID <$> registry_list db))
    (merge_sort achieved_ge ((fun kv => mkCharacterMilestone kv.1.1 kv.1.2 kv.2) <$>
       filter (fun kv => kv.1.1 = id) (map_to_list (cdb_milestones db)))).

Lemma elem_of_asked db id a : a ∈ asked db id <-> tracked db a /\ cdb_milestones db !! (id, a) = None.
Proof.
  rewrite tracked_list. unfold asked, missingMilestoneIDs. rewrite list_elem_of_filter, (merge_sort_Permutation Z.le), elem_of_elements, elem_of_list_to_set.
  assert (Hk : a ∈ cm_AchievementID <$> merge_sort achieved_ge ((fun kv => mkCharacterMilestone kv.1.1 kv.1.2 kv.2) <$>
       filter (fun kv => kv.1.1 = id) (map_to_list (cdb_milestones db))) <-> is_Some (cdb_milestones db !! (id, a))).
  { rewrite list_elem_of_fmap. split.
    - intros (m & -> & Hm). rewrite merge_sort_Permutation in Hm. apply list_elem_of_fmap in Hm as ([[c x] t] & -> & Hm).
      apply list_elem_of_filter in Hm as [Hc Hm%elem_of_map_to_list]. cbn in *. subst. eauto.
    - intros [t Ht]. exists (mkCharacterMilestone id a t). split; [done|]. rewrite merge_sort_Permutation.
      apply list_elem_of_fmap. exists ((id, a), t). split; [done|]. apply list_elem_of_filter. split; [done|].
      by apply elem_of_map_to_list. }
  rewrite Hk, <- eq_None_not_Some. tauto.
Qed.

Lemma asked_ascending db id : StronglySorted Z.lt (asked db id).
Proof.
  unfold asked, missingMilestoneIDs. set (known := cm_AchievementID <$> _). set (l := elements _).
  assert (Hnd : NoDup (merge_sort Z.le l)) by (rewrite (merge_sort_Permutation Z.le); apply NoDup_elements).
  assert (Hs : StronglySorted Z.le (merge_sort Z.le l)) by apply (StronglySorted_merge_sort Z.le).
  induction Hs as [|x rest Hs IH Hall]; [constructor|]. apply list.NoDup_cons in Hnd as [Hx Hnd]. specialize (IH Hnd).
  destruct (decide (x ∉ known)) as [Hn|Hn]; [rewrite list.filter_cons_True by done|by rewrite list.filter_cons_False].
  constructor; [done|]. apply list.Forall_forall. intros y [_ Hy]%list_elem_of_filter. rewrite list.Forall_forall in Hall. specialize (Hall y Hy).
  assert (x <> y) by (by intros ->). lia.
Qed.

(** What one batch of earned milestones does to the table. *)
Lemma fold_milestones_lookup ms : forall (m : gmap (Z * Z) Z) k t, NoDup (milestone_key <$> ms) ->
  fold_left (fun m x => <[milestone_key x := cm_AchievedAt x]> m) ms m !! k = Some t
  <-> (exists x, x ∈ ms /\ milestone_key x = k /\ cm_AchievedAt x = t) \/ (~ k ∈ (milestone_key <$> ms) /\ m !! k = Some t).
Proof.
  induction ms as [|x ms IH]; intros m k t Hnd; cbn [fold_left].
  - split; [right; by split; [apply not_elem_of_nil|]|]. by intros [(x & []%elem_of_nil & _)|[_ ?]].
  - rewrite fmap_cons in Hnd |- *. apply list.NoDup_cons in Hnd as [Hx Hnd]. rewrite IH by done. rewrite not_elem_of_cons, lookup_insert. split.
    + intros [(y & Hy & <- & <-)|[Hk Hm]]; [left; exists y; split; [by right|done]|]. case_decide as Hd; [|right; by split_and!].
      injection Hm as <-. left. exists x. split; [left|done].
    + intros [(y & [->|Hy]%elem_of_cons & <- & <-)|([Hk Hk'] & Hm)].
      * right. split; [done|]. by rewrite decide_True.
      * left. by exists y.
      * right. split; [done|]. by rewrite decide_False.
Qed.

(** A result of the page that says [a] was earned at [t]. *)
Definition earned_on (s : AchievementSummary) (a t : Z) : Prop :=
  exists r, r ∈ as_Milestones s /\ ar_Earned r = true /\ ar_AchievementID r = a /\ ar_EarnedAt r = t.
Lemma earned_elem db id s c a t :
  (exists x, x ∈ earned_milestones id (registry_list db) (as_Milestones s) /\ milestone_key x = (c, a) /\ cm_AchievedAt x = t)
  <-> c = id /\ tracked db a /\ earned_on s a t.
Proof.
  unfold earned_milestones, earned_on. rewrite tracked_list. split.
  - intros (x & Hx & [= <- <-] & <-). apply list_elem_of_fmap in Hx as (r & -> & Hr). apply list_elem_of_filter in Hr as [[He Ht] Hr].
    cbn. split_and!; [done|done|by exists r].
  - intros (-> & Ht & r & Hr & He & <- & <-). exists (mkCharacterMilestone id (ar_AchievementID r) (ar_EarnedAt r)). split; [|done].
    apply list_elem_of_fmap. exists r. split; [done|]. by apply list_elem_of_filter.
Qed.

Lemma earned_nodup id registry results :
  NoDup (ar_AchievementID <$> results) -> NoDup (milestone_key <$> earned_milestones id registry results).
Proof.
  intros Hnd. unfold earned_milestones. rewrite <- list_fmap_compose.
  apply NoDup_fmap_2_strong.
  - intros r r' Hr Hr' [= Heq]. apply list_elem_of_filter in Hr as [_ Hr], Hr' as [_ Hr'].
    apply list_elem_of_lookup in Hr as [i Hi], Hr' as [j Hj].
    assert (i = j) as -> by (eapply (NoDup_lookup (ar_AchievementID <$> results)); [done|rewrite list_lookup_fmap, Hi; cbn; by rewrite Heq|by rewrite list_lookup_fmap, Hj]).
    congruence.
  - apply list.NoDup_filter. by eapply NoDup_fmap_1.
Qed.

(** A character record after a summary was processed. *)
Definition show_summary (s : AchievementSummary) (c : CharacterRecord) : CharacterRecord :=
  if as_Private s then c{{ cr_AchievementsPrivate := true }}
  else c{{ cr_AchievementsPrivate := false;
           cr_LatestAchievementID := match as_LatestAchievement s with Some r => Some (ar_AchievementID r) | None => None end;
           cr_LatestAchievementAt := match as_LatestAchievement s with Some r => Some (ar_EarnedAt r) | None => None end }}.

Lemma db_write_clean {A} (op : CensusDB -> fault -> CensusDB * result A) (w : CensusWorld L) :
  clean w ->
  exists w', db_write op w = (w', (op (cw_db w) NoFault).2) /\ cw_db w' = (op (cw_db w) NoFault).1
    /\ clean w' /\ cw_svc w' = cw_svc w /\ cw_lode w' = cw_lode w.
Proof.
  intros Hc. unfold db_write. rewrite Hc. destruct (op (cw_db w) NoFault) as [db r]. cbn. by eexists.
Qed.
Lemma db_read_clean {A} (op : CensusDB -> fault -> result A) (w : CensusWorld L) :
  clean w ->
  exists w', db_read op w = (w', op (cw_db w) NoFault) /\ cw_db w' = cw_db w
    /\ clean w' /\ cw_svc w' = cw_svc w /\ cw_lode w' = cw_lode w.
Proof. intros Hc. by apply (db_write_clean (fun db f => (db, op db f))). Qed.

Lemma update_char_lookup db id set c :
  cdb_chars (update_char db id set) !! c
  = if decide (c = id) then option_map (fun r => r{{ row_rec := set (row_rec r) }}) (cdb_chars db !! id) else cdb_chars db !! c.
Proof.
  unfold update_char. destruct (cdb_chars db !! id) as [r|] eqn:Hr; destruct db; cbn in *.
  - rewrite lookup_insert. repeat case_decide; congruence.
  - case_decide; congruence.
Qed.
Lemma update_char_milestones db id set : cdb_milestones (update_char db id set) = cdb_milestones db.
Proof. unfold update_char. case_match; [by destruct db|done]. Qed.

(** What processing a summary leaves in the tables: the character's tracked
    milestones the page shows as earned have the page's dates, every other
    milestone is as before; the character shows the summary. *)
Definition recorded (db db' : CensusDB) (id : Z) (s : AchievementSummary) : Prop :=
  (forall c a t, cdb_milestones db' !! (c, a) = Some t <->
     (c = id /\ as_Private s = false /\ tracked db a /\ earned_on s a t)
     \/ (~ (c = id /\ as_Private s = false /\ tracked db a /\ exists t', earned_on s a t') /\ cdb_milestones db !! (c, a) = Some t))
  /\ (forall c, cdb_chars db' !! c =
        if decide (c = id) then option_map (fun r => r{{ row_rec := show_summary s (row_rec r) }}) (cdb_chars db !! id)
        else cdb_chars db !! c).

Lemma UpsertCharacterMilestones_earned db id s :
  NoDup (ar_AchievementID <$> as_Milestones s) -> as_Private s = false ->
  exists m, UpsertCharacterMilestones db NoFault (earned_milestones id (registry_list db) (as_Milestones s))
      = (db{{ cdb_milestones := m }}, Ok tt)
    /\ forall c a t, m !! (c, a) = Some t <->
     (c = id /\ as_Private s = false /\ tracked db a /\ earned_on s a t)
     \/ (~ (c = id /\ as_Private s = false /\ tracked db a /\ exists t', earned_on s a t') /\ cdb_milestones db !! (c, a) = Some t).
Proof.
  intros Hnd Hpub. pose proof (earned_nodup id (registry_list db) _ Hnd) as Hk. pose proof (earned_elem db id s) as Helem.
  set (ms := earned_milestones id (registry_list db) (as_Milestones s)) in *.
  exists (fold_left (fun m x => <[milestone_key x := cm_AchievedAt x]> m) ms (cdb_milestones db)). split.
  - unfold UpsertCharacterMilestones. destruct ms as [|m ms]; [by destruct db|]. cbn [with_fault].
    by rewrite decide_True.
  - intros c a t. rewrite fold_milestones_lookup by done. rewrite Helem.
    assert (Hkeys : (c, a) ∈ milestone_key <$> ms <-> c = id /\ tracked db a /\ exists t', earned_on s a t').
    { rewrite list_elem_of_fmap. split.
      - intros (x & Hx & Hin). destruct (proj1 (Helem c a (cm_AchievedAt x))) as (? & ? & ?); [by exists x|]. eauto.
      - intros (-> & Ht & t' & He). destruct (proj2 (Helem id a t')) as (x & Hx & Hkx & _); [done|]. eauto. }
    rewrite Hkeys. tauto.
Qed.

Lemma ProcessMilestoneResults_clean (w : CensusWorld L) id s :
  clean w -> coherent w -> registry_list (cw_db w) <> [] -> NoDup (ar_AchievementID <$> as_Milestones s) ->
  exists w' r, ProcessMilestoneResults id (Some s) w = (w', Ok r) /\ recorded (cw_db w) (cw_db w') id s.
Proof.
  intros Hc Hco Hreg Hnd. unfold ProcessMilestoneResults. destruct (as_Private s) eqn:Hp.
  - rewrite ST_bind_eq.
    destruct (db_write_clean (fun db f => SetAchievementsPrivate db f id true) w Hc) as (w1 & -> & Hdb & _).
    eexists _, _. split; [reflexivity|]. cbn [fst]. rewrite Hdb. unfold SetAchievementsPrivate. cbn [with_fault fst].
    split; intros c; [intros a; rewrite update_char_milestones; rewrite Hp; naive_solver|].
    rewrite update_char_lookup. unfold show_summary. by rewrite Hp.
  - rewrite ST_bind_eq. destruct (cachedMilestones_clean w Hc Hco) as (w1 & -> & Hdb1 & Hc1 & _). cbn [fst snd].
    destruct (registry_list (cw_db w)) as [|m0 reg] eqn:Hr; [done|]. rewrite <- Hr. rewrite ST_bind_eq.
    destruct (db_write_clean (fun db f => UpsertCharacterMilestones db f
                (earned_milestones id (registry_list (cw_db w)) (as_Milestones s))) w1 Hc1) as (w2 & -> & Hdb2 & Hc2 & _).
    rewrite Hdb1 in Hdb2 |- *.
    destruct (UpsertCharacterMilestones_earned (cw_db w) id s Hnd Hp) as (m & Hm & Hspec). rewrite Hm in Hdb2 |- *.
    cbn [fst snd] in *. rewrite ST_bind_eq.
    edestruct (db_write_clean (fun db f => UpdateAchievementSummary db f id false
                (ar_AchievementID <$> as_LatestAchievement s) (ar_EarnedAt <$> as_LatestAchievement s)) w2 Hc2) as (w3 & -> & Hdb3 & _).
    eexists _, _. split; [reflexivity|]. cbn [fst]. rewrite Hdb3. unfold UpdateAchievementSummary. cbn [with_fault fst].
    rewrite Hdb2. split; intros c.
    + intros a t. rewrite update_char_milestones. specialize (Hspec c a t). by destruct (cw_db w).
    + rewrite update_char_lookup. unfold show_summary. rewrite Hp. by destruct (cw_db w).
Qed.

(** C17: one achievement census of a character, with the site and the
    database answering, a non-empty milestone registry, a cached registry that
    is empty or the stored one, and a page that names no achievement twice.  It
    asks Lodestone for exactly the tracked milestones not stored yet, in
    ascending order.  From a public page it then stores exactly the tracked
    milestones reported as earned, with the dates of the page, keeps every other
    milestone with its date, replaces the latest achievement and clears the
    private flag; from a private page it only sets the flag, keeping every
    milestone and the latest achievement.  Other characters and their milestones
    are not touched. *)
Theorem achievement_census_records (w : CensusWorld L) payload id (page : list Z -> AchievementSummary)
    (Hpayload : unmarshal_CharacterID payload = Ok (mkCharacterIDPayload id))
    (Hfetch : forall ids l, (ld_FetchAchievements id ids l).2 = Ok (Some (page ids)))
    (Hdistinct : forall ids, NoDup (ar_AchievementID <$> as_Milestones (page ids)))
    (Hregistry : exists k, is_Some (cdb_registry (cw_db w) !! k)) (Hclean : clean w) (Hcoherent : coherent w) :
  exists ids w', AchievementCensus_Handle (Ok tt) payload w = (w', Ok [])
    /\ (forall a, a ∈ ids <-> tracked (cw_db w) a /\ cdb_milestones (cw_db w) !! (id, a) = None) /\ StronglySorted Z.lt ids
    /\ recorded (cw_db w) (cw_db w') id (page ids).
Proof.
  assert (Hreg : registry_list (cw_db w) <> []).
  { destruct Hregistry as (k & m & Hm). intros He. assert (Hin : tracked (cw_db w) (ma_AchievementID m)) by (by exists k, m).
    apply tracked_list in Hin. rewrite He in Hin. by apply elem_of_nil in Hin. }
  set (summary := page (asked (cw_db w) id)). exists (asked (cw_db w) id).
  unfold AchievementCensus_Handle. rewrite Hpayload. cbn [ci_CharacterID]. rewrite ST_bind_eq.
  destruct (db_read_clean (fun db f => ListCharacterMilestones db f id) w Hclean) as (w1 & -> & Hdb1 & Hc1 & Hsv & _).
  unfold ListCharacterMilestones. cbn [read_fault fst snd]. cbv zeta beta. rewrite ST_bind_eq.
  destruct (MilestoneIDs_clean w1 Hc1) as (w2 & -> & Hdb2 & Hc2 & Hco2 & _).
  { unfold coherent. by rewrite Hsv, Hdb1. }
  rewrite Hdb1 in Hdb2 |- *. cbn [fst snd]. fold (asked (cw_db w) id). rewrite ST_bind_eq. unfold on_lodestone.
  specialize (Hfetch (asked (cw_db w) id) (cw_lode w2)).
  destruct (ld_FetchAchievements id (asked (cw_db w) id) (cw_lode w2)) as [l r]. cbn in Hfetch. subst r. cbn [fst snd].
  rewrite ST_bind_eq.
  set (w3 := mkCensusWorld (cw_db w2) _ _ _ _ _ l).
  destruct (ProcessMilestoneResults_clean w3 id summary) as (w4 & ms & Hrun & Hrec);
    [exact Hc2|exact Hco2|change (cw_db w3) with (cw_db w2); by rewrite Hdb2|apply Hdistinct|].
  fold summary. rewrite Hrun. eexists. split; [reflexivity|]. split; [apply elem_of_asked|]. split; [apply asked_ascending|].
  change (cw_db w3) with (cw_db w2) in Hrec. by rewrite Hdb2 in Hrec.
Qed.
End Results.

(** ** A small site *)

Definition demo_profile (id : Z) (race : string) : CharacterProfile :=
  mkCharacterProfile id "Aya" "Omega" "Chaos" 1 "" race "Midlander" "" "" "" "" [sample_job id 30 90].
(** Character 11 hides its race, 12 answers with a server error, 10 exists,
    and there is no other. *)
Definition demo_site (id : Z) : result CharacterProfile :=
  if id =? 10 then Ok (demo_profile 10 "Hyur")
  else if id =? 11 then Ok (demo_profile 11 "----")
  else if id =? 12 then Err (ErrorString "status 503")
  else Err (ErrSentinel ErrCharacterNotFound).
Definition demo_page (ids : list Z) : AchievementSummary :=
  mkAchievementSummary false 2 20 [mkAchievementResult 1129 "" true 5; mkAchievementResult 3 "" true 5] None.
Definition demo_client : LodestoneClient unit := {|
  ld_FetchCharacter id l := (l, demo_site id);
  ld_FetchAchievements id ids l := (l, Ok (Some (demo_page ids))) |}.
Definition demo_world (db : CensusDB) : CensusWorld unit :=
  mkCensusWorld db NewService (fun n => Z.of_nat n) 0 (fun _ => NoFault) 0 tt.

(** The chained job of the one stored character. *)
Lemma id_sweep_stores_range_witness :
  exists w', @IDSweep_Handle unit demo_client true (marshal_IDSweep (mkIDSweepPayload 9 11 "auto")) (demo_world empty_census)
    = (w', Ok [AchievementCensusJob 10]).
Proof.
  destruct (@id_sweep_stores_range unit demo_client demo_site (fun _ _ => eq_refl) (demo_world empty_census)
      (marshal_IDSweep (mkIDSweepPayload 9 11 "auto")) 9 11 "auto") as (w' & Hrun & _).
  - reflexivity.
  - lia.
  - unfold max_uint32. lia.
  - intros id Hid. assert (id = 9 \/ id = 10 \/ id = 11) as [-> | [-> | ->]] by lia; vm_compute; repeat split; discriminate.
  - intros n. reflexivity.
  - exists w'. exact Hrun.
Defined.

Lemma id_sweep_stops_at_error_witness :
  exists w' e', @IDSweep_Handle unit demo_client true (marshal_IDSweep (mkIDSweepPayload 10 13 "auto")) (demo_world empty_census)
    = (w', Err e') /\ fo_dead (failureDecision e' 1) = false.
Proof.
  destruct (@id_sweep_stops_at_error unit demo_client demo_site (fun _ _ => eq_refl) (demo_world empty_census)
      (marshal_IDSweep (mkIDSweepPayload 10 13 "auto")) 10 13 "auto" 12 (ErrorString "status 503"))
    as (w' & e' & Hrun & _ & Hd).
  - reflexivity.
  - lia.
  - lia.
  - unfold max_uint32. lia.
  - intros id Hid. assert (id = 10 \/ id = 11) as [-> | ->] by lia; vm_compute; repeat split; discriminate.
  - reflexivity.
  - reflexivity.
  - intros n. reflexivity.
  - exists w', e'. split; [exact Hrun|]. rewrite Hd. reflexivity.
Defined.

(** A database with the default milestones, and one character. *)
Definition demo_census_ops : list census_op :=
  [CSync NoFault (BuildMilestones DefaultExpansions); CUpsert NoFault (sample_char 10 1) [sample_job 10 30 100; sample_job 10 19 80]].

Lemma summaries_agree_witness :
  (@Summary unit (fun s => s) (demo_world (run_census empty_census demo_census_ops))).2 = Ok (1, 0, 1).
Proof.
  destruct (@summaries_agree unit (fun s => s) (demo_world (run_census empty_census demo_census_ops)) demo_census_ops)
    as [Heq _].
  - constructor; [exact I|]. constructor; [|constructor].
    split; [repeat constructor; cbn; lia|]. apply (bool_decide_unpack _). reflexivity.
  - reflexivity.
  - intros n. reflexivity.
  - rewrite Heq. vm_compute. reflexivity.
Defined.

(** The page reports a tracked and an untracked achievement; only the tracked
    one is stored. *)
Lemma achievement_census_records_witness :
  exists w', @AchievementCensus_Handle unit demo_client (Ok tt) (marshal_CharacterID (mkCharacterIDPayload 10))
      (demo_world (run_census empty_census demo_census_ops)) = (w', Ok [])
    /\ cdb_milestones (cw_db w') !! (10, 1129) = Some 5 /\ cdb_milestones (cw_db w') !! (10, 3) = None.
Proof.
  destruct (@achievement_census_records unit demo_client (demo_world (run_census empty_census demo_census_ops))
      (marshal_CharacterID (mkCharacterIDPayload 10)) 10 demo_page) as (ids & w' & Hrun & _ & _ & Hms & _).
  - reflexivity.
  - intros ids l. reflexivity.
  - intros ids. apply (bool_decide_unpack _). vm_compute. exact I.
  - exists 1129. vm_compute. by eexists.
  - intros n. reflexivity.
  - left. reflexivity.
  - exists w'. split; [exact Hrun|]. split.
    + apply Hms. left. split; [reflexivity|]. split; [reflexivity|]. split.
      * apply tracked_list, (bool_decide_unpack _). vm_compute. exact I.
      * exists (mkAchievementResult 1129 "" true 5). split; [left|]. split; [reflexivity|]. split; reflexivity.
    + apply eq_None_not_Some. intros [t Ht]. apply Hms in Ht as [(_ & _ & Ht & _)|[_ Ht]].
      * apply tracked_list, (bool_decide_pack _) in Ht. vm_compute in Ht. exact Ht.
      * vm_compute in Ht. discriminate Ht.
Defined.
