(* ===== verification/FakeProxies.v ===== *)
(** * The in-memory proxy repository ([mock/repository/proxy.go])

    The tests of the hub, the consumer and the scan worker run against a fake
    that promises the observable semantics of the PostgreSQL adapter.  This file
    models the fake and compares it with [ProxyStore]: a simulation for every
    sequence of calls, and the inputs on which the two differ. *)
From Stdlib Require Import Permutation.
From S2P Require Import Prelude GoErrors Contract ProxyStore ProxyStoreFacts ProxyClaims.

(** ** State *)

Record FakeProxyRepository := mkFakeProxyRepository {
  fk_proxies : gmap Z ProxyRecord;
  fk_nextID : Z;
  fk_ExistsErr : option gerror;
  fk_InsertErr : option gerror;
  fk_ExistsCalls : Z;
  fk_InsertCalls : Z;
}.
Definition NewFakeProxyRepository : FakeProxyRepository := mkFakeProxyRepository ∅ 0 None None 0 0.

Definition normalizeFakePolicy (p : ProxyScanPolicy) : ProxyScanPolicy :=
  let p := if sp_FreshnessTTL p <=? 0 then p{{ sp_FreshnessTTL := 2 * minute }} else p in
  let p := if sp_LeaseDuration p <=? 0 then p{{ sp_LeaseDuration := 30 * second }} else p in
  if sp_RecoveryHorizon p <=? 0 then p{{ sp_RecoveryHorizon := hour }} else p.

(** [t.After(u)] on a pointer that may be nil. *)
Definition after (t : option Z) (u : Z) : bool := match t with Some t => u <? t | None => false end.
Definition fake_fresh (pol : ProxyScanPolicy) (p : ProxyRecord) (now : Z) : bool :=
  pr_GeneralHealthy p && after (pr_LastVerifiedAt p) (now - sp_FreshnessTTL pol).
Definition fake_protocol (p : ProxyRecord) : bool :=
  bool_decide (pr_Protocol p = "http") || bool_decide (pr_Protocol p = "https")
  || bool_decide (pr_Protocol p = "socks4") || bool_decide (pr_Protocol p = "socks5").
Definition uptimeOrZero (p : ProxyRecord) : Z := default 0 (pr_UptimePercent p).
Definition latencyOrMax (p : ProxyRecord) : Z := default 999999 (pr_LatencyMS p).
Definition store (f : FakeProxyRepository) (p : ProxyRecord) : FakeProxyRepository :=
  f{{ fk_proxies := <[pr_ID p := p]> (fk_proxies f) }}.

Definition proxy_id_le (a b : ProxyRecord) : Prop := pr_ID a <= pr_ID b.
Global Instance proxy_id_le_dec : RelDecision proxy_id_le.
Proof. intros a b. unfold proxy_id_le. apply _. Defined.

Section Fake.
(** The policy after [normalizeFakePolicy], and the order in which one [range]
    over the map visits its values. *)
Context (pol : ProxyScanPolicy) (range : gmap Z ProxyRecord -> list ProxyRecord).

(** ** Reads and inserts *)

Definition same_endpoint (protocol ip : string) (port : Z) (p : ProxyRecord) : bool :=
  bool_decide (pr_Protocol p = protocol) && bool_decide (pr_IP p = ip) && (pr_Port p =? port).
Definition fake_Exists (f : FakeProxyRepository) (protocol ip : string) (port : Z) : FakeProxyRepository * result bool :=
  let f := f{{ fk_ExistsCalls := fk_ExistsCalls f + 1 }} in
  match fk_ExistsErr f with
  | Some e => (f, Err e)
  | None => (f, Ok (existsb (same_endpoint protocol ip port) (range (fk_proxies f))))
  end.
(** [wall] is [time.Now()], not the injected clock. *)
Definition fake_InsertIfAbsent (f : FakeProxyRepository) (wall : Z) (rec : ProxyRecord) : FakeProxyRepository * result (Z * bool) :=
  let f := f{{ fk_InsertCalls := fk_InsertCalls f + 1 }} in
  match fk_InsertErr f with
  | Some e => (f, Err e)
  | None =>
      if existsb (same_endpoint (pr_Protocol rec) (pr_IP rec) (pr_Port rec)) (range (fk_proxies f)) then (f, Ok (0, false))
      else
        let id := fk_nextID f + 1 in
        let f := f{{ fk_nextID := id }} in
        let rec := rec{{ pr_ID := id; pr_Status := ProxyStatusInactive; pr_FailCount := 0; pr_CreatedAt := wall; pr_UpdatedAt := wall;
                         pr_FirstSeenAt := if is_zero_time (pr_FirstSeenAt rec) then wall else pr_FirstSeenAt rec }} in
        (store f rec, Ok (id, true))
  end.
Definition fake_Get (f : FakeProxyRepository) (id : Z) : result (option ProxyRecord) := Ok (fk_proxies f !! id).
Definition fake_Count (f : FakeProxyRepository) : result Z := Ok (Z.of_nat (size (fk_proxies f))).

(** The inner loop of [ListActive] for one [i]: the smaller value moves to the
    front, the one it replaces takes its place. *)
Fixpoint exchange_pass (x : ProxyRecord) (rest : list ProxyRecord) : ProxyRecord * list ProxyRecord :=
  match rest with
  | [] => (x, [])
  | y :: rest =>
      if latencyOrMax y <? latencyOrMax x then let '(m, rest) := exchange_pass y rest in (m, x :: rest)
      else let '(m, rest) := exchange_pass x rest in (m, y :: rest)
  end.
(** The outer loop; the fuel is the length. *)
Fixpoint exchange_sort (fuel : nat) (l : list ProxyRecord) : list ProxyRecord :=
  match fuel, l with
  | S fuel, x :: rest => let '(m, rest) := exchange_pass x rest in m :: exchange_sort fuel rest
  | _, _ => []
  end.
(** [None] is the panic of slicing with a negative bound. *)
Definition fake_ListActive (f : FakeProxyRepository) (now limit : Z) : option (list ProxyRecord) :=
  let l := filter (fun p => fake_fresh pol p now = true) (range (fk_proxies f)) in
  let l := exchange_sort (length l) l in
  if limit <? Z.of_nat (length l) then (if limit <? 0 then None else Some (take (Z.to_nat limit) l)) else Some l.
Definition fake_bucket (p : ProxyRecord) (now : Z) : string :=
  if fake_fresh pol p now then ProxyStatusActive
  else if bool_decide (pr_Status p = ProxyStatusActive) then "stale" else pr_Status p.
Definition count_bucket (now : Z) (counts : gmap string Z) (p : ProxyRecord) : gmap string Z :=
  <[fake_bucket p now := default 0 (counts !! fake_bucket p now) + 1]> counts.
Definition fake_CountByStatus (f : FakeProxyRepository) (now : Z) : result (gmap string Z) :=
  Ok (foldl (count_bucket now) ∅ (range (fk_proxies f))).
(** The rows [RandomActive] draws from, and the draw; [rand n] is below [n]. *)
Definition fake_eligible (f : FakeProxyRepository) (now : Z) (excludeIDs : list Z) : list ProxyRecord :=
  merge_sort proxy_id_le
    (filter (fun p => fake_fresh pol p now = true /\ fake_protocol p = true /\ pr_ID p ∉ excludeIDs) (range (fk_proxies f))).
Definition fake_RandomActive (rand : nat -> nat) (f : FakeProxyRepository) (now : Z) (excludeIDs : list Z) : result (option ProxyRecord) :=
  match fake_eligible f now excludeIDs with
  | [] => Ok None
  | l => Ok (l !! rand (length l))
  end.

(** ** Consumer locks *)

Definition fake_candidate (now lockTTL : Z) (p : ProxyRecord) : bool :=
  fake_fresh pol p now && fake_protocol p && negb (after (pr_LockedAt p) (now - lockTTL)) && negb (after (pr_DestinationCooldownUntil p) now).
(** Whether [p] replaces the best row so far. *)
Definition fake_better (p best : ProxyRecord) : bool :=
  if uptimeOrZero best <? uptimeOrZero p then true
  else if uptimeOrZero p <? uptimeOrZero best then false
  else if latencyOrMax p <? latencyOrMax best then true
  else (latencyOrMax p =? latencyOrMax best) && (pr_FailCount p <? pr_FailCount best).
Definition pick_best (now lockTTL : Z) (best : option ProxyRecord) (p : ProxyRecord) : option ProxyRecord :=
  if negb (fake_candidate now lockTTL p) then best
  else match best with None => Some p | Some b => if fake_better p b then Some p else best end.
Definition fake_ClaimProxy (f : FakeProxyRepository) (now : Z) (owner : string) (lockTTL : Z) : FakeProxyRepository * result (option ProxyRecord) :=
  match foldl (pick_best now lockTTL) None (range (fk_proxies f)) with
  | None => (f, Ok None)
  | Some best =>
      let best := best{{ pr_LockedBy := Some owner; pr_LockedAt := Some now; pr_UpdatedAt := now }} in
      (store f best, Ok (Some best))
  end.
Definition owned_by (p : ProxyRecord) (owner : string) : bool :=
  match pr_LockedBy p with Some o => bool_decide (o = owner) | None => false end.
Definition fake_ReleaseProxy (f : FakeProxyRepository) (wall id : Z) (owner : string) : FakeProxyRepository * result unit :=
  match fk_proxies f !! id with
  | None => (f, Ok tt)
  | Some p =>
      if negb (owned_by p owner) then (f, Ok tt)
      else (f{{ fk_proxies := <[id := p{{ pr_LockedBy := None; pr_LockedAt := None; pr_UpdatedAt := wall }}]> (fk_proxies f) }}, Ok tt)
  end.
Definition fake_RefreshConsumerLock (f : FakeProxyRepository) (now id : Z) (owner : string) (lockTTL : Z) : FakeProxyRepository * result (option ProxyRecord) :=
  match fk_proxies f !! id with
  | None => (f, Ok None)
  | Some p =>
      if negb (owned_by p owner) then (f, Ok None)
      else if negb (after (pr_LockedAt p) (now - lockTTL)) then (f, Ok None)
      else if negb (fake_fresh pol p now) then (f, Ok None)
      else if after (pr_DestinationCooldownUntil p) now then (f, Ok None)
      else let p := p{{ pr_LockedAt := Some now; pr_UpdatedAt := now }} in (store f p, Ok (Some p))
  end.
Definition fake_CooldownDestination (f : FakeProxyRepository) (now id : Z) (owner : string) (lockTTL delay : Z) : FakeProxyRepository * result unit :=
  match fk_proxies f !! id with
  | None => (f, Ok tt)
  | Some p =>
      if negb (owned_by p owner) then (f, Ok tt)
      else
        let raised := now + delay in
        let raised := match pr_DestinationCooldownUntil p with Some c => if raised <? c then c else raised | None => raised end in
        (store f (p{{ pr_DestinationCooldownUntil := Some raised; pr_LockedBy := None; pr_LockedAt := None; pr_UpdatedAt := now }}), Ok tt)
  end.

(** ** Scan leases *)

(** The guards of the claim's loop. *)
Definition fake_due (queue : ScanQueue) (now : Z) (p : ProxyRecord) : bool :=
  if after (pr_ScanLeaseUntil p) now then false
  else if after (pr_ScanNotBefore p) now then false
  else match queue with
       | ScanVerification => pr_GeneralHealthy p && negb (after (pr_NextAttemptAt p) now)
       | ScanRecovery => negb (pr_GeneralHealthy p) && after (pr_LastVerifiedAt p) (now - sp_RecoveryHorizon pol) && negb (after (pr_NextAttemptAt p) now)
       | ScanBackground => negb (pr_GeneralHealthy p)
       end.
Definition fakeLeaseKey (queue : ScanQueue) (p : ProxyRecord) : option Z :=
  match queue with ScanBackground => pr_LastCompletedAt p | _ => pr_NextAttemptAt p end.
Definition fake_less (key : ProxyRecord -> option Z) (a b : ProxyRecord) : bool :=
  match key a, key b with
  | None, None => pr_ID a <? pr_ID b
  | None, Some _ => true
  | Some _, None => false
  | Some ki, Some kj => if negb (ki =? kj) then ki <? kj else pr_ID a <? pr_ID b
  end.
Definition fake_le (key : ProxyRecord -> option Z) (a b : ProxyRecord) : Prop := fake_less key b a = false.
Global Instance fake_le_dec key : RelDecision (fake_le key).
Proof. intros a b. unfold fake_le. apply _. Defined.
(** One turn of the leasing loop. *)
Definition fake_lease (now : Z) (token : string) (p : ProxyRecord) : ProxyRecord :=
  p{{ pr_ScanToken := Some token; pr_ScanLeaseUntil := Some (now + sp_LeaseDuration pol); pr_ClaimedVersion := Some (pr_ObservationVersion p); pr_UpdatedAt := now }}.
Definition fake_candidates (f : FakeProxyRepository) (now : Z) (queue : ScanQueue) (limit : Z) : list ProxyRecord :=
  take (Z.to_nat limit) (merge_sort (fake_le (fakeLeaseKey queue)) (filter (fun p => fake_due queue now p = true) (range (fk_proxies f)))).
(** [token] is the outcome of [crand.Read]. *)
Definition fake_ClaimScans (f : FakeProxyRepository) (now : Z) (token : result string) (queue : ScanQueue) (limit : Z) : FakeProxyRepository * result (list ScanLease) :=
  if limit <=? 0 then (f, Err (ErrorString "fake scan claim: limit must be positive"))
  else match fake_candidates f now queue limit with
  | [] => (f, Ok [])
  | candidates =>
      match token with
      | Err e => (f, Err (ErrWrap "fake scan token" e))
      | Ok token =>
          let leased := fake_lease now token <$> candidates in
          (foldl store f leased, Ok ((fun p => mkScanLease p token (pr_ObservationVersion p)) <$> leased))
      end
  end.

Definition fakeFenced (f : FakeProxyRepository) (id : Z) (lease : ScanLease) (now : Z) : option ProxyRecord :=
  match fk_proxies f !! id with
  | None => None
  | Some p =>
      if negb (match pr_ScanToken p with Some t => bool_decide (t = sl_Token lease) | None => false end) then None
      else if negb (match pr_ClaimedVersion p with Some v => v =? sl_Version lease | None => false end) || negb (pr_ObservationVersion p =? sl_Version lease) then None
      else if negb (after (pr_ScanLeaseUntil p) now) then None
      else Some p
  end.
Definition fakeClassifyFailure (p : ProxyRecord) (now : Z) (update : ScanUpdate) : string * Z :=
  let newFailCount := pr_FailCount p + 1 in
  let lastAlive := match pr_LastAliveAt p with Some t => t | None => pr_FirstSeenAt p end in
  let isDead := (su_FailThreshold update <=? newFailCount) || (su_DeadAfter update <? time_sub now lastAlive) in
  if isDead then (ProxyStatusDead, newFailCount) else (ProxyStatusInactive, newFailCount).
Definition unlease (now : Z) (p : ProxyRecord) : ProxyRecord :=
  p{{ pr_ScanToken := None; pr_ScanLeaseUntil := None; pr_ClaimedVersion := None; pr_UpdatedAt := now }}.
(** The failure branch that [CompleteScan] and [RecordConsumerFailure] share. *)
Definition fake_failed (now : Z) (update : ScanUpdate) (p : ProxyRecord) : ProxyRecord :=
  let '(status, newFailCount) := fakeClassifyFailure p now update in
  p{{ pr_GeneralHealthy := false; pr_Status := status; pr_LastCompletedAt := Some now; pr_FailCount := newFailCount;
      pr_RecoveryStep := su_RecoveryStep update; pr_NextAttemptAt := Some (now + su_NextDelay update);
      pr_ScanNotBefore := Some (now + su_RepeatDelay update); pr_ObservationVersion := pr_ObservationVersion p + 1 }}.
Definition fake_CompleteScan (f : FakeProxyRepository) (now : Z) (lease : ScanLease) (update : ScanUpdate) : FakeProxyRepository * result bool :=
  match fakeFenced f (pr_ID (sl_Record lease)) lease now with
  | None => (f, Ok false)
  | Some p =>
      let nextAttempt := now + su_NextDelay update in
      let notBefore := now + su_RepeatDelay update in
      let p := match su_Outcome update with
               | ScanSuccess =>
                   p{{ pr_GeneralHealthy := true; pr_Status := ProxyStatusActive; pr_LatencyMS := Some (su_LatencyMS update);
                       pr_LastAliveAt := Some now; pr_LastVerifiedAt := Some now; pr_LastCompletedAt := Some now; pr_FailCount := 0; pr_RecoveryStep := 0;
                       pr_NextAttemptAt := Some nextAttempt; pr_ScanNotBefore := Some notBefore; pr_ObservationVersion := pr_ObservationVersion p + 1 }}
               | ScanFailure => fake_failed now update p
               | ScanInconclusive => p{{ pr_LastCompletedAt := Some now; pr_NextAttemptAt := Some nextAttempt; pr_ScanNotBefore := Some notBefore }}
               end in
      (store f (unlease now p), Ok true)
  end.
Definition fake_ReleaseScan (f : FakeProxyRepository) (now : Z) (lease : ScanLease) : FakeProxyRepository * result unit :=
  match fk_proxies f !! pr_ID (sl_Record lease) with
  | None => (f, Ok tt)
  | Some p =>
      if negb (match pr_ScanToken p with Some t => bool_decide (t = sl_Token lease) | None => false end) then (f, Ok tt)
      else if negb (match pr_ClaimedVersion p with Some v => v =? sl_Version lease | None => false end) then (f, Ok tt)
      else (store f (unlease now p), Ok tt)
  end.
Definition fake_RecordConsumerFailure (f : FakeProxyRepository) (now : Z) (rec : ProxyRecord) (owner : string) (lockTTL : Z) (update : ScanUpdate)
    : FakeProxyRepository * result bool :=
  match fk_proxies f !! pr_ID rec with
  | None => (f, Ok false)
  | Some p =>
      let owned := owned_by p owner in
      let lockValid := owned && after (pr_LockedAt p) (now - lockTTL) in
      if negb lockValid || negb (pr_ObservationVersion p =? pr_ObservationVersion rec) then
        (if owned && after (pr_LockedAt p) (now - lockTTL) then store f (p{{ pr_LockedBy := None; pr_LockedAt := None; pr_UpdatedAt := now }}) else f, Ok false)
      else (store f (unlease now (fake_failed now update p)), Ok true)
  end.

(** [SeedSuccess]: a batch is claimed, the target completed, the rest released. *)
Fixpoint seed_loop (now id latencyMS : Z) (leases : list ScanLease) (target : bool) (f : FakeProxyRepository) : FakeProxyRepository * bool :=
  match leases with
  | [] => (f, target)
  | lease :: leases =>
      if negb (pr_ID (sl_Record lease) =? id) then seed_loop now id latencyMS leases target (fake_ReleaseScan f now lease).1
      else
        let '(f, r) := fake_CompleteScan f now lease (mkScanUpdate ScanSuccess latencyMS 0 0 0 0 0 0) in
        seed_loop now id latencyMS leases (match r with Ok ok => ok | Err _ => false end) f
  end.
Definition SeedSuccess (f : FakeProxyRepository) (now : Z) (token : result string) (id latencyMS : Z) : FakeProxyRepository * bool :=
  match fake_ClaimScans f now token ScanBackground 1024 with
  | (f, Err _) => (f, false)
  | (f, Ok leases) => seed_loop now id latencyMS leases false f
  end.
End Fake.
