(* ===== verification/FakeProxiesFacts.v ===== *)
(** * The fake and the adapter agree

    Call by call the fake of [FakeProxies] gives the answer and leaves the rows
    the PostgreSQL adapter of [ProxyStore] would, apart from a few inputs; the
    end of the file shows what happens on those. *)
From Stdlib Require Import Permutation.
From S2P Require Import Prelude GoErrors Contract ProxyStore ProxyStoreFacts ProxyClaims FakeProxies.

(** ** Predicates *)

Lemma not_after x b : negb (after x b) = null_or_le x b.
Proof. destruct x as [t|]; [|done]. cbn. by rewrite Z.leb_antisym. Qed.
Lemma normalize_agree p : normalizeFakePolicy p = normalizeScanPolicy p.
Proof. done. Qed.
Lemma fake_protocol_supported p : fake_protocol p = supportedProtocol p.
Proof.
  unfold fake_protocol, supportedProtocol. apply eq_iff_eq_true. rewrite !orb_true_iff, !bool_decide_eq_true, !elem_of_cons, elem_of_nil. tauto.
Qed.
Lemma fake_due_where pol q now p : fake_due pol q now p = claimLeaseWhere now p && claimQueueWhere pol q now p.
Proof.
  unfold fake_due, claimLeaseWhere, claimQueueWhere. rewrite <-!not_after. by destruct (after _ _), (after (pr_ScanNotBefore p) now), q.
Qed.
Lemma fake_le_order q a b : fake_le (fakeLeaseKey q) a b <-> order_le (queue_key q) a b.
Proof.
  rewrite order_le_spec. unfold fake_le, fake_less, key_le. change (fakeLeaseKey q) with (queue_key q).
  destruct (queue_key q a), (queue_key q b); try naive_solver; zbool; naive_solver lia.
Qed.
Lemma fakeClassify_status p now u : fakeClassifyFailure p now u = failureStatus p now u.
Proof. by unfold fakeClassifyFailure, failureStatus, default; destruct (pr_LastAliveAt p). Qed.

(** ** Orders of iteration *)

Lemma existsb_perm {A} (f : A -> bool) l l' : l ≡ₚ l' -> existsb f l = existsb f l'.
Proof.
  intros Hp. apply eq_iff_eq_true. rewrite !existsb_exists. setoid_rewrite <-list_elem_of_In. by setoid_rewrite Hp.
Qed.
Lemma count_bucket_comm pol now counts p q :
  count_bucket pol now (count_bucket pol now counts p) q = count_bucket pol now (count_bucket pol now counts q) p.
Proof.
  unfold count_bucket. destruct (decide (fake_bucket pol p now = fake_bucket pol q now)) as [->|Hne]; [done|].
  rewrite !lookup_insert_ne by done. by rewrite insert_insert_ne.
Qed.
Lemma foldl_count_swap pol now l : forall counts p,
  foldl (count_bucket pol now) (count_bucket pol now counts p) l = count_bucket pol now (foldl (count_bucket pol now) counts l) p.
Proof. induction l as [|q l IH]; intros counts p; [done|]. cbn. by rewrite count_bucket_comm, IH. Qed.
Lemma foldl_count_perm pol now l l' : l ≡ₚ l' -> forall counts, foldl (count_bucket pol now) counts l = foldl (count_bucket pol now) counts l'.
Proof. induction 1; intros counts; cbn; [done|auto|by rewrite count_bucket_comm|congruence]. Qed.
Lemma foldl_count_foldr pol now l counts :
  foldl (count_bucket pol now) counts l = foldr (fun p counts => count_bucket pol now counts p) counts l.
Proof. induction l as [|p l IH]; [done|]. cbn. by rewrite foldl_count_swap, IH. Qed.

Lemma write_rows_insert m r l : pr_ID r ∉ (pr_ID <$> l) -> write_rows (<[pr_ID r := r]> m) l = <[pr_ID r := r]> (write_rows m l).
Proof.
  induction l as [|x l IH]; intros Hn; [done|]. cbn in Hn |- *. apply not_elem_of_cons in Hn as [Hx Hn].
  fold (write_rows m l). fold (write_rows (<[pr_ID r:=r]> m) l). rewrite IH by done. by rewrite insert_insert_ne.
Qed.
Lemma foldl_store l : forall f, NoDup (pr_ID <$> l) -> foldl store f l = f{{ fk_proxies := write_rows (fk_proxies f) l }}.
Proof.
  induction l as [|r l IH]; intros f Hnd; [by destruct f|]. cbn in Hnd |- *. apply list.NoDup_cons in Hnd as [Hr Hnd].
  rewrite IH by done. destruct f. unfold store. cbn. by rewrite write_rows_insert.
Qed.

(** ** Calls *)

Inductive call :=
  | CExists (protocol ip : string) (port : Z)
  | CInsert (now : Z) (rec : ProxyRecord)
  | CGet (id : Z)
  | CCount
  | CCountByStatus (now : Z)
  | CClaimProxy (now : Z) (owner : string) (lockTTL : Z)
  | CReleaseProxy (now id : Z) (owner : string)
  | CRefresh (now id : Z) (owner : string) (lockTTL : Z)
  | CCooldown (now id : Z) (owner : string) (lockTTL delay : Z)
  | CFailure (now : Z) (rec : ProxyRecord) (owner : string) (lockTTL : Z) (update : ScanUpdate)
  | CClaimScans (now : Z) (token : string) (queue : ScanQueue) (limit : Z)
  | CComplete (now : Z) (lease : ScanLease) (update : ScanUpdate)
  | CReleaseScan (now : Z) (lease : ScanLease).
Inductive answer :=
  | ABool (r : result bool) | ANumber (r : result Z) | AInserted (r : result (Z * bool)) | ARow (r : result (option ProxyRecord))
  | ACounts (r : result (gmap string Z)) | ADone (r : result unit) | ALeases (r : result (list ScanLease)).
Definition answering {S R} (wrap : R -> answer) (x : S * R) : S * answer := (x.1, wrap x.2).

Section Agreement.
Context (pol : ProxyScanPolicy) (range : gmap Z ProxyRecord -> list ProxyRecord).
Context (Hrange : forall m, range m ≡ₚ (map_to_list m).*2).

(** One call on the fake, and on the adapter: no driver fault, no concurrent
    transaction, the statement's time the fake's clock. *)
Definition fake_call (f : FakeProxyRepository) (c : call) : FakeProxyRepository * answer :=
  match c with
  | CExists protocol ip port => answering ABool (fake_Exists range f protocol ip port)
  | CInsert now rec => answering AInserted (fake_InsertIfAbsent range f now rec)
  | CGet id => (f, ARow (fake_Get f id))
  | CCount => (f, ANumber (fake_Count f))
  | CCountByStatus now => (f, ACounts (fake_CountByStatus pol range f now))
  | CClaimProxy now owner ttl => answering ARow (fake_ClaimProxy pol range f now owner ttl)
  | CReleaseProxy now id owner => answering ADone (fake_ReleaseProxy f now id owner)
  | CRefresh now id owner ttl => answering ARow (fake_RefreshConsumerLock pol f now id owner ttl)
  | CCooldown now id owner ttl delay => answering ADone (fake_CooldownDestination f now id owner ttl delay)
  | CFailure now rec owner ttl u => answering ABool (fake_RecordConsumerFailure f now rec owner ttl u)
  | CClaimScans now token q limit => answering ALeases (fake_ClaimScans pol range f now (Ok token) q limit)
  | CComplete now lease u => answering ABool (fake_CompleteScan f now lease u)
  | CReleaseScan now lease => answering ADone (fake_ReleaseScan f now lease)
  end.
Definition sql_call (db : ProxyDB) (c : call) : ProxyDB * answer :=
  match c with
  | CExists protocol ip port => (db, ABool (Exists db NoFault protocol ip port))
  | CInsert now rec => answering AInserted (InsertIfAbsent db NoFault now rec)
  | CGet id => (db, ARow (Get db NoFault id))
  | CCount => (db, ANumber (Count db NoFault))
  | CCountByStatus now => (db, ACounts (CountByStatus pol db NoFault now))
  | CClaimProxy now owner ttl => answering ARow (ClaimProxy pol db NoFault now now ∅ owner ttl)
  | CReleaseProxy now id owner => answering ADone (ReleaseProxy db NoFault now id owner)
  | CRefresh now id owner ttl => answering ARow (RefreshConsumerLock pol db NoFault now id owner ttl)
  | CCooldown now id owner ttl delay => answering ADone (CooldownDestination db NoFault now id owner ttl delay)
  | CFailure now rec owner ttl u => answering ABool (RecordConsumerFailure db NoFault now rec owner ttl u)
  | CClaimScans now token q limit => answering ALeases (ClaimScans pol db NoFault (mkDbTime now (fun _ => now)) ∅ (Ok token) q limit)
  | CComplete now lease u => answering ABool (CompleteScan db NoFault now lease u)
  | CReleaseScan now lease => answering ADone (ReleaseScan db NoFault now lease)
  end.

(** A record with nothing set but what discovery knows of a proxy. *)
Definition discovered (rec : ProxyRecord) : bool :=
  bool_decide (rec = zeroProxyRecord{{ pr_ID := pr_ID rec; pr_Protocol := pr_Protocol rec; pr_IP := pr_IP rec; pr_Port := pr_Port rec; pr_Country := pr_Country rec;
          pr_Anonymity := pr_Anonymity rec; pr_LatencyMS := pr_LatencyMS rec; pr_UptimePercent := pr_UptimePercent rec; pr_Status := pr_Status rec; pr_Source := pr_Source rec }}).
(** A known uptime is not zero, a known latency is below the fake's maximum. *)
Definition distinguishable (r : ProxyRecord) : bool :=
  match pr_UptimePercent r with Some u => 0 <? u | None => true end && match pr_LatencyMS r with Some l => l <? 999999 | None => true end.
(** No lock expires at this very instant, unknown uptimes and latencies are
    distinguishable from known ones, and the claim order decides between rows. *)
Definition clear_choice (db : ProxyDB) (now ttl : Z) : bool :=
  let candidates := List.filter (claimable pol ttl now) (rows_list db) in
  forallb (fun r => negb (bool_decide (pr_LockedAt r = Some (now - ttl)))) (rows_list db)
  && forallb distinguishable candidates
  && forallb (fun r => forallb (fun r' => negb (bool_decide (claim_cmp r r' = Eq)) || bool_decide (r = r')) candidates) candidates.
Definition comparable (f : FakeProxyRepository) (db : ProxyDB) (c : call) : bool :=
  match c with
  | CInsert _ rec => discovered rec && (db_seq db =? fk_nextID f + 1)
  | CClaimProxy now _ ttl => clear_choice db now ttl
  | _ => true
  end.
(** Both repositories hold the same rows, and the fake injects no error. *)
Definition agree (f : FakeProxyRepository) (db : ProxyDB) : Prop :=
  fk_proxies f = db_rows db /\ fk_ExistsErr f = None /\ fk_InsertErr f = None.
(** The same answer; two refusals may word their error differently. *)
Definition same_answer (a b : answer) : Prop :=
  a = b \/ exists e e', a = ALeases (Err e) /\ b = ALeases (Err e').
Definition step_agrees (f : FakeProxyRepository) (db : ProxyDB) (c : call) : Prop :=
  same_answer (fake_call f c).2 (sql_call db c).2 /\ agree (fake_call f c).1 (sql_call db c).1.

Lemma range_rows f db : agree f db -> range (fk_proxies f) ≡ₚ rows_list db.
Proof. intros [-> _]. apply Hrange. Qed.

(** The fake's write of one row is the adapter's. *)
Lemma agree_store f db id p : pr_ID p = id -> agree f db -> agree (store f p) (db{{ db_rows := <[id := p]> (db_rows db) }}).
Proof. destruct f, db. unfold agree, store. cbn. by intros <- (-> & -> & ->). Qed.
Lemma agree_same {A} wrap f db (r : result A) : agree f db ->
  same_answer (answering wrap (f, r)).2 (answering wrap (db, r)).2 /\ agree (answering wrap (f, r)).1 (answering wrap (db, r)).1.
Proof. intros Ha. split; [by left|done]. Qed.

Lemma reads_agree f db : agree f db ->
  (forall protocol ip port, step_agrees f db (CExists protocol ip port)) /\ (forall id, step_agrees f db (CGet id))
  /\ step_agrees f db CCount /\ (forall now, step_agrees f db (CCountByStatus now)).
Proof.
  intros Ha. pose proof (range_rows f db Ha) as Hp. pose proof Ha as (Hrows & He & _). split_and!; intros; unfold step_agrees; cbn.
  - destruct f. unfold fake_Exists. cbn in *. subst. split; [left|exact Ha]. cbn. do 2 f_equal. by apply existsb_perm.
  - split; [left|done]. unfold fake_Get. by rewrite Hrows.
  - split; [left|done]. unfold fake_Count. by rewrite Hrows.
  - split; [left|done]. unfold fake_CountByStatus, CountByStatus. cbn. do 2 f_equal. rewrite (foldl_count_perm pol now _ _ Hp). apply foldl_count_foldr.
Qed.

Lemma insert_agrees f db now rec : agree f db -> comparable f db (CInsert now rec) = true -> step_agrees f db (CInsert now rec).
Proof.
  intros Ha Hc. cbn in Hc. unfold discovered in Hc. bsplit. rename H into Hd, H0 into Hseq. pose proof (range_rows f db Ha) as Hp. pose proof Ha as (Hrows & He & Hi).
  unfold step_agrees. cbn. unfold fake_InsertIfAbsent, InsertIfAbsent. destruct f as [m n ee ie ec ic], db as [rows seq]. cbn in *. subst.
  rewrite (existsb_perm _ _ _ Hp). unfold rows_list in *. cbn in *.
  destruct (existsb (same_endpoint _ _ _) _) eqn:E; unfold same_endpoint in E; rewrite E; [by split; [left|]|]. cbn.
  split; [by left|]. split; [|done]. cbn. f_equal. rewrite Hd. done.
Qed.

(** ** Writes of one row *)

Ltac tidy := cbn [answering fst snd with_fault negb andb orb].
Lemma release_agrees f db now id owner : agree f db -> table_ok db -> step_agrees f db (CReleaseProxy now id owner).
Proof.
  intros Ha Hok. unfold step_agrees. cbn [fake_call sql_call]. unfold fake_ReleaseProxy, ReleaseProxy, update_where. tidy. destruct Ha as (Hrows & He & Hi). rewrite Hrows.
  destruct (db_rows db !! id) as [r|] eqn:Hr; [|by tidy; split; [left|]]. unfold owned_by, sql_eq.
  destruct (match pr_LockedBy r with Some y => bool_decide (y = owner) | None => false end); [|by tidy; split; [left|]].
  tidy; split; [by left|]. split_and!; by destruct f, db; cbn in *; subst.
Qed.
Lemma refresh_agrees f db now id owner ttl : agree f db -> table_ok db -> step_agrees f db (CRefresh now id owner ttl).
Proof.
  intros Ha Hok. pose proof Ha as (Hrows & _). unfold step_agrees. cbn [fake_call sql_call]. unfold fake_RefreshConsumerLock, RefreshConsumerLock, update_where. tidy. rewrite Hrows.
  destruct (db_rows db !! id) as [r|] eqn:Hr; [|by tidy; split; [left|]]. destruct (Hok _ _ Hr) as [[Hid _] _].
  change (sql_eq (pr_LockedBy r) owner) with (owned_by r owner). change (sql_gt (pr_LockedAt r)) with (after (pr_LockedAt r)).
  change (freshPredicate (sp_FreshnessTTL pol) now r) with (fake_fresh pol r now). rewrite <-not_after.
  destruct (owned_by r owner); [|by tidy; split; [left|]]. destruct (after (pr_LockedAt r) _); [|by tidy; split; [left|]].
  destruct (fake_fresh pol r now); [|by tidy; split; [left|]]. destruct (after _ now); [by tidy; split; [left|]|]. tidy.
  tidy; split; [by left|]. apply agree_store; [by destruct r|done].
Qed.
Lemma cooldown_agrees f db now id owner ttl delay : agree f db -> table_ok db -> step_agrees f db (CCooldown now id owner ttl delay).
Proof.
  intros Ha Hok. pose proof Ha as (Hrows & _). unfold step_agrees. cbn [fake_call sql_call]. unfold fake_CooldownDestination, CooldownDestination, update_where. tidy. rewrite Hrows.
  destruct (db_rows db !! id) as [r|] eqn:Hr; [|by tidy; split; [left|]]. destruct (Hok _ _ Hr) as [[Hid _] _].
  change (sql_eq (pr_LockedBy r) owner) with (owned_by r owner). destruct (owned_by r owner); [|by tidy; split; [left|]]. tidy.
  assert (Hc : Some (match pr_DestinationCooldownUntil r with Some c => if now + delay <? c then c else now + delay | None => now + delay end)
    = raise_cooldown (pr_DestinationCooldownUntil r) (now + delay)).
  { unfold raise_cooldown. destruct (pr_DestinationCooldownUntil r) as [c|]; [|done]. f_equal. zbool; lia. }
  rewrite Hc. tidy; split; [by left|].
  apply agree_store; [by destruct r|done].
Qed.
Lemma fake_failed_set r now u : unlease now (fake_failed now u r) =
  let '(status, n) := failureStatus r now u in set_failure status n now u r.
Proof. unfold unlease, fake_failed. rewrite fakeClassify_status. destruct (failureStatus r now u), r. done. Qed.
Lemma failure_agrees f db now rec owner ttl u : agree f db -> table_ok db -> step_agrees f db (CFailure now rec owner ttl u).
Proof.
  intros Ha Hok. pose proof Ha as (Hrows & _). unfold step_agrees. cbn [fake_call sql_call]. unfold fake_RecordConsumerFailure, RecordConsumerFailure, update_where. tidy. rewrite Hrows.
  destruct (db_rows db !! pr_ID rec) as [r|] eqn:Hr; [|by tidy; split; [left|]]. destruct (Hok _ _ Hr) as [[Hid _] _].
  change (sql_eq (pr_LockedBy r) owner) with (owned_by r owner). change (sql_gt (pr_LockedAt r)) with (after (pr_LockedAt r)).
  destruct (negb _ || negb _).
  - destruct (owned_by r owner && _); [|by tidy; split; [left|]]. tidy; split; [by left|]. tidy.
    apply agree_store; [by destruct r|done].
  - rewrite fake_failed_set. destruct (failureStatus r now u) as [status n]. tidy; split; [by left|]. tidy.
    apply agree_store; [by destruct r|done].
Qed.
Lemma fakeFenced_where f id lease now : fakeFenced f id lease now = (r ← fk_proxies f !! id; if fencedWhere lease now r then Some r else None).
Proof.
  unfold fakeFenced, fencedWhere. destruct (fk_proxies f !! id) as [r|]; [|done]. cbn. unfold sql_eq, sql_gt, after.
  destruct (pr_ScanToken r) as [t|]; [case_bool_decide|]; cbn; try done.
  destruct (pr_ClaimedVersion r) as [v|]; [|done]. destruct (Z.eqb_spec v (sl_Version lease)), (bool_decide_reflect (v = sl_Version lease)); try done.
  by destruct (pr_ObservationVersion r =? _), (pr_ScanLeaseUntil r) as [z|]; cbn; try destruct (now <? z).
Qed.
Lemma complete_agrees f db now lease u : agree f db -> table_ok db -> step_agrees f db (CComplete now lease u).
Proof.
  intros Ha Hok. pose proof Ha as (Hrows & _). unfold step_agrees. cbn [fake_call sql_call]. unfold fake_CompleteScan, CompleteScan, update_where. tidy.
  rewrite fakeFenced_where, Hrows. destruct (db_rows db !! _) as [r|] eqn:Hr; [|by tidy; split; [left|]]. destruct (Hok _ _ Hr) as [[Hid _] _].
  cbn [mbind option_bind]. destruct (fencedWhere lease now r); [|by tidy; split; [left|]]. tidy. split; [by left|].
  destruct (su_Outcome u).
  - apply (agree_store f db _ (set_inconclusive now u r)); [by destruct r|done].
  - apply (agree_store f db _ (set_success now u r)); [by destruct r|done].
  - rewrite fake_failed_set. destruct (failureStatus r now u). apply agree_store; [by destruct r|done].
Qed.
Lemma release_scan_agrees f db now lease : agree f db -> table_ok db -> step_agrees f db (CReleaseScan now lease).
Proof.
  intros Ha Hok. pose proof Ha as (Hrows & _). unfold step_agrees. cbn [fake_call sql_call]. unfold fake_ReleaseScan, ReleaseScan, update_where, sql_eq. tidy.
  rewrite Hrows. destruct (db_rows db !! _) as [r|] eqn:Hr; [|by tidy; split; [left|]]. destruct (Hok _ _ Hr) as [[Hid _] _].
  destruct (match pr_ScanToken r with Some t => _ | None => _ end); [|by tidy; split; [left|]].
  destruct (pr_ClaimedVersion r) as [v|]; [|by tidy; split; [left|]].
  destruct (Z.eqb_spec v (sl_Version lease)), (bool_decide_reflect (v = sl_Version lease)); try done; [|by tidy; split; [left|]].
  tidy. split; [by left|]. apply agree_store; [by destruct r|done].
Qed.

(** ** Claims *)

Lemma StronglySorted_iff {A} (R S : A -> A -> Prop) l : (forall a b, R a b <-> S a b) -> StronglySorted R l -> StronglySorted S l.
Proof. intros HRS. induction 1; constructor; [done|]. eapply Forall_impl; [|done]. intros x Hx. by apply HRS. Qed.
Lemma candidates_agree f db now q limit : agree f db -> table_ok db ->
  fake_candidates pol range f now q limit = chosen_rows pol db now ∅ q limit.
Proof.
  intros Ha Hok. unfold fake_candidates, chosen_rows. f_equal.
  eapply (StronglySorted_unique_strong (order_le (queue_key q))).
  - intros x y Hx Hy Hxy Hyx. rewrite order_le_spec in *. pose proof (key_le_antisym _ _ _ _ Hxy Hyx) as Hid.
    rewrite merge_sort_Permutation, list_elem_of_filter, (range_rows f db Ha), rows_list_lookup in Hx by done.
    rewrite merge_sort_Permutation, list_elem_of_filter, rows_list_lookup in Hy by done. rewrite Hid in Hx. naive_solver congruence.
  - apply (StronglySorted_iff (fake_le (fakeLeaseKey q))); [apply fake_le_order|]. apply StronglySorted_merge_sort.
    + intros a b c. rewrite !fake_le_order. apply order_le_trans.
    + intros a b. rewrite !fake_le_order. apply order_le_total.
  - apply StronglySorted_merge_sort; apply _.
  - etrans; [apply merge_sort_Permutation|]. etrans; [|symmetry; apply merge_sort_Permutation]. rewrite (range_rows f db Ha). erewrite filter_ext_in; [done|].
    intros x _. cbn. rewrite fake_due_where, andb_true_iff. pose proof (not_elem_of_empty (C := gset Z) (pr_ID x)). tauto.
Qed.
Lemma claim_scans_agree f db now token q limit : agree f db -> table_ok db -> step_agrees f db (CClaimScans now token q limit).
Proof.
  intros Ha Hok. unfold step_agrees. cbn [fake_call sql_call]. unfold fake_ClaimScans, ClaimScans. destruct (Z.leb_spec limit 0) as [Hl|Hl].
  { split; [right; cbn; eauto|done]. }
  tidy. cbn [stmt_ts clock_ts]. rewrite (candidates_agree f db) by done. set (chosen := chosen_rows pol db now ∅ q limit).
  rewrite (sortScanLeases_claim pol db (mkDbTime now (fun _ => now)) ∅ token q limit) by done.
  assert (Hle : (fun p => mkScanLease p token (pr_ObservationVersion p)) <$> (fake_lease pol now token <$> chosen) = claim_leases pol db (mkDbTime now (fun _ => now)) ∅ token q limit).
  { unfold claim_leases. cbn [stmt_ts clock_ts]. fold chosen. rewrite <-!list_fmap_compose. apply list_fmap_ext. intros i r _. by destruct r. }
  assert (Hnd : NoDup (pr_ID <$> (fake_lease pol now token <$> chosen))).
  { rewrite <-list_fmap_compose. replace (pr_ID ∘ fake_lease pol now token <$> chosen) with (pr_ID <$> chosen); [by apply chosen_rows_NoDup|].
    apply list_fmap_ext. intros i r _. by destruct r. }
  rewrite <-Hle. destruct chosen as [|r rest]; tidy; (split; [by left|]).
  - destruct f, db, Ha as (? & ? & ?). by split_and!.
  - rewrite foldl_store by done. destruct f, db, Ha as (Hrows & ? & ?). cbn in Hrows. subst. by split_and!.
Qed.

Lemma fake_better_irrefl a : fake_better a a = false.
Proof. unfold fake_better. by rewrite !Z.ltb_irrefl, andb_false_r. Qed.
Lemma fake_better_trans a b c : fake_better a b = false -> fake_better b c = false -> fake_better a c = false.
Proof. unfold fake_better. intros H1 H2. zbool; try done; lia. Qed.
Lemma fake_better_asym a b : fake_better a b = true -> fake_better b a = false.
Proof. unfold fake_better. intros H1. zbool; try done; lia. Qed.
(** What the scan of the map ends with. *)
Definition best_of (now ttl : Z) (l : list ProxyRecord) (best : option ProxyRecord) : Prop :=
  match best with
  | None => forall p, p ∈ l -> fake_candidate pol now ttl p = false
  | Some b => b ∈ l /\ fake_candidate pol now ttl b = true /\ forall p, p ∈ l -> fake_candidate pol now ttl p = true -> fake_better p b = false
  end.
Lemma pick_best_spec now ttl l : best_of now ttl l (foldl (pick_best pol now ttl) None l).
Proof.
  induction l as [|p l IH] using rev_ind; [intros p Hp; by apply elem_of_nil in Hp|]. rewrite foldl_snoc. unfold pick_best at 1.
  destruct (fake_candidate pol now ttl p) eqn:Hc; cbn [negb]; destruct (foldl _ None l) as [b|]; cbn in IH |- *.
  - destruct IH as (Hb & Hcb & Hmin). destruct (fake_better p b) eqn:Hpb; (split_and!; [set_solver|done|]).
    + intros x [Hx|Hx%list_elem_of_singleton]%elem_of_app Hcx; [|subst; apply fake_better_irrefl].
      eapply fake_better_trans; [by apply Hmin|]. by apply fake_better_asym.
    + intros x [Hx|Hx%list_elem_of_singleton]%elem_of_app Hcx; [by apply Hmin|by subst].
  - split_and!; [set_solver|done|]. intros x [Hx|Hx%list_elem_of_singleton]%elem_of_app Hcx; [by rewrite IH in Hcx|]. subst. apply fake_better_irrefl.
  - destruct IH as (Hb & Hcb & Hmin). split_and!; [set_solver|done|]. intros x [Hx|Hx%list_elem_of_singleton]%elem_of_app Hcx; [by apply Hmin|congruence].
  - intros x [Hx|Hx%list_elem_of_singleton]%elem_of_app; [by apply IH|by subst].
Qed.

(** On rows with a clear order the fake's choice is the adapter's. *)
Lemma clear_choice_facts db now ttl : clear_choice db now ttl = true ->
  (forall r, r ∈ rows_list db -> pr_LockedAt r <> Some (now - ttl))
  /\ (forall r, r ∈ rows_list db -> claimable pol ttl now r = true -> distinguishable r = true)
  /\ (forall r r', r ∈ rows_list db -> r' ∈ rows_list db -> claimable pol ttl now r = true -> claimable pol ttl now r' = true -> claim_cmp r r' = Eq -> r = r').
Proof.
  unfold clear_choice. cbv zeta. rewrite !andb_true_iff, !forallb_forall. intros [[H1 H2] H3].
  assert (Hin : forall r, r ∈ rows_list db -> claimable pol ttl now r = true -> In r (List.filter (claimable pol ttl now) (rows_list db))).
  { intros r Hr Hc. apply List.filter_In. by rewrite <-list_elem_of_In. }
  split_and!.
  - intros r Hr%list_elem_of_In. by apply H1 in Hr; bsplit.
  - intros r Hr Hc. apply H2. by apply Hin.
  - intros r r' Hr Hr' Hc Hc' Heq. specialize (H3 r (Hin r Hr Hc)). rewrite forallb_forall in H3. specialize (H3 r' (Hin r' Hr' Hc')).
    rewrite Heq in H3. rewrite bool_decide_true in H3 by done. cbn in H3. by bsplit.
Qed.
Lemma not_better_le p b : distinguishable p = true -> distinguishable b = true -> fake_better p b = false -> claim_le b p.
Proof.
  unfold distinguishable, fake_better, claim_le, claim_cmp, uptimeOrZero, latencyOrMax, default. intros Hp Hb.
  destruct (pr_UptimePercent p) as [u|], (pr_UptimePercent b) as [u'|], (pr_LatencyMS p) as [l|], (pr_LatencyMS b) as [l'|]; cbn [desc_nulls_last asc_nulls_last id];
    bsplit; unfold then_cmp; repeat match goal with |- context [?a ?= ?b] => destruct (Z.compare_spec a b) end; try done; zbool; try done; lia.
Qed.
Lemma candidate_claimable now ttl p : pr_LockedAt p <> Some (now - ttl) -> fake_candidate pol now ttl p = claimable pol ttl now p.
Proof.
  intros Hl. unfold fake_candidate, claimable. rewrite fake_protocol_supported, !not_after. change (freshPredicate (sp_FreshnessTTL pol) now p) with (fake_fresh pol p now).
  do 2 f_equal. unfold null_or_le. destruct (pr_LockedAt p) as [t|]; [|done]. assert (t <> now - ttl) by congruence. zbool; try done; lia.
Qed.
Lemma claim_proxy_agrees f db now owner ttl : agree f db -> table_ok db -> clear_choice db now ttl = true -> step_agrees f db (CClaimProxy now owner ttl).
Proof.
  intros Ha Hok (Hlock & Hdist & Huniq)%clear_choice_facts. unfold step_agrees. cbn [fake_call sql_call]. unfold fake_ClaimProxy, ClaimProxy. tidy.
  pose proof (pick_best_spec now ttl (range (fk_proxies f))) as Hbest. pose proof (range_rows f db Ha) as Hp.
  set (chosen := filter _ _). assert (Hin : forall c, c ∈ merge_sort claim_le chosen <-> claimable pol ttl now c = true /\ c ∈ rows_list db).
  { intros c. unfold chosen. rewrite merge_sort_Permutation, list_elem_of_filter. set_solver. }
  pose proof (StronglySorted_merge_sort claim_le chosen) as Hs. destruct (foldl _ None _) as [b|]; cbn in Hbest.
  - destruct Hbest as (Hb & Hcb & Hmin). rewrite Hp in Hb. rewrite candidate_claimable in Hcb by auto.
    assert (Hbm : b ∈ merge_sort claim_le chosen) by (by apply Hin). destruct (merge_sort claim_le chosen) as [|h rest]; [by apply elem_of_nil in Hbm|].
    destruct (proj1 (Hin h) (list_elem_of_here _ _)) as [Hch Hh].
    assert (h = b) as ->.
    { apply Huniq; try done. assert (claim_le b h).
      { apply not_better_le; [by apply Hdist..|]. apply Hmin; [by rewrite Hp|]. by rewrite candidate_claimable by auto. }
      assert (claim_le h b). { apply StronglySorted_inv in Hs as [_ Hall]. apply elem_of_cons in Hbm as [->|Hbm]; [by destruct (total claim_le h h)|].
        by apply (proj1 (Forall_forall _ _) Hall), list_elem_of_In. }
      unfold claim_le in *. rewrite (claim_cmp_antisym h b) in *. by destruct (claim_cmp h b). }
    apply rows_list_lookup in Hb as Hrow; [|done]. unfold update_where. rewrite Hrow. tidy. split; [by left|]. apply agree_store; [by destruct b|done].
  - destruct (merge_sort claim_le chosen) as [|h rest]; [by tidy; split; [left|]|]. destruct (proj1 (Hin h) (list_elem_of_here _ _)) as [Hch Hh].
    rewrite <-candidate_claimable in Hch by auto. rewrite Hbest in Hch by (by rewrite Hp). done.
Qed.

Lemma call_agrees f db c : agree f db -> table_ok db -> comparable f db c = true -> step_agrees f db c.
Proof.
  intros Ha Hok Hc. destruct (reads_agree f db Ha) as (H1 & H2 & H3 & H4).
  destruct c; auto using insert_agrees, release_agrees, refresh_agrees, cooldown_agrees, failure_agrees, claim_scans_agree, complete_agrees, release_scan_agrees, claim_proxy_agrees.
Qed.

(** ** Sequences of calls *)

Fixpoint run_calls {S} (step : S -> call -> S * answer) (s : S) (calls : list call) : S * list answer :=
  match calls with
  | [] => (s, [])
  | c :: calls => let '(s, a) := step s c in let '(s, rest) := run_calls step s calls in (s, a :: rest)
  end.
(** Every call of the sequence is comparable where it is made. *)
Fixpoint comparable_run (f : FakeProxyRepository) (db : ProxyDB) (calls : list call) : bool :=
  match calls with
  | [] => true
  | c :: calls => comparable f db c && comparable_run (fake_call f c).1 (sql_call db c).1 calls
  end.

Lemma sql_call_ok db c : table_ok db -> table_ok (sql_call db c).1.
Proof.
  intros Hok. destruct c; try done; cbn [sql_call answering fst].
  - by apply (apply_op_ok pol db (OpInsert NoFault now rec)).
  - by apply (apply_op_ok pol db (OpClaimProxy NoFault now now ∅ owner lockTTL)).
  - by apply (apply_op_ok pol db (OpReleaseProxy NoFault now id owner)).
  - by apply (apply_op_ok pol db (OpRefresh NoFault now id owner lockTTL)).
  - by apply (apply_op_ok pol db (OpCooldown NoFault now id owner lockTTL delay)).
  - by apply (apply_op_ok pol db (OpFailure NoFault now rec owner lockTTL update)).
  - by apply (apply_op_ok pol db (OpClaimScans NoFault (mkDbTime now (fun _ => now)) ∅ (Ok token) queue limit)).
  - by apply (apply_op_ok pol db (OpComplete NoFault now lease update)).
  - by apply (apply_op_ok pol db (OpReleaseScan NoFault now lease)).
Qed.

(** C9: the in-memory repository refines the PostgreSQL adapter.  From the same
    rows, any sequence of lookups, discovery inserts, consumer claims, lock
    refreshes, releases, cooldowns and failures, scan claims, completions and
    releases gets the same answers from both, and leaves the same rows, whatever
    the order in which Go iterates over the map; provided that inserts carry
    what discovery knows and find both key sequences level, and that a consumer
    claim finds a clear choice: no lock that expires at that very instant, no
    known uptime or latency equal to the value the fake takes for an unknown
    one, no tie. *)
Theorem fake_refines_adapter f db calls : agree f db -> table_ok db -> comparable_run f db calls = true ->
  Forall2 same_answer (run_calls fake_call f calls).2 (run_calls sql_call db calls).2
  /\ fk_proxies (run_calls fake_call f calls).1 = db_rows (run_calls sql_call db calls).1.
Proof.
  revert f db. induction calls as [|c calls IH]; intros f db Ha Hok; [by destruct Ha as [? _]|]. cbn [comparable_run]. intros [Hc Hrest]%andb_true_iff.
  destruct (call_agrees f db c Ha Hok Hc) as [Hsame Ha']. pose proof (sql_call_ok db c Hok) as Hok'.
  destruct (IH _ _ Ha' Hok' Hrest) as [IH1 IH2]. cbn [run_calls].
  destruct (fake_call f c) as [f' a], (sql_call db c) as [db' b]. cbn [fst snd] in *.
  destruct (run_calls fake_call f' calls), (run_calls sql_call db' calls). cbn in *. auto.
Qed.
End Agreement.

(** ** A run, and the inputs on which the two differ *)

Definition by_key (m : gmap Z ProxyRecord) : list ProxyRecord := (map_to_list m).*2.
Lemma by_key_perm m : by_key m ≡ₚ (map_to_list m).*2.
Proof. done. Qed.
Definition second_proxy : ProxyRecord := demo_proxy{{ pr_IP := "10.0.0.2"; pr_UptimePercent := Some 90 }}.
(** Two discoveries, a scan of both that succeeds for one, a consumer that
    claims it and sees it fail. *)
Definition demo_calls : list call :=
  [CInsert second demo_proxy; CInsert second second_proxy; CClaimScans (2 * second) "t0" ScanBackground 10;
   CComplete (3 * second) demo_lease demo_success; CReleaseScan (3 * second) (mkScanLease (second_proxy{{ pr_ID := 2 }}) "t0" 0);
   CCountByStatus (4 * second); CClaimProxy (4 * second) "w1" minute; CClaimProxy (4 * second) "w2" minute;
   CRefresh (5 * second) 1 "w1" minute; CCooldown (6 * second) 1 "w1" minute hour; CClaimProxy (7 * second) "w2" minute].
Lemma fake_refines_adapter_witness :
  Forall2 same_answer (run_calls (fake_call demo_policy by_key) NewFakeProxyRepository demo_calls).2 (run_calls (sql_call demo_policy) empty_db demo_calls).2
  /\ fk_proxies (run_calls (fake_call demo_policy by_key) NewFakeProxyRepository demo_calls).1 = db_rows (run_calls (sql_call demo_policy) empty_db demo_calls).1.
Proof.
  apply (fake_refines_adapter demo_policy by_key by_key_perm).
  - by split_and!.
  - apply empty_db_ok.
  - vm_compute. reflexivity.
Defined.

(** A lock that expires at the instant of the claim: the fake hands the proxy
    out, the adapter waits. *)
Definition held_proxy : ProxyRecord :=
  demo_proxy{{ pr_ID := 1; pr_GeneralHealthy := true; pr_LastVerifiedAt := Some minute; pr_LockedBy := Some "w1"; pr_LockedAt := Some 0 }}.
Definition fake_with (rows : list ProxyRecord) : FakeProxyRepository := foldl store NewFakeProxyRepository rows.
Definition db_with (rows : list ProxyRecord) : ProxyDB := mkProxyDB (write_rows ∅ rows) 10.
Lemma fake_expires_early :
  (fake_ClaimProxy demo_policy by_key (fake_with [held_proxy]) minute "w2" minute).2
    = Ok (Some (held_proxy{{ pr_LockedBy := Some "w2"; pr_LockedAt := Some minute; pr_UpdatedAt := minute }}))
  /\ (ClaimProxy demo_policy (db_with [held_proxy]) NoFault minute minute ∅ "w2" minute).2 = Ok None.
Proof. vm_compute. done. Qed.
(** A proxy of unknown uptime against one known to be down all the time: the
    fake takes both for zero and prefers the faster, the adapter prefers the
    known one. *)
Definition claimed_id (r : result (option ProxyRecord)) : option Z := match r with Ok (Some p) => Some (pr_ID p) | _ => None end.
Definition fast_unknown : ProxyRecord := held_proxy{{ pr_LockedBy := None; pr_LockedAt := None; pr_LatencyMS := Some 10 }}.
Definition slow_down : ProxyRecord := fast_unknown{{ pr_ID := 2; pr_IP := "10.0.0.2"; pr_LatencyMS := Some 20; pr_UptimePercent := Some 0 }}.
Lemma fake_orders_unknown_uptime :
  claimed_id (fake_ClaimProxy demo_policy by_key (fake_with [fast_unknown; slow_down]) minute "w" minute).2 = Some 1
  /\ claimed_id (ClaimProxy demo_policy (db_with [fast_unknown; slow_down]) NoFault minute minute ∅ "w" minute).2 = Some 2.
Proof. vm_compute. done. Qed.
(** An inserted record keeps its evidence in the fake, and loses it in the
    table: a test can seed a fresh proxy no insert can produce. *)
Lemma fake_insert_keeps_evidence :
  claimed_id (fake_ClaimProxy demo_policy by_key (fake_InsertIfAbsent by_key NewFakeProxyRepository minute fast_unknown).1 minute "w" minute).2 = Some 1
  /\ claimed_id (ClaimProxy demo_policy (InsertIfAbsent empty_db NoFault minute fast_unknown).1 NoFault minute minute ∅ "w" minute).2 = None.
Proof. vm_compute. done. Qed.

(** ** Listing *)

Definition faster (a b : ProxyRecord) : Prop := latencyOrMax a <= latencyOrMax b.
Lemma exchange_pass_spec l : forall x m r, exchange_pass x l = (m, r) ->
  m :: r ≡ₚ x :: l /\ Forall (faster m) r /\ faster m x /\ length r = length l.
Proof.
  induction l as [|y l IH]; intros x m r; cbn; [intros [= <- <-]; unfold faster; split_and!; auto; lia|].
  destruct (Z.ltb_spec (latencyOrMax y) (latencyOrMax x)) as [Hlt|Hge].
  - destruct (exchange_pass y l) as [m' r'] eqn:E. intros [= <- <-]. destruct (IH _ _ _ E) as (Hp & Hall & Hm & Hlen). unfold faster in *.
    split_and!; [|constructor; [lia|done]|lia|cbn; lia]. by rewrite Permutation_swap, Hp.
  - destruct (exchange_pass x l) as [m' r'] eqn:E. intros [= <- <-]. destruct (IH _ _ _ E) as (Hp & Hall & Hm & Hlen). unfold faster in *.
    split_and!; [|constructor; [lia|done]|lia|cbn; lia]. rewrite Permutation_swap, Hp. apply Permutation_swap.
Qed.
(** The exchange loops of [ListActive] sort: with the length as fuel they
    return the rows, fastest first. *)
Lemma exchange_sort_spec n : forall l, length l = n -> exchange_sort n l ≡ₚ l /\ StronglySorted faster (exchange_sort n l).
Proof.
  induction n as [|n IH]; intros [|x l] Hl; try done; [split; constructor|]. cbn. destruct (exchange_pass x l) as [m r] eqn:E.
  destruct (exchange_pass_spec l x m r E) as (Hp & Hall & _ & Hlen). injection Hl as Hl. destruct (IH r) as [Hr Hs]; [lia|].
  split; [by rewrite Hr|]. constructor; [done|]. by rewrite Hr.
Qed.
Lemma fake_ListActive_fastest pol range f now limit : 0 <= limit ->
  exists l rest, fake_ListActive pol range f now limit = Some l /\ Z.of_nat (length l) <= limit
    /\ l ++ rest ≡ₚ filter (fun p => fake_fresh pol p now = true) (range (fk_proxies f)) /\ StronglySorted faster (l ++ rest).
Proof.
  intros Hl. unfold fake_ListActive. set (rows := filter _ _). destruct (exchange_sort_spec (length rows) rows eq_refl) as [Hp Hs].
  set (sorted := exchange_sort _ _) in *. destruct (Z.ltb_spec limit (Z.of_nat (length sorted))) as [Hlt|Hge].
  - destruct (Z.ltb_spec limit 0); [lia|]. exists (take (Z.to_nat limit) sorted), (drop (Z.to_nat limit) sorted). rewrite take_drop, length_take. split_and!; try done. lia.
  - exists sorted, []. rewrite app_nil_r. done.
Qed.
