(* ===== verification/Proxytest.v ===== *)
(** * Local proxies ([infrastructure/httpclient/proxytest])

    The proxy servers the transport is exercised against: an HTTP CONNECT and
    forward proxy, a SOCKS4 and a SOCKS5 server.  A handler is a function of the
    bytes (or requests) its client sends; [reach] tells whether [net.Dial]
    reaches an address.  The end of the file puts the dial functions of [Dial]
    on the other side of the connection. *)
From stdpp Require Import pretty.
From S2P Require Import Prelude GoErrors GoStrings Dates Payloads LodestonePage Lodestone Dial DialFacts.

(** [io.ReadFull] of [n] bytes: the bytes and the rest, or an error. *)
Definition ReadFull (n : nat) (stream : list Z) : option (list Z * list Z) :=
  if bool_decide (n <= length stream)%nat then Some (take n stream, drop n stream) else None.
(** [Reader.ReadBytes(0)]: up to and including the first NUL. *)
Fixpoint ReadBytes0 (stream : list Z) : option (list Z * list Z) :=
  match stream with
  | [] => None
  | b :: rest => if b =? 0 then Some ([b], rest) else '(line, rest) ← ReadBytes0 rest; Some (b :: line, rest)
  end.
(** [net.IP.String] of four bytes. *)
Definition ip4_string (a b c d : Z) : string := pretty a +:+ "." +:+ pretty b +:+ "." +:+ pretty c +:+ "." +:+ pretty d.
(** What a handler did to its connection: the bytes it wrote and the address it
    relays to until both sides are done. *)
Record served := mkServed { sv_written : list Z; sv_tunnel : option string }.
Definition hung_up : served := mkServed [] None.

Section Fixtures.
(** [net.Dial] reaches the address; [net.IP.String] of sixteen bytes; the
    status [forwardClient.Do] gets for a request, if it gets one. *)
Context (reach : string -> bool) (ip6_string : list Z -> string).

(** ** HTTP *)

Record HTTPProxy := mkHTTPProxy { hp_RefuseStatus : Z; hp_Connects : Z; hp_Forwards : Z; hp_Open : Z }.
Definition newHTTPProxy (refuseStatus : Z) : HTTPProxy := mkHTTPProxy refuseStatus 0 0 0.
(** A request as [http.ReadRequest] parses it; a forwarded one carries the
    outcome of [forwardClient.Do]. *)
Inductive proxy_request := ConnectTo (host : string) | Forwarded (status : option Z).
Definition http_tunnel (host : string) : list Z * option string := if reach host then ([200], Some host) else ([502], None).
Definition http_forward (status : option Z) : Z := match status with Some s => s | None => 502 end.
(** The loop of [handle]: the statuses it answers with. *)
Fixpoint http_requests (p : HTTPProxy) (requests : list proxy_request) : HTTPProxy * (list Z * option string) :=
  match requests with
  | [] => (p, ([], None))
  | ConnectTo host :: _ =>
      let p := p{{ hp_Connects := hp_Connects p + 1 }} in
      if negb (hp_RefuseStatus p =? 0) then (p, ([hp_RefuseStatus p], None)) else (p, http_tunnel host)
  | Forwarded status :: requests =>
      let p := p{{ hp_Forwards := hp_Forwards p + 1 }} in
      if negb (hp_RefuseStatus p =? 0) then (p, ([hp_RefuseStatus p], None))
      else let '(p, (answers, tunnel)) := http_requests p requests in (p, (http_forward status :: answers, tunnel))
  end.
Definition http_handle (p : HTTPProxy) (requests : list proxy_request) : HTTPProxy * (list Z * option string) :=
  let '(p, r) := http_requests (p{{ hp_Open := hp_Open p + 1 }}) requests in (p{{ hp_Open := hp_Open p - 1 }}, r).

(** ** SOCKS4 *)

Record SOCKS4Proxy := mkSOCKS4Proxy { s4_Stall : bool; s4_GarbageVN : bool; s4_Connects : Z; s4_Open : Z; s4_target : string }.
Definition newSOCKS4Proxy (stall garbageVN : bool) : SOCKS4Proxy := mkSOCKS4Proxy stall garbageVN 0 0 "".
Definition socks4_serve (p : SOCKS4Proxy) (stream : list Z) : SOCKS4Proxy * served :=
  if s4_Stall p then (p, hung_up)
  else if s4_GarbageVN p then (p, mkServed [1; 90; 0; 0; 0; 0; 0; 0] None)
  else match ReadFull 8 stream with
  | Some ([vn; cd; ph; pl; a; b; c; d], rest) =>
      if negb (vn =? 4) || negb (cd =? 1) then (p, hung_up)
      else match ReadBytes0 rest with
      | None => (p, hung_up)
      | Some (userid, _) =>
          if negb (Nat.eqb (length userid) 1) then (p, hung_up)
          else
            let port := Z.lor (Z.shiftl ph 8) pl in
            let target := JoinHostPort (ip4_string a b c d) (pretty port) in
            let p := p{{ s4_target := target; s4_Connects := s4_Connects p + 1 }} in
            if reach target then (p, mkServed [0; 90; ph; pl; a; b; c; d] (Some target))
            else (p, mkServed [0; 91; 0; 0; 0; 0; 0; 0] None)
      end
  | _ => (p, hung_up)
  end.
Definition socks4_handle (p : SOCKS4Proxy) (stream : list Z) : SOCKS4Proxy * served :=
  let '(p, r) := socks4_serve (p{{ s4_Open := s4_Open p + 1 }}) stream in (p{{ s4_Open := s4_Open p - 1 }}, r).

(** ** SOCKS5 *)

Record SOCKS5Proxy := mkSOCKS5Proxy { s5_Connects : Z; s5_Open : Z; s5_target : string }.
Definition NewSOCKS5Proxy : SOCKS5Proxy := mkSOCKS5Proxy 0 0 "".
(** The address of the request, by its type. *)
Definition socks5_host (atyp : Z) (stream : list Z) : option (string * list Z) :=
  if atyp =? 1 then
    '(ip, rest) ← ReadFull 4 stream;
    match ip with [a; b; c; d] => Some (ip4_string a b c d, rest) | _ => None end
  else if atyp =? 3 then
    '(l, rest) ← ReadFull 1 stream;
    '(name, rest) ← ReadFull (Z.to_nat (nth 0 l 0)) rest;
    Some (String.string_of_list_ascii ((fun z => Ascii.ascii_of_N (Z.to_N z)) <$> name), rest)
  else if atyp =? 4 then
    '(ip, rest) ← ReadFull 16 stream; Some (ip6_string ip, rest)
  else None.
(** The target the client asks for: [None] hangs up. *)
Definition socks5_target (stream : list Z) : option string :=
  '(head, rest) ← ReadFull 4 stream;
  if negb (nth 1 head 0 =? 1) then None
  else
    '(host, rest) ← socks5_host (nth 3 head 0) rest;
    '(portBytes, _) ← ReadFull 2 rest;
    Some (JoinHostPort host (pretty (Z.lor (nth 1 portBytes 0) (Z.shiftl (nth 0 portBytes 0) 8)))).
Definition socks5_serve (p : SOCKS5Proxy) (stream : list Z) : SOCKS5Proxy * served :=
  match ReadFull 2 stream with
  | Some (greeting, rest) =>
      if negb (nth 0 greeting 0 =? 5) then (p, hung_up)
      else match ReadFull (Z.to_nat (nth 1 greeting 0)) rest with
      | None => (p, hung_up)
      | Some (_, rest) =>
          match socks5_target rest with
          | None => (p, mkServed [5; 0] None)
          | Some target =>
              let p := p{{ s5_target := target; s5_Connects := s5_Connects p + 1 }} in
              if reach target then (p, mkServed ([5; 0] ++ [5; 0; 0; 1; 0; 0; 0; 0; 0; 0]) (Some target))
              else (p, mkServed ([5; 0] ++ [5; 5; 0; 1; 0; 0; 0; 0; 0; 0]) None)
          end
      end
  | None => (p, hung_up)
  end.
Definition socks5_handle (p : SOCKS5Proxy) (stream : list Z) : SOCKS5Proxy * served :=
  let '(p, r) := socks5_serve (p{{ s5_Open := s5_Open p + 1 }}) stream in (p{{ s5_Open := s5_Open p - 1 }}, r).
End Fixtures.

(** ** Waiting for the connections to close *)

(** Each poll sees the open connections and the clock; [Some false] is the
    test's failure, [None] that the polls ran out. *)
Fixpoint WaitConnsClosed (deadline : Z) (polls : list (Z * Z)) : option bool :=
  match polls with
  | [] => None
  | (open, now) :: polls => if open =? 0 then Some true else if deadline <? now then Some false else WaitConnsClosed deadline polls
  end.
(** Polls two milliseconds apart or more: the wait is over after the time it
    was given, whatever the connections do. *)
Lemma WaitConnsClosed_ends deadline polls now : deadline < now -> (exists open, (open, now) ∈ polls) -> is_Some (WaitConnsClosed deadline polls).
Proof.
  intros Hd [open Hin]. induction polls as [|[o t] polls IH]; [by apply elem_of_nil in Hin|]. cbn.
  destruct (o =? 0); [done|]. destruct (Z.ltb_spec deadline t); [done|]. apply elem_of_cons in Hin as [[= -> ->]|Hin]; [lia|auto].
Qed.

(** ** The transport against the fixtures *)

(** The proxy on the other side of the dialled connection, and what it makes of
    the messages it gets. *)
Inductive fixture := HTTPFixture (p : HTTPProxy) | SOCKS4Fixture (p : SOCKS4Proxy).
Definition fixture_serves (reach : string -> bool) (fx : fixture) (sent : list message) : (list Z * option string) :=
  match fx, sent with
  | HTTPFixture p, [ConnectRequest addr _] => (http_handle reach p [ConnectTo addr]).2
  | SOCKS4Fixture p, [Bytes b] => let r := (socks4_handle reach p b).2 in (sv_written r, sv_tunnel r)
  | _, _ => ([], None)
  end.
(** The dialer reads what the fixture wrote. *)
Definition reads (env : dial_env) (fx : fixture) (written : list Z) : Prop :=
  match fx, written with
  | HTTPFixture _, [status] => exists buffered, de_connect env = Ok (status, buffered)
  | SOCKS4Fixture _, [_; _; _; _; _; _; _; _] => de_reply env = Ok written
  | _, _ => (exists e, de_connect env = Err e) /\ exists e, de_reply env = Err e
  end.
(** The dialer speaks the fixture's protocol. *)
Definition speaks (d : dialer) (fx : fixture) : Prop :=
  match d, fx with ConnectDialer _ _, HTTPFixture _ => True | Socks4Dialer _ _, SOCKS4Fixture _ => True | _, _ => False end.
(** The network and the context hold until the handshake is done. *)
Definition healthy (env : dial_env) : Prop :=
  de_tcp env = Ok tt /\ de_proxyTLS env = Ok tt /\ de_write env = Ok tt /\ forall m, de_ctxErr env m = None.
(** A refusal is a refusal: the status the HTTP fixture refuses with is no
    success. *)
Definition refuses (fx : fixture) : Prop :=
  match fx with HTTPFixture p => hp_RefuseStatus p = 0 \/ Z.quot (hp_RefuseStatus p) 100 <> 2 | SOCKS4Fixture _ => True end.

Section Interop.
Context (net_SplitHostPort : string -> result (string * string)).
Context (net_ParseIP : string -> option (option (Z * Z * Z * Z))).
Context (lookup_ip4 : string -> result (option (Z * Z * Z * Z))).
Context (reach : string -> bool).
#[local] Abbreviation socks4_target := (socks4_target net_SplitHostPort net_ParseIP lookup_ip4).
#[local] Abbreviation dial := (dial net_SplitHostPort net_ParseIP lookup_ip4).

(** The address a dialer asks its proxy for. *)
Definition asked (d : dialer) (addr : string) : option string :=
  match d with
  | Socks4Dialer _ _ => match socks4_target addr with Ok (port, (a, b, c, d)) => Some (JoinHostPort (ip4_string a b c d) (pretty port)) | Err _ => None end
  | _ => Some addr
  end.

Lemma port_bytes port : 0 <= port <= 65535 -> Z.lor (Z.shiftl (to_byte (Z.shiftr port 8)) 8) (to_byte port) = port.
Proof.
  intros Hp. unfold to_byte. apply Z.bits_inj'. intros n Hn. rewrite Z.lor_spec, Z.shiftl_spec by done. change 255 with (Z.ones 8).
  rewrite !Z.land_spec. destruct (Z.ltb_spec n 8) as [Hlt|Hge].
  - rewrite (Z.ones_spec_low 8 n), (Z.testbit_neg_r (Z.shiftr port 8) (n - 8)) by lia. by rewrite andb_true_r.
  - rewrite (Z.ones_spec_high 8 n) by lia. rewrite andb_false_r, orb_false_r, Z.shiftr_spec by lia. replace (n - 8 + 8) with n by lia.
    destruct (Z.ltb_spec n 16); [rewrite Z.ones_spec_low by lia; by rewrite andb_true_r|].
    rewrite Z.ones_spec_high by lia. rewrite andb_false_r. symmetry. destruct (decide (port = 0)) as [->|]; [apply Z.bits_0|].
    apply Z.bits_above_log2; [lia|]. enough (Z.log2 port < 16) by lia. apply Z.log2_lt_pow2; lia.
Qed.
Lemma socks4_fixture_decodes p port a b c d : 0 <= port <= 65535 -> s4_Stall p = false -> s4_GarbageVN p = false ->
  socks4_handle reach p (socks4_request port (a, b, c, d)) =
  let target := JoinHostPort (ip4_string a b c d) (pretty port) in
  let p := p{{ s4_target := target; s4_Connects := s4_Connects p + 1 }} in
  if reach target then (p, mkServed [0; 90; to_byte (Z.shiftr port 8); to_byte port; a; b; c; d] (Some target)) else (p, mkServed [0; 91; 0; 0; 0; 0; 0; 0] None).
Proof.
  intros Hp Hs Hg. destruct p as [st ga co op ta]. cbn in Hs, Hg. subst. unfold socks4_handle, socks4_serve, ReadFull. rewrite bool_decide_true by (cbn; lia). cbn -[to_byte ip4_string Z.lor Z.shiftl Z.shiftr pretty JoinHostPort].
  rewrite port_bytes by done. destruct (reach _); cbn -[to_byte ip4_string JoinHostPort pretty Z.shiftr]; repeat f_equal; lia.
Qed.

(** What the theorem promises of one dial: it stands exactly when the proxy
    relays, and the proxy relays to the address that was asked for and to no
    other. *)
Definition interoperates (d : dialer) (addr : string) (r : result conn) (tunnel : option string) : Prop :=
  (is_ok r = true <-> is_Some tunnel) /\ (forall t, tunnel = Some t -> asked d addr = Some t /\ reach t = true).

Lemma connect_interoperates u b p env addr : healthy env -> refuses (HTTPFixture p) ->
  let '(w, r) := dial (ConnectDialer u b) env addr fresh_wire in
  let '(written, tunnel) := fixture_serves reach (HTTPFixture p) (wi_sent w) in
  reads env (HTTPFixture p) written -> interoperates (ConnectDialer u b) addr r tunnel.
Proof.
  intros (Htcp & Htls & Hw & Hctx) Href. cbn [Dial.dial]. unfold httpConnectDialContext. rewrite !ST_bind_eq. cbn [dial_to fst snd].
  rewrite Htcp. cbn [fst snd]. rewrite !ST_bind_eq. cbn [set_deadline fst snd].
  replace (if bool_decide (pu_Scheme u = "https") then de_proxyTLS env else Ok tt) with (Ok tt : result unit) by (rewrite Htls; by case_bool_decide).
  rewrite !ST_bind_eq. cbn [write_conn fst snd]. rewrite Hw.
  assert (Hserve : fixture_serves reach (HTTPFixture p) [ConnectRequest addr (pu_User u)] =
    if negb (hp_RefuseStatus p =? 0) then ([hp_RefuseStatus p], None) else http_tunnel reach addr).
  { destruct p as [rs co fo op]. cbn. unfold http_handle. cbn. by destruct (rs =? 0). }
  destruct (de_connect env) as [[status buffered]|e] eqn:Hc.
  - destruct (Z.eqb_spec (Z.quot status 100) 2) as [H2|H2]; cbn [negb].
    + unfold hand_over. rewrite !ST_bind_eq. cbn [set_deadline fst snd]. rewrite Hctx. cbn -[fixture_serves reads]. rewrite Hserve.
      destruct (Z.eqb_spec (hp_RefuseStatus p) 0) as [Hz|Hz]; cbn [negb].
      * unfold http_tunnel. destruct (reach addr) eqn:Hr; cbn; intros [bf Hbf]; rewrite Hc in Hbf; simplify_eq. split; [split; [eauto|done]|by intros t [= <-]].
      * cbn. intros [bf Hbf]. rewrite Hc in Hbf. destruct Href; simplify_eq.
    + rewrite ST_bind_eq. cbn -[fixture_serves reads]. rewrite Hserve. destruct (Z.eqb_spec (hp_RefuseStatus p) 0) as [Hz|Hz]; cbn [negb].
      * unfold http_tunnel. destruct (reach addr) eqn:Hr; cbn; intros [bf Hbf]; rewrite Hc in Hbf; simplify_eq. split; [split; [done|by intros [? ?]]|done].
      * cbn. intros _. split; [split; [done|by intros [? ?]]|done].
  - unfold abandon. rewrite ST_bind_eq, Hctx. cbn -[fixture_serves reads]. rewrite Hserve. destruct (negb _); [|unfold http_tunnel; destruct (reach addr)]; cbn; intros [bf Hbf]; congruence.
Qed.
Lemma socks4_interoperates u b p env addr : healthy env ->
  let '(w, r) := dial (Socks4Dialer u b) env addr fresh_wire in
  let '(written, tunnel) := fixture_serves reach (SOCKS4Fixture p) (wi_sent w) in
  reads env (SOCKS4Fixture p) written -> interoperates (Socks4Dialer u b) addr r tunnel.
Proof.
  intros (Htcp & Htls & Hw & Hctx). cbn [Dial.dial]. unfold socks4DialContext, interoperates, asked.
  destruct (socks4_target addr) as [[port ip]|e] eqn:Ht; [|cbn; intros _; split; [split; [done|by intros [? ?]]|done]].
  pose proof (socks4_target_port _ _ _ _ _ _ Ht) as Hp. destruct ip as [[[a b'] c] d].
  rewrite !ST_bind_eq. cbn [dial_to fst snd]. rewrite Htcp. cbn [fst snd]. rewrite !ST_bind_eq. cbn [set_deadline write_conn fst snd]. rewrite Hw.
  set (target := JoinHostPort (ip4_string a b' c d) (pretty port)).
  assert (Hserve : fixture_serves reach (SOCKS4Fixture p) [Bytes (socks4_request port (a, b', c, d))] =
    if s4_Stall p then ([], None) else if s4_GarbageVN p then ([1; 90; 0; 0; 0; 0; 0; 0], None)
    else if reach target then ([0; 90; to_byte (Z.shiftr port 8); to_byte port; a; b'; c; d], Some target) else ([0; 91; 0; 0; 0; 0; 0; 0], None)).
  { unfold fixture_serves. destruct (s4_Stall p) eqn:Hs; [by unfold socks4_handle, socks4_serve; destruct p; cbn in *; subst|]. destruct (s4_GarbageVN p) eqn:Hg; [by unfold socks4_handle, socks4_serve; destruct p; cbn in *; subst|].
    rewrite socks4_fixture_decodes by done. cbv zeta. fold target. by destruct (reach target). }
  assert (Hno : (false = true <-> is_Some (None : option string)) /\ (forall t, None = Some t -> Some target = Some t /\ reach t = true)).
  { split; [split; [done|by intros [? ?]]|done]. }
  destruct (de_reply env) as [reply|e] eqn:Hr.
  - destruct (Z.eqb_spec (nth 0 reply 0) 0) as [H0|H0]; cbn [negb]; [destruct (Z.eqb_spec (nth 1 reply 0) 90) as [H1|H1]; cbn [negb]|].
    + unfold hand_over. rewrite !ST_bind_eq. cbn [set_deadline fst snd]. rewrite Hctx. cbn -[fixture_serves reads socks4_request]. rewrite Hserve.
      destruct (s4_Stall p); [|destruct (s4_GarbageVN p); [|destruct (reach target) eqn:Ht']]; unfold reads; rewrite Hr; [intros [_ [? ?]]; done|..]; intros [= ->]; try done.
      split; [split; [eauto|done]|by intros t [= <-]].
    + rewrite !ST_bind_eq. cbn -[fixture_serves reads socks4_request]. rewrite Hserve.
      destruct (s4_Stall p); [|destruct (s4_GarbageVN p); [|destruct (reach target) eqn:Ht']]; unfold reads; rewrite Hr; intros Hrd; try exact Hno; cbn in Hrd; simplify_eq/=; done.
    + rewrite !ST_bind_eq. cbn -[fixture_serves reads socks4_request]. rewrite Hserve.
      destruct (s4_Stall p); [|destruct (s4_GarbageVN p); [|destruct (reach target) eqn:Ht']]; unfold reads; rewrite Hr; intros Hrd; try exact Hno; cbn in Hrd; simplify_eq/=; done.
  - unfold abandon. rewrite ST_bind_eq, Hctx. cbn -[fixture_serves reads socks4_request]. rewrite Hserve.
    destruct (s4_Stall p); [|destruct (s4_GarbageVN p); [|destruct (reach target)]]; unfold reads; rewrite Hr; intros Hrd; try exact Hno; done.
Qed.

(** The transport and the proxies understand each other.  Over a network
    and a context that hold, a dial through an HTTP proxy (plain or TLS) or a
    SOCKS4 proxy of the fixtures stands exactly when the proxy relays it, and
    the proxy then relays to the very address that was asked for, which it could
    reach: a refusing proxy, one that stalls, one that answers garbage and one
    that cannot reach the target all fail the dial. *)
Theorem dial_reaches_what_was_asked d fx env addr : speaks d fx -> healthy env -> refuses fx ->
  let '(w, r) := dial d env addr fresh_wire in
  let '(written, tunnel) := fixture_serves reach fx (wi_sent w) in
  reads env fx written -> interoperates d addr r tunnel.
Proof.
  destruct d, fx; cbn [speaks]; try done; intros _ Henv Href; [by apply connect_interoperates|by apply socks4_interoperates].
Qed.
End Interop.

(** ** SOCKS5 clients *)

(** The greeting and the CONNECT request of RFC 1928. *)
Inductive socks5_addr := IP4Addr (a b c d : Z) | DomainAddr (name : list Z) | IP6Addr (bytes : list Z).
Definition addr_bytes (h : socks5_addr) : list Z :=
  match h with IP4Addr a b c d => [1; a; b; c; d] | DomainAddr name => 3 :: Z.of_nat (length name) :: name | IP6Addr bytes => 4 :: bytes end.
Definition addr_ok (h : socks5_addr) : Prop :=
  match h with IP4Addr _ _ _ _ => True | DomainAddr name => (length name <= 255)%nat | IP6Addr bytes => length bytes = 16%nat end.
Definition addr_string (ip6_string : list Z -> string) (h : socks5_addr) : string :=
  match h with
  | IP4Addr a b c d => ip4_string a b c d
  | DomainAddr name => String.string_of_list_ascii ((fun z => Ascii.ascii_of_N (Z.to_N z)) <$> name)
  | IP6Addr bytes => ip6_string bytes
  end.
Definition socks5_client (methods : list Z) (h : socks5_addr) (port : Z) : list Z :=
  [5; Z.of_nat (length methods)] ++ methods ++ [5; 1; 0] ++ addr_bytes h ++ [to_byte (Z.shiftr port 8); to_byte port].

Lemma ReadFull_app a b : ReadFull (length a) (a ++ b) = Some (a, b).
Proof. unfold ReadFull. rewrite bool_decide_true by (rewrite length_app; lia). by rewrite take_app_length, drop_app_length. Qed.
Lemma ReadFull_to n a b : n = length a -> ReadFull n (a ++ b) = Some (a, b).
Proof. intros ->. apply ReadFull_app. Qed.
Lemma socks5_host_reads ip6_string h rest : addr_ok h ->
  exists atyp body, addr_bytes h = atyp :: body /\ socks5_host ip6_string atyp (body ++ rest) = Some (addr_string ip6_string h, rest).
Proof.
  intros Hok. destruct h as [a b c d|name|bytes]; eexists _, _; (split; [reflexivity|]); unfold socks5_host; cbn [Z.eqb Pos.eqb].
  - by rewrite (ReadFull_to 4 [a; b; c; d]).
  - change ((Z.of_nat (length name) :: name) ++ rest) with ([Z.of_nat (length name)] ++ (name ++ rest)). rewrite (ReadFull_to 1) by done. cbn [mbind option_bind nth].
    rewrite (ReadFull_to _ name) by lia. done.
  - rewrite (ReadFull_to 16 bytes) by done. done.
Qed.
(** The SOCKS5 fixture serves every well-formed client: it relays to the host and
    port of the request when it can reach them, and refuses otherwise. *)
Lemma socks5_fixture_decodes reach ip6_string p methods h port : addr_ok h -> 0 <= port <= 65535 ->
  let target := JoinHostPort (addr_string ip6_string h) (pretty port) in
  (socks5_handle reach ip6_string p (socks5_client methods h port)).2 =
    mkServed ([5; 0] ++ [5; if reach target then 0 else 5; 0; 1; 0; 0; 0; 0; 0; 0]) (if reach target then Some target else None)
  /\ s5_target (socks5_handle reach ip6_string p (socks5_client methods h port)).1 = target.
Proof.
  intros Hok Hp target. destruct (socks5_host_reads ip6_string h [to_byte (Z.shiftr port 8); to_byte port] Hok) as (atyp & body & Hb & Hh).
  assert (Ht : socks5_target ip6_string ([5; 1; 0] ++ addr_bytes h ++ [to_byte (Z.shiftr port 8); to_byte port]) = Some target).
  { unfold socks5_target. rewrite Hb. change ([5; 1; 0] ++ (atyp :: body) ++ ?r) with ([5; 1; 0; atyp] ++ (body ++ r)). rewrite (ReadFull_to 4) by done.
    cbn [mbind option_bind nth Z.eqb Pos.eqb negb]. rewrite Hh. cbn [mbind option_bind]. 
    rewrite <-(app_nil_r [to_byte (Z.shiftr port 8); to_byte port]), (ReadFull_to 2) by done. cbn [mbind option_bind nth].
    rewrite Z.lor_comm, port_bytes by done. done. }
  unfold socks5_handle, socks5_serve, socks5_client. rewrite (ReadFull_to 2 [_; _]) by done. cbn [nth Z.eqb Pos.eqb negb].
  rewrite (ReadFull_to _ methods) by lia. rewrite Ht. destruct p. by destruct (reach target).
Qed.

(** ** Examples *)

Definition demo_fixture_env (reply : list Z) : dial_env :=
  mkDialEnv 0 0 None (fun _ => None) (Ok tt) (Ok tt) (Ok tt) (Ok (200, false)) (Ok reply) (Ok tt).
Definition demo_socks4 : dialer := Socks4Dialer (mkProxyURL "socks4" "127.0.0.1" "1080" None) second.
Definition demo_dial (reply : list Z) : wire * result conn :=
  dial demo_split demo_ip (fun _ => Err (ErrorString "no such host")) demo_socks4 (demo_fixture_env reply) "1.2.3.4:443" fresh_wire.
Lemma dial_reaches_what_was_asked_witness :
  interoperates demo_split demo_ip (fun _ => Err (ErrorString "no such host")) (fun _ => true) demo_socks4 "1.2.3.4:443" (Ok PlainConn) (Some "1.2.3.4:443").
Proof.
  pose proof (dial_reaches_what_was_asked demo_split demo_ip (fun _ => Err (ErrorString "no such host")) (fun _ => true) demo_socks4 (SOCKS4Fixture (newSOCKS4Proxy false false))
    (demo_fixture_env [0; 90; 1; 187; 1; 2; 3; 4]) "1.2.3.4:443" I) as H.
  vm_compute in H. vm_compute. apply H; [by split_and!|done|done].
Defined.
(** A malformed version byte fails the dial although the code grants it. *)
Example garbage_version_refused : is_ok (demo_dial (sv_written (socks4_handle (fun _ => true) (newSOCKS4Proxy false true) []).2)).2 = false.
Proof. reflexivity. Qed.
