(* ===== verification/Server.v ===== *)
(** * The HTTP server's life ([cmd/http/server.go], [cmd/cli/server.go])

    [StartServer] runs the listener in a goroutine, waits for a signal or for
    the listener to fail, and shuts down gracefully.  The goroutine, the main
    goroutine and the requests in flight are one transition system; what
    [http.Server] promises of [Shutdown] (no new connections, the listener
    returns [ErrServerClosed], done when no request is in flight or when its
    context ends) is in the rules. *)
From Stdlib Require Import Relations.
From stdpp Require Import relations.
From S2P Require Import Prelude GoErrors.

(** ** Settings *)

(** [http.Server], the fields the code sets. *)
Record http_Server := mkHttpServer {
  hs_Port : Z; hs_ReadHeaderTimeout : Z; hs_ReadTimeout : Z; hs_WriteTimeout : Z; hs_IdleTimeout : Z; hs_MaxHeaderBytes : Z;
}.
Definition server_settings (port : Z) : http_Server := mkHttpServer port (10 * second) (20 * second) (60 * second) (120 * second) (Z.shiftl 1 20).
Definition shutdown_budget : Z := 120 * second.
(** TLS needs both files; otherwise the server speaks plain HTTP. *)
Definition uses_tls (certFile keyFile : string) : bool := negb (bool_decide (certFile = "")) && negb (bool_decide (keyFile = "")).

(** ** The transition system *)

Inductive listener := Serving (tls : bool) | ListenerReturned.
Inductive main_state :=
  | Selecting                        (* select on the context and errCh *)
  | ShuttingDown (since : Z)         (* inside srv.Shutdown *)
  | Draining                         (* <-errCh after the shutdown *)
  | Exited (r : result unit).
(** [sv_errCh] is the channel of capacity one, [sv_closing] whether [Shutdown]
    was called, [sv_active] the requests in flight, [sv_done] the answered
    ones, [sv_accepted] all. *)
Record server := mkServerState {
  sv_listener : listener; sv_errCh : option (result unit); sv_sends : nat; sv_cancelled : bool; sv_closing : bool;
  sv_active : nat; sv_done : nat; sv_accepted : nat; sv_main : main_state; sv_now : Z;
}.
Definition StartServer_state (certFile keyFile : string) (now : Z) : server :=
  mkServerState (Serving (uses_tls certFile keyFile)) None 0 false false 0 0 0 Selecting now.
(** What [ListenAndServe] returns, and what the goroutine sends: a closed server
    is no error. *)
Inductive listen_error := ServerClosed | ListenFailed (e : gerror).
Definition listener_result (err : listen_error) : result unit := match err with ServerClosed => Ok tt | ListenFailed e => Err e end.

Inductive server_step : server -> server -> Prop :=
  (** a client connects *)
  | V_accept tls ec n c ac dn tot m t :
      server_step (mkServerState (Serving tls) ec n c false ac dn tot m t) (mkServerState (Serving tls) ec n c false (S ac) dn (S tot) m t)
  (** a request is answered *)
  | V_answer l ec n c cl ac dn tot m t :
      server_step (mkServerState l ec n c cl (S ac) dn tot m t) (mkServerState l ec n c cl ac (S dn) tot m t)
  (** the listener fails (the port is taken, a certificate is missing) and the
      goroutine sends its error *)
  | V_fail tls n c ac dn tot m t e :
      server_step (mkServerState (Serving tls) None n c false ac dn tot m t) (mkServerState ListenerReturned (Some (listener_result (ListenFailed e))) (S n) c false ac dn tot m t)
  (** after [Shutdown] it returns [ErrServerClosed] *)
  | V_closed tls n c ac dn tot m t :
      server_step (mkServerState (Serving tls) None n c true ac dn tot m t)
        (mkServerState ListenerReturned (Some (listener_result ServerClosed)) (S n) c true ac dn tot m t)
  (** a signal, or the middleware that limits the number of requests *)
  | V_cancel l ec n cl ac dn tot m t :
      server_step (mkServerState l ec n false cl ac dn tot m t) (mkServerState l ec n true cl ac dn tot m t)
  (** [case <-ctx.Done()] *)
  | V_shutdown l ec n cl ac dn tot t :
      server_step (mkServerState l ec n true cl ac dn tot Selecting t) (mkServerState l ec n true true ac dn tot (ShuttingDown t) t)
  (** [case err := <-errCh] *)
  | V_failed l r n c cl ac dn tot t :
      server_step (mkServerState l (Some r) n c cl ac dn tot Selecting t) (mkServerState l None n c cl ac dn tot (Exited r) t)
  (** nothing is in flight any more *)
  | V_idle l ec n c cl dn tot since t :
      server_step (mkServerState l ec n c cl 0 dn tot (ShuttingDown since) t) (mkServerState l ec n c cl 0 dn tot Draining t)
  (** the shutdown's own context ends *)
  | V_expired l ec n c cl ac dn tot since t : since + shutdown_budget <= t ->
      server_step (mkServerState l ec n c cl ac dn tot (ShuttingDown since) t) (mkServerState l ec n c cl ac dn tot (Exited (Err (ErrSentinel ContextDeadlineExceeded))) t)
  (** [return <-errCh] *)
  | V_drain l r n c cl ac dn tot t :
      server_step (mkServerState l (Some r) n c cl ac dn tot Draining t) (mkServerState l None n c cl ac dn tot (Exited r) t)
  | V_tick l ec n c cl ac dn tot m t d : 0 < d ->
      server_step (mkServerState l ec n c cl ac dn tot m t) (mkServerState l ec n c cl ac dn tot m (t + d)).

(** ** Invariant *)

Record server_ok (s : server) : Prop := {
  ok_accounted : sv_accepted s = (sv_active s + sv_done s)%nat;
  ok_channel : match sv_listener s with Serving _ => sv_errCh s = None /\ sv_sends s = 0%nat | ListenerReturned => sv_sends s = 1%nat end;
  ok_closing : sv_closing s = true -> sv_cancelled s = true /\ sv_main s <> Selecting;
  ok_nil : sv_errCh s = Some (Ok tt) -> sv_closing s = true;
  ok_main : match sv_main s with
            | Selecting => sv_closing s = false
            | ShuttingDown since => sv_closing s = true /\ since <= sv_now s
            | Draining => sv_closing s = true /\ sv_active s = 0%nat /\ (sv_listener s = ListenerReturned -> is_Some (sv_errCh s))
            | Exited (Ok _) => sv_closing s = true /\ sv_active s = 0%nat
            | Exited (Err _) => True
            end;
  ok_returned : sv_listener s = ListenerReturned -> match sv_main s with Exited _ => True | _ => is_Some (sv_errCh s) end;
}.
Lemma server_start_ok certFile keyFile now : server_ok (StartServer_state certFile keyFile now).
Proof. by constructor. Qed.
Lemma server_step_ok s s' : server_step s s' -> server_ok s -> server_ok s'.
Proof.
  intros Hstep [H1 H2 H3 H4 H5 H6]. destruct Hstep; cbn in *; constructor; cbn in *; try done; try naive_solver lia.
  all: try match goal with
    | |- context [match ?m with Selecting => _ | _ => _ end] => destruct m as [| | |[[]|]]
    | |- context [match ?l with Serving _ => _ | ListenerReturned => _ end] => destruct l
    | |- context [match ?r with Ok _ => _ | Err _ => _ end] => destruct r as [[]|]
    end; try done; naive_solver eauto with lia.
Qed.
Lemma reachable_server_ok certFile keyFile now s : rtc server_step (StartServer_state certFile keyFile now) s -> server_ok s.
Proof. intros Hr. pose proof (server_start_ok certFile keyFile now) as Hok. induction Hr as [|x y z Hxy _ IH]; [done|]. apply IH. by eapply server_step_ok. Qed.

(** ** Shutting down *)

Lemma answer_all l ec n c cl dn tot m t : forall ac, rtc server_step (mkServerState l ec n c cl ac dn tot m t) (mkServerState l ec n c cl 0 (ac + dn) tot m t).
Proof.
  intros ac. revert dn. induction ac as [|ac IH]; intros dn; [done|]. eapply rtc_l; [apply V_answer|].
  replace (S ac + dn)%nat with (ac + S dn)%nat by lia. apply IH.
Qed.
(** From the shutdown on, answering the requests in flight is enough to exit. *)
Lemma shutdown_exits l ec n ac dn tot since t : server_ok (mkServerState l ec n true true ac dn tot (ShuttingDown since) t) ->
  exists r, rtc server_step (mkServerState l ec n true true ac dn tot (ShuttingDown since) t) (mkServerState ListenerReturned None 1 true true 0 (ac + dn) tot (Exited r) t)
    /\ (forall tls, l = Serving tls -> r = Ok tt) /\ (forall r', ec = Some r' -> r = r').
Proof.
  intros [_ Hch _ _ _ Hret]. cbn in *. destruct l as [tls|].
  - destruct Hch as [-> ->]. exists (Ok tt). split_and!; [|done|done]. etrans; [apply answer_all|].
    eapply rtc_l; [apply V_idle|]. eapply rtc_l; [apply V_closed|]. eapply rtc_l; [apply V_drain|]. done.
  - subst n. destruct (Hret eq_refl) as [r ->]. exists r. split_and!; [|done|by intros r' [= ->]]. etrans; [apply answer_all|].
    eapply rtc_l; [apply V_idle|]. eapply rtc_l; [apply V_drain|]. done.
Qed.

(** C8: the server stops gracefully.  Whatever requests come, whenever the
    signal arrives and the listener fails: every accepted request is in flight
    or answered; the listener's goroutine sends its result at most once and
    never blocks on its channel; [StartServer] returns nil only after a signal,
    with the server closed to new requests and every accepted one answered; and
    after a signal it can always return: at once when the requests in flight are
    answered, and without them when the two minutes are over. *)
Theorem server_stops_gracefully certFile keyFile now s (Hrun : rtc server_step (StartServer_state certFile keyFile now) s) :
  sv_accepted s = (sv_active s + sv_done s)%nat
  /\ ((sv_sends s <= 1)%nat /\ (forall tls, sv_listener s = Serving tls -> sv_errCh s = None))
  /\ (sv_main s = Exited (Ok tt) -> sv_cancelled s = true /\ sv_closing s = true /\ sv_done s = sv_accepted s)
  /\ (sv_cancelled s = true ->
        (exists s' r, rtc server_step s s' /\ sv_main s' = Exited r /\ sv_now s' = sv_now s)
        /\ forall since, sv_main s = ShuttingDown since -> since + shutdown_budget <= sv_now s -> exists s' r, server_step s s' /\ sv_main s' = Exited r).
Proof.
  pose proof (reachable_server_ok _ _ _ _ Hrun) as Hok. pose proof Hok as [H1 H2 H3 H4 H5 H6].
  destruct s as [l ec n c cl ac dn tot m t]. cbn in *. split_and!; [done| | | |].
  - destruct l; lia.
  - intros tls ->. by destruct H2.
  - intros ->. destruct H5 as [-> ->]. destruct (H3 eq_refl). split_and!; [done|done|cbn in H1; lia].
  - intros ->. split.
    + destruct m as [|since| |r].
      * subst cl. assert (Hs : server_step (mkServerState l ec n true false ac dn tot Selecting t) (mkServerState l ec n true true ac dn tot (ShuttingDown t) t)) by apply V_shutdown.
        destruct (shutdown_exits l ec n ac dn tot t t) as (r & Hr & _); [by eapply server_step_ok|]. eexists _, r. split; [by eapply rtc_l|done].
      * destruct H5 as [-> _]. destruct (shutdown_exits l ec n ac dn tot since t Hok) as (r & Hr & _). by eexists _, r.
      * destruct H5 as (-> & -> & _). destruct l as [tls|].
        -- destruct H2 as [-> ->]. eexists _, _. split; [|split]; [eapply rtc_l; [apply V_closed|]; apply rtc_once, V_drain|done|done].
        -- destruct (H6 eq_refl) as [r ->]. eexists _, _. split; [|split]; [apply rtc_once, V_drain|done|done].
      * by eexists _, r.
    + intros since -> Hbudget. eexists _, _. split; [by apply V_expired|done].
Qed.

(** A server that gets a request and a signal while it is in flight. *)
Definition demo_stopped : server := mkServerState ListenerReturned None 1 true true 0 1 1 (Exited (Ok tt)) 7.
Lemma server_stops_gracefully_witness : sv_cancelled demo_stopped = true /\ sv_closing demo_stopped = true /\ sv_done demo_stopped = sv_accepted demo_stopped.
Proof.
  apply (server_stops_gracefully "" "" 7 demo_stopped); [|done].
  eapply rtc_l; [apply V_accept|]. eapply rtc_l; [apply V_cancel|]. eapply rtc_l; [apply V_shutdown|]. eapply rtc_l; [apply V_answer|].
  eapply rtc_l; [apply V_idle|]. eapply rtc_l; [apply V_closed|]. apply rtc_once, V_drain.
Defined.
(** A certificate without its key is ignored: the server speaks plain HTTP. *)
Lemma certificate_without_key certFile : uses_tls certFile "" = false.
Proof. unfold uses_tls. by rewrite andb_false_r. Qed.

(** ** The command *)

Inductive command_event := OpenedDatabase | StartedServer (port poolSize : Z) (tls : bool) | ClosedDatabase | StoppedSignals.
Record server_flags := mkServerFlags { fl_start : bool; fl_port : Z; fl_pool : Z; fl_certFile : string; fl_keyFile : string; fl_profile : bool; fl_maxRequests : Z }.
Definition initHTTPFlags : server_flags := mkServerFlags false 80 5 "" "" false 0.
(** [httpCmd]: what happens, in order, and the error; [database] tells whether
    the container has a driver, [StartServer] returns [served].  Deferred calls
    run last in, first out. *)
Definition run_server (f : server_flags) (database : bool) (served : result unit) : list command_event * result unit :=
  if negb (fl_start f) then ([], Ok tt)
  else
    ((if database then [OpenedDatabase] else []) ++ [StartedServer (fl_port f) (fl_pool f) (uses_tls (fl_certFile f) (fl_keyFile f))]
       ++ (if database then [ClosedDatabase] else []) ++ [StoppedSignals],
     match served with Ok _ => Ok tt | Err e => Err (ErrWrap "start http server" e) end).
(** The database is open for as long as the server runs. *)
Lemma database_outlives_server f served : fl_start f = true ->
  exists l, (run_server f true served).1 = OpenedDatabase :: l ++ [ClosedDatabase; StoppedSignals] /\ StartedServer (fl_port f) (fl_pool f) (uses_tls (fl_certFile f) (fl_keyFile f)) ∈ l.
Proof. intros Hs. unfold run_server. rewrite Hs. eexists [_]. split; [done|]. by apply list_elem_of_singleton. Qed.
