(* ===== verification/Logging.v ===== *)
(** * Logging ([infrastructure/logging], [main.go])

    The process-wide logger: which handler and level [Init] installs, what each
    handler writes for a record, and what [Log] and its shorthands make of a
    level.  [slog] calls [Handle] for the records [Enabled] lets through. *)
From Stdlib Require Import Ascii.
From stdpp Require Import pretty.
From S2P Require Import Prelude GoErrors GoStrings Dates UiFormat Lodestone Metrics Config ListFormats.

(** ** Records *)

(** [slog.Level] and its text. *)
Definition LevelDebug : Z := -4.
Definition LevelInfo : Z := 0.
Definition LevelWarn : Z := 4.
Definition LevelError : Z := 8.
Definition level_text (base : string) (val : Z) : string :=
  if val =? 0 then base else base +:+ (if 0 <? val then "+" else "") +:+ pretty val.
Definition Level_String (l : Z) : string :=
  if l <? LevelInfo then level_text "DEBUG" (l - LevelDebug)
  else if l <? LevelWarn then level_text "INFO" (l - LevelInfo)
  else if l <? LevelError then level_text "WARN" (l - LevelWarn)
  else level_text "ERROR" (l - LevelError).
(** [slog.Record]; an attribute's value is its text. *)
Record log_record := mkLogRecord { rc_Time : Z; rc_Level : Z; rc_Message : string; rc_Attrs : list (string * string) }.

Section Handlers.
(** The clock, the local zone's offset, and [json.MarshalIndent] of the map. *)
Context (now offset : Z) (marshal : gmap string string -> result string).

(** [t.Format(2006-01-02 15:04:05)] and [t.Format(time.RFC3339)], in the local
    zone. *)
Definition stamp_text (t : Z) : string :=
  let n := (t + offset) mod day in
  format_day (day_of (t + offset)) +:+ " " +:+ pad2 (n / hour) +:+ ":" +:+ pad2 ((n / minute) mod 60) +:+ ":" +:+ pad2 ((n / second) mod 60).
Definition zone_text : string :=
  if offset =? 0 then "Z"
  else (if offset <? 0 then "-" else "+") +:+ pad2 (Z.abs offset / hour) +:+ ":" +:+ pad2 ((Z.abs offset / minute) mod 60).
Definition rfc3339_text (t : Z) : string :=
  let n := (t + offset) mod day in
  format_day (day_of (t + offset)) +:+ "T" +:+ pad2 (n / hour) +:+ ":" +:+ pad2 ((n / minute) mod 60) +:+ ":" +:+ pad2 ((n / second) mod 60) +:+ zone_text.
Definition record_time (r : log_record) : Z := if is_zero_time (rc_Time r) then now else rc_Time r.

(** ** The handlers *)

(** What a handler writes, or its error. *)
Definition cli_Handle (r : log_record) : result string :=
  let line := stamp_text (record_time r) +:+ " | " +:+ Level_String (rc_Level r) +:+ " -> " +:+ rc_Message r in
  let attrs := (fun '(k, v) => k +:+ ": " +:+ v) <$> rc_Attrs r in
  Ok ((match attrs with [] => line | _ => line +:+ " | " +:+ Join attrs " | " end) +:+ lf).

Definition escape (code : string) : string := bytes [27%nat] +:+ code.
Definition colorReset : string := escape "[0m".
Definition colorBlue : string := escape "[34m".
Definition colorYellow : string := escape "[33m".
Definition colorRed : string := escape "[31m".
Definition colorGreen : string := escape "[32m".
(** The dot of a level and its colour; the source joins them with a space and
    splits the colour off again. *)
Definition level_dot (l : Z) : string * string :=
  if l =? LevelInfo then (bytes [240; 159; 148; 181]%nat, colorBlue)
  else if l =? LevelDebug then (bytes [240; 159; 159; 161]%nat, colorYellow)
  else if l =? LevelWarn then (bytes [240; 159; 159; 161]%nat, colorYellow)
  else if l =? LevelError then (bytes [240; 159; 148; 180]%nat, colorRed)
  else (bytes [226; 154; 170]%nat, colorReset).
Definition levelColor (l : Z) : string := (level_dot l).1 +:+ " " +:+ (level_dot l).2.
Definition simpleLevelColor (l : Z) : string := match cut (levelColor l) " " with Some (_, color) => color | None => "" end.
Definition color_Handle (r : log_record) : result string :=
  let messages := (fun '(k, v) => colorYellow +:+ k +:+ colorReset +:+ ": " +:+ simpleLevelColor (rc_Level r) +:+ v +:+ colorReset) <$> rc_Attrs r in
  let line := stamp_text (record_time r) +:+ " | " +:+ (levelColor (rc_Level r) +:+ Level_String (rc_Level r) +:+ colorReset)
              +:+ " -> " +:+ colorGreen +:+ rc_Message r +:+ colorReset in
  Ok ((match messages with [] => line | _ => line +:+ " <- " +:+ Join messages " | " end) +:+ lf).

(** The object of a record: its own fields first, then its attributes. *)
Definition json_fields (r : log_record) : gmap string string :=
  foldl (fun out '(k, v) => <[k := v]> out)
    (<["msg" := rc_Message r]> (<["level" := Level_String (rc_Level r)]> {["time" := rfc3339_text (rc_Time r)]})) (rc_Attrs r).
Definition pretty_Handle (r : log_record) : result string := b ← marshal (json_fields r); Ok (b +:+ lf).

(** ** The logger *)

Inductive handler_kind := PrettyJSONHandler | JSONHandler | ColorHandler | CliHandler.
(** A handler with its minimum level; none lets everything through. *)
Record logger := mkLogger { lo_handler : handler_kind; lo_level : option Z }.
Definition CLILogger : logger := mkLogger CliHandler None.
Definition Enabled (l : logger) (level : Z) : bool := match lo_level l with None => true | Some minLevel => minLevel <=? level end.
Definition Init (kind level : string) : logger :=
  let slogLevel := if bool_decide (lower_text level = "debug") then LevelDebug
                   else if bool_decide (lower_text level = "warn") then LevelWarn
                   else if bool_decide (lower_text level = "error") then LevelError
                   else LevelInfo in
  let handler := if bool_decide (kind = "pretty-json") then PrettyJSONHandler
                 else if bool_decide (kind = "json") then JSONHandler
                 else if bool_decide (kind = "color") then ColorHandler
                 else CliHandler in
  mkLogger handler (Some slogLevel).
(** [std_json] is slog's own handler. *)
Context (std_json : log_record -> result string).
Definition Handle (l : logger) (r : log_record) : result string :=
  match lo_handler l with
  | PrettyJSONHandler => pretty_Handle r
  | JSONHandler => std_json r
  | ColorHandler => color_Handle r
  | CliHandler => cli_Handle r
  end.
(** [slog.Logger.log]: what reaches standard output; an error of the handler is
    dropped. *)
Definition emit (l : logger) (r : log_record) : string :=
  if negb (Enabled l (rc_Level r)) then "" else match Handle l r with Ok s => s | Err _ => "" end.
(** The level of the method [Log] picks. *)
Definition log_level (level : Z) : Z :=
  if level =? LevelError then LevelError else if level =? LevelWarn then LevelWarn else if level =? LevelDebug then LevelDebug else LevelInfo.
Definition Log (l : logger) (level : Z) (event message : string) : string :=
  emit l (mkLogRecord now (log_level level) event [("message", message)]).
Definition Info (l : logger) := Log l LevelInfo.
Definition Debug (l : logger) := Log l LevelDebug.
Definition Warn (l : logger) := Log l LevelWarn.
Definition Error (l : logger) := Log l LevelError.
(** [SlogWriter.Write]: the output and the count it reports. *)
Definition SlogWriter_Write (l : logger) (level : Z) (event p : string) : string * Z := (Log l level event p, Z.of_nat (String.length p)).

(** [initLogging] of [main.go]. *)
Definition initLogging (cfg : Config) : logger :=
  match cfg_Logging cfg with
  | None => Init "simple" "info"
  | Some c => Init (lg_Default c) (lg_Level c)
  end.

(** ** What is written *)

Definition line_feed : Ascii.ascii := Ascii.ascii_of_nat 10.
(** One line: the text ends with its only line feed. *)
Definition one_line (s : string) : Prop := exists t, s = t +:+ lf /\ free_of line_feed t = true.

Lemma free_of_join c sep l : free_of c sep = true -> Forall (fun s => free_of c s = true) l -> free_of c (Join l sep) = true.
Proof.
  intros Hs. induction 1 as [|x l Hx Hl IH]; [done|]. destruct l as [|y l]; [done|]. cbn [Join] in *. by rewrite !free_of_app, Hx, Hs, IH.
Qed.
Lemma digit_not_feed c d : digit_value c = Some d -> negb (bool_decide (c = line_feed)) = true.
Proof. intros Hd. apply negb_true_iff, bool_decide_eq_false. by intros ->. Qed.
Lemma parse2_free a b v r : parse2 a b = Some v -> free_of line_feed (String a (String b r)) = free_of line_feed r.
Proof.
  unfold parse2. destruct (digit_value a) as [x|] eqn:Ha; [|done]. destruct (digit_value b) as [y|] eqn:Hb; [|done]. intros _.
  cbn [free_of]. by rewrite (digit_not_feed _ _ Ha), (digit_not_feed _ _ Hb).
Qed.
Lemma pad2_free n : 0 <= n <= 99 -> free_of line_feed (pad2 n) = true.
Proof. intros Hn. unfold pad2. by rewrite (parse2_free _ _ n) by by apply parse2_pad2. Qed.
Lemma dash_free r : free_of line_feed (String "-"%char r) = free_of line_feed r.
Proof. done. Qed.
Lemma parse_day_free s z : parse_day s = Some z -> free_of line_feed s = true.
Proof.
  unfold parse_day. do 10 (destruct s as [|? s]; [repeat case_match; done|]). destruct s; [|repeat case_match; done].
  destruct a3 as [[] [] [] [] [] [] [] []]; try done. destruct a6 as [[] [] [] [] [] [] [] []]; try done.
  destruct (parse2 a a0) as [y1|] eqn:H1; [|done]. destruct (parse2 a1 a2) as [y2|] eqn:H2; [|done].
  destruct (parse2 a4 a5) as [m|] eqn:H3; [|done]. destruct (parse2 a7 a8) as [d|] eqn:H4; [|done]. intros _.
  rewrite (parse2_free _ _ _ _ H1), (parse2_free _ _ _ _ H2). rewrite dash_free, (parse2_free _ _ _ _ H3), dash_free. by rewrite (parse2_free _ _ _ _ H4).
Qed.
Lemma stamp_text_free t : four_digit_day (day_of (t + offset)) -> free_of line_feed (stamp_text t) = true.
Proof.
  intros Hd. unfold stamp_text. pose proof (parse_day_free _ _ (parse_format_day _ Hd)) as Hf. pose proof (Z.mod_pos_bound (t + offset) day eq_refl) as Hn.
  assert (H60 : forall x, 0 <= x mod 60 <= 99) by (intros x; pose proof (Z.mod_pos_bound x 60); lia).
  rewrite !free_of_app, Hf, !pad2_free by (apply H60 || (unfold day, hour, minute, second in *; split; [apply Z.div_pos; lia|apply Z.div_le_upper_bound; lia])). done.
Qed.
Lemma log_level_cases level : log_level level ∈ [LevelDebug; LevelInfo; LevelWarn; LevelError].
Proof. unfold log_level. repeat case_match; set_solver. Qed.
Lemma Level_String_free level : level ∈ [LevelDebug; LevelInfo; LevelWarn; LevelError] -> free_of line_feed (levelColor level +:+ Level_String level) = true.
Proof. rewrite !elem_of_cons, elem_of_nil. by intros [->|[->|[->|[->|[]]]]]. Qed.
(** The level [Init] lets through. *)
Definition minimum (l : logger) : Z := default LevelDebug (lo_level l).

(** One call, one line.  With the simple or the coloured handler a message
    below the configured level leaves no output, and any other leaves exactly
    one line, provided that neither the event nor the message brings line feeds
    of its own. *)
Theorem log_writes_one_line kind level lvl event message :
  kind <> "json" -> kind <> "pretty-json" -> four_digit_day (day_of (now + offset)) -> now <> zero_time ->
  free_of line_feed event = true -> free_of line_feed message = true ->
  if log_level lvl <? minimum (Init kind level) then Log (Init kind level) lvl event message = "" else one_line (Log (Init kind level) lvl event message).
Proof.
  intros Hj Hp Hday Hz He Hm. unfold Log, emit. cbn [rc_Level].
  assert (Hen : Enabled (Init kind level) (log_level lvl) = negb (log_level lvl <? minimum (Init kind level))) by (unfold Enabled, minimum; cbn; by rewrite <-Z.leb_antisym).
  rewrite Hen, negb_involutive. destruct (log_level lvl <? _); [done|]. pose proof (stamp_text_free now Hday) as Hc.
  pose proof (Level_String_free _ (log_level_cases lvl)) as Hl. rewrite free_of_app in Hl. apply andb_true_iff in Hl as [Hl1 Hl2].
  assert (Hs : free_of line_feed (simpleLevelColor (log_level lvl)) = true).
  { pose proof (log_level_cases lvl) as Hin. rewrite !elem_of_cons, elem_of_nil in Hin. by destruct Hin as [->|[->|[->|[->|[]]]]]. }
  unfold Init, Handle. cbn [lo_handler]. rewrite !bool_decide_false by done. case_bool_decide.
  - unfold color_Handle, record_time, is_zero_time. cbn [rc_Time rc_Level rc_Message rc_Attrs fmap list_fmap Join]. rewrite (proj2 (Z.eqb_neq _ _) Hz).
    eexists. split; [reflexivity|]. by rewrite !free_of_app, Hc, Hl1, Hl2, He, Hm, Hs.
  - unfold cli_Handle, record_time, is_zero_time. cbn [rc_Time rc_Level rc_Message rc_Attrs fmap list_fmap Join]. rewrite (proj2 (Z.eqb_neq _ _) Hz).
    eexists. split; [reflexivity|]. by rewrite !free_of_app, Hc, Hl2, He, Hm.
Qed.
(** The JSON object of a message has the event, the message, the level and the
    time, each under its own key. *)
Lemma log_json_fields lvl event message :
  json_fields (mkLogRecord now (log_level lvl) event [("message", message)])
  = <["message" := message]> (<["msg" := event]> (<["level" := Level_String (log_level lvl)]> {["time" := rfc3339_text now]})).
Proof. done. Qed.
(** An attribute named like a field of the record replaces it. *)
Lemma json_attribute_replaces_level r v : json_fields (mkLogRecord (rc_Time r) (rc_Level r) (rc_Message r) (rc_Attrs r ++ [("level", v)])) !! "level" = Some v.
Proof. unfold json_fields. cbn [rc_Attrs]. rewrite foldl_snoc. by rewrite lookup_insert_eq. Qed.
End Handlers.
