(* ===== verification/Wiring.v ===== *)
(** * Edges of the program

    Smaller operations that tie the components together: the census runs
    ([infrastructure/postgres/repository/census_run.go] and its fake), the
    refresh command ([cmd/cli/refresh.go]), the router's controllers
    ([cmd/http/router.go], [root/handler/check.go]), the rendering of pages
    ([cmd/http/ui/controller.go]) and the TLS configuration of the browser-like
    client ([infrastructure/httpclient/proxy_transport.go]). *)
From S2P Require Import Prelude GoErrors Contract Snapshot Config Census Middleware Router Commands.

(** ** Census runs *)

Record CensusRun := mkCensusRun {
  rn_ID : Z; rn_StartedAt : Z; rn_FinishedAt : option Z; rn_CharactersSeen : Z; rn_NewCharacters : Z;
}.
(** The table and its [BIGSERIAL]; the two counters are [INTEGER] columns. *)
Record RunTable := mkRunTable { rt_rows : gmap Z CensusRun; rt_seq : Z }.
Definition empty_runs : RunTable := mkRunTable ∅ 1.
Definition fits_integer (z : Z) : bool := (-2147483648 <=? z) && (z <=? 2147483647).
Definition run_Start (db : RunTable) (f : fault) (now : Z) : RunTable * result Z :=
  match with_fault f db (let id := rt_seq db in (mkRunTable (<[id := mkCensusRun id now None 0 0]> (rt_rows db)) (id + 1), Ok id)) with
  | (db, Ok id) => (db, Ok id)
  | (db, Err e) => (db, Err (ErrWrap "census run start" e))
  end.
(** A counter that does not fit its column is refused by the server. *)
Definition run_Finish (db : RunTable) (f : fault) (now id seen new : Z) : RunTable * result unit :=
  match with_fault f db (
    if negb (fits_integer seen && fits_integer new) then (db, Err (ErrorString "integer out of range"))
    else match rt_rows db !! id with
         | Some r => (mkRunTable (<[id := mkCensusRun (rn_ID r) (rn_StartedAt r) (Some now) seen new]> (rt_rows db)) (rt_seq db), Ok tt)
         | None => (db, Ok tt)
         end) with
  | (db, Ok _) => (db, Ok tt)
  | (db, Err e) => (db, Err (ErrWrap "census run finish" e))
  end.
(** The fake of the tests ([mock/repository/census_run.go]). *)
Record FakeRuns := mkFakeRuns { fr_nextID : Z; fr_started : list Z; fr_finished : gmap Z (Z * Z) }.
Definition NewCensusRunFake : FakeRuns := mkFakeRuns 1 [] ∅.
Definition fake_run_Start (f : FakeRuns) : FakeRuns * result Z :=
  (mkFakeRuns (fr_nextID f + 1) (fr_started f ++ [fr_nextID f]) (fr_finished f), Ok (fr_nextID f)).
Definition fake_run_Finish (f : FakeRuns) (id seen new : Z) : FakeRuns * result unit :=
  (mkFakeRuns (fr_nextID f) (fr_started f) (<[id := (seen, new)]> (fr_finished f)), Ok tt).

Inductive run_op := RunStart (f : fault) (now : Z) | RunFinish (f : fault) (now id seen new : Z).
Definition run_apply (db : RunTable) (op : run_op) : RunTable :=
  match op with RunStart f now => (run_Start db f now).1 | RunFinish f now id seen new => (run_Finish db f now id seen new).1 end.
(** Rows are stored under their id, ids are below the sequence, and the
    counters fit their columns. *)
Definition runs_typed (db : RunTable) : Prop := forall id r, rt_rows db !! id = Some r ->
  rn_ID r = id /\ id < rt_seq db /\ fits_integer (rn_CharactersSeen r) = true /\ fits_integer (rn_NewCharacters r) = true.
Lemma run_apply_typed db op : runs_typed db -> runs_typed (run_apply db op).
Proof.
  intros Hok. destruct op as [f now|f now id seen new]; cbn; [unfold run_Start|unfold run_Finish].
  - destruct (with_fault_state f db (let id := rt_seq db in (mkRunTable (<[id := mkCensusRun id now None 0 0]> (rt_rows db)) (id + 1), Ok id))) as [H|H];
      destruct (with_fault f db _) as [db' [|]]; cbn in *; subst; try done; intros j r; cbn; rewrite lookup_insert_Some; intros [[<- <-]|[Hne Hr]]; cbn;
      try (split_and!; [done|lia|done|done]); destruct (Hok _ _ Hr) as (? & ? & ? & ?); split_and!; try done; lia.
  - set (w := if negb _ then _ else _). assert (Hw : runs_typed w.1).
    { unfold w. destruct (fits_integer seen && fits_integer new) eqn:Hf; cbn [negb]; [|done]. destruct (rt_rows db !! id) as [r|] eqn:Hr; [|done].
      apply andb_true_iff in Hf as [Hs Hn]. intros j r'. cbn. rewrite lookup_insert_Some. intros [[<- <-]|[Hne Hr']]; [|by apply Hok]. cbn.
      destruct (Hok _ _ Hr) as (? & ? & _). by split_and!. }
    destruct (with_fault_state f db w) as [H|H]; destruct (with_fault f db w) as [db' [|]]; cbn in *; by subst.
Qed.
(** A started run gets an id no run has, and finishing a run changes no other
    and keeps when it started. *)
Lemma run_Start_fresh db now : runs_typed db -> exists id, run_Start db NoFault now = (mkRunTable (<[id := mkCensusRun id now None 0 0]> (rt_rows db)) (id + 1), Ok id) /\ rt_rows db !! id = None.
Proof.
  intros Hok. exists (rt_seq db). split; [done|]. destruct (rt_rows db !! rt_seq db) as [r|] eqn:Hr; [|done]. destruct (Hok _ _ Hr) as (_ & Hlt & _). lia.
Qed.
Lemma run_Finish_row db now id seen new j : fits_integer seen && fits_integer new = true ->
  rt_rows (run_Finish db NoFault now id seen new).1 !! j
  = (fun r => if bool_decide (id = j) then mkCensusRun (rn_ID r) (rn_StartedAt r) (Some now) seen new else r) <$> rt_rows db !! j.
Proof.
  intros Hf. unfold run_Finish. cbn [with_fault]. rewrite Hf. cbn [negb]. case_bool_decide as Hid.
  - subst j. destruct (rt_rows db !! id) as [r|] eqn:Hr; cbn; [by rewrite lookup_insert_eq|by rewrite Hr].
  - destruct (rt_rows db !! id) as [r|]; cbn; [rewrite lookup_insert_ne by done|]; by destruct (rt_rows db !! j).
Qed.
(** The fake hands out the ids of the table, and remembers runs that were
    never started, which the table ignores. *)
Lemma fake_run_ids db f now : rt_seq db = fr_nextID f -> (run_Start db NoFault now).2 = (fake_run_Start f).2 /\ rt_seq (run_Start db NoFault now).1 = fr_nextID (fake_run_Start f).1.
Proof. intros Hs. cbn. by rewrite Hs. Qed.
Lemma fake_finishes_unknown : fr_finished (fake_run_Finish NewCensusRunFake 7 1 1).1 !! 7 = Some (1, 1) /\ rt_rows (run_Finish empty_runs NoFault 0 7 1 1).1 = ∅.
Proof. done. Qed.

(** ** [refresh ui-stats] *)

(** The services of the container; [refresh] is [UIStatsService.Refresh]. *)
Definition runRefreshUIStats (parse_duration : string -> option Z) (stats : option (UIStatsRefreshOptions -> result refreshOutcome)) (svc : option Service)
    (cfg : Config) (now : Z) : result string :=
  match stats, svc with
  | Some refresh, Some svc =>
      let timeout := match cfg_Census cfg ≫= cc_UIStats with Some u => duration_or parse_duration (uc_RefreshTimeout u) (2 * hour) | None => 2 * hour end in
      runRefreshUIStatsWithService (Some (refresh (mkRefreshOptions (activitySince svc now) (sv_maxLevel svc) timeout)))
  | _, _ => Err (ErrorString "census/UI statistics service unavailable (check PostgreSQL configuration)")
  end.
(** The refresh always has a bound of its own. *)
Lemma refresh_is_bounded parse_duration stats svc cfg now :
  (forall opts, 0 < ro_Timeout opts -> stats opts = Ok Refreshed) -> is_ok (runRefreshUIStats parse_duration (Some stats) (Some svc) cfg now) = true.
Proof.
  intros Hs. cbn. rewrite Hs; [done|]. cbn. destruct (cfg_Census cfg ≫= cc_UIStats) as [u|]; [|done]. unfold duration_or.
  destruct (parse_duration (uc_RefreshTimeout u)) as [d|]; [|done]. by destruct (Z.ltb_spec 0 d).
Qed.

(** ** The router's controllers *)

(** The health controller: when it started and its database probe. *)
Record Controller := mkController { ct_startTime : Z; ct_dbPinger : option (result unit) }.
Definition WithDatabasePinger (p : result unit) (c : Controller) : Controller := mkController (ct_startTime c) (Some p).
Definition NewHealthController (now : Z) (opts : list (Controller -> Controller)) : Controller := foldl (fun c opt => opt c) (mkController now None) opts.
(** [NewRouter]: [db] is the container's driver with the outcome of its probe. *)
Definition NewRouter (now : Z) (db : option (result unit)) : Controller :=
  NewHealthController now (match db with Some ping => [WithDatabasePinger (PingContext (Some ping))] | None => [] end).
(** A process without a database reports ready: it has nothing to wait for. *)
Lemma router_ready error_text json_string now db :
  status_sent (Ready error_text json_string (ct_dbPinger (NewRouter now db))) = match db with Some (Err _) => 503 | _ => 200 end.
Proof. by destruct db as [[[]|e]|]. Qed.

(** ** Pages *)

(** The templates the controller compiles, and those its handlers name. *)
Definition page_templates : list string :=
  ["templates/dashboard.html"; "templates/races.html"; "templates/worlds.html"; "templates/world_detail.html"; "templates/expansions.html";
   "templates/methodology.html"; "templates/character.html"; "templates/characters_list.html"].
Definition partial_templates : list string := ["templates/partials/world_drilldown.html"; "templates/partials/search_results.html"].
(** [execute] is the output of the template and whether it failed midway. *)
Definition render_with (compiled : list string) (failure : string) (execute : string -> string * bool) (name : string) : list wevent :=
  if bool_decide (name ∈ compiled) then [SetHeader "Content-Type" "text/html; charset=utf-8"; Write (execute name).1]
  else http_Error failure 500.
Definition render := render_with page_templates "Template rendering error".
Definition renderPartial := render_with partial_templates "Partial rendering error".
(** The template of each page's handler. *)
Definition page_of (e : endpoint) : option string :=
  match e with
  | UiDashboard => Some "templates/dashboard.html"
  | UiRaces => Some "templates/races.html"
  | UiWorlds => Some "templates/worlds.html"
  | UiWorldDetail => Some "templates/world_detail.html"
  | UiExpansions => Some "templates/expansions.html"
  | UiMethodology => Some "templates/methodology.html"
  | UiCharacterDetail => Some "templates/character.html"
  | UiCharacterList => Some "templates/characters_list.html"
  | _ => None
  end.
Lemma every_page_is_compiled e name execute : page_of e = Some name -> status_sent (render execute name) = 200.
Proof. intros H. destruct e; try done; injection H as <-; done. Qed.
Lemma drilldown_is_compiled execute : status_sent (renderPartial execute "templates/partials/world_drilldown.html") = 200.
Proof. done. Qed.

(** ** TLS *)

(** [tls.Config] and [utls.Config], the fields the code reads and sets; pools
    are named. *)
Record tls_Config := mkTLSConfig { tc_RootCAs : option string; tc_InsecureSkipVerify : bool; tc_ServerName : string; tc_NextProtos : list string }.
Definition browserTLSConfig (host : string) (base : option tls_Config) : tls_Config :=
  let cfg := mkTLSConfig None false host ["http/1.1"] in
  match base with
  | None => cfg
  | Some b => mkTLSConfig (tc_RootCAs b) (tc_InsecureSkipVerify b) (if bool_decide (tc_ServerName b = "") then host else tc_ServerName b) ["http/1.1"]
  end.
(** The hello keeps every extension and pins the protocols of the ALPN ones. *)
Inductive hello_extension := ALPNExtension (protocols : list string) | OtherExtension (id : Z).
Definition pin_alpn (spec : list hello_extension) : list hello_extension :=
  (fun e => match e with ALPNExtension _ => ALPNExtension ["http/1.1"] | OtherExtension id => OtherExtension id end) <$> spec.
(** The certificate of the host that was dialled is verified unless the base
    configuration itself says otherwise. *)
Lemma browser_tls_verifies host base : (forall b, base = Some b -> tc_InsecureSkipVerify b = false /\ tc_ServerName b = "") ->
  tc_InsecureSkipVerify (browserTLSConfig host base) = false /\ tc_ServerName (browserTLSConfig host base) = host.
Proof. intros Hb. destruct base as [b|]; [|done]. destruct (Hb b eq_refl) as [Hv Hn]. cbn. rewrite Hv, Hn. done. Qed.
Lemma pinned_hello spec protocols : ALPNExtension protocols ∈ pin_alpn spec -> protocols = ["http/1.1"].
Proof. intros Hin. apply list_elem_of_fmap in Hin as ([p|id] & Heq & _); by simplify_eq. Qed.
Lemma pinned_hello_shape spec : length (pin_alpn spec) = length spec.
Proof. unfold pin_alpn. by rewrite length_fmap. Qed.
