(* ===== verification/CensusSweep.v ===== *)
(** * The census, from the published range to the stored characters

    The publisher, the queue worker, the sweep handler, the character store
    and the queue adapter put together.  A replica is a broker connection and
    a census world; the container's registry runs the handlers of [Census] on
    it, and the worker of [EventWorker] publishes what they ask for through
    [Queue].  Everything may fail: the site's answers, the database calls and
    the broker.  Jobs are handled one at a time here; how the consumers
    interleave deliveries is in [QueueConsumers]. *)
From S2P Require Import Prelude GoErrors GoStrings Contract Payloads Hub Queue QueueFacts CharacterStore CharacterStoreFacts.
From S2P Require Import EventWorker Publish PublishFacts Census CensusResults.

(** ** A replica of the consumer *)

Record Replica (B L : Type) := mkReplica { rp_broker : B; rp_census : CensusWorld L }.
Arguments mkReplica {B L}. Arguments rp_broker {B L}. Arguments rp_census {B L}.

Section Lift.
Context {B L : Type}.
Definition on_broker {A} (m : ST B A) : ST (Replica B L) A := fun s =>
  let '(b, a) := m (rp_broker s) in (mkReplica b (rp_census s), a).
Definition on_census {A} (m : ST (CensusWorld L) A) : ST (Replica B L) A := fun s =>
  let '(w, a) := m (rp_census s) in (mkReplica (rp_broker s) w, a).

#[global] Instance replica_broker `{Broker B} : Broker (Replica B L) := {|
  br_IsClosed s := br_IsClosed (rp_broker s);
  br_reconnect := on_broker br_reconnect;
  br_drain_return := on_broker br_drain_return;
  br_publish ex key mandatory pub := on_broker (br_publish ex key mandatory pub);
  br_declare q := on_broker (br_declare q);
  br_now := on_broker br_now;
  br_accepted s := br_accepted (rp_broker s);
  br_routes s := br_routes (rp_broker s) |}.

#[global] Instance replica_broker_laws `{BrokerLaws B} : BrokerLaws (Replica B L).
Proof.
  split; cbn; unfold on_broker.
  - intros s. pose proof (accepted_reconnect (rp_broker s)). by destruct (br_reconnect _).
  - intros s. pose proof (accepted_drain (rp_broker s)). by destruct (br_drain_return _).
  - intros s ex key m pub. pose proof (accepted_publish (rp_broker s) ex key m pub). by destruct (br_publish _ _ _ _ _).
  - intros s q. pose proof (accepted_declare (rp_broker s) q). by destruct (br_declare _ _).
  - intros s. pose proof (accepted_now (rp_broker s)). by destruct (br_now _).
  - intros s ex key m pub s' q Hp. pose proof (confirmed_accepted (rp_broker s) ex key m pub) as Hc.
    destruct (br_publish _ _ _ _ _) as [b a]. injection Hp as <- ->. by apply Hc.
  - intros s ex key pub s' Hp Hr. pose proof (mandatory_returned (rp_broker s) ex key pub) as Hm.
    destruct (br_publish _ _ _ _ _) as [b a]. injection Hp as <- ->. specialize (Hm b eq_refl Hr). cbn. by destruct (br_drain_return b).
  - intros s key q. apply default_exchange.
Qed.

(** ** The container's registry *)

Context `{LodestoneClient L}.

(** The achievement handler waits for a paused provider. *)
Definition wait_for_lodestone (l : limiter (Replica B L)) : ST (Replica B L) (result unit) :=
  available ← li_IsAvailable l;
  if (available : bool) then mret (Ok tt)
  else e ← li_WaitUntilAvailable l; mret (match e with None => Ok tt | Some e => Err e end).
Definition achievement_handler (l : limiter (Replica B L)) : Handler (Replica B L) := fun payload =>
  waited ← match unmarshal_CharacterID payload with Ok _ => wait_for_lodestone l | Err _ => mret (Ok tt) end;
  r ← on_census (AchievementCensus_Handle waited payload);
  mret (Hub.Returned r).
(** [Handlers] of a container with a Lodestone client; [svc]: it has a census
    service.  [ProxyCensusHandlers] differs in the client and the limiter. *)
Definition Handlers (svc : bool) (l : limiter (Replica B L)) : Registry (Replica B L) :=
  if negb svc then NewRegistry
  else
    let reg := Register NewRegistry EventIDSweep (fun payload => r ← on_census (IDSweep_Handle true payload); mret (Hub.Returned r)) in
    let reg := Register reg EventAchievementCensus (achievement_handler l) in
    Register reg EventCharacterCensus (fun payload => r ← on_census (CharacterCensus_Handle true payload); mret (Hub.Returned r)).
(** The worker [consume] starts without proxies. *)
Definition consume_worker (svc : bool) (l : limiter (Replica B L)) : Worker (Replica B L) := worker_New (Handlers svc l) [l].

(** Attempts at jobs, one after the other, with the outcome of each. *)
Fixpoint attempt_all `{Broker B} (w : Worker (Replica B L)) (attempts : list QueueJob) : ST (Replica B L) (list (QueueJob * option gerror)) :=
  match attempts with
  | [] => mret []
  | job :: attempts => r ← direct_processJob w job; rest ← attempt_all w attempts; mret ((job, r) :: rest)
  end.
End Lift.

(** ** Sweeping a site that sometimes fails *)

Section Truthful.
Context {L : Type} `{LC : LodestoneClient L}.
(** What the site knows of each id.  A request is answered with it, or fails
    with an error that is not "does not exist". *)
Context (site : Z -> result CharacterProfile).
Context (Hsite : forall id l, (ld_FetchCharacter id l).2 = site id \/
          exists e, (ld_FetchCharacter id l).2 = Err e /\ errors_Is e ErrCharacterNotFound = false).
Abbreviation censused := (censused site).

(** The database driver does not report the service's own error. *)
Definition driver_errors (w : CensusWorld L) : Prop :=
  forall n e, cw_fault w n = Refused e \/ cw_fault w n = LostReply e -> errors_Is e ErrProfileHidden = false.

(** What sweeping [ids] may change: a character that is not as before is one of
    [ids] the site shows, and the tables show its profile over what was there. *)
Definition swept_within (ids : list Z) (db db' : CensusDB) : Prop :=
  forall id, same_character id db db' \/
    (id ∈ ids /\ exists p first at_, censused id = Some p /\ pictured db db' id p first at_).
(** What it has done when it succeeds, starting from [db0]. *)
Definition swept_all (ids : list Z) (db0 db : CensusDB) : Prop :=
  forall id p, id ∈ ids -> censused id = Some p -> exists first at_, pictured db0 db id p first at_.

Lemma swept_within_refl ids db : swept_within ids db db.
Proof. intros id. left. reflexivity. Qed.
Lemma swept_within_trans ids ids' db db1 db2 :
  swept_within ids db db1 -> swept_within ids' db1 db2 -> swept_within (ids ++ ids') db db2.
Proof.
  intros H1 H2 id. destruct (H1 id) as [Hs1|(Hin1 & p1 & f1 & t1 & Hp1 & Hpic1)], (H2 id) as [Hs2|(Hin2 & p2 & f2 & t2 & Hp2 & Hpic2)].
  - left. by etrans.
  - right. split; [apply elem_of_app; by right|]. exists p2, f2, t2. split; [done|]. by eapply pictured_same_l.
  - right. split; [apply elem_of_app; by left|]. exists p1, f1, t1. split; [done|]. by eapply pictured_same_r.
  - right. split; [apply elem_of_app; by left|]. exists p2, f1, t2. split; [done|]. by eapply pictured_trans.
Qed.
Lemma swept_within_mono ids ids' db db' : ids ⊆ ids' -> swept_within ids db db' -> swept_within ids' db db'.
Proof. intros Hsub H id. destruct (H id) as [|(Hin & Hp)]; [by left|right]. split; [by apply Hsub|done]. Qed.
(** A later sweep keeps what an earlier one has done. *)
Lemma swept_all_lasts ids ids' db0 db db' : swept_all ids db0 db -> swept_within ids' db db' -> swept_all ids db0 db'.
Proof.
  intros Hall Hw id p Hin Hp. destruct (Hall id p Hin Hp) as (first & at_ & Hpic).
  destruct (Hw id) as [Hs|(_ & p' & f' & t' & Hp' & Hpic')]; [exists first, at_; by eapply pictured_same_r|].
  rewrite Hp in Hp'. injection Hp' as <-. exists first, t'. by eapply pictured_trans.
Qed.
(** What was done after a first sweep was done from the start. *)
Lemma swept_all_from ids ids' db0 db1 db : swept_within ids' db0 db1 -> swept_all ids db1 db -> swept_all ids db0 db.
Proof.
  intros Hw Hall id p Hin Hp. destruct (Hall id p Hin Hp) as (first & at_ & Hpic).
  destruct (Hw id) as [Hs|(_ & p' & f' & t' & Hp' & Hpic')]; [exists first, at_; by eapply pictured_same_l|].
  exists f', at_. by eapply pictured_trans.
Qed.
Lemma swept_all_app ids ids' db0 db : swept_all ids db0 db -> swept_all ids' db0 db -> swept_all (ids ++ ids') db0 db.
Proof. intros H1 H2 id p [Hin|Hin]%elem_of_app Hp; eauto. Qed.

(** One probe: its effect, and what its success means. *)
Definition probe_outcome (ids : list Z) (w w' : CensusWorld L) (r : result (list QueueJob)) : Prop :=
  cw_fault w' = cw_fault w /\ swept_within ids (cw_db w) (cw_db w') /\
  forall jobs, r = Ok jobs -> jobs = chained site ids /\ swept_all ids (cw_db w) (cw_db w').

(** Nothing to store: the tables are as before. *)
Lemma probe_skips id w w' r : censused id = None -> cw_fault w' = cw_fault w -> cw_db w' = cw_db w ->
  (forall jobs, r = Ok jobs -> jobs = []) -> probe_outcome [id] w w' r.
Proof.
  intros Hn Hf Hdb Hr. split; [done|]. rewrite Hdb. split; [apply swept_within_refl|]. intros jobs ->. rewrite chained_one, Hn.
  split; [by apply Hr|]. intros x p ->%list_elem_of_singleton Hp. by rewrite Hn in Hp.
Qed.
Lemma storeLodestone_truthful p w w' r : censused (cp_ID p) = Some p -> hides_race p = false -> TrimSpace (cp_Name p) <> "" ->
  driver_errors w -> storeLodestone p w = (w', r) -> probe_outcome [cp_ID p] w w' r.
Proof.
  intros Hc Hh Hname Hdrv. unfold storeLodestone, UpsertCharacter. rewrite ST_bind_eq, hides_race_code, Hh, bool_decide_eq_false_2 by done.
  rewrite ST_bind_eq. unfold now_, db_write. cbn [fst snd cw_db cw_fault cw_calls cw_svc cw_clock cw_ticks cw_lode].
  destruct (Upsert _ _ _ _) as [db r1] eqn:Hu. apply Upsert_pictures in Hu as [Hany Hok]. cbn [fst snd].
  assert (Hw : swept_within [cp_ID p] (cw_db w) db).
  { intros x. destruct (Hany x) as [|[-> Hpic]]; [by left|right]. split; [by apply list_elem_of_singleton|eauto]. }
  destruct r1 as [[]|e].
  - intros [= <- <-]. split; [done|]. split; [exact Hw|]. intros jobs [= <-]. rewrite chained_one, Hc. split; [done|].
    intros x p' ->%list_elem_of_singleton Hp'. rewrite Hc in Hp'. injection Hp' as <-. eauto.
  - rewrite (Hdrv _ _ Hok). intros [= <- <-]. done.
Qed.

Lemma probe_truthful id w w' r : answerable site id -> driver_errors w -> probe id w = (w', r) -> probe_outcome [id] w w' r.
Proof.
  intros Ha Hdrv. unfold probe. rewrite ST_bind_eq. unfold on_lodestone. pose proof (Hsite id (cw_lode w)) as Hans.
  destruct (ld_FetchCharacter id (cw_lode w)) as [l a]. cbn [fst snd] in *. destruct Hans as [->|(e & -> & He)].
  2: { rewrite He. intros [= <- <-]. split; [done|]. split; [apply swept_within_refl|done]. }
  unfold answerable in Ha. destruct (site id) as [p|e] eqn:Hid.
  2: { rewrite Ha. intros [= <- <-]. apply probe_skips; [unfold censused; by rewrite Hid|done|done|by intros jobs [= <-]]. }
  destruct Ha as [<- Hname]. destruct (hides_race p) eqn:Hh.
  - unfold storeLodestone, UpsertCharacter. rewrite ST_bind_eq, hides_race_code, Hh. cbn. intros [= <- <-].
    apply probe_skips; [unfold censused; by rewrite Hid, Hh|done|done|by intros jobs [= <-]].
  - apply storeLodestone_truthful; [unfold censused; by rewrite Hid, Hh|done..].
Qed.

Lemma probe_outcome_app ids ids' w w1 w' jobs r :
  probe_outcome ids w w1 (Ok jobs) -> probe_outcome ids' w1 w' r ->
  probe_outcome (ids ++ ids') w w' (match r with Ok jobs' => Ok (jobs ++ jobs') | Err e => Err e end).
Proof.
  intros (Hf & Hw & Hok) (Hf' & Hw' & Hok'). destruct (Hok jobs eq_refl) as [-> Hall]. split; [congruence|].
  split; [by eapply swept_within_trans|]. destruct r as [jobs'|e]; [|done]. intros ? [= <-]. destruct (Hok' jobs' eq_refl) as [-> Hall'].
  split; [by rewrite chained_app|]. apply swept_all_app; [by eapply swept_all_lasts|by eapply swept_all_from].
Qed.

Lemma sweep_truthful more : forall id next w w' r, 0 <= id -> id + Z.of_nat more <= max_uint32 ->
  (forall x, id <= x <= id + Z.of_nat more -> answerable site x) -> driver_errors w -> sweep_ids more id next w = (w', r) ->
  exists r', probe_outcome (zrange id (id + Z.of_nat more)) w w' r' /\ r = match r' with Ok jobs => Ok (next ++ jobs) | Err e => Err e end.
Proof.
  induction more as [|more IH]; intros id next w w' r H0 Hmax Ha Hdrv; rewrite sweep_ids_probe;
    destruct (probe id w) as [w1 r1] eqn:Hp; apply probe_truthful in Hp; try done; try (apply Ha; lia).
  - rewrite Z.add_0_r, (zrange_cons id id), (zrange_empty (id + 1) id) by lia. intros Hr. exists r1. by destruct r1; simplify_eq.
  - rewrite (zrange_cons id) by lia. destruct r1 as [jobs|e].
    2: { intros [= <- <-]. exists (Err e). split; [|done]. destruct Hp as (Hf & Hw & _). split; [done|]. split; [|done].
         eapply swept_within_mono, Hw. intros x ->%list_elem_of_singleton. left. }
    rewrite u32_id by (unfold is_u32; lia). intros Hr. replace (id + Z.of_nat (S more)) with (id + 1 + Z.of_nat more) by lia.
    apply IH in Hr as (r' & Ho & ->); [|lia|lia|intros x Hx; apply Ha; lia|by intros n e; rewrite (proj1 Hp); apply Hdrv].
    eexists. split; [exact (probe_outcome_app [id] _ w w1 w' jobs r' Hp Ho)|]. destruct r'; [by rewrite app_assoc|done].
Qed.

Lemma IDSweep_truthful payload from to src w w' r : unmarshal_IDSweep payload = Ok (mkIDSweepPayload from to src) ->
  0 <= from <= to -> to <= max_uint32 -> (forall id, from <= id <= to -> answerable site id) -> driver_errors w ->
  IDSweep_Handle true payload w = (w', r) -> probe_outcome (zrange from to) w w' r.
Proof.
  intros Hp Hr Hmax Ha Hdrv. unfold IDSweep_Handle. rewrite Hp. cbn [is_From is_To]. rewrite (proj2 (Z.ltb_ge to from)) by lia. cbn [negb].
  intros Hrun. apply sweep_truthful in Hrun as (r' & Ho & ->); rewrite ?Z2Nat.id in * by lia; try lia; [|intros x Hx; apply Ha; lia|done].
  replace (from + (to - from)) with to in Ho by lia. by destruct r'.
Qed.

(** ** The worker *)

Section Replicas.
Context {B : Type} `{BL : BrokerLaws B}.
Context (main_bound : forall (b : B) et, knownEventType et = true -> mainQueueFor et ∈ br_routes b exchangeMain et).
(** The rate limiter is neither the broker nor the database. *)
Context (l : limiter (Replica B L)).
Context (Hlimiter : forall s, rp_census (li_IsAvailable l s).1 = rp_census s /\ rp_broker (li_IsAvailable l s).1 = rp_broker s /\
  rp_census (li_WaitUntilAvailable l s).1 = rp_census s /\ rp_broker (li_WaitUntilAvailable l s).1 = rp_broker s).
Abbreviation sweeper := (consume_worker true l).
Abbreviation tables s := (cw_db (rp_census s)).

(** The follow-ups of the censused characters among [ids] are queued. *)
Definition queued_all (ids : list Z) (s : Replica B L) : Prop :=
  forall id p, id ∈ ids -> censused id = Some p -> queued s (follow_up id).

Lemma waitForProviders_still et s : rp_census (waitForProviders l et s).1 = rp_census s /\ rp_broker (waitForProviders l et s).1 = rp_broker s.
Proof.
  unfold waitForProviders. destruct (HasSuffix et ".failed"); [done|]. rewrite ST_bind_eq. pose proof (Hlimiter s) as (Hc & Hb & _).
  destruct (li_IsAvailable l s) as [s1 []]; cbn [fst snd] in *; [done|]. pose proof (Hlimiter s1) as (_ & _ & Hc1 & Hb1). by rewrite Hc1, Hb1.
Qed.

Lemma on_broker_census {A} (m : ST B A) (s s' : Replica B L) a : on_broker m s = (s', a) -> rp_census s' = rp_census s.
Proof. unfold on_broker. destruct (m _). by intros [= <- <-]. Qed.
Lemma publishConfirmed_census ex key pub (s : Replica B L) : rp_census (publishConfirmed ex key pub s).1 = rp_census s.
Proof.
  unfold publishConfirmed. destruct (if br_IsClosed s then _ else _) as [s1 r1] eqn:H1.
  assert (Hs1 : rp_census s1 = rp_census s) by (destruct (br_IsClosed s); [exact (on_broker_census _ _ _ _ H1)|by injection H1 as <- <-]).
  destruct r1 as [u|e]; [|done]. destruct (br_drain_return s1) as [s2 x] eqn:H2. apply on_broker_census in H2.
  destruct (br_publish ex key true pub s2) as [s3 ans] eqn:H3. apply on_broker_census in H3.
  destruct (br_drain_return s3) as [s4 ret] eqn:H4. apply on_broker_census in H4.
  destruct ans as [e| |e|[]], ret; cbn; congruence.
Qed.
Lemma publish_next_census next : forall s : Replica B L, rp_census (publish_next next s).1 = rp_census s.
Proof.
  induction next as [|job next IH]; intros s; cbn [publish_next]; [done|]. rewrite ST_bind_eq.
  pose proof (publishConfirmed_census exchangeMain (qj_Type job) (mkPublishing "application/json" true (qj_Payload job) {[ headerAttempts := HInt32 0 ]} None) s) as Hp.
  unfold Publish. destruct (publishConfirmed _ _ _ s) as [s1 [u|e]]; cbn [fst snd] in *; [by rewrite IH|done].
Qed.

(** One attempt at a sweep job: what it may change, and what its success means. *)
Definition attempt_outcome (ids : list Z) (s s' : Replica B L) (r : option gerror) : Prop :=
  cw_fault (rp_census s') = cw_fault (rp_census s) /\ swept_within ids (tables s) (tables s') /\ br_accepted s ⊆ br_accepted s' /\
  (r = None -> swept_all ids (tables s) (tables s') /\ queued_all ids s').

Lemma queued_all_chained ids (s : Replica B L) : Forall (queued s) (chained site ids) -> queued_all ids s.
Proof.
  intros Hall id p Hin Hp. rewrite Forall_forall in Hall. apply Hall, list_elem_of_In. unfold chained. apply list_elem_of_fmap.
  exists id. split; [done|]. apply list_elem_of_filter. split; [by eexists|done].
Qed.

Lemma handle_sweep job p s : carries job p -> is_From p <= is_To p -> is_u32 (is_From p) -> is_u32 (is_To p) ->
  (forall id, is_From p <= id <= is_To p -> answerable site id) -> driver_errors (rp_census s) ->
  let '(s', r) := direct_processJob sweeper job s in attempt_outcome (zrange (is_From p) (is_To p)) s s' r.
Proof.
  intros [Hty Hpay] Hr Hf Ht Ha Hdrv. destruct p as [from to src]. cbn [is_From is_To] in *. set (ids := zrange from to) in *.
  assert (Hh : Registry_Get (wr_handlers sweeper) EventIDSweep =
    Some (fun payload => r ← on_census (IDSweep_Handle true payload); mret (Hub.Returned r))).
  { unfold Registry_Get, consume_worker, worker_New, Handlers, Register. cbn [negb wr_handlers]. do 2 (etrans; [apply (lookup_insert_ne (M := gmap string)); done|]). apply (lookup_insert_eq (M := gmap string)). }
  unfold direct_processJob. rewrite Hty, Hh. cbn [wr_rateLimiter consume_worker worker_New head].
  rewrite ST_bind_eq. pose proof (waitForProviders_still EventIDSweep s) as [Hc1 Hb1].
  destruct (waitForProviders l EventIDSweep s) as [s1 [e|]]; cbn [fst snd] in *.
  { unfold attempt_outcome. cbn. rewrite Hc1, Hb1. split_and!; [done|apply swept_within_refl|done|done]. }
  rewrite !ST_bind_eq. unfold on_census. rewrite Hc1.
  destruct (IDSweep_Handle true (qj_Payload job) (rp_census s)) as [w2 r2] eqn:Hrun.
  apply (IDSweep_truthful _ from to src) in Hrun as (Hf2 & Hw2 & Hok2); try done; try (unfold is_u32 in *; lia). cbn [fst snd mret].
  destruct r2 as [next|e].
  2: { unfold attempt_outcome. cbn. rewrite Hb1. done. }
  destruct (Hok2 next eq_refl) as [-> Hall].
  change (let '(s', r) := publish_next (chained site ids) (mkReplica (rp_broker s1) w2) in attempt_outcome ids s s' r).
  pose proof (publish_next_census (chained site ids) (mkReplica (rp_broker s1) w2)) as Hcen.
  destruct (publish_next _ _) as [s3 r3] eqn:Hpub. apply publish_next_queues in Hpub as [Hgrow Hq]; [|intros s0 et; apply main_bound].
  cbn [fst snd rp_census] in *. unfold attempt_outcome. rewrite Hcen. split_and!; [done|done| |].
  - cbn in Hgrow |- *. by rewrite <-Hb1.
  - intros ->. split; [done|]. by apply queued_all_chained, Hq.
Qed.

(** Attempts at a list of sweep jobs, in any order and any number. *)
Lemma attempt_all_truthful (range : list Z) attempts : forall s, driver_errors (rp_census s) ->
  Forall (fun job => exists p, carries job p /\ is_From p <= is_To p /\ is_u32 (is_From p) /\ is_u32 (is_To p) /\
    zrange (is_From p) (is_To p) ⊆ range) attempts ->
  (forall id, id ∈ range -> answerable site id) ->
  let '(s', results) := attempt_all sweeper attempts s in
  swept_within range (tables s) (tables s') /\ br_accepted s ⊆ br_accepted s' /\
  forall job p, (job, None) ∈ results -> carries job p ->
    swept_all (zrange (is_From p) (is_To p)) (tables s) (tables s') /\ queued_all (zrange (is_From p) (is_To p)) s'.
Proof.
  intros s Hdrv Hjobs Ha. revert s Hdrv. induction Hjobs as [|job jobs (p & Hc & Hle & Hf & Ht & Hsub) _ IH]; intros s Hdrv; cbn [attempt_all].
  { cbn. split; [apply swept_within_refl|]. split; [done|]. by intros ? ? []%elem_of_nil. }
  rewrite ST_bind_eq. pose proof (handle_sweep job p s Hc Hle Hf Ht) as H1. destruct (direct_processJob sweeper job s) as [s1 r1].
  destruct H1 as (Hf1 & Hw1 & Hg1 & Hok1); [intros id Hid; apply Ha, Hsub, elem_of_zrange; lia|done|]. cbn [fst snd]. rewrite ST_bind_eq.
  specialize (IH s1 ltac:(by intros n e; rewrite Hf1; apply Hdrv)). destruct (attempt_all sweeper jobs s1) as [s2 rest].
  destruct IH as (Hw2 & Hg2 & Hok2). cbn [fst snd mret]. cbn. split; [|split; [by etrans|]].
  - eapply swept_within_mono; [|eapply swept_within_trans; [exact Hw1|exact Hw2]]. intros id [Hin|Hin]%elem_of_app; [by apply Hsub|done].
  - intros job' p' [Heq|Hin]%elem_of_cons Hc'; [|destruct (Hok2 job' p' Hin Hc'); split; [by eapply swept_all_from|done]]. injection Heq as -> <-. destruct Hc as [_ Hp], Hc' as [_ Hp'].
    rewrite Hp in Hp'. injection Hp' as <-. destruct (Hok1 eq_refl) as [Hall Hq]. split; [by eapply swept_all_lasts|].
    intros id pr Hid Hpr. eapply queued_lasts; [exact Hg2|by eapply Hq].
Qed.

(** C15: the census of a range is complete and exact.  The jobs the publisher
    builds for a range are attempted by the worker in any order and any number
    of times, while requests to the site, database calls and publishes may fail
    at any point, before or after their effect; a request to the site either
    gets the site's answer or an error other than its "does not exist", and the
    site has a named profile or none for every id.  Whatever was attempted, no
    character outside the range and none the site does not show has changed; a
    character that has changed shows the site's profile, field by field, with
    its class jobs and their highest level, and if it was there before it keeps
    when it was first seen and its achievements.  Once every job has succeeded
    once, every character of the range the site shows is stored that way and its
    achievement job is durably on the main queue. *)
Theorem published_range_is_censused from to chunkSize source (s : Replica B L)
    (Hfrom : is_u32 from) (Hto : is_u32 to) (Hchunk : is_u32 chunkSize)
    (Hanswer : forall id, from <= id <= to -> answerable site id) (Hdriver : driver_errors (rp_census s)) :
  exists jobs, buildIDSweepJobs from to chunkSize source = Some jobs /\
    forall attempts, attempts ⊆ jobs ->
    let '(s', results) := attempt_all sweeper attempts s in
    swept_within (zrange from to) (tables s) (tables s') /\
    ((forall job, job ∈ jobs -> (job, None) ∈ results) ->
     swept_all (zrange from to) (tables s) (tables s') /\ queued_all (zrange from to) s').
Proof.
  destruct (sweep_payloads_spec from to chunkSize source Hfrom Hto Hchunk) as (ps & Hps & Hids & Hok).
  exists (sweep_job <$> ps). unfold buildIDSweepJobs. rewrite Hps. split; [done|]. intros attempts Hsub.
  assert (Hin : forall p, p ∈ ps -> zrange (is_From p) (is_To p) ⊆ zrange from to).
  { intros p Hp id Hid. rewrite <-Hids. unfold payload_ids. apply list_elem_of_bind. eauto. }
  rewrite Forall_forall in Hok.
  assert (Hcarry : forall p, p ∈ ps -> carries (sweep_job p) p).
  { intros p Hp. eapply sweep_job_carries, Hok. by apply list_elem_of_In. }
  pose proof (attempt_all_truthful (zrange from to) attempts s Hdriver) as Hrun. destruct (attempt_all sweeper attempts s) as [s' results].
  destruct Hrun as (Hw & _ & Hdone).
  { apply Forall_forall. intros job Hj%list_elem_of_In%Hsub. apply list_elem_of_fmap in Hj as (p & -> & Hp). exists p.
    destruct (Hok p) as ([? ?] & ? & ?); [by apply list_elem_of_In|]. split_and!; auto. }
  { intros id Hid%elem_of_zrange. apply Hanswer. lia. }
  split; [done|]. intros Hall.
  assert (Hp : forall p, p ∈ ps -> swept_all (zrange (is_From p) (is_To p)) (tables s) (tables s') /\ queued_all (zrange (is_From p) (is_To p)) s').
  { intros p Hp. apply (Hdone (sweep_job p)); [|auto]. apply Hall, list_elem_of_fmap. eauto. }
  rewrite <-Hids. split; intros id pr (p & Hid & Hin')%list_elem_of_bind Hpr; by eapply Hp.
Qed.
End Replicas.
End Truthful.

(** ** A census with failures

    The site of [CensusResults] whose first request fails, a database that
    loses the reply of its first write, and jobs of two ids each. *)

Definition flaky_client : LodestoneClient nat := {|
  ld_FetchCharacter id n := (S n, if decide (n = 0)%nat then Err (ErrorString "status 503") else demo_site id);
  ld_FetchAchievements id ids n := (S n, Ok (Some (demo_page ids))) |}.
Definition flaky_census : CensusWorld nat :=
  mkCensusWorld empty_census NewService (fun n => Z.of_nat n) 0
    (fun n => if decide (n = 0)%nat then LostReply (ErrorString "connection reset") else NoFault) 0 0%nat.
Definition open_limiter : limiter (Replica MemBroker nat) := mkLimiter (mret true) (mret None).
Definition flaky_replica : Replica MemBroker nat := mkReplica demo_broker flaky_census.
Definition first_job : QueueJob := sweep_job (mkIDSweepPayload 9 10 "auto").
Definition second_job : QueueJob := sweep_job (mkIDSweepPayload 11 11 "auto").
Definition flaky_attempts : list QueueJob := [first_job; first_job; second_job; first_job].
Definition succeeded (results : list (QueueJob * option gerror)) : list QueueJob :=
  omap (fun x => match x.2 with None => Some x.1 | Some _ => None end) results.
Lemma succeeded_elem results job : job ∈ succeeded results -> (job, None) ∈ results.
Proof. intros ([j [e|]] & Hin & Hj)%list_elem_of_omap; [done|]. cbn in Hj. by injection Hj as <-. Qed.

(** The first two attempts fail, the third and the fourth succeed. *)
Lemma published_range_is_censused_witness :
  let s' := (attempt_all (consume_worker (H := flaky_client) true open_limiter) flaky_attempts flaky_replica).1 in
  (exists first at_, pictured empty_census (cw_db (rp_census s')) 10 (demo_profile 10 "Hyur") first at_) /\ queued s' (follow_up 10).
Proof.
  assert (Hsite : forall id n, (ld_FetchCharacter (LodestoneClient := flaky_client) id n).2 = demo_site id \/
    exists e, (ld_FetchCharacter (LodestoneClient := flaky_client) id n).2 = Err e /\ errors_Is e ErrCharacterNotFound = false).
  { intros id n. cbn. case_decide; [right|by left]. by eexists. }
  destruct (published_range_is_censused demo_site Hsite mem_bound open_limiter (fun _ => conj eq_refl (conj eq_refl (conj eq_refl eq_refl)))
    9 11 2 "auto" flaky_replica) as (jobs & Hjobs & Hall); try (unfold is_u32, max_uint32; lia).
  - intros id Hid. assert (id = 9 \/ id = 10 \/ id = 11) as [-> | [-> | ->]] by lia; vm_compute; repeat split; discriminate.
  - intros n e. cbn. case_decide; intros [Hf|Hf]; try discriminate Hf. by injection Hf as <-.
  - assert (Hj : jobs = [first_job; second_job]) by (apply (f_equal (from_option id [])) in Hjobs; vm_compute in Hjobs; by rewrite <-Hjobs).
    specialize (Hall flaky_attempts). subst jobs.
    assert (Hs : succeeded (attempt_all (consume_worker (H := flaky_client) true open_limiter) flaky_attempts flaky_replica).2 = [second_job; first_job]) by (vm_compute; reflexivity).
    destruct (attempt_all _ flaky_attempts flaky_replica) as [s' results]. cbn [fst snd] in *. destruct Hall as [_ Hdone].
    + intros job. unfold flaky_attempts. rewrite !elem_of_cons. tauto.
    + destruct Hdone as [Hp Hq].
      * intros job Hin. apply succeeded_elem. rewrite Hs. rewrite !elem_of_cons in *. tauto.
      * split; [apply Hp|apply (Hq 10 (demo_profile 10 "Hyur"))]; try reflexivity; apply elem_of_zrange; lia.
Defined.
